(* ===== verification/_CoqProject ===== *)
-Q . S2P
Prelude.v
Str.v
Libs.v
Fs.v
Crypto.v
Protocol.v
Store.v
Order.v
Archive.v
Pake.v
Channel.v
Transport.v
Send.v
Stream.v
Transfer.v
Safety.v
Nonces.v
Sender.v
Handshake.v
Session.v
RelayWire.v
Config.v
RelayFlow.v
RelayPipe.v
RelayRoom.v
RelayRun.v
RelayWindow.v
Words.v
RvCode.v
Code.v
Server.v
ServerSpec.v
Upload.v
Stun.v
Turn.v
Tunnel.v
Cloudflared.v
Main.v
Resume.v
AnyPeer.v
Bundle.v
OverRelay.v
Cli.v
ReceiveTunnel.v
TunnelCli.v
ServerRefine.v
Stuck.v
Manifests.v
Signaling.v
WebRtcChannel.v
Rendezvous.v
Ip.v
Doh.v
TlsProbe.v
Doctor.v
Diagnose.v
Topic.v
WebRtcRun.v
Interleave.v
Concurrent.v
