(* ===== verification/Prelude.v ===== *)
(** * b2p: a verification library

    b2p sends files, folders and text from one machine to another. The
    receiver prints a code, the sender types it; the two meet over a relay (a
    WebSocket room, the default), peer to peer (WebRTC after signaling over an
    ntfy topic) or through a Cloudflare quick tunnel (HTTP), and whatever is
    sent is sealed under a key that only a holder of the code has. This
    library models the Rust program under src/src and states and proves what
    makes it correct. Every definition that models code carries the code's
    name where it can.

    ** How the program is modelled

    - Errors: [res] of this file is [anyhow::Result] with panics apart; an
      [error] keeps its context chain and the marker types the program
      downcasts to.
    - Integers: [Z], wrapped where the code's arithmetic wraps ([%u64],
      [wrap64], [saturating_sub]), with [div_ceil] panicking on zero.
    - The disk (Fs): a finite map from paths to files and directories; every
      call takes the next [fault] of a list, so that it can fail before it
      begins or midway; a crash is a failing call after which nothing runs.
    - Crates (Libs, Pake, Code, Turn, Tunnel, Signaling, TlsProbe,
      Rendezvous, Cli, Bundle): the AEAD, BLAKE3, base58, SPAKE2, serde, JSON, TOML, url,
      SHA-256, tar, PEM, rustls, clap and WebRTC are type classes that state the documented
      behaviour the program relies on and no more. [Libs.Toy] and the
      [Example] modules hold small concrete instances, on which the witnesses
      compute.
    - The network (Channel): [MsgChannel] users are programs ([proc]) that
      send, receive and work on a disk; two of them run against each other
      over a queue per direction, in any interleaving, with a bound on what a
      direction holds. Transport is what [MsgChannel]'s implementations
      promise, as a class: with their tasks, their limits and what lies
      between two of them, they bring a pair of programs to where it comes
      over the channel. The relay (OverRelay) and WebRTC (WebRtcRun) are its
      instances. [Safety.may] is what a program can do against any peer and
      any channel at all.
    - Concurrency: the close latch of the data channel, the two ends of a
      relay, the window with its acknowledgements and the topic two ends share
      with strangers are step relations whose every interleaving is
      considered; so are, in Interleave and Concurrent, the HTTP handlers:
      there a handler is a task that makes one call of the disk at a time,
      under the transfer's mutex where the code holds it (the manifest's opens
      the store without it). Server, ServerSpec, ServerRefine and Upload take
      a request's handler as one step; alone, a task does what the handler does.
    - The user: [receive_relay_cli] and the theorems over it read a line of
      stdin of its own, or its end, for each attempt.

    ** The files

    - Prelude, Str, Libs, Fs: errors, integers, byte strings, lists and sets;
      Rust's [str] operations; crates; the disk.
    - Crypto (crypto.rs), Protocol (protocol.rs), Archive (archive.rs), Store
      (store.rs), Pake (pake.rs): keys and sealing, messages, the source, the
      staging area, the key exchange. Order: chunks in any order. Manifests:
      what a sender's manifest promises.
    - Channel, Transport, Stream (stream.rs), Transfer, Safety, Sender, Nonces,
      Stuck: the transfer over a channel; the two programs together; the
      receiver and the sender against anyone; the nonces of a session; what a
      mismatch leaves behind.
    - Handshake (handshake.rs), Session (session.rs), Topic: authentication,
      what the receiver re-arms on, and the exchange over a public topic.
    - RelayWire, RelayFlow, RelayPipe (transport/relay.rs): framing, io task
      and window, and the two ends as a message channel. RelayRoom
      (relay-worker/src/index.js, transport/mock.rs): what a relay promises, as
      a class with both relays as instances; RelayRun: clients and relay
      together, from an empty room on; RelayWindow: the window over them.
    - Rendezvous (rendezvous/), Signaling, WebRtcChannel, WebRtcRun
      (transport/webrtc.rs), Stun (stun.rs), Turn (turn.rs): the peer-to-peer
      path.
    - Code (code.rs), Send (send.rs), Server, ServerSpec, ServerRefine,
      Interleave, Concurrent (server.rs), Upload (send.rs), Tunnel (tunnel.rs), Doh (doh.rs),
      Cloudflared (tunnel.rs), ReceiveTunnel, TunnelCli
      (main.rs): the tunnel path.
    - Words (words.rs), RvCode (rvcode.rs), Config (config.rs), Main, Cli (main.rs):
      codes, configuration, commands and the command line. Resume: the
      receiver's command through interruptions. AnyPeer: both commands against
      anyone. Bundle (archive.rs,
      stream.rs): folders and several files, from one command line to the other.
      OverRelay: the relay as a transport, and the commands over it.
    - Ip, TlsProbe (tlsprobe.rs, http.rs), Doctor (doctor.rs), Diagnose (main.rs,
      send.rs): diagnosis, and which failures run it about what.

    ** What is proved

    - Delivery: two machines with the printed code transfer the file
      ([Main.cli_delivers], over [Session] and [Transfer.transfer_delivers], and
      over the relay with its clients and io tasks [OverRelay.cli_over_relay]),
      or the folder ([Bundle.bundle_delivers], and where it loses a file
      [Bundle.same_name_lost]), also when they meet over a public topic
      ([Topic.p2p_delivers], [WebRtcRun.p2p_over_webrtc]);
      the uploader against the HTTP receiver ends with the file in place
      ([Upload.tunnel_delivers]), under the code the tunnel's receiver prints
      ([TunnelCli.tunnel_cli_delivers]).
    - Abstract contracts: the HTTP receiver is a machine of three fields
      ([ServerRefine.server_refines]); two relay channels are two queues
      ([RelayPipe.relay_refines_fifo], over the framing of RelayWire), also
      with any relay between them ([RelayRun.relay_transport_fifo]), with a
      window that neither stalls nor runs away ([RelayWindow.relay_window],
      and its counters alone in [RelayFlow.flow_control]). A reconnecting client
      takes its own place over ([RelayRoom.Worker.takeover_replaces]).
    - Equivalence: the order in which chunks arrive, and their repetition, do
      not matter ([Order.chunk_order_irrelevant]).
    - Resumption and crashes: the staging area only ever lists chunks it has
      ([Store.staging_crash_safe], [Safety.recv_resumable],
      [ServerSpec.server_resumable]), also when requests overlap call by call, as
      long as no two make a state file at once ([Concurrent.concurrent_resumable]).
      Each names the failing calls it excludes, and an example shows what they
      do ([Store.Example.truncate_before_persist],
      [ServerSpec.Example.failed_reopen_forgets], and for overlaps
      [Concurrent.Example.state_file_torn] and
      [Concurrent.Example.verified_then_emptied]). The receiver's code stays
      valid through lost attempts, and the next one resumes
      ([Resume.interrupted_wait_delivers]); and where that ends
      (Stuck, [Concurrent.Example.overlapping_manifests_corrupt]).
    - Safety against a peer: nothing is written outside the staging directory
      and the destination, and nothing is kept that does not have the hash
      ([Safety.recv_confined], [Safety.recv_verified],
      [ServerSpec.commit_saves_verified], and for the whole command
      [AnyPeer.receive_safe_from_anyone]); the sender gives away nothing but
      what it was asked to send, to a peer that proved the code, and no contents
      before its acceptance ([AnyPeer.send_safe_from_anyone]); strangers can neither end the
      receiver's wait ([Main.strangers_cannot_end_wait]) nor speak for the
      other side ([Handshake], [Signaling.signaling_authentic],
      [ServerSpec.auth_lockout]); no nonce is used twice under a session key
      ([Nonces]); the relay token goes to the user's own relay only
      ([Config]).
    - Commands: which options reach which command
      ([Cli.accepted_options_reach]); the codes one machine prints are those
      the other accepts ([Main.printed_codes_meet]); no tunnel outlives its
      receiver ([ReceiveTunnel.tunnel_lives_with_receiver]).
    - Termination: [WebRtcChannel.send_never_hangs], [Main.busy_retry_budget],
      [Topic.rendezvous_agrees] (against any strangers; that the ends agree, where
      these post no frames of the key exchange:
      [Topic.Example.collision_fails] is what one of those does), and the loops above, which are shown to return.
    - Round trips and parsing: codes, runs, framing, rendezvous frames, STUN;
      the shape of manifests ([Manifests]); the doctor's verdict
      ([Doctor]), and where it misleads ([Diagnose]).

    ** Fuel and bounds

    [RelayWire.push_loop] has a unit of fuel per byte, and a turn consumes a
    header of four; [RelayFlow.io_flush] has the backlog's measure, which
    every payload lowers; [Store.hash_loop] and the [trim] loops have the
    length of their input. The theorems take these as they stand, so that no
    result depends on fuel running out. The read loops of the handshake and
    the re-arm loop of the receiver do not end by themselves in the program:
    their fuel is the number of frames until the deadline, or of attempts,
    and the theorems hold for every number of them (from one on, where one
    has to succeed). Sizes are below 2^64 where a theorem says so.

    ** Not modelled

    Terminal output and progress bars; sockets, TLS, WebSocket and the child
    process themselves, whose outcomes are arguments; time, except as
    deadlines that may strike; atomic orderings weaker than sequential consistency in the
    close latch; interleavings within one call of the disk; the deletion
    of the sender's temporary archive; the closing handshake at the end of a
    session; the Durable Object runtime the relay worker runs on, of which
    RelayRoom says what it relies on; tests and scripts. *)

From stdpp Require Export base tactics list gmap sets sorting strings numbers pretty.
From Stdlib Require Export ZArith Lia Sorted.
From Stdlib Require Import Strings.Byte.

#[global] Open Scope Z_scope.
(** No type of the development is countable for being finite. *)
#[export] Remove Hints finite.finite_countable : typeclass_instances.

Create HintDb b2p.
Create Rewrite HintDb b2p.
#[export] Hint Rewrite Z.add_0_l Z.add_0_r : b2p.

(** ** Errors: [anyhow::Error] and its marker types *)

(** An [anyhow::Error] is a chain of contexts over a root cause. The marker
    types the program downcasts to have a constructor each; any other root
    cause is a message. *)
Inductive error : Type :=
| EMsg (msg : string)
| EContext (ctx : string) (e : error)
| EIo (what : string)
| EJson
| ECrypto
| EExternal (what : string)
| ETransportLost (e : error)
| EWaitClosed (reason : string)
| ERoomBusy
| ECodeMismatch
| EEstablish (e : error)
| EElapsed.

(** Results of fallible code; [Panic] is a Rust panic (division by zero,
    an index out of range, [unwrap] of [None], [unreachable!]). *)
Inductive res (A : Type) : Type :=
| Ok (a : A)
| Err (e : error)
| Panic.
Arguments Ok {A} a.
Arguments Err {A} e.
Arguments Panic {A}.

#[export] Instance res_ret : MRet res := @Ok.
#[export] Instance res_bind : MBind res := fun A B f r =>
  match r with Ok a => f a | Err e => Err e | Panic => Panic end.
#[export] Instance res_fmap : FMap res := fun A B f r =>
  match r with Ok a => Ok (f a) | Err e => Err e | Panic => Panic end.

Definition is_ok {A} (r : res A) : bool := match r with Ok _ => true | _ => false end.
Definition is_err {A} (r : res A) : bool := match r with Err _ => true | _ => false end.
Definition ok {A} (r : res A) : option A := match r with Ok a => Some a | _ => None end.
Definition ok_or {A} (e : error) (o : option A) : res A :=
  match o with Some a => Ok a | None => Err e end.
(** [Result::context] / [Result::with_context]. *)
Definition context {A} (c : string) (r : res A) : res A :=
  match r with Err e => Err (EContext c e) | _ => r end.
Definition map_err {A} (f : error -> error) (r : res A) : res A :=
  match r with Err e => Err (f e) | _ => r end.

(** [downcast_ref]: looks through [.context(..)] wrappers, not into the
    fields of a marker struct. *)
Fixpoint downcast (p : error -> bool) (e : error) : bool :=
  match e with
  | EContext _ e' => p e || downcast p e'
  | _ => p e
  end.

(** [Display] of an error (its outermost layer) and the alternate form
    [{:#}], the whole chain joined by [": "]. *)
Fixpoint error_chain (e : error) : string :=
  match e with
  | EMsg m => m
  | EContext c e' => c +:+ ": " +:+ error_chain e'
  | EIo w => w
  | EJson => "JSON error"
  | ECrypto => "decryption failed"
  | EExternal w => w
  | ETransportLost e' => error_chain e'
  | EWaitClosed r => "the relay connection ended while waiting: " +:+ r
  | ERoomBusy => "another connection is already using this code's room — retry shortly or get a fresh code"
  | ECodeMismatch => "the code didn't match — double-check it, or another transfer may be using the same channel; try a fresh code"
  | EEstablish e' => error_chain e'
  | EElapsed => "deadline has elapsed"
  end.
Definition error_to_string (e : error) : string :=
  match e with EContext c _ => c | _ => error_chain e end.

(** ** Machine integers *)

(** A [u64] is a [Z] in [[0, 2^64)]. The shipped binary is built with
    [cargo build --release], where [+ - *] on unsigned integers wrap. *)
Definition U64 : Z := 2 ^ 64.
Definition wrap64 (z : Z) : Z := z mod U64.
Definition u64_ok (z : Z) : Prop := 0 <= z < U64.
#[export] Instance u64_ok_dec z : Decision (u64_ok z).
Proof. unfold u64_ok. apply _. Defined.
Declare Scope u64_scope.
Delimit Scope u64_scope with u64.
Notation "a + b" := (wrap64 (Z.add a b)) : u64_scope.
Notation "a - b" := (wrap64 (Z.sub a b)) : u64_scope.
Notation "a * b" := (wrap64 (Z.mul a b)) : u64_scope.
(** [u64::saturating_sub]. *)
Definition saturating_sub (a b : Z) : Z := Z.max 0 (a - b).

Lemma wrap64_small z : u64_ok z -> wrap64 z = z.
Proof. intros ?. by apply Z.mod_small. Qed.
Lemma wrap64_ok z : u64_ok (wrap64 z).
Proof. apply Z.mod_pos_bound. reflexivity. Qed.
#[export] Hint Resolve wrap64_ok : b2p.
#[export] Hint Rewrite wrap64_small using (unfold u64_ok, U64 in *; lia) : b2p.

(** [u64::div_ceil]: panics on a zero divisor. *)
Definition div_ceil (a b : Z) : res Z :=
  if b =? 0 then Panic
  else let d := a / b in let r := a mod b in
       Ok (if 0 <? r then d + 1 else d).

(** The value of [div_ceil] where the divisor is positive. *)
Definition cdiv (a b : Z) : Z := if 0 <? a mod b then a / b + 1 else a / b.
Lemma div_ceil_ok a b : 0 < b -> div_ceil a b = Ok (cdiv a b).
Proof. intros ?. unfold div_ceil. by destruct (Z.eqb_spec b 0); [lia|]. Qed.
Lemma cdiv_spec a b : 0 <= a -> 0 < b ->
  (cdiv a b - 1) * b < a \/ a = 0 /\ cdiv a b = 0.
Proof.
  intros Ha Hb. unfold cdiv.
  pose proof (Z.div_mod a b ltac:(lia)). pose proof (Z.mod_pos_bound a b Hb).
  destruct (Z.ltb_spec 0 (a mod b)); [left; nia|].
  destruct (decide (a = 0)) as [->|]; [right; split; [done|by apply Z.div_0_l; lia]|left; nia].
Qed.
Lemma cdiv_mul_ge a b : 0 <= a -> 0 < b -> a <= cdiv a b * b.
Proof.
  intros Ha Hb. unfold cdiv.
  pose proof (Z.div_mod a b ltac:(lia)). pose proof (Z.mod_pos_bound a b Hb).
  destruct (Z.ltb_spec 0 (a mod b)); nia.
Qed.
Lemma cdiv_nonneg a b : 0 <= a -> 0 < b -> 0 <= cdiv a b.
Proof.
  intros Ha Hb. unfold cdiv. pose proof (Z.div_pos a b Ha Hb). by case_match; lia.
Qed.
Lemma cdiv_le a b : 0 <= a -> 0 < b -> cdiv a b <= a.
Proof.
  intros Ha Hb. pose proof (cdiv_spec a b Ha Hb). pose proof (cdiv_nonneg a b Ha Hb). nia.
Qed.
(** Index [i] is a chunk index exactly when its first byte exists. *)
Lemma cdiv_lt i a b : 0 <= i -> 0 <= a -> 0 < b -> i < cdiv a b <-> i * b < a.
Proof.
  intros Hi Ha Hb. pose proof (cdiv_spec a b Ha Hb). pose proof (cdiv_mul_ge a b Ha Hb). nia.
Qed.

(** ** Bytes *)

Abbreviation byte := Byte.byte.
Abbreviation bytes := (list Byte.byte).
#[export] Instance byte_eq_dec : EqDecision byte := Byte.byte_eq_dec.

Definition b2z (b : byte) : Z := Z.of_N (Byte.to_N b).
Definition z2b (z : Z) : byte := default Byte.x00 (Byte.of_N (Z.to_N (z mod 256))).

Lemma b2z_range b : 0 <= b2z b < 256.
Proof. unfold b2z. pose proof (Byte.to_N_bounded b). lia. Qed.
Lemma z2b_b2z b : z2b (b2z b) = b.
Proof.
  unfold z2b. rewrite Z.mod_small by apply b2z_range. unfold b2z.
  by rewrite N2Z.id, Byte.of_to_N.
Qed.
Lemma b2z_z2b z : b2z (z2b z) = z mod 256.
Proof.
  unfold z2b. pose proof (Z.mod_pos_bound z 256 ltac:(lia)).
  destruct (Byte.of_N (Z.to_N (z mod 256))) as [b|] eqn:E.
  - simpl. apply Byte.to_of_N in E. unfold b2z. rewrite E. lia.
  - apply Byte.of_N_None_iff in E. lia.
Qed.
Lemma b2z_inj a b : b2z a = b2z b -> a = b.
Proof. intros E. by rewrite <- (z2b_b2z a), E, z2b_b2z. Qed.

(** [to_le_bytes] / [from_le_bytes] at any width. *)
Fixpoint to_le (n : nat) (z : Z) : bytes :=
  match n with O => [] | S n' => z2b z :: to_le n' (z / 256) end.
Fixpoint from_le (l : bytes) : Z :=
  match l with [] => 0 | b :: l' => b2z b + 256 * from_le l' end.

Lemma length_to_le n z : length (to_le n z) = n.
Proof. revert z. induction n as [|n IH]; intros; simpl; auto. Qed.
Lemma from_to_le n z : 0 <= z < 256 ^ Z.of_nat n -> from_le (to_le n z) = z.
Proof.
  revert z. induction n as [|n IH]; intros z Hz.
  - simpl in *. lia.
  - cbn [to_le from_le]. rewrite b2z_z2b, IH.
    + pose proof (Z.div_mod z 256). lia.
    + rewrite Nat2Z.inj_succ, Z.pow_succ_r in Hz by lia.
      split; [apply Z.div_pos; lia|apply Z.div_lt_upper_bound; lia].
Qed.
Lemma from_le_range l : 0 <= from_le l < 256 ^ Z.of_nat (length l).
Proof.
  induction l as [|b l IH]; [simpl; lia|].
  cbn [from_le length]. rewrite Nat2Z.inj_succ, Z.pow_succ_r by lia.
  pose proof (b2z_range b). lia.
Qed.
Lemma to_le_inj n x y :
  0 <= x < 256 ^ Z.of_nat n -> 0 <= y < 256 ^ Z.of_nat n -> to_le n x = to_le n y -> x = y.
Proof. intros Hx Hy E. by rewrite <- (from_to_le n x Hx), E, from_to_le. Qed.

(** ** Lists *)

(** [len() as u64]. *)
Definition zlen {A} (l : list A) : Z := Z.of_nat (length l).
Lemma zlen_nonneg {A} (l : list A) : 0 <= zlen l.
Proof. unfold zlen. lia. Qed.
Lemma zlen_app {A} (l k : list A) : zlen (l ++ k) = zlen l + zlen k.
Proof. unfold zlen. rewrite length_app. lia. Qed.
Lemma zlen_cons {A} (x : A) (l : list A) : zlen (x :: l) = 1 + zlen l.
Proof. unfold zlen. simpl. lia. Qed.
Lemma zlen_nil {A} : zlen (@nil A) = 0.
Proof. done. Qed.
Lemma zlen_nil_inv {A} (l : list A) : zlen l = 0 -> l = [].
Proof. destruct l; [done|]. rewrite zlen_cons. pose proof (zlen_nonneg l). lia. Qed.
#[export] Hint Rewrite @zlen_app @zlen_cons @zlen_nil : b2p.
#[export] Hint Resolve zlen_nonneg : b2p.

(** The half-open range [lo..hi] of a Rust [for] loop. *)
Definition zrange (lo hi : Z) : list Z := seqZ lo (hi - lo).
Lemma elem_of_zrange lo hi i : i ∈ zrange lo hi <-> lo <= i < hi.
Proof. unfold zrange. rewrite elem_of_seqZ. lia. Qed.
Lemma zrange_nil lo hi : hi <= lo -> zrange lo hi = [].
Proof. intros. unfold zrange. by apply seqZ_nil; lia. Qed.
Lemma zrange_cons lo hi : lo < hi -> zrange lo hi = lo :: zrange (lo + 1) hi.
Proof.
  intros. unfold zrange. rewrite seqZ_cons by lia. do 2 f_equal; lia.
Qed.
Lemma NoDup_zrange lo hi : NoDup (zrange lo hi).
Proof. apply NoDup_seqZ. Qed.

(** [l[off .. off + n]], with the part past the end missing. *)
Definition slice {A} (off n : Z) (l : list A) : list A :=
  take (Z.to_nat n) (drop (Z.to_nat off) l).
Lemma zlen_slice {A} (off n : Z) (l : list A) :
  0 <= off -> 0 <= n -> off + n <= zlen l -> zlen (slice off n l) = n.
Proof. intros. unfold zlen, slice in *. rewrite length_take, length_drop. lia. Qed.
Lemma lookup_slice {A} (off n : Z) (l : list A) (k : nat) :
  (Z.of_nat k < n) -> slice off n l !! k = l !! (Z.to_nat off + k)%nat.
Proof. intros. unfold slice. rewrite lookup_take_lt by lia. by rewrite lookup_drop. Qed.
Lemma zlen_slice_min {A} (off n : Z) (l : list A) :
  0 <= off -> 0 <= n -> zlen (slice off n l) = Z.max 0 (Z.min n (zlen l - off)).
Proof. intros. unfold zlen, slice in *. rewrite length_take, length_drop. lia. Qed.
Lemma slice_ext {A} (off n : Z) (l k : list A) :
  0 <= off -> slice off n l = slice off n k <->
  forall i : nat, off <= Z.of_nat i < off + n -> l !! i = k !! i.
Proof.
  intros Ho. split.
  - intros E i Hi. apply (f_equal (lookup (i - Z.to_nat off)%nat)) in E.
    rewrite !lookup_slice in E by lia. by replace (Z.to_nat off + (i - Z.to_nat off))%nat with i in E by lia.
  - intros E. apply list_eq. intros i. destruct (decide (Z.of_nat i < n)) as [Hi|Hi].
    + rewrite !lookup_slice by done. apply E. lia.
    + unfold slice. rewrite !lookup_take_ge by lia. done.
Qed.
Lemma slice_all {A} (n : Z) (l : list A) : zlen l <= n -> slice 0 n l = l.
Proof. intros. unfold slice, zlen in *. simpl. rewrite drop_0. apply take_ge. lia. Qed.

(** Overwrite at an offset the way a positioned [write_all] does: bytes
    before the offset that do not exist yet read as zero. *)
Definition write_at (off : Z) (new old : bytes) : bytes :=
  take (Z.to_nat off) (old ++ replicate (Z.to_nat (off - zlen old)) Byte.x00)
  ++ new ++ drop (Z.to_nat (off + zlen new)) old.
(** [File::set_len]: truncates, or extends with zeros. *)
Definition set_len (n : Z) (l : bytes) : bytes :=
  take (Z.to_nat n) l ++ replicate (Z.to_nat (n - zlen l)) Byte.x00.

Lemma zlen_set_len n l : 0 <= n -> zlen (set_len n l) = n.
Proof. intros. unfold set_len, zlen. rewrite length_app, length_take, length_replicate. unfold zlen. lia. Qed.
Lemma set_len_id n l : zlen l = n -> set_len n l = l.
Proof.
  intros <-. unfold set_len. rewrite Z.sub_diag. simpl.
  unfold zlen. rewrite Nat2Z.id, firstn_all. by rewrite app_nil_r.
Qed.
Lemma write_at_in off new old :
  0 <= off -> off <= zlen old ->
  write_at off new old = take (Z.to_nat off) old ++ new ++ drop (Z.to_nat (off + zlen new)) old.
Proof.
  intros. unfold write_at.
  replace (Z.to_nat (off - zlen old)) with 0%nat by lia. simpl. by rewrite app_nil_r.
Qed.
Lemma zlen_write_at off new old :
  0 <= off -> off + zlen new <= zlen old -> zlen (write_at off new old) = zlen old.
Proof.
  intros. pose proof (zlen_nonneg new). rewrite write_at_in by lia.
  unfold zlen in *. rewrite !length_app, length_take, length_drop. lia.
Qed.
Lemma slice_write_at_eq off new old :
  0 <= off -> off + zlen new <= zlen old -> slice off (zlen new) (write_at off new old) = new.
Proof.
  intros. pose proof (zlen_nonneg new). rewrite write_at_in by lia. unfold slice.
  rewrite drop_app_length'; [|unfold zlen in *; rewrite length_take; lia].
  rewrite take_app_length'; [done|]. unfold zlen. lia.
Qed.
Lemma lookup_write_at_ne off new old (k : nat) :
  0 <= off -> off + zlen new <= zlen old ->
  (Z.of_nat k < off \/ off + zlen new <= Z.of_nat k) ->
  write_at off new old !! k = old !! k.
Proof.
  intros ?? Hk. pose proof (zlen_nonneg new). rewrite write_at_in by lia. unfold zlen in *.
  destruct Hk as [Hk|Hk].
  - rewrite lookup_app_l by (rewrite length_take; lia). by rewrite lookup_take_lt by lia.
  - rewrite lookup_app_r by (rewrite length_take; lia).
    rewrite lookup_app_r by (rewrite length_take; lia).
    rewrite lookup_drop, length_take. f_equal. lia.
Qed.
Lemma lookup_write_at_eq off new old (k : nat) :
  0 <= off -> off + zlen new <= zlen old ->
  off <= Z.of_nat k < off + zlen new ->
  write_at off new old !! k = new !! (k - Z.to_nat off)%nat.
Proof.
  intros ?? Hk. pose proof (slice_write_at_eq off new old ltac:(done) ltac:(done)) as E.
  rewrite <- E at 2. rewrite lookup_slice by lia. f_equal. lia.
Qed.
Lemma slice_write_at_ne off new old off' n :
  0 <= off -> off + zlen new <= zlen old -> 0 <= off' ->
  (off' + n <= off \/ off + zlen new <= off') ->
  slice off' n (write_at off new old) = slice off' n old.
Proof.
  intros ?? ? Hd. apply list_eq. intros k.
  destruct (decide (Z.of_nat k < n)) as [Hk|Hk].
  - rewrite !lookup_slice by done. apply lookup_write_at_ne; lia.
  - unfold slice. rewrite !lookup_take_ge by lia. done.
Qed.

(** ** [BTreeSet<u64>] *)

(** Iteration visits the elements in increasing order. *)
Definition bt_iter (s : gset Z) : list Z := merge_sort Z.le (elements s).

Lemma elem_of_bt_iter i s : i ∈ bt_iter s <-> i ∈ s.
Proof. unfold bt_iter. by rewrite merge_sort_Permutation, elem_of_elements. Qed.
Lemma NoDup_bt_iter s : NoDup (bt_iter s).
Proof. unfold bt_iter. rewrite merge_sort_Permutation. apply NoDup_elements. Qed.
Lemma bt_iter_sorted s : StronglySorted Z.lt (bt_iter s).
Proof.
  assert (Hs : StronglySorted Z.le (bt_iter s)) by apply (StronglySorted_merge_sort Z.le).
  pose proof (NoDup_bt_iter s) as Hn. revert Hs Hn.
  generalize (bt_iter s). induction 1 as [|z l Hs IH Hall]; intros Hn; constructor.
  - apply IH. by apply NoDup_cons in Hn as [_ ?].
  - apply NoDup_cons in Hn as [Hz _]. rewrite Forall_forall in Hall |- *.
    intros y Hy. specialize (Hall y Hy). simpl in Hall.
    destruct (decide (z = y)) as [->|]; [done|lia].
Qed.
Lemma zlen_bt_iter s : zlen (bt_iter s) = Z.of_nat (size s).
Proof. unfold bt_iter, zlen. by rewrite merge_sort_Permutation. Qed.

(** A set of indices below [n] has [n] elements exactly when it holds them
    all. *)
Lemma bounded_set_size (s : gset Z) n :
  0 <= n -> (forall i, i ∈ s -> 0 <= i < n) ->
  Z.of_nat (size s) = n <-> forall i, 0 <= i < n -> i ∈ s.
Proof.
  intros Hn Hb. set (full := list_to_set (zrange 0 n) : gset Z).
  assert (Hf : forall i, i ∈ full <-> 0 <= i < n).
  { intros i. unfold full. by rewrite elem_of_list_to_set, elem_of_zrange. }
  assert (Hsz : size full = Z.to_nat n).
  { unfold full. rewrite size_list_to_set by apply NoDup_zrange.
    unfold zrange. rewrite length_seqZ. f_equal. lia. }
  assert (Hsub : s ⊆ full) by (intros i Hi; by apply Hf, Hb).
  split.
  - intros He i Hi. apply Hf in Hi.
    assert (s ≡ full) as ->; [|done]. apply set_subseteq_size_equiv; [done|lia].
  - intros Hall. assert (s ≡ full) as Heq.
    { intros i. rewrite Hf. split; [by auto|by auto]. }
    rewrite Heq, Hsz. lia.
Qed.
(** An identifier taken and given back. *)
Lemma drop_fresh (s : gset nat) : (s ∪ {[fresh s]}) ∖ {[fresh s]} = s.
Proof.
  apply leibniz_equiv. intros x. rewrite elem_of_difference, elem_of_union, elem_of_singleton. split; [tauto|].
  intros Hx. split; [by left|]. intros ->. by apply (is_fresh s).
Qed.
