(* ===== verification/Str.v ===== *)
(** * Rust's [str] operations

    A [str] is its UTF-8 bytes, a [string] here; the operations below are the
    standard library's, as the program uses them. *)

From S2P Require Import Prelude.
From Stdlib Require Export Ascii.

(** [s.strip_prefix(p)]. *)
Fixpoint strip_prefix (p s : string) : option string :=
  match p, s with
  | EmptyString, _ => Some s
  | String a p', String b s' => if Ascii.eqb a b then strip_prefix p' s' else None
  | String _ _, EmptyString => None
  end.
(** [s.starts_with(p)]. *)
Definition starts_with (p s : string) : bool :=
  match strip_prefix p s with Some _ => true | None => false end.
(** [s.contains(p)] for a [str] pattern. *)
Fixpoint contains (p s : string) : bool :=
  starts_with p s || match s with EmptyString => false | String _ s' => contains p s' end.
(** [s.find(p)] followed by [&s[i..]]: the suffix from the first match. *)
Fixpoint find_from (p s : string) : option string :=
  if starts_with p s then Some s
  else match s with EmptyString => None | String _ s' => find_from p s' end.
(** [s.split_once(c)]. *)
Fixpoint split_once (c : ascii) (s : string) : option (string * string) :=
  match s with
  | EmptyString => None
  | String a s' =>
      if Ascii.eqb a c then Some (EmptyString, s')
      else match split_once c s' with
           | Some (l, r) => Some (String a l, r)
           | None => None
           end
  end.
(** [s.split(c).collect()]: always at least one piece. *)
Fixpoint str_split (c : ascii) (s : string) : list string :=
  match s with
  | EmptyString => [EmptyString]
  | String a s' =>
      if Ascii.eqb a c then EmptyString :: str_split c s'
      else match str_split c s' with
           | p :: ps => String a p :: ps
           | [] => [String a EmptyString]
           end
  end.
(** [s.chars().all(f)] for an ASCII predicate. *)
Fixpoint str_all (f : ascii -> bool) (s : string) : bool :=
  match s with EmptyString => true | String a s' => f a && str_all f s' end.
(** The prefix before the first character satisfying [f]. *)
Fixpoint take_until (f : ascii -> bool) (s : string) : string :=
  match s with
  | EmptyString => EmptyString
  | String a s' => if f a then EmptyString else String a (take_until f s')
  end.

Definition str_rev (s : string) : string :=
  String.string_of_list_ascii (rev (String.list_ascii_of_string s)).

(** [s.ends_with(p)]. *)
Definition ends_with (p s : string) : bool := starts_with (str_rev p) (str_rev s).

(** [s.trim_start_matches(c)] and [s.trim_end_matches(c)] for a character. *)
Fixpoint trim_start_char (c : ascii) (s : string) : string :=
  match s with
  | EmptyString => EmptyString
  | String a s' => if Ascii.eqb a c then trim_start_char c s' else s
  end.
Fixpoint trim_end_char (c : ascii) (s : string) : string :=
  match s with
  | EmptyString => EmptyString
  | String a s' =>
      match trim_end_char c s' with
      | EmptyString => if Ascii.eqb a c then EmptyString else String a EmptyString
      | t => String a t
      end
  end.
(** [s.trim_start_matches(p)] for a nonempty [str] pattern: strips every
    leading copy. The length of [s] is fuel enough. *)
Fixpoint trim_start_str_fuel (n : nat) (p s : string) : string :=
  match n with
  | O => s
  | S n' => match strip_prefix p s with
            | Some s' => trim_start_str_fuel n' p s'
            | None => s
            end
  end.
Definition trim_start_str (p s : string) : string :=
  trim_start_str_fuel (String.length s) p s.

(** ** [s.trim()]: Unicode [White_Space] at both ends, on UTF-8 bytes *)

Definition ws1 (a : ascii) : bool :=
  let c := N_of_ascii a in ((9 <=? c) && (c <=? 13) || (c =? 32))%N.
Definition ws2 (a b : ascii) : bool :=
  let x := N_of_ascii a in let y := N_of_ascii b in
  ((x =? 0xC2) && ((y =? 0x85) || (y =? 0xA0)))%N.
Definition ws3 (a b c : ascii) : bool :=
  let x := N_of_ascii a in let y := N_of_ascii b in let z := N_of_ascii c in
  ((x =? 0xE1) && (y =? 0x9A) && (z =? 0x80)
   || (x =? 0xE2) && (y =? 0x80)
      && ((0x80 <=? z) && (z <=? 0x8A) || (z =? 0xA8) || (z =? 0xA9) || (z =? 0xAF))
   || (x =? 0xE2) && (y =? 0x81) && (z =? 0x9F)
   || (x =? 0xE3) && (y =? 0x80) && (z =? 0x80))%N.
(** One white-space character at the start of [s]; [rv] says the bytes of
    [s] are in reverse order. *)
Definition strip_ws (rv : bool) (s : string) : option string :=
  match s with
  | EmptyString => None
  | String a s1 =>
      if ws1 a then Some s1 else
      match s1 with
      | EmptyString => None
      | String b s2 =>
          if (if rv then ws2 b a else ws2 a b) then Some s2 else
          match s2 with
          | EmptyString => None
          | String c s3 => if (if rv then ws3 c b a else ws3 a b c) then Some s3 else None
          end
      end
  end.
Fixpoint trim_ws (n : nat) (rv : bool) (s : string) : string :=
  match n with
  | O => s
  | S n' => match strip_ws rv s with Some s' => trim_ws n' rv s' | None => s end
  end.
(** [&s[..end]] where [end] is the first white space or [|], or the length. *)
Fixpoint take_word (s : string) : string :=
  match s with
  | EmptyString => EmptyString
  | String a s' =>
      if Ascii.eqb a "|" then EmptyString
      else match strip_ws false s with Some _ => EmptyString | None => String a (take_word s') end
  end.
Definition trim_start (s : string) : string := trim_ws (String.length s) false s.
Definition trim (s : string) : string :=
  let t := str_rev (trim_start s) in str_rev (trim_ws (String.length t) true t).

(** ** ASCII case and digits *)

Definition to_ascii_lower (a : ascii) : ascii :=
  let c := N_of_ascii a in
  if ((65 <=? c) && (c <=? 90))%N then ascii_of_N (c + 32) else a.
Fixpoint to_ascii_lowercase (s : string) : string :=
  match s with EmptyString => EmptyString | String a s' => String (to_ascii_lower a) (to_ascii_lowercase s') end.
Definition eq_ignore_ascii_case (s t : string) : bool :=
  String.eqb (to_ascii_lowercase s) (to_ascii_lowercase t).
Definition is_digit (a : ascii) : bool :=
  let c := N_of_ascii a in ((48 <=? c) && (c <=? 57))%N.
Definition is_ascii_alphanumeric (a : ascii) : bool :=
  let c := N_of_ascii a in
  ((48 <=? c) && (c <=? 57) || (65 <=? c) && (c <=? 90) || (97 <=? c) && (c <=? 122))%N.

(** [s.parse::<uN>()] with largest value [max]: an optional [+], then at
    least one digit, no overflow. *)
Fixpoint parse_digits (max acc : Z) (s : string) : option Z :=
  match s with
  | EmptyString => Some acc
  | String a s' =>
      if is_digit a then
        let acc' := acc * 10 + (Z.of_N (N_of_ascii a) - 48) in
        if max <? acc' then None else parse_digits max acc' s'
      else None
  end.
Definition parse_uint (max : Z) (s : string) : option Z :=
  match s with
  | EmptyString => None
  | String "+" EmptyString => None
  | String "+" s' => parse_digits max 0 s'
  | _ => parse_digits max 0 s
  end.
(** [n.to_string()]. *)
Definition show (n : Z) : string := pretty n.
(** [s.as_bytes()] and [s.len()]. *)
Definition as_bytes (s : string) : bytes := String.list_byte_of_string s.
Definition str_len (s : string) : Z := Z.of_nat (String.length s).

Arguments split_once c%_char s%_string.
Arguments str_split c%_char s%_string.
Arguments trim_start_char c%_char s%_string.
Arguments trim_end_char c%_char s%_string.

(** ** Lemmas *)

#[global] Arguments String.append : simpl nomatch.

(** [s] has no character [c]. *)
Definition lacks (c : ascii) (s : string) : bool := str_all (fun a => negb (Ascii.eqb a c)) s.
Arguments lacks c%_char s%_string.

Lemma str_app_nil_r s : s +:+ "" = s.
Proof. induction s as [|a s IH]; simpl; congruence. Qed.
Lemma str_app_assoc s t u : s +:+ (t +:+ u) = (s +:+ t) +:+ u.
Proof. induction s as [|a s IH]; simpl; congruence. Qed.
Lemma str_app_inv_head s t u : s +:+ t = s +:+ u -> t = u.
Proof. induction s as [|a s IH]; simpl; [done|]. intros [=]; auto. Qed.
Lemma str_all_app f s t : str_all f (s +:+ t) = str_all f s && str_all f t.
Proof. induction s as [|a s IH]; simpl; [done|]. by rewrite IH, andb_assoc. Qed.
Lemma str_all_impl f g s :
  (forall a, f a = true -> g a = true) -> str_all f s = true -> str_all g s = true.
Proof.
  intros Hfg. induction s as [|a s IH]; simpl; [done|].
  intros [? ?]%andb_true_iff. rewrite Hfg by done. by apply IH.
Qed.
Lemma as_bytes_inj s t : as_bytes s = as_bytes t -> s = t.
Proof.
  unfold as_bytes. intros E.
  by rewrite <- (String.string_of_list_byte_of_string s), E, String.string_of_list_byte_of_string.
Qed.

Lemma str_app_length a b : String.length (a +:+ b) = (String.length a + String.length b)%nat.
Proof. induction a as [|c a IH]; simpl; [done|]. by rewrite IH. Qed.
Lemma strip_prefix_app p s : strip_prefix p (p +:+ s) = Some s.
Proof. induction p as [|a p IH]; simpl; [done|]. by rewrite Ascii.eqb_refl. Qed.
Lemma strip_prefix_Some p s r : strip_prefix p s = Some r -> s = p +:+ r.
Proof.
  revert s. induction p as [|a p IH]; intros [|b s]; simpl; try congruence.
  destruct (Ascii.eqb_spec a b) as [->|]; [|done]. intros ?. f_equal. auto.
Qed.
Lemma starts_with_app p s : starts_with p (p +:+ s) = true.
Proof. unfold starts_with. by rewrite strip_prefix_app. Qed.
Lemma contains_starts p s : starts_with p s = true -> contains p s = true.
Proof. intros H. destruct s; cbn [contains]; by rewrite H. Qed.
Lemma contains_app p s t : contains p (s +:+ (p +:+ t)) = true.
Proof.
  induction s as [|a s IH]; simpl; [apply contains_starts, starts_with_app|].
  rewrite IH. apply orb_true_r.
Qed.

Lemma split_once_app c l r : lacks c l = true -> split_once c (l +:+ String c r) = Some (l, r).
Proof.
  unfold lacks. induction l as [|a l IH]; simpl.
  - intros _. by rewrite Ascii.eqb_refl.
  - intros [Ha Hl]%andb_true_iff. apply negb_true_iff in Ha. rewrite Ha. by rewrite IH.
Qed.
Lemma split_once_lacks c s : lacks c s = true -> split_once c s = None.
Proof.
  unfold lacks. induction s as [|a s IH]; simpl; [done|].
  intros [Ha Hl]%andb_true_iff. apply negb_true_iff in Ha. rewrite Ha. by rewrite IH.
Qed.
Lemma split_once_Some c s l r :
  split_once c s = Some (l, r) -> s = l +:+ String c r /\ lacks c l = true.
Proof.
  revert l r. induction s as [|a s IH]; intros l r; simpl; [done|].
  destruct (Ascii.eqb_spec a c) as [->|Ha].
  - intros [= <- <-]. done.
  - destruct (split_once c s) as [[l' r']|]; [|done]. intros [= <- <-].
    destruct (IH l' r' eq_refl) as [-> Hl]. split; [done|].
    unfold lacks in *. simpl. rewrite Hl, andb_true_r.
    apply negb_true_iff. by apply Ascii.eqb_neq.
Qed.
Lemma str_split_lacks c s : lacks c s = true -> str_split c s = [s].
Proof.
  unfold lacks. induction s as [|a s IH]; simpl; [done|].
  intros [Ha Hl]%andb_true_iff. apply negb_true_iff in Ha. rewrite Ha. by rewrite IH.
Qed.
Lemma str_split_app c l r :
  lacks c l = true -> str_split c (l +:+ String c r) = l :: str_split c r.
Proof.
  unfold lacks. induction l as [|a l IH]; simpl.
  - intros _. by rewrite Ascii.eqb_refl.
  - intros [Ha Hl]%andb_true_iff. apply negb_true_iff in Ha. rewrite Ha. by rewrite IH.
Qed.

Lemma str_rev_involutive s : str_rev (str_rev s) = s.
Proof.
  unfold str_rev. rewrite String.list_ascii_of_string_of_list_ascii, rev_involutive.
  apply String.string_of_list_ascii_of_string.
Qed.
Lemma str_rev_snoc s a : str_rev (s +:+ String a "") = String a (str_rev s).
Proof.
  unfold str_rev.
  assert (E : forall s t, String.list_ascii_of_string (s +:+ t)
              = String.list_ascii_of_string s ++ String.list_ascii_of_string t).
  { intros u t. induction u as [|b u IH]; simpl; congruence. }
  rewrite E, rev_app_distr. done.
Qed.

(** Printable ASCII, the characters of every code the program prints. *)
Definition graphic (a : ascii) : bool :=
  let c := N_of_ascii a in ((33 <=? c) && (c <=? 126))%N.
Lemma strip_ws_graphic rv a s : graphic a = true -> strip_ws rv (String a s) = None.
Proof.
  intros [H1 H2]%andb_true_iff. apply N.leb_le in H1, H2.
  assert (E1 : ws1 a = false).
  { unfold ws1. apply orb_false_iff. split.
    - apply andb_false_iff. right. apply N.leb_gt. lia.
    - apply N.eqb_neq. lia. }
  assert (Hne : forall k, (127 <= k)%N -> (N_of_ascii a =? k)%N = false).
  { intros k Hk. apply N.eqb_neq. lia. }
  assert (Hge : forall k, (127 <= k)%N -> (k <=? N_of_ascii a)%N = false).
  { intros k Hk. apply N.leb_gt. lia. }
  simpl. rewrite E1. destruct s as [|b s]; [done|].
  replace (if rv then ws2 b a else ws2 a b) with false.
  2:{ destruct rv; unfold ws2; rewrite !Hne by lia; simpl; by rewrite ?andb_false_r. }
  destruct s as [|c s]; [done|].
  replace (if rv then ws3 c b a else ws3 a b c) with false; [done|].
  destruct rv; unfold ws3; rewrite !Hne by lia; rewrite ?Hge by lia; simpl;
    by rewrite ?andb_false_r.
Qed.
Lemma trim_ws_graphic n rv a s : graphic a = true -> trim_ws n rv (String a s) = String a s.
Proof. intros. destruct n; cbn [trim_ws]; [done|]. by rewrite strip_ws_graphic. Qed.
(** [trim] leaves alone a string whose ends are printable ASCII. *)
Lemma trim_graphic a s b :
  graphic a = true -> graphic b = true ->
  trim (String a s +:+ String b "") = String a s +:+ String b "".
Proof.
  intros Ha Hb. unfold trim. cbv zeta.
  assert (E : trim_start (String a s +:+ String b "") = String a s +:+ String b "").
  { unfold trim_start. apply (trim_ws_graphic _ false a (s +:+ String b "") Ha). }
  rewrite E, str_rev_snoc, trim_ws_graphic by done.
  by rewrite <- str_rev_snoc, str_rev_involutive.
Qed.
Lemma str_snoc s : s <> "" -> exists t b, s = t +:+ String b "".
Proof.
  induction s as [|a s IH]; [done|]. intros _. destruct (decide (s = "")) as [->|Hs].
  - by exists "", a.
  - destruct (IH Hs) as (t & b & ->). by exists (String a t), b.
Qed.
Lemma trim_all_graphic s : s <> "" -> str_all graphic s = true -> trim s = s.
Proof.
  intros Hs Hg. destruct (str_snoc s Hs) as (t & b & ->).
  rewrite str_all_app in Hg. apply andb_true_iff in Hg as [Ht Hb].
  simpl in Hb. rewrite andb_true_r in Hb. destruct t as [|a t].
  - unfold trim, trim_start. change ("" +:+ String b "") with (String b "").
    rewrite (trim_ws_graphic _ false b "" Hb).
    change (str_rev (String b "")) with (String b "").
    by rewrite trim_ws_graphic.
  - simpl in Ht. apply andb_true_iff in Ht as [Ha _]. by apply trim_graphic.
Qed.

(** A parsed number is in range. *)
Lemma parse_digits_range max acc s z : 0 <= acc <= max -> parse_digits max acc s = Some z -> 0 <= z <= max.
Proof.
  revert acc. induction s as [|a s IH]; intros acc Hacc; simpl; [by intros [= <-]|].
  destruct (is_digit a) eqn:Ea; [|done]. unfold is_digit in Ea. apply andb_true_iff in Ea as [E1%N.leb_le E2%N.leb_le].
  destruct (Z.ltb_spec max (acc * 10 + (Z.of_N (N_of_ascii a) - 48))); [done|]. apply IH. lia.
Qed.
Lemma parse_uint_range max s z : 0 <= max -> parse_uint max s = Some z -> 0 <= z <= max.
Proof.
  intros Hm. destruct s as [|a s]; [done|]. intros Hp.
  assert (Hex : exists s', parse_digits max 0 s' = Some z).
  { destruct a as [[] [] [] [] [] [] [] []]; try (by eexists).
    destruct s; [done|]. by eexists. }
  destruct Hex as [s' Hs']. eapply parse_digits_range; [|exact Hs']. lia.
Qed.

(** ** Printing and parsing any number *)

Lemma pretty_N_char_digit x : (x < 10)%N ->
  is_digit (pretty_N_char x) = true /\ N_of_ascii (pretty_N_char x) = (48 + x)%N.
Proof.
  intros Hx. assert (x = 0 \/ x = 1 \/ x = 2 \/ x = 3 \/ x = 4 \/ x = 5 \/ x = 6 \/ x = 7 \/ x = 8 \/ x = 9)%N as Hc by lia.
  by repeat destruct Hc as [->|Hc]; [..|subst x].
Qed.
Lemma parse_digits_go max x s : (0 < x)%N -> Z.of_N x <= max ->
  parse_digits max 0 (pretty_N_go x s) = parse_digits max (Z.of_N x) s.
Proof.
  revert s. induction (N.lt_wf_0 x) as [x _ IH]. intros s Hx Hm.
  destruct (pretty_N_char_digit (x mod 10)) as [Hd Hc]; [by apply N.mod_lt|].
  pose proof (N.div_mod x 10 ltac:(done)) as Hdm. pose proof (N.mod_lt x 10 ltac:(done)) as Hr.
  rewrite pretty_N_go_step by done. pose proof (N.div_lt x 10 Hx ltac:(done)) as Hlt.
  generalize dependent (x mod 10)%N. generalize dependent (x / 10)%N. intros q Hlt r Hd Hc Hdm Hr. destruct (decide (q = 0)%N) as [E|E].
  - rewrite E, pretty_N_go_0. cbn [parse_digits]. rewrite Hd, Hc.
    replace (0 * 10 + (Z.of_N (48 + r) - 48)) with (Z.of_N x) by lia.
    by apply Z.ltb_ge in Hm as ->.
  - rewrite IH; [|done|lia|lia]. cbn [parse_digits]. rewrite Hd, Hc.
    replace (Z.of_N q * 10 + (Z.of_N (48 + r) - 48)) with (Z.of_N x) by lia.
    by apply Z.ltb_ge in Hm as ->.
Qed.
Lemma pretty_N_go_digits x s : str_all is_digit s = true -> str_all is_digit (pretty_N_go x s) = true.
Proof.
  revert s. induction (N.lt_wf_0 x) as [x _ IH]. intros s Hs.
  destruct (decide (x = 0)%N) as [->|Hx]; [by rewrite pretty_N_go_0|].
  rewrite pretty_N_go_step by lia. apply IH; [apply N.div_lt; lia|]. cbn [str_all]. rewrite Hs, andb_true_r.
  apply pretty_N_char_digit, N.mod_lt. done.
Qed.
Lemma parse_uint_digits max s : s <> "" -> str_all is_digit s = true -> parse_uint max s = parse_digits max 0 s.
Proof.
  intros Hn Hs. destruct s as [|a s]; [done|]. cbn [str_all] in Hs. apply andb_true_iff in Hs as [Ha _].
  by destruct a as [[] [] [] [] [] [] [] []].
Qed.
Lemma show_digits z : 0 <= z -> str_all is_digit (show z) = true /\ show z <> "".
Proof.
  intros Hz. destruct z as [|p|p]; [done| |lia].
  change (show (Z.pos p)) with (pretty_N_go (N.pos p) "").
  split; [by apply pretty_N_go_digits|].
  assert (Hne : forall x s, (0 < x)%N \/ s <> "" -> pretty_N_go x s <> "").
  { clear. intros x. induction (N.lt_wf_0 x) as [x _ IH]. intros s Hs.
    destruct (decide (x = 0)%N) as [->|Hx]; [rewrite pretty_N_go_0; destruct Hs; [lia|done]|].
    rewrite pretty_N_go_step by lia. apply IH; [apply N.div_lt; lia|]. by right. }
  apply Hne. left. lia.
Qed.
Lemma parse_show max z : 0 <= z <= max -> parse_uint max (show z) = Some z.
Proof.
  intros Hz. destruct (show_digits z ltac:(lia)) as [Hd Hn]. rewrite parse_uint_digits by done.
  destruct z as [|p|p]; [by destruct max as [|m|m]; [..|lia]| |lia].
  change (show (Z.pos p)) with (pretty_N_go (N.pos p) "").
  by rewrite parse_digits_go by (simpl; lia).
Qed.
