(* ===== verification/Libs.v ===== *)
(** * Interfaces to the crates the program calls

    Each class is what the program relies on of a crate whose code is not
    part of the repository: the operations, and their documented laws. The
    module [Toy] instantiates every class with a concrete function, so that
    theorems stated over the classes can be evaluated. *)

From S2P Require Import Prelude Str.

(** The values a Rust type can hold, where the Rocq type holds more (a [u64]
    field is any [Z] in Rocq). *)
Class WireType (A : Type) := wire_ok : A -> Prop.

(** [serde_json::to_vec] / [from_slice] at a derived type: decoding inverts
    encoding, and a decoded value is a value of the type. *)
Class Serde (A : Type) `{WireType A} := {
  to_vec : A -> bytes;
  from_slice : bytes -> option A;
  from_to_vec a : wire_ok a -> from_slice (to_vec a) = Some a;
  from_slice_ok b a : from_slice b = Some a -> wire_ok a;
}.

(** [chacha20poly1305::XChaCha20Poly1305]: key, nonce, associated data. The
    ciphertext is the plaintext's length plus the 16-byte tag; decryption
    succeeds exactly on what encryption produced. *)
Class Aead := {
  aead_encrypt : bytes -> bytes -> bytes -> bytes -> bytes;
  aead_decrypt : bytes -> bytes -> bytes -> bytes -> option bytes;
  aead_decrypt_encrypt k n a p : aead_decrypt k n a (aead_encrypt k n a p) = Some p;
  aead_decrypt_auth k n a c p : aead_decrypt k n a c = Some p -> c = aead_encrypt k n a p;
}.

(** [blake3]: the incremental hasher and the two keyed modes. *)
Class Blake3 := {
  hasher : Type;
  hasher_new : hasher;
  hasher_update : hasher -> bytes -> hasher;
  hasher_finalize : hasher -> bytes;
  hasher_update_app h a b : hasher_update (hasher_update h a) b = hasher_update h (a ++ b);
  hasher_update_nil h : hasher_update h [] = h;
  derive_key : string -> bytes -> bytes;
  keyed_hash : bytes -> bytes -> bytes;
  hasher_finalize_length h : length (hasher_finalize h) = 32%nat;
  derive_key_length c m : length (derive_key c m) = 32%nat;
  keyed_hash_length k m : length (keyed_hash k m) = 32%nat;
}.
(** [blake3::hash]. *)
Definition blake3_hash `{Blake3} (m : bytes) : bytes :=
  hasher_finalize (hasher_update hasher_new m).

(** [bs58]: the Bitcoin alphabet, without [0], [O], [I] and [l]. *)
Definition is_base58 (a : Ascii.ascii) : bool :=
  is_ascii_alphanumeric a
  && negb (existsb (Ascii.eqb a) ["0"%char; "O"%char; "I"%char; "l"%char]).
Class Base58 := {
  b58_encode : bytes -> string;
  b58_decode : string -> option bytes;
  b58_decode_encode b : b58_decode (b58_encode b) = Some b;
  b58_encode_chars b : str_all is_base58 (b58_encode b) = true;
  b58_encode_nonempty b : b <> [] -> b58_encode b <> "";
  b58_decode_chars s b : b58_decode s = Some b -> str_all is_base58 s = true;
}.

(** [hex::encode] and blake3's [to_hex]: two lower-case digits a byte. *)
Definition hex_digit (n : Z) : Ascii.ascii :=
  Ascii.ascii_of_N (Z.to_N (if n <? 10 then 48 + n else 87 + n)).
Fixpoint hex_encode (b : bytes) : string :=
  match b with
  | [] => ""
  | x :: b' => String (hex_digit (b2z x / 16)) (String (hex_digit (b2z x mod 16)) (hex_encode b'))
  end.

(** [spake2]: the symmetric variant over Ed25519. [start] takes the password,
    the identity and the random scalar; two sides with the same password and
    identity derive the same key from each other's messages; a message that is
    not 33 bytes is refused. *)
Class Spake2 := {
  spake_start : bytes -> bytes -> bytes -> bytes;
  spake_finish : bytes -> bytes -> bytes -> bytes -> option bytes;
  spake_agree pw id r1 r2 :
    exists k, length k = 32%nat
      /\ spake_finish pw id r1 (spake_start pw id r2) = Some k
      /\ spake_finish pw id r2 (spake_start pw id r1) = Some k;
  spake_key_length pw id r m k : spake_finish pw id r m = Some k -> length k = 32%nat;
}.

(** ** Concrete instances *)

Module Toy.

(** A positive as its bits, low first. *)
Fixpoint pos_bits (p : positive) : bytes :=
  match p with
  | xH => []
  | xO p' => Byte.x00 :: pos_bits p'
  | xI p' => Byte.x01 :: pos_bits p'
  end.
Fixpoint bits_pos (b : bytes) : positive :=
  match b with
  | [] => xH
  | x :: b' => if decide (x = Byte.x00) then xO (bits_pos b') else xI (bits_pos b')
  end.
Lemma bits_pos_bits p : bits_pos (pos_bits p) = p.
Proof. induction p as [p IH|p IH|]; simpl; congruence. Qed.

Section serde.
Context {A : Type} `{Countable A} `{!WireType A} `{!forall a : A, Decision (wire_ok a)}.
Definition serde_from (b : bytes) : option A :=
  match decode (bits_pos b) with
  | Some a => if decide (wire_ok a) then Some a else None
  | None => None
  end.
#[refine] Definition serde : Serde A :=
  {| to_vec a := pos_bits (encode a); from_slice := serde_from |}.
Proof.
  - intros a Ha. unfold serde_from. rewrite bits_pos_bits, decode_encode. by case_decide.
  - intros b a. unfold serde_from. case_match; [|done]. case_decide; [|done]. by intros [= <-].
Defined.
End serde.

Fixpoint strip (p l : bytes) : option bytes :=
  match p, l with
  | [], _ => Some l
  | a :: p', b :: l' => if decide (a = b) then strip p' l' else None
  | _ :: _, [] => None
  end.
Lemma strip_app p l : strip p (p ++ l) = Some l.
Proof. induction p as [|a p IH]; simpl; [done|]. by rewrite decide_True. Qed.
Lemma strip_Some p l r : strip p l = Some r -> l = p ++ r.
Proof.
  revert l. induction p as [|a p IH]; intros [|b l]; simpl; try congruence.
  case_decide; [|done]. intros ?%IH. congruence.
Qed.
#[refine] Definition aead : Aead :=
  {| aead_encrypt k n a p := (k ++ n ++ a) ++ p;
     aead_decrypt k n a c := strip (k ++ n ++ a) c |}.
Proof.
  - intros. apply strip_app.
  - intros k n a c p ?%strip_Some. done.
Defined.

(** Length and content cut to 32 bytes. *)
Definition pad32 (b : bytes) : bytes := take 32 (b ++ replicate 32 Byte.x00).
Lemma pad32_length b : length (pad32 b) = 32%nat.
Proof. unfold pad32. rewrite length_take, length_app, length_replicate. lia. Qed.
#[refine] Definition blake3 : Blake3 :=
  {| hasher := bytes; hasher_new := []; hasher_update h b := h ++ b;
     hasher_finalize := pad32;
     derive_key c m := pad32 (rev (as_bytes c) ++ m); keyed_hash k m := pad32 (rev m ++ k) |}.
Proof.
  - intros h a b. simpl. by rewrite <- app_assoc.
  - intros h. apply app_nil_r.
  - intros h. apply pad32_length.
  - intros c m. apply pad32_length.
  - intros c m. apply pad32_length.
Defined.

(** The two messages exclusive-ored would do as a key; the password alone is
    enough here. *)
#[refine] Definition spake2 : Spake2 :=
  {| spake_start pw id r := pad32 (pw ++ id); 
     spake_finish pw id r m := if decide (m = pad32 (pw ++ id)) then Some (pad32 (pw ++ id)) else Some (pad32 (m ++ pw)) |}.
Proof.
  - intros pw id r1 r2. exists (pad32 (pw ++ id)). split; [apply pad32_length|]. by rewrite decide_True.
  - intros pw id r m k. case_decide; intros [= <-]; apply pad32_length.
Defined.

(** Two letters a byte, then a final ["z"]. *)
Definition letter (n : Z) : Ascii.ascii := Ascii.ascii_of_N (Z.to_N (97 + n)).
Definition unletter (a : Ascii.ascii) : Z := Z.of_N (Ascii.N_of_ascii a) - 97.
Definition nib (n : Z) : Z := if n <? 11 then n else n + 1.
Definition unnib (n : Z) : Z := if n <? 11 then n else n - 1.
Fixpoint b58_enc (b : bytes) : string :=
  match b with
  | [] => "z"
  | x :: b' => String (letter (nib (b2z x / 16))) (String (letter (nib (b2z x mod 16))) (b58_enc b'))
  end.
Fixpoint b58_dec (s : string) : option bytes :=
  match s with
  | EmptyString => None
  | String a s1 =>
      match s1 with
      | EmptyString => if Ascii.eqb a "z" then Some [] else None
      | String b s' =>
          if is_base58 a && is_base58 b then
            match b58_dec s' with
            | Some l => Some (z2b (unnib (unletter a) * 16 + unnib (unletter b)) :: l)
            | None => None
            end
          else None
      end
  end.
Lemma nib_byte x :
  z2b (unnib (unletter (letter (nib (b2z x / 16)))) * 16 + unnib (unletter (letter (nib (b2z x mod 16))))) = x
  /\ is_base58 (letter (nib (b2z x / 16))) = true
  /\ is_base58 (letter (nib (b2z x mod 16))) = true.
Proof. destruct x; vm_compute; done. Qed.
Fixpoint b58_dec_chars s b {struct s} : b58_dec s = Some b -> str_all is_base58 s = true.
Proof.
  destruct s as [|x [|y s]]; cbn [b58_dec]; [done| |].
  - destruct (Ascii.eqb_spec x "z") as [->|]; done.
  - destruct (is_base58 x && is_base58 y) eqn:E; [|done].
    destruct (b58_dec s) as [l|] eqn:El; [|done]. intros _. cbn [str_all].
    rewrite (b58_dec_chars s l El), andb_assoc, E. done.
Qed.
#[refine] Definition base58 : Base58 := {| b58_encode := b58_enc; b58_decode := b58_dec |}.
Proof.
  - induction b as [|x b IH]; [done|]. cbn [b58_enc b58_dec]. rewrite IH.
    rewrite (proj1 (proj2 (nib_byte x))), (proj2 (proj2 (nib_byte x))). by rewrite (proj1 (nib_byte x)).
  - induction b as [|x b IH]; [done|]. cbn [b58_enc str_all]. rewrite IH.
    by rewrite (proj1 (proj2 (nib_byte x))), (proj2 (proj2 (nib_byte x))).
  - intros [|x b] Hb; [by destruct Hb|discriminate].
  - exact b58_dec_chars.
Defined.

End Toy.
