(* ===== verification/Fs.v ===== *)
(** * The file system and [std::path], as the program uses them *)

From S2P Require Import Prelude Str Libs.

(** ** Paths *)

Inductive component : Type := RootDir | CurDir | ParentDir | Normal (s : string).

Definition component_of (p : string) : list component :=
  if String.eqb p "" then []
  else if String.eqb p "." then []
  else if String.eqb p ".." then [ParentDir] else [Normal p].
(** [Path::new(s).components()] on Unix: repeated separators and inner [.]
    vanish; a leading [.] stays. *)
Definition components (s : string) : list component :=
  match str_split "/" s with
  | [] => []
  | p :: ps =>
      (if starts_with "/" s then [RootDir]
       else if String.eqb p "." then [CurDir] else component_of p)
      ++ concat (map component_of ps)
  end.
(** [Path::file_name]: the last component, when it is a normal one. *)
Definition file_name (s : string) : option string :=
  match last (components s) with Some (Normal n) => Some n | _ => None end.

(** A resolved absolute path: the names from the root. *)
Abbreviation path := (list string).
(** [p.join(s)] for a resolved [p]: an absolute [s] replaces it. *)
Definition join1 (p : path) (c : component) : path :=
  match c with RootDir => [] | CurDir => p | ParentDir => removelast p | Normal n => p ++ [n] end.
Definition join (p : path) (s : string) : path := fold_left join1 (components s) p.
(** [Path::display]. *)
Definition display (p : path) : string := fold_left (fun s n => s +:+ "/" +:+ n) p "".

(** ** Files and faults *)

Inductive node : Type := Dir | File (content : bytes).
#[export] Instance node_eq_dec : EqDecision node.
Proof. solve_decision. Defined.

(** What the system makes of one call: it succeeds, fails having done
    nothing, or fails having done the work only in part ([n] bytes of a
    write; an atomic operation is done, yet reports failure). *)
Inductive fault : Type := NoFault | FailBefore | FailPartial (n : nat).

(** The disk and what will happen to the calls to come (no more faults once
    the list is empty). *)
Record fs : Type := Fs { nodes : gmap path node; faults : list fault }.

(** Computations over the disk; an error leaves the disk as it is by then. *)
Definition io (A : Type) : Type := fs -> res A * fs.
#[export] Instance io_ret : MRet io := fun A a s => (Ok a, s).
#[export] Instance io_bind : MBind io := fun A B f m s =>
  match m s with
  | (Ok a, s') => f a s'
  | (Err e, s') => (Err e, s')
  | (Panic, s') => (Panic, s')
  end.
Definition io_lift {A} (r : res A) : io A := fun s => (r, s).
(** The result of [m] as a value, for code that matches on it. *)
Definition io_try {A} (m : io A) : io (res A) := fun s =>
  match m s with (Panic, s') => (Panic, s') | (r, s') => (Ok r, s') end.
(** [.context(c)?]. *)
Definition io_context {A} (c : string) (m : io A) : io A := fun s =>
  let (r, s') := m s in (context c r, s').

Definition io_error : error := EIo "input/output error".
(** One system call: [run] is the call; [part n] the disk after a partial
    failure. *)
Definition sys {A} (run : gmap path node -> res A * gmap path node)
    (part : nat -> gmap path node -> gmap path node) : io A := fun s =>
  match faults s with
  | [] => let (r, n) := run (nodes s) in (r, Fs n [])
  | NoFault :: fl => let (r, n) := run (nodes s) in (r, Fs n fl)
  | FailBefore :: fl => (Err io_error, Fs (nodes s) fl)
  | FailPartial k :: fl => (Err io_error, Fs (part k (nodes s)) fl)
  end.

Definition is_dir (n : gmap path node) (p : path) : bool :=
  match p with [] => true | _ => bool_decide (n !! p = Some Dir) end.
Definition parent (p : path) : path := removelast p.

(** [Path::exists]. *)
Definition path_exists (s : fs) (p : path) : bool :=
  match p with [] => true | _ => bool_decide (is_Some (nodes s !! p)) end.

Fixpoint mkdirs (ps : list path) (n : gmap path node) : res unit * gmap path node :=
  match ps with
  | [] => (Ok tt, n)
  | p :: ps' =>
      match n !! p with
      | Some Dir => mkdirs ps' n
      | Some (File _) => (Err (EIo "Not a directory"), n)
      | None => mkdirs ps' (<[p := Dir]> n)
      end
  end.
(** The nonempty prefixes of a path, short ones first. *)
Definition prefixes (p : path) : list path := map (fun k => take k p) (seq 1 (length p)).
(** [fs::create_dir_all]. *)
Definition create_dir_all (p : path) : io unit :=
  sys (mkdirs (prefixes p)) (fun k n => snd (mkdirs (take k (prefixes p)) n)).

(** [fs::read]. *)
Definition fs_read (p : path) : io bytes :=
  sys (fun n => match n !! p with
                | Some (File b) => (Ok b, n)
                | Some Dir => (Err (EIo "Is a directory"), n)
                | None => (Err (EIo "No such file or directory"), n)
                end) (fun _ n => n).
(** [File::metadata().len()]. *)
Definition file_len (p : path) : io Z :=
  sys (fun n => match n !! p with
                | Some (File b) => (Ok (zlen b), n)
                | _ => (Err (EIo "No such file or directory"), n)
                end) (fun _ n => n).

Definition put_file (p : path) (f : option bytes -> bytes) (n : gmap path node)
    : res unit * gmap path node :=
  match n !! p with
  | Some Dir => (Err (EIo "Is a directory"), n)
  | Some (File b) => (Ok tt, <[p := File (f (Some b))]> n)
  | None => if is_dir n (parent p) then (Ok tt, <[p := File (f None)]> n)
            else (Err (EIo "No such file or directory"), n)
  end.
(** [fs::write]: creates or truncates, then writes. *)
Definition fs_write (p : path) (b : bytes) : io unit :=
  sys (put_file p (fun _ => b)) (fun k n => snd (put_file p (fun _ => take k b) n)).
(** [OpenOptions::new().create(true).read(true).write(true).truncate(t).open]. *)
Definition open_rw (p : path) (truncate : bool) : io unit :=
  let f := fun o => if truncate then [] else default [] o in
  sys (put_file p f) (fun _ n => snd (put_file p f n)).

(** Operations on an open file; the handle is the file at [p], which nothing
    else moves while it is open. *)
Definition on_file (p : path) (f : bytes -> bytes) (n : gmap path node)
    : res unit * gmap path node :=
  match n !! p with
  | Some (File b) => (Ok tt, <[p := File (f b)]> n)
  | _ => (Err (EIo "No such file or directory"), n)
  end.
Definition file_set_len (p : path) (len : Z) : io unit :=
  sys (on_file p (set_len len)) (fun _ n => snd (on_file p (set_len len) n)).
(** [seek(SeekFrom::Start(off))] then [write_all(b)]. *)
Definition file_write_at (p : path) (off : Z) (b : bytes) : io unit :=
  sys (on_file p (write_at off b)) (fun k n => snd (on_file p (write_at off (take k b)) n)).

(** [fs::rename] of a file. *)
Definition rename_file (src dst : path) (n : gmap path node) : res unit * gmap path node :=
  match n !! src with
  | Some (File b) =>
      match n !! dst with
      | Some Dir => (Err (EIo "Is a directory"), n)
      | _ => if is_dir n (parent dst) then (Ok tt, <[dst := File b]> (delete src n))
             else (Err (EIo "No such file or directory"), n)
      end
  | _ => (Err (EIo "No such file or directory"), n)
  end.
Definition fs_rename (src dst : path) : io unit :=
  sys (rename_file src dst) (fun _ n => snd (rename_file src dst n)).

(** [fs::remove_dir_all]. *)
Definition under (d p : path) : bool := bool_decide (d `prefix_of` p).
Definition rm_tree (d : path) (n : gmap path node) : res unit * gmap path node :=
  match n !! d with
  | Some Dir => (Ok tt, filter (fun kv => under d kv.1 = false) n)
  | _ => (Err (EIo "No such file or directory"), n)
  end.
(** A removal that fails midway has removed some of the entries. *)
Definition rm_some (k : nat) (d : path) (n : gmap path node) : gmap path node :=
  let gone := take k (filter (fun p => under d p = true) (map fst (map_to_list n))) in
  filter (fun kv => kv.1 ∉ gone) n.
Definition remove_dir_all (d : path) : io unit :=
  sys (rm_tree d) (fun k n => rm_some k d n).

(** ** Reasoning about disk computations *)

(** A predicate on the disk. *)
Abbreviation dpred := (gmap path node -> Prop).

(** [triple P m Q E]: from a disk satisfying [P], whatever faults happen, [m]
    does not panic, a normal return satisfies [Q], and an error (thus also a
    crash at that call) leaves a disk satisfying [E]. *)
Definition triple {A : Type} (P : dpred) (m : io A)
    (Q : A -> dpred) (E : dpred) : Prop :=
  forall s, P (nodes s) ->
  match m s with
  | (Ok a, s') => Q a (nodes s')
  | (Err _, s') => E (nodes s')
  | (Panic, _) => False
  end.
(** [runs P m Q]: with no faults to come, [m] returns normally. *)
Definition runs {A : Type} (P : dpred) (m : io A)
    (Q : A -> dpred) : Prop :=
  forall s, faults s = [] -> P (nodes s) ->
  exists a s', m s = (Ok a, s') /\ faults s' = [] /\ Q a (nodes s').

Lemma triple_ret {A : Type} (a : A) (P : dpred) (Q : A -> dpred) (E : dpred) : (forall n, P n -> Q a n) -> triple P (mret a : io A) Q E.
Proof. intros H s Hs. by apply H. Qed.
Lemma triple_bind {A B : Type} (m : io A) (f : A -> io B) (P : dpred) (R : A -> dpred) (Q : B -> dpred) (E : dpred) :
  triple P m R E -> (forall a, triple (R a) (f a) Q E) -> triple P (m ≫= f) Q E.
Proof.
  intros Hm Hf s Hs. specialize (Hm s Hs). unfold mbind, io_bind.
  destruct (m s) as [[a|e|] s']; [|done|done]. by apply Hf.
Qed.
Lemma triple_sys {A : Type} (run : gmap path node -> res A * gmap path node)
    (part : nat -> gmap path node -> gmap path node) (P : dpred) (Q : A -> dpred) (E : dpred) :
  (forall n, P n -> match run n with (Ok a, n') => Q a n' | (Err _, n') => E n' | (Panic, _) => False end) ->
  (forall n, P n -> E n) -> (forall n k, P n -> E (part k n)) ->
  triple P (sys run part) Q E.
Proof.
  intros Hr H0 Hp s Hs. unfold sys. specialize (Hr _ Hs).
  destruct (faults s) as [|[| |k] fl]; simpl.
  - destruct (run (nodes s)) as [[a|e|] n]; done.
  - destruct (run (nodes s)) as [[a|e|] n]; done.
  - by apply H0.
  - by apply Hp.
Qed.
Lemma triple_weaken {A : Type} (m : io A) (P P' : dpred) (Q Q' : A -> dpred) (E E' : dpred) :
  triple P m Q E -> (forall n, P' n -> P n) -> (forall a n, Q a n -> Q' a n) ->
  (forall n, E n -> E' n) -> triple P' m Q' E'.
Proof.
  intros Hm HP HQ HE s Hs. specialize (Hm s (HP _ Hs)).
  destruct (m s) as [[a|e|] s']; eauto.
Qed.

Lemma runs_ret {A : Type} (a : A) (P : dpred) (Q : A -> dpred) : (forall n, P n -> Q a n) -> runs P (mret a : io A) Q.
Proof. intros H s Hf Hs. exists a, s. split; [done|]. split; [done|]. by apply H. Qed.
Lemma runs_bind {A B : Type} (m : io A) (f : A -> io B) (P : dpred) (R : A -> dpred) (Q : B -> dpred) :
  runs P m R -> (forall a, runs (R a) (f a) Q) -> runs P (m ≫= f) Q.
Proof.
  intros Hm Hf s Hs HP. destruct (Hm s Hs HP) as (a & s' & E & Hs' & HR).
  destruct (Hf a s' Hs' HR) as (b & s'' & E' & ? & ?).
  exists b, s''. unfold mbind, io_bind. by rewrite E, E'.
Qed.
Lemma runs_sys {A : Type} (run : gmap path node -> res A * gmap path node)
    (part : nat -> gmap path node -> gmap path node) (P : dpred) (Q : A -> dpred) :
  (forall n, P n -> exists a n', run n = (Ok a, n') /\ Q a n') -> runs P (sys run part) Q.
Proof.
  intros Hr s Hf Hs. destruct (Hr _ Hs) as (a & n' & E & HQ).
  exists a, (Fs n' []). unfold sys. by rewrite Hf, E.
Qed.
Lemma runs_weaken {A : Type} (m : io A) (P P' : dpred) (Q Q' : A -> dpred) :
  runs P m Q -> (forall n, P' n -> P n) -> (forall a n, Q a n -> Q' a n) -> runs P' m Q'.
Proof.
  intros Hm HP HQ s Hf Hs. destruct (Hm s Hf (HP _ Hs)) as (a & s' & ? & ? & ?). eauto 6.
Qed.

(** ** File names are single, harmless components *)

Lemma lacks_split_pieces c s p : p ∈ str_split c s -> lacks c p = true.
Proof.
  revert p. induction s as [|a s IH]; simpl; intros p.
  - by intros ->%list_elem_of_singleton.
  - destruct (Ascii.eqb a c) eqn:Ha.
    + intros [->|?]%elem_of_cons; [done|]. by apply IH.
    + destruct (str_split c s) as [|q qs] eqn:Hq.
      * intros ->%list_elem_of_singleton. unfold lacks. simpl. by rewrite Ha.
      * intros [->|Hp]%elem_of_cons.
        -- unfold lacks in *. simpl. rewrite Ha. simpl. apply IH. by left.
        -- apply IH. by right.
Qed.

(** A name that denotes an entry of the directory it is joined to. *)
Definition plain_name (n : string) : Prop :=
  lacks "/" n = true /\ n <> "" /\ n <> "." /\ n <> "..".

Lemma component_of_normal p n : Normal n ∈ component_of p -> n = p /\ n <> "" /\ n <> "." /\ n <> "..".
Proof.
  unfold component_of.
  destruct (String.eqb_spec p ""); [by intros ?%elem_of_nil|].
  destruct (String.eqb_spec p "."); [by intros ?%elem_of_nil|].
  destruct (String.eqb_spec p ".."); [by intros ?%list_elem_of_singleton|].
  intros [= ->]%list_elem_of_singleton. done.
Qed.
Lemma file_name_plain s n : file_name s = Some n -> plain_name n.
Proof.
  unfold file_name. destruct (last (components s)) as [[| | |m]|] eqn:E; try done.
  intros [= ->]. assert (Hin : Normal n ∈ components s) by (by apply last_Some_elem_of).
  unfold components in Hin. pose proof (fun p => lacks_split_pieces "/" s p) as Hl.
  destruct (str_split "/" s) as [|p ps]; [by apply elem_of_nil in Hin|].
  assert (exists q, q ∈ p :: ps /\ Normal n ∈ component_of q) as (q & Hq & Hn).
  { apply elem_of_app in Hin as [Hin|Hin].
    - destruct (starts_with "/" s); [by apply list_elem_of_singleton in Hin|].
      destruct (String.eqb p "."); [by apply list_elem_of_singleton in Hin|].
      exists p. split; [by left|done].
    - rewrite list_elem_of_In, in_concat in Hin. destruct Hin as (l & Hl1 & Hl2).
      apply in_map_iff in Hl1 as (q & <- & Hq). exists q.
      rewrite !list_elem_of_In. split; [by right|done]. }
  apply component_of_normal in Hn as (-> & ? & ? & ?). split; [by apply Hl|done].
Qed.
Lemma components_plain n : plain_name n -> components n = [Normal n].
Proof.
  intros (Hl & H1 & H2 & H3). unfold components. rewrite str_split_lacks by done.
  assert (Hs : starts_with "/" n = false).
  { destruct n as [|a n]; [done|]. unfold starts_with. cbn [strip_prefix].
    unfold lacks in Hl. simpl in Hl. apply andb_true_iff in Hl as [Ha _].
    rewrite Ascii.eqb_sym. by destruct (Ascii.eqb a "/"). }
  rewrite Hs. destruct (String.eqb_spec n "."); [done|].
  unfold component_of. destruct (String.eqb_spec n ""); [done|].
  destruct (String.eqb_spec n "."); [done|]. destruct (String.eqb_spec n ".."); done.
Qed.
Lemma join_plain p n : plain_name n -> join p n = p ++ [n].
Proof. intros Hn. unfold join. by rewrite components_plain. Qed.

(** ** What each call does to the files *)

(** The content of the file at [p]. *)
Definition file_at (n : gmap path node) (p : path) : option bytes :=
  match n !! p with Some (File b) => Some b | _ => None end.

Lemma file_at_insert n p b : file_at (<[p := File b]> n) p = Some b.
Proof. unfold file_at. by rewrite lookup_insert_eq. Qed.
Lemma file_at_insert_ne n p q x : p <> q -> file_at (<[p := x]> n) q = file_at n q.
Proof. intros. unfold file_at. by rewrite lookup_insert_ne. Qed.
Lemma file_at_delete_ne n p q : p <> q -> file_at (delete p n) q = file_at n q.
Proof. intros. unfold file_at. by rewrite lookup_delete_ne. Qed.
Create Rewrite HintDb disk.
#[export] Hint Rewrite file_at_insert : disk.
#[export] Hint Rewrite file_at_insert_ne using done : disk.
#[export] Hint Rewrite file_at_delete_ne using done : disk.
Lemma remove_dir_all_runs d n : n !! d = Some Dir ->
  exists n', remove_dir_all d (Fs n []) = (Ok tt, Fs n' []) /\ (forall q, d `prefix_of` q -> n' !! q = None)
    /\ (forall q, ~ d `prefix_of` q -> n' !! q = n !! q).
Proof.
  intros Hd. exists (filter (fun kv => under d kv.1 = false) n).
  split; [unfold remove_dir_all, sys, rm_tree; cbn [faults nodes]; by rewrite Hd|]. unfold under. split; intros q Hq.
  - apply map_lookup_filter_None. right. intros x _. cbn. by rewrite bool_decide_eq_true_2.
  - destruct (n !! q) as [x|] eqn:Ex.
    + rewrite map_lookup_filter_Some. split; [done|]. cbn. by rewrite bool_decide_eq_false.
    + apply map_lookup_filter_None. by left.
Qed.
Lemma file_at_Some n p b : file_at n p = Some b <-> n !! p = Some (File b).
Proof. unfold file_at. destruct (n !! p) as [[|c]|]; naive_solver. Qed.

Lemma mkdirs_file_at ps n p : file_at (snd (mkdirs ps n)) p = file_at n p.
Proof.
  revert n. induction ps as [|q ps IH]; intros n; [done|]. simpl.
  destruct (n !! q) as [[|b]|] eqn:E; [apply IH|done|].
  rewrite IH. unfold file_at. destruct (decide (q = p)) as [->|].
  - by rewrite lookup_insert_eq, E.
  - by rewrite lookup_insert_ne.
Qed.
Lemma mkdirs_ok ps n : match mkdirs ps n with (Panic, _) => False | _ => True end.
Proof. revert n. induction ps as [|q ps IH]; intros n; [done|]. simpl. destruct (n !! q) as [[|b]|]; [apply IH|done|apply IH]. Qed.
(** [mkdirs] succeeds when no prefix is a file, and makes every prefix a
    directory. *)
Lemma mkdirs_runs ps n :
  (forall p, p ∈ ps -> file_at n p = None) ->
  exists n', mkdirs ps n = (Ok tt, n') /\ (forall p, p ∈ ps -> n' !! p = Some Dir)
    /\ (forall p, p ∉ ps -> n' !! p = n !! p) /\ (forall p, n !! p = Some Dir -> n' !! p = Some Dir).
Proof.
  revert n. induction ps as [|q ps IH]; intros n Hn.
  - exists n. split; [done|]. split; [by intros p ?%elem_of_nil|done].
  - simpl. pose proof (Hn q ltac:(by left)) as Hq. unfold file_at in Hq.
    destruct (n !! q) as [[|b]|] eqn:E; [|done|].
    + destruct (IH n ltac:(intros; apply Hn; by right)) as (n' & He & H1 & H2 & H3).
      exists n'. split; [done|]. split; [|split; [|done]].
      * intros p [->|]%elem_of_cons; [by apply H3|by apply H1].
      * intros p [? ?]%not_elem_of_cons. by apply H2.
    + assert (Hn' : forall p, p ∈ ps -> file_at (<[q:=Dir]> n) p = None).
      { intros p Hp. unfold file_at. destruct (decide (q = p)) as [->|].
        - by rewrite lookup_insert_eq.
        - rewrite lookup_insert_ne by done. apply Hn. by right. }
      destruct (IH _ Hn') as (n' & He & H1 & H2 & H3).
      assert (H4 : n' !! q = Some Dir) by (apply H3; by rewrite lookup_insert_eq).
      exists n'. split; [done|]. split; [|split].
      * intros p [->|]%elem_of_cons; [done|by apply H1].
      * intros p [? ?]%not_elem_of_cons. rewrite H2 by done. by rewrite lookup_insert_ne.
      * intros p Hp. apply H3. rewrite lookup_insert_ne; [done|]. intros ->. congruence.
Qed.

(** Rules for the calls under any faults. [upd n p b] is the disk with the
    file at [p] replaced. *)
Abbreviation upd n p b := (<[p := File b]> n).

Lemma triple_create_dir_all (p : path) (P : dpred) (Q : unit -> dpred) (E : dpred) :
  (forall n n', P n -> (forall q, file_at n' q = file_at n q) -> Q tt n' /\ E n') ->
  triple P (create_dir_all p) Q E.
Proof.
  intros H. apply triple_sys.
  - intros n Hn. pose proof (mkdirs_ok (prefixes p) n).
    pose proof (mkdirs_file_at (prefixes p) n) as Hf.
    destruct (mkdirs (prefixes p) n) as [[[]|e|] n']; [|by eapply H|done]. by eapply H.
  - intros n Hn. by eapply H.
  - intros n k Hn. eapply H; [done|]. intros q. apply mkdirs_file_at.
Qed.
Lemma triple_fs_read_try (p : path) (P : dpred) (Q : res bytes -> dpred) (E : dpred) :
  (forall n, P n -> match file_at n p with Some b => Q (Ok b) n | None => True end) ->
  (forall n e, P n -> Q (Err e) n) ->
  triple P (io_try (fs_read p)) Q E.
Proof.
  intros H1 H2 s Hs. unfold io_try, fs_read, sys. specialize (H1 _ Hs). unfold file_at in H1.
  destruct (faults s) as [|[| |k] fl]; simpl.
  all: try by apply H2.
  all: destruct (nodes s !! p) as [[|b]|]; simpl; try by apply H2.
  all: done.
Qed.
Lemma triple_fs_write (p : path) (b : bytes) (P : dpred) (Q : unit -> dpred) (E : dpred) :
  (forall n, P n -> E n) -> (forall n, P n -> Q tt (upd n p b)) ->
  (forall n k, P n -> E (upd n p (take k b))) ->
  triple P (fs_write p b) Q E.
Proof.
  intros H0 H1 H2. apply triple_sys; [|done|].
  - intros n Hn. unfold put_file. destruct (n !! p) as [[|c]|]; [by apply H0|by apply H1|].
    destruct (is_dir n (parent p)); [by apply H1|by apply H0].
  - intros n k Hn. unfold put_file. destruct (n !! p) as [[|c]|]; [by apply H0|by apply H2|].
    destruct (is_dir n (parent p)); [by apply H2|by apply H0].
Qed.
Lemma triple_open_rw (p : path) (t : bool) (P : dpred) (Q : unit -> dpred) (E : dpred) :
  (forall n, P n -> E n) ->
  (forall n, P n -> let n' := upd n p (if t then [] else default [] (file_at n p)) in Q tt n' /\ E n') ->
  triple P (open_rw p t) Q E.
Proof.
  intros H0 H1. apply triple_sys; [|done|].
  - intros n Hn. specialize (H1 n Hn). unfold put_file. unfold file_at in H1. destruct (n !! p) as [[|c]|]; [by apply H0|by destruct t; apply H1|].
    destruct (is_dir n (parent p)); [by destruct t; apply H1|by apply H0].
  - intros n k Hn. specialize (H1 n Hn). unfold put_file. unfold file_at in H1. destruct (n !! p) as [[|c]|]; [by apply H0|by destruct t; apply H1|].
    destruct (is_dir n (parent p)); [by destruct t; apply H1|by apply H0].
Qed.
Lemma triple_set_len (p : path) (len : Z) (P : dpred) (Q : unit -> dpred) (E : dpred) :
  (forall n, P n -> E n) ->
  (forall n b, P n -> file_at n p = Some b -> let n' := upd n p (set_len len b) in Q tt n' /\ E n') ->
  triple P (file_set_len p len) Q E.
Proof.
  intros H0 H1. apply triple_sys; [|done|].
  - intros n Hn. unfold on_file. destruct (n !! p) as [[|c]|] eqn:He; try by apply H0.
    apply H1; [done|by apply file_at_Some].
  - intros n k Hn. unfold on_file. destruct (n !! p) as [[|c]|] eqn:He; try by apply H0.
    apply H1; [done|by apply file_at_Some].
Qed.
Lemma triple_write_at (p : path) (off : Z) (b : bytes) (P : dpred) (Q : unit -> dpred) (E : dpred) :
  (forall n, P n -> E n) ->
  (forall n c, P n -> file_at n p = Some c -> Q tt (upd n p (write_at off b c))) ->
  (forall n c k, P n -> file_at n p = Some c -> E (upd n p (write_at off (take k b) c))) ->
  triple P (file_write_at p off b) Q E.
Proof.
  intros H0 H1 H2. apply triple_sys; [|done|].
  - intros n Hn. unfold on_file. destruct (n !! p) as [[|c]|] eqn:He; try by apply H0.
    apply H1; [done|by apply file_at_Some].
  - intros n k Hn. unfold on_file. destruct (n !! p) as [[|c]|] eqn:He; try by apply H0.
    apply H2; [done|by apply file_at_Some].
Qed.
Lemma triple_rename (src dst : path) (P : dpred) (Q : unit -> dpred) (E : dpred) :
  (forall n, P n -> E n) ->
  (forall n b, P n -> file_at n src = Some b -> let n' := upd (delete src n) dst b in Q tt n' /\ E n') ->
  triple P (fs_rename src dst) Q E.
Proof.
  intros H0 H1.
  assert (H : forall n, P n -> match rename_file src dst n with
                               | (Ok _, n') => Q tt n' /\ E n' | (Err _, n') => E n' | _ => False end).
  { intros n Hn. unfold rename_file. destruct (n !! src) as [[|c]|] eqn:He; try by apply H0.
    apply file_at_Some in He.
    destruct (n !! dst) as [[|c']|]; [by apply H0| |]; (destruct (is_dir n (parent dst)); [by apply H1|by apply H0]). }
  apply triple_sys; [|done|].
  - intros n Hn. specialize (H n Hn). destruct (rename_file src dst n) as [[[]|e|] n']; [apply H|done|done].
  - intros n k Hn. specialize (H n Hn). destruct (rename_file src dst n) as [[[]|e|] n']; [apply H|done|done].
Qed.

(** Rules for the calls when nothing fails. *)
Lemma runs_fs_write (p : path) (b : bytes) (P : dpred) (Q : unit -> dpred) :
  (forall n, P n -> n !! p <> Some Dir /\ is_dir n (parent p) = true /\ Q tt (upd n p b)) ->
  runs P (fs_write p b) Q.
Proof.
  intros H. apply runs_sys. intros n Hn. destruct (H n Hn) as (H1 & H2 & H3).
  exists tt. unfold put_file. rewrite H2. destruct (n !! p) as [[|c]|]; [done|eauto|eauto].
Qed.
Lemma runs_open_rw (p : path) (t : bool) (P : dpred) (Q : unit -> dpred) :
  (forall n, P n -> n !! p <> Some Dir /\ is_dir n (parent p) = true
    /\ Q tt (upd n p (if t then [] else default [] (file_at n p)))) ->
  runs P (open_rw p t) Q.
Proof.
  intros H. apply runs_sys. intros n Hn. destruct (H n Hn) as (H1 & H2 & H3).
  exists tt. unfold put_file. rewrite H2. unfold file_at in H3. destruct t, (n !! p) as [[|c]|]; try done; eauto.
Qed.
Lemma runs_set_len (p : path) (len : Z) (P : dpred) (Q : unit -> dpred) :
  (forall n, P n -> exists b, file_at n p = Some b /\ Q tt (upd n p (set_len len b))) ->
  runs P (file_set_len p len) Q.
Proof.
  intros H. apply runs_sys. intros n Hn. destruct (H n Hn) as (b & H1%file_at_Some & H2).
  exists tt. unfold on_file. rewrite H1. eauto.
Qed.
Lemma runs_write_at (p : path) (off : Z) (b : bytes) (P : dpred) (Q : unit -> dpred) :
  (forall n, P n -> exists c, file_at n p = Some c /\ Q tt (upd n p (write_at off b c))) ->
  runs P (file_write_at p off b) Q.
Proof.
  intros H. apply runs_sys. intros n Hn. destruct (H n Hn) as (c & H1%file_at_Some & H2).
  exists tt. unfold on_file. rewrite H1. eauto.
Qed.
Lemma runs_rename (src dst : path) (P : dpred) (Q : unit -> dpred) :
  (forall n, P n -> exists b, file_at n src = Some b /\ n !! dst <> Some Dir
    /\ is_dir n (parent dst) = true /\ Q tt (upd (delete src n) dst b)) ->
  runs P (fs_rename src dst) Q.
Proof.
  intros H. apply runs_sys. intros n Hn. destruct (H n Hn) as (b & H1%file_at_Some & H2 & H3 & H4).
  exists tt. unfold rename_file. rewrite H1, H3. destruct (n !! dst) as [[|c]|]; [done|eauto|eauto].
Qed.
Lemma runs_remove_dir_all (d : path) (P : dpred) (Q : unit -> dpred) :
  (forall n, P n -> n !! d = Some Dir /\ Q tt (filter (fun kv => under d kv.1 = false) n)) ->
  runs P (remove_dir_all d) Q.
Proof.
  intros H. apply runs_sys. intros n Hn. destruct (H n Hn) as (H1 & H2).
  exists tt. unfold rm_tree. rewrite H1. eauto.
Qed.

Lemma rm_some_keeps (k : nat) (d q : path) (n : gmap path node) :
  ~ d `prefix_of` q -> rm_some k d n !! q = n !! q.
Proof.
  intros Hq. unfold rm_some. set (gone := take k _).
  assert (Hg : q ∉ gone).
  { intros Hin. apply elem_of_take in Hin as (i & Hi & _).
    apply list_elem_of_lookup_2, list_elem_of_filter in Hi as [Hu _].
    unfold under in Hu. by rewrite bool_decide_eq_true in Hu. }
  destruct (n !! q) as [x|] eqn:E.
  - by apply map_lookup_filter_Some.
  - apply map_lookup_filter_None. by left.
Qed.
Lemma rm_tree_keeps (d q : path) (n : gmap path node) :
  ~ d `prefix_of` q -> snd (rm_tree d n) !! q = n !! q.
Proof.
  intros Hq. unfold rm_tree. destruct (n !! d) as [[|b]|]; simpl; [|done|done].
  destruct (n !! q) as [x|] eqn:E.
  - apply map_lookup_filter_Some. split; [done|]. unfold under. simpl. by rewrite bool_decide_eq_false.
  - apply map_lookup_filter_None. by left.
Qed.
(** Removing a tree leaves the rest as it is, wherever it stops. *)
Lemma triple_remove_dir_all (d : path) (P : dpred) :
  (forall n n', P n -> (forall q, ~ d `prefix_of` q -> n' !! q = n !! q) -> P n') ->
  triple P (remove_dir_all d) (fun _ => P) P.
Proof.
  intros H. apply triple_sys; [|done|].
  - intros n Hn. pose proof (fun q => rm_tree_keeps d q n) as Hk.
    assert (Hr : match rm_tree d n with (Panic, _) => False | _ => True end).
    { unfold rm_tree. by destruct (n !! d) as [[|b]|]. }
    destruct (rm_tree d n) as [[[]|e|] n']; simpl in *; [by eapply H|by eapply H|done].
  - intros n k Hn. eapply H; [done|]. intros q. apply rm_some_keeps.
Qed.
Lemma triple_conj {A : Type} (m : io A) (P1 P2 : dpred) (Q1 Q2 : A -> dpred) (E1 E2 : dpred) :
  triple P1 m Q1 E1 -> triple P2 m Q2 E2 ->
  triple (fun n => P1 n /\ P2 n) m (fun a n => Q1 a n /\ Q2 a n) (fun n => E1 n /\ E2 n).
Proof.
  intros H1 H2 s [Hs1 Hs2]. specialize (H1 s Hs1). specialize (H2 s Hs2).
  by destruct (m s) as [[a|e|] s'].
Qed.
