(* ===== verification/Crypto.v ===== *)
(** * src/crypto.rs: secrets, nonces and authenticated encryption *)

From S2P Require Import Prelude Str Libs.

Definition CHUNK_SIZE : Z := 4 * 1024 * 1024.
Definition SECRET_LEN : Z := 16.
Definition CTX_AUTH : string := "b2p 2026-07-22 v1 auth".
Definition CTX_DATA : string := "b2p 2026-07-22 v1 data".

Inductive Domain : Type := DManifest | DData | DCommit | DStreamToReceiver | DStreamToSender.
#[export] Instance Domain_eq_dec : EqDecision Domain.
Proof. solve_decision. Defined.
(** [domain as u8]. *)
Definition domain_byte (d : Domain) : Z :=
  match d with
  | DManifest => 1 | DData => 2 | DCommit => 3
  | DStreamToReceiver => 4 | DStreamToSender => 5
  end.

(** The 24-byte nonce: the domain, 15 zero bytes, the index little-endian. *)
Definition make_nonce (domain : Domain) (index : Z) : bytes :=
  z2b (domain_byte domain) :: replicate 15 Byte.x00 ++ to_le 8 index.

Section crypto.
Context `{Aead} `{Blake3} `{Base58}.

Definition seal (key : bytes) (domain : Domain) (index : Z) (aad plaintext : bytes) : bytes :=
  aead_encrypt key (make_nonce domain index) aad plaintext.
Definition open (key : bytes) (domain : Domain) (index : Z) (aad ciphertext : bytes) : res bytes :=
  ok_or ECrypto (aead_decrypt key (make_nonce domain index) aad ciphertext).

(** [nonce] is what [OsRng.fill_bytes] drew. *)
Definition seal_random (nonce key aad plaintext : bytes) : bytes :=
  nonce ++ aead_encrypt key nonce aad plaintext.
Definition open_random (key aad ciphertext : bytes) : res bytes :=
  if zlen ciphertext <? 24 then Err ECrypto
  else let nonce := take 24 ciphertext in
       let body := drop 24 ciphertext in
       ok_or ECrypto (aead_decrypt key nonce aad body).

(** [Secret([u8; SECRET_LEN])]. *)
Record Secret : Type := { secret_bytes : bytes }.
Definition to_base58 (s : Secret) : string := b58_encode (secret_bytes s).
Definition from_base58 (s : string) : res Secret :=
  bs ← ok_or (EExternal "base58") (b58_decode s);
  if zlen bs =? SECRET_LEN then mret {| secret_bytes := bs |}
  else Err (EMsg "secret must decode to 16 bytes").
Definition auth_token (s : Secret) : string := b58_encode (derive_key CTX_AUTH (secret_bytes s)).
Definition data_key (s : Secret) : bytes := derive_key CTX_DATA (secret_bytes s).

Lemma open_seal key d i aad p : open key d i aad (seal key d i aad p) = Ok p.
Proof. unfold open, seal. by rewrite aead_decrypt_encrypt. Qed.
Lemma open_auth key d i aad c p : open key d i aad c = Ok p -> c = seal key d i aad p.
Proof.
  unfold open, seal. destruct (aead_decrypt _ _ _ _) eqn:E; [|done].
  intros [= ->]. by apply aead_decrypt_auth.
Qed.
Lemma open_not_panic key d i aad c : open key d i aad c <> Panic.
Proof. unfold open. by destruct (aead_decrypt _ _ _ _). Qed.
End crypto.
#[export] Hint Rewrite @open_seal : b2p.

Lemma length_make_nonce d i : length (make_nonce d i) = 24%nat.
Proof. unfold make_nonce. by rewrite length_cons, length_app, length_replicate, length_to_le. Qed.
Lemma domain_byte_inj d d' : z2b (domain_byte d) = z2b (domain_byte d') -> d = d'.
Proof. destruct d, d'; by vm_compute. Qed.

(** ** Properties *)

(** A nonce determines its domain and its index: two frames sealed under one
    key share a nonce only if they are the same frame slot. *)
Theorem make_nonce_inj d d' i j :
  u64_ok i -> u64_ok j -> make_nonce d i = make_nonce d' j -> d = d' /\ i = j.
Proof.
  intros Hi Hj E. pose proof (f_equal (hd Byte.x00) E) as E1. pose proof (f_equal (drop 16) E) as E2.
  change (to_le 8 i = to_le 8 j) in E2. split.
  - by apply domain_byte_inj.
  - apply (to_le_inj 8); [exact Hi|exact Hj|exact E2].
Qed.
Lemma make_nonce_inj_witness :
  make_nonce DStreamToReceiver 3 = make_nonce DStreamToReceiver (1 + 2)
  /\ DStreamToReceiver = DStreamToReceiver /\ 3 = 1 + 2.
Proof.
  split; [reflexivity|]. apply (make_nonce_inj DStreamToReceiver DStreamToReceiver 3 (1 + 2)); done.
Defined.

(** A message sealed under a random 24-byte nonce opens with the same key and
    associated data, and anything shorter than a nonce is refused. *)
Theorem open_random_spec `{Aead} key aad :
  (forall nonce p, zlen nonce = 24 -> open_random key aad (seal_random nonce key aad p) = Ok p)
  /\ (forall c, zlen c < 24 -> open_random key aad c = Err ECrypto)
  /\ (forall c p, open_random key aad c = Ok p ->
      exists nonce, zlen nonce = 24 /\ c = seal_random nonce key aad p).
Proof.
  split; [|split].
  - intros nonce p Hn. unfold open_random, seal_random. rewrite zlen_app, Hn.
    pose proof (zlen_nonneg (aead_encrypt key nonce aad p)).
    destruct (Z.ltb_spec (24 + zlen (aead_encrypt key nonce aad p)) 24); [lia|].
    rewrite take_app_length', drop_app_length' by (unfold zlen in Hn; lia).
    by rewrite aead_decrypt_encrypt.
  - intros c Hc. unfold open_random. by apply Z.ltb_lt in Hc as ->.
  - intros c p. unfold open_random. destruct (Z.ltb_spec (zlen c) 24); [done|].
    destruct (aead_decrypt _ _ _ _) eqn:E; [|done]. intros [= ->].
    exists (take 24 c). split; [unfold zlen in *; rewrite length_take; lia|].
    unfold seal_random. rewrite <- (aead_decrypt_auth _ _ _ _ _ E). by rewrite take_drop.
Qed.

(** A secret's base58 spelling decodes to the secret, and only 16-byte
    values decode. *)
Theorem secret_base58_roundtrip `{Base58} :
  (forall s, zlen (secret_bytes s) = SECRET_LEN -> from_base58 (to_base58 s) = Ok s)
  /\ (forall t s, from_base58 t = Ok s -> zlen (secret_bytes s) = SECRET_LEN).
Proof.
  split.
  - intros [b] Hb. unfold from_base58, to_base58. cbn in *. rewrite b58_decode_encode. cbn.
    by apply Z.eqb_eq in Hb as ->.
  - intros t s. unfold from_base58. destruct (b58_decode t) as [b|]; [|done]. cbn.
    destruct (Z.eqb_spec (zlen b) SECRET_LEN); [|done]. by intros [= <-].
Qed.
