(* ===== verification/Protocol.v ===== *)
(** * src/protocol.rs: the messages and the run-length form of an index set *)

From S2P Require Import Prelude Str Libs Crypto.

Definition PROTOCOL_VERSION : Z := 1.

Inductive Kind : Type := KFile | KTar | KText.
#[export] Instance Kind_eq_dec : EqDecision Kind.
Proof. solve_decision. Defined.

Record Entry : Type := { e_path : string; e_size : Z }.
Record Manifest : Type := {
  version : Z;
  mf_transfer_id : string;
  kind : Kind;
  name : string;
  entries : list Entry;
  mf_total_size : Z;
  mf_chunk_size : Z;
  text : option string;
}.
Definition Manifest_total_chunks (m : Manifest) : res Z :=
  div_ceil (mf_total_size m) (mf_chunk_size m).

Record ManifestAck : Type := { ma_accepted : bool; ma_complete : bool; ma_have : list Z }.
Record StreamManifestAck : Type :=
  { accepted : bool; complete : bool; have_runs : list (Z * Z) }.
Record StatusResp : Type := { sr_have : list Z }.
Record Commit : Type := { blake3_hex : string }.
Record CommitAck : Type := { ca_ok : bool; ca_error : option string }.

#[export] Instance Manifest_wire : WireType Manifest := fun m =>
  0 <= version m < 2 ^ 32 /\ u64_ok (mf_total_size m) /\ u64_ok (mf_chunk_size m)
  /\ Forall (fun e => u64_ok (e_size e)) (entries m).
#[export] Instance ManifestAck_wire : WireType ManifestAck := fun a => Forall u64_ok (ma_have a).
#[export] Instance StreamManifestAck_wire : WireType StreamManifestAck := fun a =>
  Forall (fun r => u64_ok r.1 /\ u64_ok r.2) (have_runs a).
#[export] Instance Commit_wire : WireType Commit := fun _ => True.
#[export] Instance CommitAck_wire : WireType CommitAck := fun _ => True.

#[export] Instance Kind_countable : Countable Kind.
Proof.
  refine (inj_countable' (fun k => match k with KFile => 0%nat | KTar => 1%nat | KText => 2%nat end)
    (fun n => match n with 0%nat => KFile | 1%nat => KTar | _ => KText end) _).
  by intros [].
Defined.
#[export] Instance Entry_eq_dec : EqDecision Entry.
Proof. solve_decision. Defined.
#[export] Instance Entry_countable : Countable Entry.
Proof.
  refine (inj_countable' (fun e => (e_path e, e_size e)) (fun t => {| e_path := t.1; e_size := t.2 |}) _).
  by intros [].
Defined.
#[export] Instance Manifest_eq_dec : EqDecision Manifest.
Proof. solve_decision. Defined.
#[export] Instance Manifest_countable : Countable Manifest.
Proof.
  refine (inj_countable' (fun m => (version m, mf_transfer_id m, kind m, name m, entries m, mf_total_size m, mf_chunk_size m, text m))
    (fun '(v, i, k, n, e, s, c, t) => {| version := v; mf_transfer_id := i; kind := k; name := n; entries := e;
       mf_total_size := s; mf_chunk_size := c; text := t |}) _).
  by intros [].
Defined.
#[export] Instance StreamManifestAck_eq_dec : EqDecision StreamManifestAck.
Proof. solve_decision. Defined.
#[export] Instance StreamManifestAck_countable : Countable StreamManifestAck.
Proof.
  refine (inj_countable' (fun a => (accepted a, complete a, have_runs a))
    (fun '(a, c, r) => {| accepted := a; complete := c; have_runs := r |}) _).
  by intros [].
Defined.
#[export] Instance Commit_eq_dec : EqDecision Commit.
Proof. solve_decision. Defined.
#[export] Instance Commit_countable : Countable Commit.
Proof. refine (inj_countable' blake3_hex (fun h => {| blake3_hex := h |}) _). by intros []. Defined.
#[export] Instance CommitAck_eq_dec : EqDecision CommitAck.
Proof. solve_decision. Defined.
#[export] Instance CommitAck_countable : Countable CommitAck.
Proof.
  refine (inj_countable' (fun a => (ca_ok a, ca_error a)) (fun '(o, e) => {| ca_ok := o; ca_error := e |}) _).
  by intros [].
Defined.
#[export] Instance Manifest_wire_dec m : Decision (wire_ok (A:=Manifest) m).
Proof. unfold wire_ok, Manifest_wire. apply _. Defined.
#[export] Instance StreamManifestAck_wire_dec m : Decision (wire_ok (A:=StreamManifestAck) m).
Proof. unfold wire_ok, StreamManifestAck_wire. apply _. Defined.
#[export] Instance Commit_wire_dec m : Decision (wire_ok (A:=Commit) m).
Proof. left. exact I. Defined.
#[export] Instance CommitAck_wire_dec m : Decision (wire_ok (A:=CommitAck) m).
Proof. left. exact I. Defined.

(** One step of [runs_from_sorted]'s loop; [runs.last_mut()] is the last
    run, extended in place. *)
Definition runs_step (runs : list (Z * Z)) (i : Z) : list (Z * Z) :=
  match last runs with
  | Some (start, len) =>
      if (start + len)%u64 =? i then removelast runs ++ [(start, (len + 1)%u64)]
      else runs ++ [(i, 1)]
  | None => runs ++ [(i, 1)]
  end.
Definition runs_from_sorted (sorted : list Z) : list (Z * Z) := fold_left runs_step sorted [].
Definition runs_contain (runs : list (Z * Z)) (i : Z) : bool :=
  existsb (fun r => (r.1 <=? i) && (i <? (r.1 + r.2)%u64)) runs.

Section seal_json.
Context `{Aead}.
(** [serde_json::to_vec] cannot fail on these types ([expect]). *)
Definition seal_json {T} `{Serde T} (key : bytes) (domain : Domain) (aad : bytes) (value : T) : bytes :=
  seal key domain 0 aad (to_vec value).
Definition open_json {T} `{Serde T} (key : bytes) (domain : Domain) (aad ct : bytes) : res T :=
  pt ← open key domain 0 aad ct;
  ok_or EJson (from_slice pt).
End seal_json.

(** ** Lemmas *)

(** The indices a run list stands for. *)
Definition expand (runs : list (Z * Z)) : list Z :=
  concat (map (fun r => zrange r.1 (r.1 + r.2)) runs).
Definition run_ok (r : Z * Z) : Prop := 0 <= r.1 /\ 0 < r.2 /\ r.1 + r.2 < U64.

Lemma expand_app a b : expand (a ++ b) = expand a ++ expand b.
Proof. unfold expand. by rewrite map_app, concat_app. Qed.
Lemma expand_single s l : expand [(s, l)] = zrange s (s + l).
Proof. unfold expand. simpl. by rewrite app_nil_r. Qed.
Lemma zrange_snoc lo hi : lo <= hi -> zrange lo (hi + 1) = zrange lo hi ++ [hi].
Proof.
  intros. unfold zrange. replace (hi + 1 - lo) with ((hi - lo) + 1) by lia.
  rewrite seqZ_app by lia. f_equal. replace (lo + (hi - lo)) with hi by lia. done.
Qed.
Lemma runs_step_spec runs i :
  Forall run_ok runs -> 0 <= i < U64 - 1 ->
  Forall run_ok (runs_step runs i) /\ expand (runs_step runs i) = expand runs ++ [i].
Proof.
  intros Hok Hi. unfold runs_step. destruct (last runs) as [[s l]|] eqn:E.
  - apply last_Some in E as [rs ->]. apply Forall_app in Hok as [Hrs Hsl].
    apply Forall_cons in Hsl as [Hsl _]. unfold run_ok in Hsl. simpl in Hsl.
    rewrite (wrap64_small (s + l)) by (unfold u64_ok; lia). destruct (Z.eqb_spec (s + l) i) as [<-|].
    + rewrite removelast_last, wrap64_small by (unfold u64_ok; lia). split.
      * apply Forall_app. split; [done|]. constructor; [|done]. unfold run_ok; simpl; lia.
      * rewrite !expand_app, !expand_single, Z.add_assoc, zrange_snoc by lia.
        by rewrite app_assoc.
    + split.
      * rewrite !Forall_app. split; [split; [done|by constructor]|].
        constructor; [|done]. unfold run_ok; simpl; lia.
      * by rewrite (expand_app _ [(i, 1)]), expand_single, zrange_cons, zrange_nil by lia.
  - apply last_None in E as ->. split.
    + constructor; [|done]. unfold run_ok; simpl; lia.
    + simpl. by rewrite expand_single, zrange_cons, zrange_nil by lia.
Qed.
Lemma runs_loop_spec sorted runs :
  Forall run_ok runs -> Forall (fun i => 0 <= i < U64 - 1) sorted ->
  Forall run_ok (fold_left runs_step sorted runs)
  /\ expand (fold_left runs_step sorted runs) = expand runs ++ sorted.
Proof.
  intros Hok Hs. revert runs Hok. induction Hs as [|i l Hi Hl IH]; intros runs Hok; simpl.
  - by rewrite app_nil_r.
  - destruct (runs_step_spec runs i Hok Hi) as [H1 H2]. destruct (IH _ H1) as [H3 H4].
    split; [done|]. by rewrite H4, H2, <- app_assoc.
Qed.
Lemma runs_contain_expand runs i :
  Forall run_ok runs -> runs_contain runs i = bool_decide (i ∈ expand runs).
Proof.
  induction 1 as [|[s l] runs Hr Hrs IH]; [done|].
  change ((s, l) :: runs) with ([(s, l)] ++ runs). rewrite expand_app, expand_single.
  unfold runs_contain in *. cbn [existsb app fst snd]. rewrite IH. unfold run_ok in Hr. simpl in Hr.
  rewrite wrap64_small by (unfold u64_ok; lia).
  pose proof (elem_of_zrange s (s + l) i).
  destruct (Z.leb_spec s i), (Z.ltb_spec i (s + l)); simpl;
    repeat case_bool_decide; rewrite ?elem_of_app in *; intuition lia.
Qed.

(** ** Properties *)

(** C35: The run-length form loses nothing: expanding the runs gives back the
    list, and membership in the runs is membership in the list. *)
Theorem runs_roundtrip sorted :
  Forall (fun i => 0 <= i < U64 - 1) sorted ->
  expand (runs_from_sorted sorted) = sorted
  /\ forall i, runs_contain (runs_from_sorted sorted) i = bool_decide (i ∈ sorted).
Proof.
  intros Hs. destruct (runs_loop_spec sorted [] (Forall_nil_2 _) Hs) as [H1 H2].
  change (expand []) with (@nil Z) in H2. simpl in H2. split; [done|].
  intros i. unfold runs_from_sorted. by rewrite runs_contain_expand, H2.
Qed.
Lemma runs_roundtrip_witness :
  expand (runs_from_sorted [0; 1; 2; 5; 7; 8]) = [0; 1; 2; 5; 7; 8]
  /\ forall i, runs_contain (runs_from_sorted [0; 1; 2; 5; 7; 8]) i
      = bool_decide (i ∈ [0; 1; 2; 5; 7; 8]).
Proof. apply (runs_roundtrip [0; 1; 2; 5; 7; 8]). repeat constructor; done. Defined.
Example runs_from_sorted_ex : runs_from_sorted [0; 1; 2; 5; 7; 8] = [(0, 3); (5, 1); (7, 2)].
Proof. reflexivity. Qed.
