(* ===== verification/Store.v ===== *)
(** * src/store.rs: the staging area of an incoming transfer

    [<out>/<name>.b2p-partial/] holds [data], the file being assembled, and
    [state.json], the set of chunks already in it. *)

From S2P Require Import Prelude Str Libs Fs.

Record State : Type := {
  st_transfer_id : string;
  st_total_size : Z;
  st_chunk_size : Z;
  st_have : gset Z;
}.
#[export] Instance State_wire : WireType State := fun s =>
  u64_ok (st_total_size s) /\ u64_ok (st_chunk_size s)
  /\ set_Forall u64_ok (st_have s).

#[export] Instance State_eq_dec : EqDecision State.
Proof. solve_decision. Defined.
#[export] Instance State_countable : Countable State.
Proof.
  refine (inj_countable' (fun s => (st_transfer_id s, st_total_size s, st_chunk_size s, st_have s))
    (fun t => {| st_transfer_id := t.1.1.1; st_total_size := t.1.1.2; st_chunk_size := t.1.2; st_have := t.2 |}) _).
  by intros [].
Defined.
#[export] Instance State_wire_dec s : Decision (wire_ok (A:=State) s).
Proof. unfold wire_ok, State_wire. apply _. Defined.

(** The open [file] handle is the file at [data_path]. *)
Record Store : Type := {
  dir : path;
  data_path : path;
  state_path : path;
  state : State;
}.

Definition fresh_state (transfer_id : string) (total_size chunk_size : Z) : State :=
  {| st_transfer_id := transfer_id; st_total_size := total_size;
     st_chunk_size := chunk_size; st_have := ∅ |}.

Definition total_chunks (s : Store) : res Z :=
  div_ceil (st_total_size (state s)) (st_chunk_size (state s)).

Definition expected_len (s : Store) (index : Z) : res Z :=
  n ← total_chunks s;
  let last := (n - 1)%u64 in
  mret (if index <? last then st_chunk_size (state s)
        else wrap64 (st_total_size (state s) - (last * st_chunk_size (state s))%u64)).

Definition have (s : Store) : list Z := bt_iter (st_have (state s)).

Definition is_complete (s : Store) : res bool :=
  n ← total_chunks s; mret (Z.of_nat (size (st_have (state s))) =? n).

(** [self.state.have.insert(index)]. *)
Definition insert_have (index : Z) (s : Store) : Store :=
  {| dir := dir s; data_path := data_path s; state_path := state_path s;
     state := {| st_transfer_id := st_transfer_id (state s);
                 st_total_size := st_total_size (state s);
                 st_chunk_size := st_chunk_size (state s);
                 st_have := {[index]} ∪ st_have (state s) |} |}.

Section store.
Context `{!Serde State} `{Blake3}.

(** [state_path.with_extension("json.tmp")]. *)
Definition tmp_path (s : Store) : path := join (dir s) "state.json.tmp".

Definition persist_state (s : Store) : io unit :=
  _ ← fs_write (tmp_path s) (to_vec (state s));
  fs_rename (tmp_path s) (state_path s).

Definition state_matches (s : State) (transfer_id : string) (total_size chunk_size : Z) : bool :=
  String.eqb (st_transfer_id s) transfer_id
  && (st_total_size s =? total_size) && (st_chunk_size s =? chunk_size).

(** The [match] on what [fs::read(&state_path)] returned. *)
Definition load_state (r : res bytes) (transfer_id : string) (total_size chunk_size : Z) : State :=
  match r with
  | Ok b => match from_slice b with
            | Some s => if state_matches s transfer_id total_size chunk_size
                        then s else fresh_state transfer_id total_size chunk_size
            | None => fresh_state transfer_id total_size chunk_size
            end
  | _ => fresh_state transfer_id total_size chunk_size
  end.
(** From opening [data] on. *)
Definition open_data (d : path) (total_size : Z) (st : State) : io Store :=
  let dp := join d "data" in
  _ ← open_rw dp (bool_decide (st_have st = ∅));
  _ ← file_set_len dp total_size;
  let store := {| dir := d; data_path := dp; state_path := join d "state.json"; state := st |} in
  _ ← persist_state store;
  mret store.
Definition open_or_create (out_dir : path) (name transfer_id : string)
    (total_size chunk_size : Z) : io Store :=
  let d := join out_dir (name +:+ ".b2p-partial") in
  _ ← create_dir_all d;
  r ← io_try (fs_read (join d "state.json"));
  open_data d total_size (load_state r transfer_id total_size chunk_size).

(** [write_chunk(&mut self, ..)]: the result, and the store as mutated. *)
Definition write_chunk (s : Store) (index : Z) (plaintext : bytes) (f : fs)
    : (res unit * Store) * fs :=
  match total_chunks s with
  | Ok n =>
      if n <=? index then
        ((Err (EMsg ("chunk index " +:+ show index +:+ " out of range")), s), f)
      else
        match expected_len s index with
        | Ok el =>
            if negb (zlen plaintext =? el) then
              ((Err (EMsg ("chunk " +:+ show index +:+ " has wrong length "
                           +:+ show (zlen plaintext) +:+ " (expected " +:+ show el +:+ ")")), s), f)
            else
              match file_write_at (data_path s) (index * st_chunk_size (state s))%u64 plaintext f with
              | (Ok _, f1) =>
                  let s1 := insert_have index s in
                  let (r, f2) := persist_state s1 f1 in ((r, s1), f2)
              | (Err e, f1) => ((Err e, s), f1)
              | (Panic, f1) => ((Panic, s), f1)
              end
        | Err e => ((Err e, s), f)
        | Panic => ((Panic, s), f)
        end
  | Err e => ((Err e, s), f)
  | Panic => ((Panic, s), f)
  end.

(** The read loop of [file_hash] (and of the two [blake3_file]s): a 1 MiB
    buffer at a time. *)
Definition HASH_BUF : Z := 1024 * 1024.
Fixpoint hash_loop (fuel : nat) (h : hasher) (rest : bytes) : hasher :=
  match fuel with
  | O => h
  | S fuel' =>
      let buf := take (Z.to_nat HASH_BUF) rest in
      match buf with
      | [] => h
      | _ => hash_loop fuel' (hasher_update h buf) (drop (Z.to_nat HASH_BUF) rest)
      end
  end.
Definition hash_reader (content : bytes) : string :=
  hex_encode (hasher_finalize (hash_loop (S (length content)) hasher_new content)).

Definition file_hash (s : Store) : io string :=
  b ← fs_read (data_path s); mret (hash_reader b).

Definition finalize_file (s : Store) (dest : path) : io unit :=
  _ ← io_context ("moving download into place at " +:+ display dest) (fs_rename (data_path s) dest);
  remove_dir_all (dir s).

Definition cleanup (s : Store) : io unit := remove_dir_all (dir s).
End store.

(** ** Chunks of a content *)

Lemma hash_loop_spec `{Blake3} fuel h c :
  (length c < fuel)%nat -> hash_loop fuel h c = hasher_update h c.
Proof.
  assert (Hp : (0 < Z.to_nat HASH_BUF)%nat) by (apply (Z2Nat.inj_lt 0); done).
  unfold hash_loop. generalize dependent (Z.to_nat HASH_BUF). intros m Hm.
  revert h c. induction fuel as [|fuel IH]; intros h c Hc; [lia|].
  destruct c as [|x c].
  - rewrite take_nil. by rewrite hasher_update_nil.
  - destruct m as [|m]; [lia|]. cbn [take drop]. rewrite IH.
    + rewrite hasher_update_app. cbn [app]. by rewrite take_drop.
    + rewrite length_drop. simpl in Hc. lia.
Qed.
(** Hashing a file a buffer at a time is hashing it at once. *)
Lemma hash_reader_spec `{Blake3} c : hash_reader c = hex_encode (blake3_hash c).
Proof. unfold hash_reader, blake3_hash. by rewrite hash_loop_spec by lia. Qed.

(** Chunk [i] of a content, the last one shorter. *)
Definition chunk (cs i : Z) (content : bytes) : bytes := slice (i * cs) cs content.
(** The number of chunks. *)
Definition n_chunks (cs : Z) (content : bytes) : Z := cdiv (zlen content) cs.

Lemma zlen_chunk cs i content : 0 < cs -> 0 <= i < n_chunks cs content ->
  zlen (chunk cs i content) = Z.min cs (zlen content - i * cs).
Proof.
  intros Hc Hi. unfold chunk. rewrite zlen_slice_min by nia.
  destruct (cdiv_lt i (zlen content) cs ltac:(lia) ltac:(apply zlen_nonneg) Hc) as [H1 _].
  unfold n_chunks in Hi. specialize (H1 ltac:(lia)). lia.
Qed.
Lemma chunk_in_range cs i content : 0 < cs -> 0 <= i < n_chunks cs content ->
  0 <= i * cs < zlen content /\ i * cs + zlen (chunk cs i content) <= zlen content.
Proof.
  intros Hc Hi. rewrite zlen_chunk by done. pose proof (zlen_nonneg content).
  destruct (cdiv_lt i (zlen content) cs ltac:(lia) ltac:(lia) Hc) as [H1 _].
  unfold n_chunks in Hi. specialize (H1 ltac:(lia)). nia.
Qed.
(** A content is its chunks. *)
Lemma chunks_determine cs a b : 0 < cs -> zlen a = zlen b ->
  (forall i, 0 <= i < n_chunks cs b -> chunk cs i a = chunk cs i b) -> a = b.
Proof.
  intros Hc Hl He. apply list_eq. intros k.
  destruct (decide (Z.of_nat k < zlen b)) as [Hk|Hk].
  - pose proof (Z.div_mod (Z.of_nat k) cs ltac:(lia)) as Hd.
    pose proof (Z.mod_pos_bound (Z.of_nat k) cs Hc).
    pose proof (Z.div_pos (Z.of_nat k) cs ltac:(lia) Hc).
    specialize (He (Z.of_nat k / cs)). unfold n_chunks in He.
    rewrite cdiv_lt in He by (pose proof (zlen_nonneg b); lia).
    specialize (He ltac:(nia)). unfold chunk in He. rewrite slice_ext in He by nia. apply He. nia.
  - unfold zlen in *. rewrite !lookup_ge_None_2 by lia. done.
Qed.

(** [data] holds the chunks [h] of [content]. *)
Definition staged (cs : Z) (content : bytes) (h : gset Z) (data : bytes) : Prop :=
  zlen data = zlen content
  /\ forall i, i ∈ h -> 0 <= i < n_chunks cs content /\ chunk cs i data = chunk cs i content.

Lemma staged_mono cs content h h' data : h' ⊆ h -> staged cs content h data -> staged cs content h' data.
Proof. intros Hs [Hl Hc]. split; [done|]. intros i Hi. by apply Hc, Hs. Qed.

(** Writing (a part of) a chunk where it belongs keeps what is staged. *)
Lemma staged_write cs content h data i k :
  0 < cs -> 0 <= i < n_chunks cs content -> staged cs content h data ->
  staged cs content h (write_at (i * cs) (take k (chunk cs i content)) data).
Proof.
  intros Hc Hi [Hl Hs]. destruct (chunk_in_range cs i content Hc Hi) as [H1 H2].
  assert (Hk : zlen (take k (chunk cs i content)) <= zlen (chunk cs i content)).
  { unfold zlen. rewrite length_take. lia. }
  split; [by rewrite zlen_write_at by lia|].
  intros j Hj. destruct (Hs j Hj) as [Hjr Hjc]. split; [done|].
  unfold chunk in Hjc |- *. rewrite slice_ext in Hjc |- * by nia. intros p Hp.
  set (new := take k _) in *.
  destruct (decide (i * cs <= Z.of_nat p < i * cs + zlen new)) as [Hin|Hout].
  - rewrite lookup_write_at_eq by lia. unfold new. rewrite lookup_take_lt.
    + unfold chunk. rewrite lookup_slice by (pose proof (zlen_chunk cs i content Hc Hi); lia).
      f_equal. lia.
    + unfold new, zlen in Hin. rewrite length_take in Hin. lia.
  - rewrite lookup_write_at_ne by lia. by apply Hjc.
Qed.
(** Once it is written in full it is staged too. *)
Lemma staged_insert cs content h data i :
  0 < cs -> 0 <= i < n_chunks cs content -> staged cs content h data ->
  staged cs content ({[i]} ∪ h) (write_at (i * cs) (chunk cs i content) data).
Proof.
  intros Hc Hi Hs. destruct (chunk_in_range cs i content Hc Hi) as [H1 H2].
  pose proof (staged_write cs content h data i (length (chunk cs i content)) Hc Hi Hs) as Hw.
  rewrite take_ge in Hw by lia. destruct Hs as [Hl _]. destruct Hw as [Hw1 Hw2].
  split; [done|]. intros j [->%elem_of_singleton|Hj]%elem_of_union; [|by apply Hw2].
  split; [done|]. unfold chunk at 1 3. apply slice_ext; [lia|]. intros p Hp.
  destruct (decide (Z.of_nat p < i * cs + zlen (chunk cs i content))).
  - rewrite lookup_write_at_eq by lia. unfold chunk.
    rewrite lookup_slice by lia. f_equal. lia.
  - pose proof (zlen_chunk cs i content Hc Hi).
    rewrite !lookup_ge_None_2; [done|unfold zlen in *; lia|].
    unfold zlen in *. lia.
Qed.
(** All chunks staged: the data is the content. *)
Lemma staged_complete cs content h data :
  0 < cs -> staged cs content h data -> Z.of_nat (size h) = n_chunks cs content -> data = content.
Proof.
  intros Hc [Hl Hs] Hn. apply (chunks_determine cs); [done..|].
  intros i Hi. apply Hs.
  apply (bounded_set_size h (n_chunks cs content)); [|by intros j [? _]%Hs|done|done].
  apply cdiv_nonneg; [apply zlen_nonneg|done].
Qed.

(** ** The store of one transfer *)

Section transfer.
Context `{!Serde State} `{Blake3}.
(** A transfer [tid] of [content], staged in the directory [d]. *)
Variables (d : path) (tid : string) (cs : Z) (content : bytes).
Hypothesis Hcs : 0 < cs < U64.
Hypothesis Hlen : zlen content < U64.

Definition data_file : path := d ++ ["data"].
Definition state_file : path := d ++ ["state.json"].
Definition tmp_file : path := d ++ ["state.json.tmp"].

Lemma join_data : join d "data" = data_file.
Proof. by apply join_plain. Qed.
Lemma join_state : join d "state.json" = state_file.
Proof. by apply join_plain. Qed.
Lemma join_tmp : join d "state.json.tmp" = tmp_file.
Proof. by apply join_plain. Qed.
Lemma data_state_ne : data_file <> state_file.
Proof. by intros [=]%app_inv_head_iff. Qed.
Lemma data_tmp_ne : data_file <> tmp_file.
Proof. by intros [=]%app_inv_head_iff. Qed.
Lemma state_tmp_ne : state_file <> tmp_file.
Proof. by intros [=]%app_inv_head_iff. Qed.
Hint Resolve data_state_ne data_tmp_ne state_tmp_ne : core.

(** The store is one of this transfer. *)
Definition store_ok (s : Store) : Prop :=
  dir s = d /\ data_path s = data_file /\ state_path s = state_file
  /\ state_matches (state s) tid (zlen content) cs = true /\ wire_ok (state s).
(** Every chunk a state file of this transfer lists is in [data]. *)
Definition disk_inv (n : gmap path node) : Prop :=
  forall b st, file_at n state_file = Some b -> from_slice b = Some st ->
  state_matches st tid (zlen content) cs = true ->
  st_have st = ∅ \/ exists data, file_at n data_file = Some data /\ staged cs content (st_have st) data.
(** And every chunk the open store lists. *)
Definition store_inv (s : Store) (n : gmap path node) : Prop :=
  store_ok s /\ disk_inv n
  /\ exists data, file_at n data_file = Some data /\ staged cs content (st_have (state s)) data.

Lemma state_matches_spec st :
  state_matches st tid (zlen content) cs = true ->
  st_transfer_id st = tid /\ st_total_size st = zlen content /\ st_chunk_size st = cs.
Proof.
  unfold state_matches. rewrite !andb_true_iff, !Z.eqb_eq, String.eqb_eq. tauto.
Qed.
Lemma total_chunks_ok s : store_ok s -> total_chunks s = Ok (n_chunks cs content).
Proof.
  intros (_ & _ & _ & (_ & E1 & E2)%state_matches_spec & _).
  unfold total_chunks. rewrite E1, E2. by apply div_ceil_ok; lia.
Qed.
Lemma n_chunks_range : 0 <= n_chunks cs content <= zlen content.
Proof. pose proof (zlen_nonneg content). split; [by apply cdiv_nonneg; lia|by apply cdiv_le; lia]. Qed.
Lemma expected_len_ok s i : store_ok s -> 0 <= i < n_chunks cs content ->
  expected_len s i = Ok (zlen (chunk cs i content)).
Proof.
  intros Hs Hi. unfold expected_len. rewrite total_chunks_ok by done. simpl.
  destruct Hs as (_ & _ & _ & (_ & E1 & E2)%state_matches_spec & _). rewrite E1, E2.
  pose proof n_chunks_range. pose proof (zlen_nonneg content).
  pose proof (cdiv_spec (zlen content) cs ltac:(lia) ltac:(lia)) as Hc.
  pose proof (cdiv_mul_ge (zlen content) cs ltac:(lia) ltac:(lia)). unfold n_chunks in *.
  destruct Hc as [Hc|]; [|lia].
  rewrite !(wrap64_small (cdiv _ _ - 1)) by (unfold u64_ok; lia).
  rewrite (wrap64_small (_ * cs)) by (unfold u64_ok; nia).
  rewrite wrap64_small by (unfold u64_ok; nia).
  unfold mret, res_ret. f_equal. rewrite zlen_chunk by (unfold n_chunks; lia).
  destruct (Z.ltb_spec i (cdiv (zlen content) cs - 1)); [nia|]. replace i with (cdiv (zlen content) cs - 1) by lia. nia.
Qed.
Lemma offset_ok s i : store_ok s -> 0 <= i < n_chunks cs content ->
  (i * st_chunk_size (state s))%u64 = i * cs.
Proof.
  intros (_ & _ & _ & (_ & _ & E2)%state_matches_spec & _) Hi. rewrite E2.
  destruct (chunk_in_range cs i content ltac:(lia) Hi) as [? _].
  by rewrite wrap64_small by (unfold u64_ok; lia).
Qed.
Lemma insert_have_ok s i : store_ok s -> 0 <= i < n_chunks cs content -> store_ok (insert_have i s).
Proof.
  intros (? & ? & ? & ? & ? & ? & ?) Hi. pose proof n_chunks_range. repeat (split; [done|]).
  intros j [->%elem_of_singleton|Hj]%elem_of_union; [unfold u64_ok; lia|by auto].
Qed.

(** Changing only [data], for the better, keeps the disk invariant. *)
Lemma disk_inv_data n n' :
  disk_inv n -> file_at n' state_file = file_at n state_file ->
  (forall data h, file_at n data_file = Some data -> staged cs content h data ->
     exists data', file_at n' data_file = Some data' /\ staged cs content h data') ->
  disk_inv n'.
Proof.
  intros Hd He Hdata b st Hb Hst Hm. rewrite He in Hb.
  destruct (Hd b st Hb Hst Hm) as [?|(data & H1 & H2)]; [by left|right]. by eapply Hdata.
Qed.
(** Neither do other files matter. *)
Lemma disk_inv_same n n' :
  disk_inv n -> file_at n' state_file = file_at n state_file ->
  file_at n' data_file = file_at n data_file -> disk_inv n'.
Proof. intros Hd H1 H2. eapply disk_inv_data; [done..|]. rewrite H2. by eauto. Qed.

Definition has_staged (h : gset Z) (n : gmap path node) : Prop :=
  exists data, file_at n data_file = Some data /\ staged cs content h data.

(** [persist_state] replaces the state file in one step. *)
Lemma persist_state_triple s :
  store_ok s ->
  triple (fun n => disk_inv n /\ has_staged (st_have (state s)) n) (persist_state s)
    (fun _ n => store_inv s n) (fun n => disk_inv n /\ has_staged (st_have (state s)) n).
Proof.
  intros Hok. pose proof Hok as (Hdir & Hdp & Hsp & Hm & Hw). unfold persist_state, tmp_path.
  rewrite Hdir, Hsp, join_tmp.
  set (P := fun n => disk_inv n /\ has_staged (st_have (state s)) n).
  assert (HP : forall n c, P n -> P (upd n tmp_file c)).
  { intros n c [H1 (data & H2 & H3)]. split.
    - apply (disk_inv_same n); [done|by autorewrite with disk..].
    - exists data. by autorewrite with disk. }
  eapply (triple_bind _ _ _ (fun _ n => P n /\ file_at n tmp_file = Some (to_vec (state s)))).
  - apply triple_fs_write; [done| |by auto].
    intros n Hn. split; [by apply HP|by autorewrite with disk].
  - intros []. apply triple_rename; [by intros n [? _]|].
    intros n b [[H1 (data & H2 & H3)] Ht] Hb. simpl. rewrite Ht in Hb. injection Hb as <-.
    assert (Hn : store_inv s (upd (delete tmp_file n) state_file (to_vec (state s)))).
    { split; [done|]. split.
      - intros b st Hb Hst _. autorewrite with disk in Hb. injection Hb as <-.
        rewrite from_to_vec in Hst by done. injection Hst as <-. right.
        exists data. by autorewrite with disk.
      - exists data. by autorewrite with disk. }
    split; [done|]. destruct Hn as (_ & ? & ?). done.
Qed.

(** [write_chunk] of an honest chunk, whatever fails on the way. *)
Lemma write_chunk_inv s i f :
  0 <= i < n_chunks cs content -> store_inv s (nodes f) ->
  match write_chunk s i (chunk cs i content) f with
  | ((r, s'), f') =>
      r <> Panic /\ store_inv s' (nodes f') /\ st_have (state s) ⊆ st_have (state s')
      /\ (r = Ok tt -> i ∈ st_have (state s'))
  end.
Proof.
  intros Hi (Hok & Hd & Hdata). unfold write_chunk. rewrite total_chunks_ok by done.
  destruct (Z.leb_spec (n_chunks cs content) i); [lia|].
  rewrite expected_len_ok, Z.eqb_refl by done. simpl. rewrite offset_ok by done.
  pose proof Hok as (_ & Hdp & _). rewrite Hdp.
  pose proof (triple_write_at data_file (i * cs) (chunk cs i content)
    (fun n => disk_inv n /\ has_staged (st_have (state s)) n)
    (fun _ n => disk_inv n /\ has_staged ({[i]} ∪ st_have (state s)) n)
    (fun n => disk_inv n /\ has_staged (st_have (state s)) n)) as Hw.
  assert (Hpart : forall n c k, disk_inv n -> file_at n data_file = Some c ->
    disk_inv (upd n data_file (write_at (i * cs) (take k (chunk cs i content)) c))).
  { intros n c k H1 H2. eapply disk_inv_data; [done|by autorewrite with disk|].
    intros data h Hh Hs. eexists. split; [by autorewrite with disk|].
    rewrite H2 in Hh. injection Hh as ->. apply staged_write; [lia|done..]. }
  specialize (Hw ltac:(done)).
  ospecialize (Hw _ _).
  { intros n c [H1 (data & H2 & H3)] Hc. rewrite Hc in H2. injection H2 as ->. split.
    - rewrite <- (take_ge (chunk cs i content) (length (chunk cs i content))) by lia. by apply Hpart.
    - eexists. split; [by autorewrite with disk|]. apply staged_insert; [lia|done..]. }
  { intros n c k [H1 (data & H2 & H3)] Hc. rewrite Hc in H2. injection H2 as ->. split.
    - by apply Hpart.
    - eexists. split; [by autorewrite with disk|]. apply staged_write; [lia|done..]. }
  specialize (Hw f (conj Hd Hdata)).
  destruct (file_write_at data_file (i * cs) (chunk cs i content) f) as [[[]|e|] f1]; [|by destruct Hw|done].
  pose proof (persist_state_triple (insert_have i s) (insert_have_ok s i Hok Hi) f1) as Hp.
  simpl in Hp. specialize (Hp Hw).
  destruct (persist_state (insert_have i s) f1) as [[[]|e|] f2]; simpl; [| |done].
  - split; [done|]. split; [done|]. split; [apply union_subseteq_r|]. intros _.
    apply elem_of_union. left. by apply elem_of_singleton.
  - split; [done|]. split; [|split; [apply union_subseteq_r|done]]. split; [by apply insert_have_ok|]. done.
Qed.

Lemma fresh_matches : state_matches (fresh_state tid (zlen content) cs) tid (zlen content) cs = true.
Proof. unfold state_matches. simpl. by rewrite String.eqb_refl, !Z.eqb_refl. Qed.
Lemma fresh_wire : wire_ok (fresh_state tid (zlen content) cs).
Proof.
  pose proof (zlen_nonneg content). split; [unfold u64_ok; simpl; lia|].
  split; [unfold u64_ok; simpl; lia|]. by intros j ?%elem_of_empty.
Qed.
Lemma load_state_ok r :
  let st := load_state r tid (zlen content) cs in
  state_matches st tid (zlen content) cs = true /\ wire_ok st.
Proof.
  unfold load_state. destruct r as [b|e|]; [|by split; [apply fresh_matches|apply fresh_wire]..].
  destruct (from_slice b) as [s|] eqn:E; [|by split; [apply fresh_matches|apply fresh_wire]].
  destruct (state_matches s tid (zlen content) cs) eqn:Em; [|by split; [apply fresh_matches|apply fresh_wire]].
  split; [done|]. by eapply from_slice_ok.
Qed.

(** What was read of the state file, and the data it speaks of. *)
Definition loaded (st : State) (n : gmap path node) : Prop :=
  st = load_state (match file_at n state_file with Some b => Ok b | None => Err io_error end)
    tid (zlen content) cs.

Lemma staged_empty data : zlen data = zlen content -> staged cs content ∅ data.
Proof. intros. split; [done|]. by intros i ?%elem_of_empty. Qed.

(** A state file of this transfer is the one that was loaded. *)
Lemma loaded_have st n b st' :
  loaded st n -> file_at n state_file = Some b -> from_slice b = Some st' ->
  state_matches st' tid (zlen content) cs = true -> st = st'.
Proof. intros -> Hb Hs Hm. rewrite Hb. simpl. by rewrite Hs, Hm. Qed.
Lemma loaded_staged st n :
  loaded st n -> disk_inv n ->
  st_have st = ∅ \/ has_staged (st_have st) n.
Proof.
  intros Hl Hd. unfold loaded in Hl. unfold disk_inv in Hd.
  destruct (file_at n state_file) as [b|]; [|by left; rewrite Hl]. simpl in Hl.
  destruct (from_slice b) as [s|] eqn:E; [|by left; rewrite Hl].
  destruct (state_matches s tid (zlen content) cs) eqn:Em; [|by left; rewrite Hl].
  subst s. by apply (Hd b).
Qed.

(** The rest of [open_or_create] under any faults: what the state file lists
    stays in [data]. *)
Lemma open_data_triple st :
  state_matches st tid (zlen content) cs = true -> wire_ok st ->
  triple (fun n => disk_inv n /\ loaded st n) (open_data d (zlen content) st)
    (fun s n => store_inv s n /\ state s = st) disk_inv.
Proof.
  intros Hm Hw. unfold open_data. rewrite join_data, join_state.
  set (P := fun n => disk_inv n /\ loaded st n /\ (exists data, file_at n data_file = Some data)
    /\ (st_have st = ∅ \/ has_staged (st_have st) n)).
  assert (Hopen : forall n, disk_inv n -> loaded st n ->
    P (upd n data_file (if bool_decide (st_have st = ∅) then [] else default [] (file_at n data_file)))).
  { intros n H1 H2. assert (Hl : loaded st (upd n data_file
      (if bool_decide (st_have st = ∅) then [] else default [] (file_at n data_file)))).
    { unfold loaded. by autorewrite with disk. }
    case_bool_decide as He.
    - split; [|split; [done|split; [eexists; by autorewrite with disk|by left]]].
      intros b s Hb Hs Hms. left. autorewrite with disk in Hb.
      by rewrite <- (loaded_have st n b s).
    - destruct (loaded_staged st n H2 H1) as [?|(data & Hd1 & Hd2)]; [done|].
      rewrite Hd1 in *. simpl in *.
      split; [|split; [done|split; [eexists; by autorewrite with disk|]]].
      + apply (disk_inv_same n); [done|by autorewrite with disk..].
      + right. exists data. by autorewrite with disk. }
  eapply (triple_bind _ _ _ (fun _ n => P n)).
  { apply triple_open_rw; [by intros n [? _]|]. intros n [H1 H2].
    split; [by apply Hopen|by apply Hopen]. }
  intros []. eapply (triple_bind _ _ _ (fun _ n => disk_inv n /\ has_staged (st_have st) n)).
  { apply triple_set_len; [by intros n [? _]|]. intros n b (H1 & H2 & _ & H4) Hb.
    assert (Hd : disk_inv (upd n data_file (set_len (zlen content) b))).
    { eapply disk_inv_data; [done|by autorewrite with disk|]. intros data h Hh [Hl Hs].
      rewrite Hb in Hh. injection Hh as ->. exists data.
      autorewrite with disk. by rewrite set_len_id. }
    split; [|done]. split; [done|]. destruct H4 as [He|(data & Hd1 & Hd2)].
    - eexists. split; [by autorewrite with disk|]. rewrite He. apply staged_empty.
      apply zlen_set_len, zlen_nonneg.
    - rewrite Hb in Hd1. injection Hd1 as ->. exists data. autorewrite with disk.
      rewrite set_len_id by apply Hd2. done. }
  intros [].
  set (s := {| dir := d; data_path := data_file; state_path := state_file; state := st |}).
  assert (Hok : store_ok s) by (repeat (split; [done|]); done).
  eapply (triple_bind _ _ _ (fun _ n => store_inv s n)).
  { eapply triple_weaken; [by apply persist_state_triple|done|done|by intros n [? _]]. }
  intros []. by apply triple_ret.
Qed.

(** From whatever disk: once [persist_state] has succeeded, what the store
    lists is on it. *)
Lemma persist_state_makes s :
  store_ok s -> triple (has_staged (st_have (state s))) (persist_state s) (fun _ => store_inv s) (fun _ => True).
Proof.
  intros Hok. pose proof Hok as (Hdir & Hdp & Hsp & Hm & Hw). unfold persist_state, tmp_path.
  rewrite Hdir, Hsp, join_tmp.
  eapply (triple_bind _ _ _ (fun _ n => has_staged (st_have (state s)) n /\ file_at n tmp_file = Some (to_vec (state s)))).
  - apply triple_fs_write; [done| |done]. intros n (data & H2 & H3).
    split; [exists data; by autorewrite with disk|by autorewrite with disk].
  - intros []. apply triple_rename; [done|].
    intros n b [(data & H2 & H3) Ht] Hb. simpl. rewrite Ht in Hb. injection Hb as <-. split; [|done].
    split; [done|]. split; [|exists data; by autorewrite with disk].
    intros b st Hb Hst _. autorewrite with disk in Hb. injection Hb as <-.
    rewrite from_to_vec in Hst by done. injection Hst as <-. right. exists data. by autorewrite with disk.
Qed.
(** An opening that starts afresh, if it succeeds. *)
Lemma open_data_fresh :
  triple (fun _ => True) (open_data d (zlen content) (fresh_state tid (zlen content) cs)) store_inv (fun _ => True).
Proof.
  unfold open_data. rewrite join_data, join_state. rewrite bool_decide_true by done.
  eapply (triple_bind _ _ _ (fun _ _ => True)); [by apply triple_open_rw|].
  intros []. eapply (triple_bind _ _ _ (fun _ => has_staged ∅)).
  { apply triple_set_len; [done|]. intros n b _ Hb. split; [|done]. eexists. split; [by autorewrite with disk|].
    apply staged_empty, zlen_set_len, zlen_nonneg. }
  intros []. set (s := {| dir := d; data_path := data_file; state_path := state_file; state := fresh_state tid (zlen content) cs |}).
  eapply (triple_bind _ _ _ (fun _ => store_inv s)); [|intros []; by apply triple_ret].
  apply (persist_state_makes s). repeat (split; [done|]). split; [apply fresh_matches|apply fresh_wire].
Qed.
(** Opening data some of whose chunks are listed leaves its content alone. *)
Lemma open_data_same st data : st_have st <> ∅ -> zlen data = zlen content ->
  triple (fun n => file_at n data_file = Some data) (open_data d (zlen content) st)
    (fun _ n => file_at n data_file = Some data) (fun n => file_at n data_file = Some data).
Proof.
  intros Hne Hl. unfold open_data. rewrite join_data, join_state. rewrite bool_decide_false by done.
  set (P := fun n => file_at n data_file = Some data).
  eapply (triple_bind _ _ _ (fun _ => P)).
  { apply triple_open_rw; [done|]. intros n Hn. unfold P in *. cbn zeta. rewrite Hn. by autorewrite with disk. }
  intros []. eapply (triple_bind _ _ _ (fun _ => P)).
  { apply triple_set_len; [done|]. intros n b Hn Hb. unfold P in *. cbn zeta.
    replace b with data by congruence. rewrite set_len_id by done. by autorewrite with disk. }
  intros []. eapply (triple_bind _ _ _ (fun _ => P)); [|intros []; by apply triple_ret].
  unfold persist_state, tmp_path. cbn [dir state_path]. rewrite join_tmp.
  eapply (triple_bind _ _ _ (fun _ => P)); [apply triple_fs_write; unfold P; intros; by autorewrite with disk|].
  intros []. apply triple_rename; unfold P; [done|]. intros n b Hn _. cbn zeta. by autorewrite with disk.
Qed.

(** When nothing fails, nothing stops the operations but a directory where a
    file should be. *)
Definition usable (n : gmap path node) : Prop :=
  n !! d = Some Dir /\ n !! data_file <> Some Dir /\ n !! state_file <> Some Dir
  /\ n !! tmp_file <> Some Dir.

Lemma d_snoc_ne x : d ++ [x] <> d.
Proof. intros E%(f_equal length). rewrite length_app in E. simpl in E. lia. Qed.
Lemma usable_upd n x b : usable n -> usable (upd n (d ++ [x]) b).
Proof.
  intros (H1 & H2 & H3 & H4).
  assert (H5 : forall q, n !! q <> Some Dir -> upd n (d ++ [x]) b !! q <> Some Dir).
  { intros q Hq. destruct (decide (d ++ [x] = q)) as [<-|]; [by rewrite lookup_insert_eq|by rewrite lookup_insert_ne]. }
  split; [|by auto]. rewrite lookup_insert_ne; [done|apply d_snoc_ne].
Qed.
Lemma usable_delete n x : usable n -> usable (delete (d ++ [x]) n).
Proof.
  intros (H1 & H2 & H3 & H4).
  assert (H5 : forall q, n !! q <> Some Dir -> delete (d ++ [x]) n !! q <> Some Dir).
  { intros q Hq. destruct (decide (d ++ [x] = q)) as [<-|]; [by rewrite lookup_delete_eq|by rewrite lookup_delete_ne]. }
  split; [|by auto]. rewrite lookup_delete_ne; [done|apply d_snoc_ne].
Qed.
Lemma usable_parent n x : usable n -> is_dir n (parent (d ++ [x])) = true.
Proof.
  intros (H1 & _). unfold parent. rewrite removelast_last. unfold is_dir.
  destruct d; [done|]. by rewrite bool_decide_eq_true.
Qed.

(** The state file holds the open store's state. *)
Definition saved (s : Store) (n : gmap path node) : Prop := file_at n state_file = Some (to_vec (state s)).
Lemma persist_state_saves s : store_ok s -> runs usable (persist_state s) (fun _ n => usable n /\ saved s n).
Proof.
  intros (Hdir & _ & Hsp & _). unfold persist_state, tmp_path, saved. rewrite Hdir, Hsp, join_tmp.
  eapply (runs_bind _ _ _ (fun _ n => usable n /\ file_at n tmp_file = Some (to_vec (state s)))).
  - apply runs_fs_write. intros n Hn. pose proof Hn as (H1 & H2 & H3 & H4).
    split; [done|]. split; [by apply usable_parent|]. split; [by apply usable_upd|by autorewrite with disk].
  - intros []. apply runs_rename. intros n [Hn Ht]. pose proof Hn as (H1 & H2 & H3 & H4).
    eexists. split; [done|]. split; [done|]. split; [by apply usable_parent|].
    split; [by apply usable_upd, usable_delete|by autorewrite with disk].
Qed.
Lemma persist_state_runs s : store_ok s -> runs usable (persist_state s) (fun _ => usable).
Proof. intros Hs. eapply runs_weaken; [by apply persist_state_saves|done|]. by intros ? ? []. Qed.
Lemma write_chunk_runs s i f :
  0 <= i < n_chunks cs content -> store_inv s (nodes f) -> faults f = [] -> usable (nodes f) ->
  exists f', write_chunk s i (chunk cs i content) f = ((Ok tt, insert_have i s), f')
    /\ faults f' = [] /\ usable (nodes f').
Proof.
  intros Hi (Hok & Hd & data & Hdata & Hst) Hf Hu. unfold write_chunk. rewrite total_chunks_ok by done.
  destruct (Z.leb_spec (n_chunks cs content) i); [lia|].
  rewrite expected_len_ok, Z.eqb_refl by done. simpl. rewrite offset_ok by done.
  pose proof Hok as (_ & Hdp & _). rewrite Hdp.
  destruct (runs_write_at data_file (i * cs) (chunk cs i content) (fun n => usable n /\ file_at n data_file = Some data)
    (fun _ => usable)) with (s := f) as (a & f1 & -> & Hf1 & Hu1); [|done|done|].
  { intros n [Hn1 Hn2]. exists data. split; [done|by apply usable_upd]. }
  destruct (persist_state_runs (insert_have i s) (insert_have_ok s i Hok Hi) f1 Hf1 Hu1) as ([] & f2 & -> & ? & ?).
  eauto.
Qed.
Lemma write_chunk_saves s i f :
  0 <= i < n_chunks cs content -> store_inv s (nodes f) -> faults f = [] -> usable (nodes f) ->
  saved (insert_have i s) (nodes (write_chunk s i (chunk cs i content) f).2).
Proof.
  intros Hi (Hok & Hd & data & Hdata & Hst) Hf Hu. unfold write_chunk. rewrite total_chunks_ok by done.
  destruct (Z.leb_spec (n_chunks cs content) i); [lia|].
  rewrite expected_len_ok, Z.eqb_refl by done. simpl. rewrite offset_ok by done.
  pose proof Hok as (_ & Hdp & _). rewrite Hdp.
  destruct (runs_write_at data_file (i * cs) (chunk cs i content) (fun n => usable n /\ file_at n data_file = Some data)
    (fun _ => usable)) with (s := f) as (a & f1 & -> & Hf1 & Hu1); [|done|done|].
  { intros n [Hn1 Hn2]. exists data. split; [done|by apply usable_upd]. }
  destruct (persist_state_saves (insert_have i s) (insert_have_ok s i Hok Hi) f1 Hf1 Hu1) as ([] & f2 & -> & _ & _ & ?).
  done.
Qed.
Lemma open_data_saves st :
  state_matches st tid (zlen content) cs = true -> wire_ok st ->
  runs usable (open_data d (zlen content) st) (fun s n => (usable n /\ state s = st) /\ saved s n).
Proof.
  intros Hm Hw. unfold open_data. rewrite join_data, join_state.
  eapply (runs_bind _ _ _ (fun _ n => usable n /\ exists b, file_at n data_file = Some b)).
  { apply runs_open_rw. intros n Hn. pose proof Hn as (H1 & H2 & H3 & H4).
    split; [done|]. split; [by apply usable_parent|]. split; [by apply usable_upd|].
    eexists. by autorewrite with disk. }
  intros []. eapply (runs_bind _ _ _ (fun _ => usable)).
  { apply runs_set_len. intros n [Hn [b Hb]]. exists b. split; [done|]. by apply usable_upd. }
  intros []. set (s := {| dir := d; data_path := _; state_path := _; state := st |}).
  eapply (runs_bind _ _ _ (fun _ n => usable n /\ saved s n)); [by apply persist_state_saves|].
  intros []. apply runs_ret. by intros n [].
Qed.
Lemma open_data_runs st :
  state_matches st tid (zlen content) cs = true -> wire_ok st ->
  runs usable (open_data d (zlen content) st) (fun s n => usable n /\ state s = st).
Proof. intros Hm Hw. eapply runs_weaken; [by apply open_data_saves|done|]. by intros ? ? []. Qed.
Lemma persist_exact s n : store_ok s -> usable n ->
  persist_state s (Fs n []) = (Ok tt, Fs (upd (delete tmp_file n) state_file (to_vec (state s))) []).
Proof.
  intros (Hdir & _ & Hsp & _) Hu. pose proof Hu as (H1 & H2 & H3 & H4).
  pose proof (usable_upd n "state.json.tmp" (to_vec (state s)) Hu) as (_ & _ & Hu' & _).
  unfold persist_state, tmp_path. rewrite Hdir, Hsp, join_tmp.
  assert (Ew : fs_write tmp_file (to_vec (state s)) (Fs n []) = (Ok tt, Fs (upd n tmp_file (to_vec (state s))) [])).
  { unfold fs_write, sys, put_file. cbn [faults nodes].
    rewrite (usable_parent n "state.json.tmp" Hu : is_dir n (parent tmp_file) = true).
    by destruct (n !! tmp_file) as [[|b]|]. }
  unfold mbind, io_bind. rewrite Ew. unfold fs_rename, sys, rename_file. cbn [faults nodes].
  rewrite lookup_insert_eq, delete_insert_eq.
  rewrite (usable_parent _ "state.json" (usable_upd n "state.json.tmp" (to_vec (state s)) Hu)
           : is_dir (upd n tmp_file _) (parent state_file) = true).
  destruct (upd n tmp_file _ !! state_file) as [[|b]|] eqn:E; [by destruct (Hu' E)|done..].
Qed.
Lemma write_persist s n : store_ok s -> usable n ->
  exists n', persist_state s (Fs n []) = (Ok tt, Fs n' [])
    /\ file_at n' state_file = Some (to_vec (state s))
    /\ file_at n' data_file = file_at n data_file
    /\ forall q, q <> state_file -> q <> tmp_file -> n' !! q = n !! q.
Proof.
  intros Hs Hu. eexists. split; [by apply persist_exact|]. split; [by autorewrite with disk|].
  split; [by autorewrite with disk|]. intros q Hq1 Hq2. by rewrite lookup_insert_ne, lookup_delete_ne.
Qed.
End transfer.

(** ** The operations, over a directory *)

Section directory.
Context `{!Serde State} `{Blake3}.
Variables (out : path) (name tid : string) (cs : Z) (content : bytes).
Hypothesis Hcs : 0 < cs < U64.
Hypothesis Hlen : zlen content < U64.

(** [<out>/<name>.b2p-partial]. *)
Definition partial_dir : path := join out (name +:+ ".b2p-partial").

(** The second call is the read of the state file; [open_or_create] takes its
    failure for a missing file. *)
Definition read_ok (fl : list fault) : Prop := fl !! 1%nat = None \/ fl !! 1%nat = Some NoFault.

Lemma fs_read_nofault p s :
  (faults s = [] \/ exists fl, faults s = NoFault :: fl) ->
  exists fl, io_try (fs_read p) s =
    (Ok (match nodes s !! p with
         | Some (File b) => Ok b | Some Dir => Err (EIo "Is a directory")
         | None => Err (EIo "No such file or directory") end), Fs (nodes s) fl)
    /\ (faults s = [] -> fl = []).
Proof.
  intros Hf. unfold io_try, fs_read, sys.
  destruct Hf as [E|[fl E]]; rewrite E; destruct (nodes s !! p) as [[|b]|]; by eexists.
Qed.
Lemma load_state_loaded n :
  loaded partial_dir tid cs content (load_state (match n !! state_file partial_dir with
    | Some (File b) => Ok b | Some Dir => Err (EIo "Is a directory")
    | None => Err (EIo "No such file or directory") end) tid (zlen content) cs) n.
Proof. unfold loaded, file_at. by destruct (n !! state_file partial_dir) as [[|b]|]. Qed.

Lemma create_read_ok s : read_ok (faults s) ->
  faults (snd (create_dir_all partial_dir s)) = [] \/ (exists fl, faults (snd (create_dir_all partial_dir s)) = NoFault :: fl)
  \/ is_ok (fst (create_dir_all partial_dir s)) = false.
Proof.
  unfold read_ok, create_dir_all, sys. intros Hr.
  destruct (faults s) as [|[| |k] [|f2 fl]]; simpl in *; try (destruct (mkdirs _ _)); simpl; auto.
  destruct Hr as [|[= ->]]; [done|]. eauto.
Qed.

(** [open_or_create] keeps the disk invariant wherever it stops, unless the
    read itself is what failed. *)
Lemma open_or_create_inv s :
  read_ok (faults s) -> disk_inv partial_dir tid cs content (nodes s) ->
  match open_or_create out name tid (zlen content) cs s with
  | (Ok st, s') => store_inv partial_dir tid cs content st (nodes s')
  | (Err _, s') => disk_inv partial_dir tid cs content (nodes s')
  | (Panic, _) => False
  end.
Proof.
  intros Hr Hd. unfold open_or_create. fold partial_dir. rewrite join_state.
  pose proof (triple_create_dir_all partial_dir (disk_inv partial_dir tid cs content)
    (fun _ => disk_inv partial_dir tid cs content) (disk_inv partial_dir tid cs content)) as Ht.
  ospecialize (Ht _ s Hd).
  { intros n n' Hn Hq. split; by apply (disk_inv_same _ _ _ _ n). }
  unfold mbind, io_bind.
  pose proof (create_read_ok s Hr) as Hfl.
  destruct (create_dir_all partial_dir s) as [[[]|e|] s1]; [|done|done].
  simpl in Hfl. destruct (fs_read_nofault (state_file partial_dir) s1) as (fl & -> & _).
  { destruct Hfl as [|[|]]; [by left|by right|done]. }
  destruct (load_state_ok tid cs content Hcs Hlen (match nodes s1 !! state_file partial_dir with
         | Some (File b) => Ok b | Some Dir => Err (EIo "Is a directory")
         | None => Err (EIo "No such file or directory") end)) as [Hm Hw].
  pose proof (open_data_triple partial_dir tid cs content _ Hm Hw (Fs (nodes s1) fl)) as Ho.
  specialize (Ho (conj Ht (load_state_loaded (nodes s1)))).
  destruct (open_data _ _ _ _) as [[st|e|] s2]; [by destruct Ho|done|done].
Qed.

(** What the state file on disk lists of this transfer. *)
Definition listed (n : gmap path node) : gset Z :=
  match file_at n (state_file partial_dir) with
  | Some b => match from_slice b with
              | Some s => if state_matches s tid (zlen content) cs then st_have s else ∅
              | None => ∅
              end
  | None => ∅
  end.
Lemma loaded_listed st n : loaded partial_dir tid cs content st n -> st_have st = listed n.
Proof.
  unfold loaded, listed. intros ->. destruct (file_at n _) as [b|]; [|done]. simpl.
  destruct (from_slice b) as [s|]; [|done]. by destruct (state_matches s tid (zlen content) cs).
Qed.
(** An opening that succeeds, whatever the read of the state file said. *)
Lemma open_or_create_ok s st s' :
  disk_inv partial_dir tid cs content (nodes s) ->
  open_or_create out name tid (zlen content) cs s = (Ok st, s') -> store_inv partial_dir tid cs content st (nodes s').
Proof.
  intros Hd. unfold open_or_create. fold partial_dir. rewrite join_state. unfold mbind, io_bind.
  pose proof (triple_create_dir_all partial_dir (disk_inv partial_dir tid cs content)
    (fun _ => disk_inv partial_dir tid cs content) (disk_inv partial_dir tid cs content)) as Ht.
  ospecialize (Ht _ s Hd). { intros n n' Hn Hq. split; by apply (disk_inv_same _ _ _ _ n). }
  destruct (create_dir_all partial_dir s) as [[[]|e|] s1]; [|done..].
  assert (Hr : exists r s2, io_try (fs_read (state_file partial_dir)) s1 = (Ok r, s2) /\ nodes s2 = nodes s1
    /\ (loaded partial_dir tid cs content (load_state r tid (zlen content) cs) (nodes s1) \/ load_state r tid (zlen content) cs = fresh_state tid (zlen content) cs)).
  { pose proof (load_state_loaded (nodes s1)) as Hl. unfold io_try, fs_read, sys.
    destruct (faults s1) as [|[| |k] fl]; [| |by eexists _, _; split; [done|split; [done|by right]]..];
      destruct (nodes s1 !! state_file partial_dir) as [[|b]|]; (eexists _, _; split; [done|split; [done|by left]]). }
  destruct Hr as (r & s2 & -> & En & Hl). destruct (load_state_ok tid cs content Hcs Hlen r) as [Hm Hw].
  destruct Hl as [Hl|Hl].
  - pose proof (open_data_triple partial_dir tid cs content _ Hm Hw s2) as Ho. rewrite En in Ho.
    specialize (Ho (conj Ht Hl)). destruct (open_data _ _ _ s2) as [[x|e|] s3]; [|done..]. intros [= <- <-]. by destruct Ho.
  - rewrite Hl. pose proof (open_data_fresh partial_dir tid cs content Hcs Hlen s2 I) as Ho.
    destruct (open_data _ _ _ s2) as [[x|e|] s3]; [|done..]. by intros [= <- <-].
Qed.
(** An opening of what is listed leaves the data alone, wherever it stops. *)
Lemma open_or_create_same g s : read_ok (faults s) -> disk_inv partial_dir tid cs content (nodes s) -> listed (nodes s) <> ∅ ->
  has_staged partial_dir cs content g (nodes s) ->
  has_staged partial_dir cs content g (nodes (open_or_create out name tid (zlen content) cs s).2).
Proof.
  intros Hr Hd Hne (data & Hdata & Hst). exists data. split; [|done].
  unfold open_or_create. fold partial_dir. rewrite join_state. unfold mbind, io_bind.
  pose proof (triple_create_dir_all partial_dir (fun n => forall q, file_at n q = file_at (nodes s) q)
    (fun _ n => forall q, file_at n q = file_at (nodes s) q) (fun n => forall q, file_at n q = file_at (nodes s) q)) as Ht.
  ospecialize (Ht _ s ltac:(done)); [intros n n' Hn Hq; split; intros q; by rewrite Hq|].
  pose proof (create_read_ok s Hr) as Hfl.
  destruct (create_dir_all partial_dir s) as [[[]|e|] s1]; [|by rewrite <- Hdata|done].
  simpl in Hfl. destruct (fs_read_nofault (state_file partial_dir) s1) as (fl & -> & _).
  { destruct Hfl as [|[|]]; [by left|by right|done]. }
  pose proof (load_state_loaded (nodes s1)) as Hl. apply loaded_listed in Hl.
  assert (El : listed (nodes s1) = listed (nodes s)) by (unfold listed; by rewrite Ht).
  match goal with |- context [open_data partial_dir _ ?x] => set (st := x) in * end.
  assert (Hst0 : st_have st <> ∅) by (rewrite Hl, El; done).
  pose proof (open_data_same partial_dir content st data Hst0 (proj1 Hst) (Fs (nodes s1) fl)) as Ho.
  cbn [nodes] in Ho. rewrite Ht in Ho. specialize (Ho Hdata).
  by destruct (open_data partial_dir (zlen content) st (Fs (nodes s1) fl)) as [[x|e|] s3].
Qed.

(** Nothing is in the way of the staging directory. *)
Definition creatable (n : gmap path node) : Prop :=
  (forall p, p ∈ prefixes partial_dir -> file_at n p = None)
  /\ n !! data_file partial_dir <> Some Dir /\ n !! state_file partial_dir <> Some Dir
  /\ n !! tmp_file partial_dir <> Some Dir /\ partial_dir <> [].

Lemma elem_of_prefixes (p q : path) : q ∈ prefixes p -> (length q <= length p)%nat.
Proof.
  unfold prefixes. rewrite list_elem_of_In, in_map_iff. intros (k & <- & Hk%in_seq).
  rewrite length_take. lia.
Qed.
Lemma self_prefix (p : path) : p <> [] -> p ∈ prefixes p.
Proof.
  intros Hp. unfold prefixes. rewrite list_elem_of_In, in_map_iff. exists (length p).
  split; [by apply take_ge|]. apply in_seq. destruct p; [done|simpl; lia].
Qed.
Lemma create_dir_runs n : creatable n ->
  exists n', mkdirs (prefixes partial_dir) n = (Ok tt, n') /\ usable partial_dir n'
    /\ forall p, file_at n' p = file_at n p.
Proof.
  intros (H1 & H2 & H3 & H4 & H5). destruct (mkdirs_runs (prefixes partial_dir) n H1) as (n' & He & Hd & Hs & _).
  assert (Hne : forall x, n !! (partial_dir ++ [x]) <> Some Dir -> n' !! (partial_dir ++ [x]) <> Some Dir).
  { intros x Hx. rewrite Hs; [done|]. intros Hp%elem_of_prefixes. rewrite length_app in Hp. simpl in Hp. lia. }
  exists n'. split; [done|]. split.
  - split; [by apply Hd, self_prefix|]. split; [by apply Hne|]. split; by apply Hne.
  - intros p. pose proof (mkdirs_file_at (prefixes partial_dir) n p) as Hf. by rewrite He in Hf.
Qed.
(** Without faults it succeeds, with what the state file lists. *)
Lemma open_or_create_runs s :
  faults s = [] -> creatable (nodes s) ->
  exists st s', open_or_create out name tid (zlen content) cs s = (Ok st, s')
    /\ faults s' = [] /\ usable partial_dir (nodes s')
    /\ loaded partial_dir tid cs content (state st) (nodes s).
Proof.
  intros Hf Hc. destruct (create_dir_runs _ Hc) as (n' & He & Hu & Hsame).
  unfold open_or_create. fold partial_dir. rewrite join_state. unfold mbind, io_bind.
  unfold create_dir_all, sys at 1. rewrite Hf, He.
  destruct (fs_read_nofault (state_file partial_dir) (Fs n' [])) as (fl & -> & Hfl); [by left|].
  rewrite (Hfl eq_refl). simpl.
  destruct (load_state_ok tid cs content Hcs Hlen (match n' !! state_file partial_dir with
         | Some (File b) => Ok b | Some Dir => Err (EIo "Is a directory")
         | None => Err (EIo "No such file or directory") end)) as [Hm Hw].
  destruct (open_data_runs partial_dir tid cs content _ Hm Hw (Fs n' []) eq_refl Hu)
    as (st & s' & -> & ? & ? & Hst).
  exists st, s'. repeat (split; [done|]). rewrite Hst.
  pose proof (load_state_loaded n') as Hl. unfold loaded in Hl |- *. by rewrite Hsame in Hl.
Qed.

Lemma saved_listed s n : store_ok partial_dir tid cs content s -> saved partial_dir s n -> listed n = st_have (state s).
Proof.
  intros (_ & _ & _ & Hm & Hw) Hs. unfold listed, saved in *. rewrite Hs, from_to_vec by done. by rewrite Hm.
Qed.
Lemma open_or_create_saves s st s' :
  faults s = [] -> creatable (nodes s) -> open_or_create out name tid (zlen content) cs s = (Ok st, s') ->
  saved partial_dir st (nodes s').
Proof.
  intros Hf Hc. destruct (create_dir_runs _ Hc) as (n' & He & Hu & Hsame).
  unfold open_or_create. fold partial_dir. rewrite join_state. unfold mbind, io_bind.
  unfold create_dir_all, sys at 1. rewrite Hf, He.
  destruct (fs_read_nofault (state_file partial_dir) (Fs n' [])) as (fl & -> & Hfl); [by left|].
  rewrite (Hfl eq_refl). simpl.
  destruct (load_state_ok tid cs content Hcs Hlen (match n' !! state_file partial_dir with
         | Some (File b) => Ok b | Some Dir => Err (EIo "Is a directory")
         | None => Err (EIo "No such file or directory") end)) as [Hm Hw].
  destruct (open_data_saves partial_dir tid cs content _ Hm Hw (Fs n' []) eq_refl Hu)
    as (st1 & s1 & -> & _ & _ & Hst). by intros [= <- <-].
Qed.

(** *** Crashes *)

(** The disk, and the store of the running process if there is one. A run
    opens the store, writes chunks of the content in any order, and may stop
    at any call: with the error the call reports, or by a crash. An opening
    whose read of the state file fails is not also stopped by a later call. *)
Inductive staging_step : gmap path node * option Store -> gmap path node * option Store -> Prop :=
| stage_open n fl r s' :
    open_or_create out name tid (zlen content) cs (Fs n fl) = (r, s') ->
    read_ok fl \/ is_ok r = true ->
    staging_step (n, None) (nodes s', ok r)
| stage_write n st fl i r st' f' :
    0 <= i < n_chunks cs content ->
    write_chunk st i (chunk cs i content) (Fs n fl) = ((r, st'), f') ->
    staging_step (n, Some st) (nodes f', if is_ok r then Some st' else None)
| stage_crash n st :
    staging_step (n, Some st) (n, None).

Definition staging_inv (c : gmap path node * option Store) : Prop :=
  match c.2 with
  | Some st => store_inv partial_dir tid cs content st c.1
  | None => disk_inv partial_dir tid cs content c.1
  end.
Lemma staging_step_inv c c' : staging_step c c' -> staging_inv c -> staging_inv c'.
Proof.
  destruct 1 as [n fl r s' He Hr|n st fl i r st' f' Hi He|n st]; unfold staging_inv; simpl; intros Hc.
  - destruct Hr as [Hr|Hr].
    + pose proof (open_or_create_inv (Fs n fl) Hr Hc) as Ho. rewrite He in Ho. by destruct r.
    + destruct r as [st|e|]; [|done..]. by apply (open_or_create_ok (Fs n fl)).
  - pose proof (write_chunk_inv partial_dir tid cs content Hcs Hlen st i (Fs n fl) Hi Hc) as Hw.
    rewrite He in Hw. destruct Hw as (_ & Hw & _). destruct r; simpl; [done|by destruct Hw as (_ & ? & _)..].
  - by destruct Hc as (_ & ? & _).
Qed.
Lemma staging_reach_inv c c' : rtc staging_step c c' -> staging_inv c -> staging_inv c'.
Proof. induction 1; eauto using staging_step_inv. Qed.

(** A complete store's file is the content. *)
Lemma complete_content st n :
  store_inv partial_dir tid cs content st n -> is_complete st = Ok true ->
  file_at n (data_file partial_dir) = Some content.
Proof.
  intros (Hok & _ & data & Hd & Hs). unfold is_complete.
  rewrite (total_chunks_ok partial_dir tid cs content Hcs) by done. simpl.
  intros [= He%Z.eqb_eq]. by rewrite Hd, (staged_complete cs content (st_have (state st)) data) by (lia || done).
Qed.
Lemma file_hash_runs st n b :
  data_path st = data_file partial_dir -> file_at n (data_file partial_dir) = Some b ->
  file_hash st (Fs n []) = (Ok (hex_encode (blake3_hash b)), Fs n []).
Proof.
  intros Hp Hb%file_at_Some. unfold file_hash, mbind, io_bind, fs_read, sys. simpl.
  by rewrite Hp, Hb, <- hash_reader_spec.
Qed.
End directory.

(** ** Properties *)

(** A chunk that is in range and of the right length is written in its place,
    recorded, and the record is on disk; any other is refused, with the store
    and the disk as they were. *)
Theorem write_chunk_spec `{!Serde State} d tid cs data s i plain f :
  0 < cs < U64 -> zlen data < U64 -> 0 <= i ->
  store_ok d tid cs data s -> usable d (nodes f) -> file_at (nodes f) (data_file d) = Some data ->
  if (i <? n_chunks cs data) && (zlen plain =? Z.min cs (zlen data - i * cs)) then
    faults f = [] ->
    exists f', write_chunk s i plain f = ((Ok tt, insert_have i s), f')
      /\ file_at (nodes f') (data_file d) = Some (write_at (i * cs) plain data)
      /\ file_at (nodes f') (state_file d) = Some (to_vec (state (insert_have i s)))
      /\ forall q, q <> data_file d -> q <> state_file d -> q <> tmp_file d ->
           nodes f' !! q = nodes f !! q
  else exists e, write_chunk s i plain f = ((Err e, s), f).
Proof.
  intros Hcs Hlen Hi Hok Hu Hdata.
  unfold write_chunk. rewrite (total_chunks_ok d tid cs data) by done.
  destruct (Z.ltb_spec i (n_chunks cs data)) as [Hn|Hn]; simpl.
  2: { destruct (Z.leb_spec (n_chunks cs data) i); [by eexists|lia]. }
  destruct (Z.leb_spec (n_chunks cs data) i); [lia|].
  rewrite (expected_len_ok d tid cs data), zlen_chunk by lia || done.
  destruct (Z.eqb_spec (zlen plain) (Z.min cs (zlen data - i * cs))) as [Hp|Hp]; simpl; [|by eexists].
  intros Hf. rewrite (offset_ok d tid cs data) by done.
  pose proof Hok as (Hdir & Hdp & Hsp & _). rewrite Hdp.
  pose proof (runs_write_at (data_file d) (i * cs) plain
    (fun n => n = nodes f) (fun _ n => n = upd (nodes f) (data_file d) (write_at (i * cs) plain data))) as Hr.
  ospecialize (Hr _ f Hf eq_refl); [intros n ->; by exists data|].
  destruct Hr as (a & f1 & -> & Hf1 & Hn1).
  destruct (write_persist d tid cs data (insert_have i s)) with (n := nodes f1) as (n' & Hps & H1 & H2 & H3).
  { apply (insert_have_ok d tid cs data); lia || done. }
  { rewrite Hn1. by apply usable_upd. }
  rewrite (surjective_pairing (persist_state _ f1)).
  destruct f1 as [n1 fl1]. simpl in Hf1, Hn1, Hps. subst fl1. rewrite Hps. simpl.
  eexists. split; [done|]. simpl. split; [|split; [done|]].
  - rewrite H2, Hn1. simpl. by rewrite file_at_insert.
  - intros q Hq1 Hq2 Hq3. rewrite H3 by done. rewrite Hn1. simpl. by rewrite lookup_insert_ne.
Qed.

(** C9: Staging survives crashes: from a disk without a state file, after any
    sequence of openings of one transfer, chunk writes (in any order, of a
    content's own chunks), failing calls and crashes that leads to an open
    store, every chunk the store lists is in [data] as it is in the content;
    and when the store reports itself complete, [data] is the content and its
    hash the content's. Excluded is an opening whose read of the state file
    fails and which is itself stopped by a later call, and the openings of
    other transfers of the same name: [Example.truncate_before_persist] shows
    what either can leave behind. *)
Theorem staging_crash_safe `{!Serde State} `{Blake3} out name tid cs content n0 n st :
  0 < cs < U64 -> zlen content < U64 ->
  file_at n0 (state_file (partial_dir out name)) = None ->
  rtc (staging_step out name tid cs content) (n0, None) (n, Some st) ->
  (exists data, file_at n (data_file (partial_dir out name)) = Some data
    /\ staged cs content (st_have (state st)) data)
  /\ (is_complete st = Ok true ->
      file_at n (data_file (partial_dir out name)) = Some content
      /\ fst (file_hash st (Fs n [])) = Ok (hex_encode (blake3_hash content))).
Proof.
  intros Hcs Hlen H0 Hr. apply staging_reach_inv in Hr; [|done..|].
  - unfold staging_inv in Hr. simpl in Hr. pose proof Hr as ((_ & Hdp & _) & _ & Hd). split; [done|].
    intros Hc. pose proof (complete_content out name tid cs content Hcs _ _ Hr Hc) as Hf.
    split; [done|]. by rewrite (file_hash_runs out name _ _ content).
  - unfold staging_inv. simpl. intros b s Hb. congruence.
Qed.

(** Without faults [open_or_create] succeeds wherever nothing is in the way;
    it resumes with exactly the chunks of a state file that carries the same
    transfer id, size and chunk size, and from nothing otherwise; [data] then
    has the size of the transfer. *)
Theorem open_or_create_resumes `{!Serde State} out name tid cs content n :
  0 < cs < U64 -> zlen content < U64 -> creatable out name n ->
  disk_inv (partial_dir out name) tid cs content n ->
  exists st n', open_or_create out name tid (zlen content) cs (Fs n []) = (Ok st, Fs n' [])
    /\ store_inv (partial_dir out name) tid cs content st n'
    /\ usable (partial_dir out name) n'
    /\ st_have (state st) = listed out name tid cs content n.
Proof.
  intros Hcs Hlen Hc Hd.
  destruct (open_or_create_runs out name tid cs content Hcs Hlen (Fs n []) eq_refl Hc) as (st & [n' fl] & He & Hf & Hu & Hl).
  simpl in Hf. subst fl. exists st, n'. split; [done|].
  pose proof (open_or_create_inv out name tid cs content Hcs Hlen (Fs n []) (or_introl eq_refl) Hd) as Hi.
  rewrite He in Hi. split; [done|]. split; [done|]. by apply loaded_listed.
Qed.

(** [finalize_file] moves [data] to its destination and removes the staging
    directory, and touches nothing else. *)
Theorem finalize_file_spec s n dest data :
  file_at n (data_path s) = Some data -> n !! dir s = Some Dir ->
  n !! dest <> Some Dir -> is_dir n (parent dest) = true ->
  ~ dir s `prefix_of` dest -> dir s `prefix_of` data_path s ->
  exists n', finalize_file s dest (Fs n []) = (Ok tt, Fs n' [])
    /\ file_at n' dest = Some data
    /\ (forall q, dir s `prefix_of` q -> n' !! q = None)
    /\ (forall q, ~ dir s `prefix_of` q -> q <> dest -> n' !! q = n !! q).
Proof.
  intros Hd Hdir Hn1 Hn2 Hp Hdp.
  assert (Hdd : dir s <> data_path s).
  { intros E. apply file_at_Some in Hd. rewrite <- E in Hd. congruence. }
  assert (Hdest : dest <> dir s) by (intros ->; by destruct Hp).
  set (n1 := upd (delete (data_path s) n) dest data).
  assert (Hdir1 : n1 !! dir s = Some Dir) by (unfold n1; by rewrite lookup_insert_ne, lookup_delete_ne).
  destruct (remove_dir_all_runs (dir s) n1 Hdir1) as (n' & Er & Hgone & Hsame). exists n'. split; [|split; [|split]].
  - unfold finalize_file, mbind, io_bind, io_context, fs_rename, sys, rename_file. simpl.
    pose proof Hd as ->%file_at_Some. rewrite Hn2. by destruct (n !! dest) as [[|b]|].
  - unfold file_at. rewrite Hsame by done. unfold n1. by rewrite lookup_insert_eq.
  - done.
  - intros q Hq Hqd. rewrite Hsame by done. unfold n1. rewrite lookup_insert_ne by done.
    apply lookup_delete_ne. by intros <-.
Qed.

(** ** The properties at a concrete transfer

    Three bytes in chunks of two, under a directory [out]. *)

Module Example.

#[local] Instance toy_state : Serde State := Toy.serde.
#[local] Existing Instance Toy.blake3.

Definition content : bytes := [Byte.x41; Byte.x42; Byte.x43].
Definition disk0 : gmap path node := {[ ["out"] := Dir ]}.
Definition fs_open (tid : string) (n : gmap path node) (fl : list fault) : res Store * fs :=
  open_or_create ["out"] "f" tid 3 2 (Fs n fl).
(** The disk and the store after opening and writing the chunks [l]. *)
Fixpoint write_all (s : Store) (l : list Z) (n : gmap path node) : gmap path node * Store :=
  match l with
  | [] => (n, s)
  | i :: l' => let '((_, s'), f') := write_chunk s i (chunk 2 i content) (Fs n []) in
               write_all s' l' (nodes f')
  end.
Definition empty_store : Store :=
  {| dir := []; data_path := []; state_path := []; state := fresh_state "" 0 1 |}.
Definition opened (tid : string) (n : gmap path node) : gmap path node * Store :=
  match fs_open tid n [] with (Ok s, s') => (nodes s', s) | (_, s') => (nodes s', empty_store) end.
Definition run (l : list Z) : gmap path node * Store :=
  let '(n, s) := opened "t" disk0 in write_all s l n.

Lemma staging_crash_safe_witness :
  rtc (staging_step ["out"] "f" "t" 2 content) (disk0, None) ((run [1; 0]).1, Some (run [1; 0]).2)
  /\ file_at (run [1; 0]).1 ["out"; "f.b2p-partial"; "data"] = Some content
  /\ fst (file_hash (run [1; 0]).2 (Fs (run [1; 0]).1 [])) = Ok (hex_encode (blake3_hash content)).
Proof.
  assert (Hr : rtc (staging_step ["out"] "f" "t" 2 content) (disk0, None)
    ((run [1; 0]).1, Some (run [1; 0]).2)).
  { eapply (rtc_l _ _ ((opened "t" disk0).1, Some (opened "t" disk0).2)).
    - apply (stage_open _ _ _ _ _ disk0 [] (Ok (opened "t" disk0).2) (Fs (opened "t" disk0).1 [])).
      + vm_compute. reflexivity.
      + by right.
    - eapply (rtc_l _ _ ((run [1]).1, Some (run [1]).2)).
      + apply (stage_write _ _ _ _ _ (opened "t" disk0).1 (opened "t" disk0).2 [] 1 (Ok tt) (run [1]).2
          (Fs (run [1]).1 [])).
        * vm_compute. split; [discriminate|reflexivity].
        * vm_compute. reflexivity.
      + apply rtc_once. apply (stage_write _ _ _ _ _ (run [1]).1 (run [1]).2 [] 0 (Ok tt) (run [1; 0]).2
          (Fs (run [1; 0]).1 [])).
        * vm_compute. split; [discriminate|reflexivity].
        * vm_compute. reflexivity. }
  split; [exact Hr|].
  destruct (staging_crash_safe ["out"] "f" "t" 2 content disk0 (run [1; 0]).1 (run [1; 0]).2
    ltac:(done) ltac:(done) ltac:(vm_compute; reflexivity) Hr) as [_ H2].
  apply H2. vm_compute. reflexivity.
Defined.

Lemma write_chunk_spec_witness :
  (exists f', write_chunk (opened "t" disk0).2 1 [Byte.x43] (Fs (opened "t" disk0).1 [])
     = ((Ok tt, insert_have 1 (opened "t" disk0).2), f')
     /\ file_at (nodes f') ["out"; "f.b2p-partial"; "data"] = Some [Byte.x00; Byte.x00; Byte.x43])
  /\ exists e, write_chunk (opened "t" disk0).2 2 [Byte.x43] (Fs (opened "t" disk0).1 [])
     = ((Err e, (opened "t" disk0).2), Fs (opened "t" disk0).1 []).
Proof.
  assert (Hok : store_ok ["out"; "f.b2p-partial"] "t" 2 [Byte.x00; Byte.x00; Byte.x00] (opened "t" disk0).2).
  { split; [by vm_compute|]. split; [by vm_compute|]. split; [by vm_compute|]. split; [by vm_compute|].
    apply (bool_decide_unpack _). by vm_compute. }
  assert (Hu : usable ["out"; "f.b2p-partial"] (opened "t" disk0).1).
  { split; [by vm_compute|]. repeat split; by vm_compute. }
  pose proof (fun i p => write_chunk_spec ["out"; "f.b2p-partial"] "t" 2 [Byte.x00; Byte.x00; Byte.x00]
    (opened "t" disk0).2 i p (Fs (opened "t" disk0).1 [])) as H.
  split.
  - specialize (H 1 [Byte.x43] ltac:(done) ltac:(done) ltac:(done) Hok Hu ltac:(vm_compute; reflexivity)).
    assert (E : (1 <? n_chunks 2 [Byte.x00; Byte.x00; Byte.x00])
      && (zlen [Byte.x43] =? Z.min 2 (zlen [Byte.x00; Byte.x00; Byte.x00] - 1 * 2)) = true) by (vm_compute; reflexivity).
    rewrite E in H. destruct (H eq_refl) as (f' & H1 & H2 & _). exists f'. split; [exact H1|].
    change ["out"; "f.b2p-partial"; "data"] with (data_file ["out"; "f.b2p-partial"]).
    rewrite H2. vm_compute. reflexivity.
  - specialize (H 2 [Byte.x43] ltac:(done) ltac:(done) ltac:(done) Hok Hu ltac:(vm_compute; reflexivity)).
    assert (E : (2 <? n_chunks 2 [Byte.x00; Byte.x00; Byte.x00])
      && (zlen [Byte.x43] =? Z.min 2 (zlen [Byte.x00; Byte.x00; Byte.x00] - 2 * 2)) = false) by (vm_compute; reflexivity).
    rewrite E in H. exact H.
Defined.

Lemma open_or_create_resumes_witness :
  exists st n', fs_open "t" (run [1]).1 [] = (Ok st, Fs n' []) /\ st_have (state st) = {[1]}.
Proof.
  assert (Hr : staging_inv ["out"] "f" "t" 2 content ((run [1]).1, Some (run [1]).2)).
  { apply (staging_reach_inv ["out"] "f" "t" 2 content ltac:(done) ltac:(done) (disk0, None)).
    - eapply (rtc_l _ _ ((opened "t" disk0).1, Some (opened "t" disk0).2)).
      + apply (stage_open _ _ _ _ _ disk0 [] (Ok (opened "t" disk0).2) (Fs (opened "t" disk0).1 []));
          [vm_compute; reflexivity|by right].
      + apply rtc_once, (stage_write _ _ _ _ _ (opened "t" disk0).1 (opened "t" disk0).2 [] 1 (Ok tt) (run [1]).2
          (Fs (run [1]).1 [])); [vm_compute; split; [discriminate|reflexivity]|vm_compute; reflexivity].
    - unfold staging_inv. simpl. intros b s Hb. by vm_compute in Hb. }
  destruct Hr as (_ & Hd & _).
  destruct (open_or_create_resumes ["out"] "f" "t" 2 content (run [1]).1) as (st & n' & H1 & _ & _ & H2);
    [done|done| |exact Hd|].
  - split; [|repeat split; by vm_compute].
    intros p Hp. assert (E : prefixes (partial_dir ["out"] "f") = [["out"]; ["out"; "f.b2p-partial"]]) by (by vm_compute).
    rewrite E, !elem_of_cons in Hp.
    destruct Hp as [->|[->|Hp]]; [by vm_compute|by vm_compute|by apply elem_of_nil in Hp].
  - exists st, n'. split; [exact H1|]. rewrite H2. by vm_compute.
Defined.

Lemma finalize_file_spec_witness :
  exists n', finalize_file (run [1; 0]).2 ["out"; "f"] (Fs (run [1; 0]).1 []) = (Ok tt, Fs n' [])
    /\ file_at n' ["out"; "f"] = Some content.
Proof.
  destruct (finalize_file_spec (run [1; 0]).2 (run [1; 0]).1 ["out"; "f"] content) as (n' & H1 & H2 & _).
  - by vm_compute.
  - by vm_compute.
  - by vm_compute.
  - by vm_compute.
  - apply (bool_decide_unpack _). by vm_compute.
  - apply (bool_decide_unpack _). by vm_compute.
  - exists n'. split; [exact H1|exact H2].
Defined.

(** Two ways to poison a staging directory, both through the truncation of
    [data] before the state file that describes it is replaced: another
    transfer of the same name fails to persist its state; or the state file
    cannot be read once and then not be replaced. Afterwards the first
    transfer opens as complete over a file of zeros. *)
Theorem truncate_before_persist :
  let n := (run [1; 0]).1 in
  forall fl tid, (tid, fl) ∈ [("u", [NoFault; NoFault; NoFault; NoFault; FailBefore]);
                              ("t", [NoFault; FailBefore; NoFault; NoFault; FailBefore])] ->
  let n' := nodes (snd (fs_open tid n fl)) in
  is_ok (fst (fs_open tid n fl)) = false
  /\ is_complete (opened "t" n').2 = Ok true
  /\ file_at (opened "t" n').1 ["out"; "f.b2p-partial"; "data"] = Some [Byte.x00; Byte.x00; Byte.x00].
Proof.
  intros n fl tid. rewrite !elem_of_cons, elem_of_nil.
  intros [[= -> ->]|[[= -> ->]|[]]]; vm_compute; done.
Qed.
Lemma truncate_before_persist_witness :
  let n' := nodes (snd (fs_open "u" (run [1; 0]).1 [NoFault; NoFault; NoFault; NoFault; FailBefore])) in
  is_complete (opened "t" n').2 = Ok true.
Proof.
  apply (truncate_before_persist [NoFault; NoFault; NoFault; NoFault; FailBefore] "u"). by left.
Defined.

End Example.
