(* ===== verification/Order.v ===== *)
(** * Chunks in any order

    The workers of src/send.rs upload chunks concurrently and repeat the ones
    that fail. For the store of src/store.rs the order and the repetitions do
    not matter: only the set of the chunks that arrived does. *)

From S2P Require Import Prelude Str Libs Fs Store.

Section order.
Context `{!Serde State} `{Blake3}.
Variables (d : path) (tid : string) (cs : Z) (content : bytes).
Hypothesis Hcs : 0 < cs < U64.
Hypothesis Hlen : zlen content < U64.
Local Abbreviation total := (n_chunks cs content).

(** Chunk after chunk, each written by [write_chunk]; the results in order. *)
Fixpoint write_chunks (l : list Z) (s : Store) (f : fs) : (list (res unit) * Store) * fs :=
  match l with
  | [] => (([], s), f)
  | i :: l' =>
      let '((r, s'), f') := write_chunk s i (chunk cs i content) f in
      let '((rs, s''), f'') := write_chunks l' s' f' in ((r :: rs, s''), f'')
  end.

(** [data] with the chunks [X] of the content in place. *)
Definition patch (X : gset Z) (data : bytes) : bytes :=
  imap (fun p b => if bool_decide (Z.of_nat p / cs ∈ X) then default b (content !! p) else b) data.
Definition insert_all (X : gset Z) (s : Store) : Store :=
  {| dir := dir s; data_path := data_path s; state_path := state_path s;
     state := {| st_transfer_id := st_transfer_id (state s); st_total_size := st_total_size (state s);
                 st_chunk_size := st_chunk_size (state s); st_have := X ∪ st_have (state s) |} |}.
(** The store and the disk once the chunks [X] have been written. *)
Definition reference (X : gset Z) (s : Store) (n : gmap path node) (data : bytes) : Store * gmap path node :=
  if decide (X = ∅) then (s, n)
  else (insert_all X s,
        upd (delete (tmp_file d) (upd n (data_file d) (patch X data))) (state_file d) (to_vec (state (insert_all X s)))).

Lemma patch_write i X data : 0 <= i < total -> zlen data = zlen content ->
  write_at (i * cs) (chunk cs i content) (patch X data) = patch ({[i]} ∪ X) data.
Proof.
  intros Hi Hl. destruct (chunk_in_range cs i content ltac:(lia) Hi) as [H1 H2].
  assert (Hp : zlen (patch X data) = zlen content) by (unfold zlen, patch; by rewrite length_imap).
  pose proof (zlen_chunk cs i content ltac:(lia) Hi) as Hc.
  apply list_eq. intros p. unfold patch at 2. rewrite list_lookup_imap.
  destruct (decide (i * cs <= Z.of_nat p < i * cs + zlen (chunk cs i content))) as [Hin|Hout].
  - rewrite lookup_write_at_eq by lia. unfold chunk. rewrite lookup_slice by lia.
    assert (E : Z.of_nat p / cs = i) by (symmetry; apply (Z.div_unique _ _ _ (Z.of_nat p - i * cs)); lia).
    rewrite bool_decide_true by (rewrite E, elem_of_union; left; by apply elem_of_singleton).
    replace (Z.to_nat (i * cs) + (p - Z.to_nat (i * cs)))%nat with p by lia.
    destruct (lookup_lt_is_Some_2 content p) as [c Ec]; [unfold zlen in *; lia|].
    destruct (lookup_lt_is_Some_2 data p) as [b Eb]; [unfold zlen in *; lia|]. by rewrite Ec, Eb.
  - rewrite lookup_write_at_ne by lia. unfold patch. rewrite list_lookup_imap.
    destruct (data !! p) as [b|] eqn:Eb; [|done]. cbn. f_equal.
    assert (Hpl : Z.of_nat p < zlen content) by (apply lookup_lt_Some in Eb; unfold zlen in *; lia).
    assert (E : Z.of_nat p / cs <> i).
    { intros <-. apply Hout. pose proof (Z.mul_div_le (Z.of_nat p) cs ltac:(lia)).
      pose proof (Z.mul_succ_div_gt (Z.of_nat p) cs ltac:(lia)). lia. }
    by rewrite (bool_decide_ext (Z.of_nat p / cs ∈ {[i]} ∪ X) (Z.of_nat p / cs ∈ X))
      by (rewrite elem_of_union, elem_of_singleton; tauto).
Qed.
Lemma patch_patch X Y data : patch X (patch Y data) = patch (X ∪ Y) data.
Proof.
  apply list_eq. intros p. unfold patch. rewrite !list_lookup_imap. destruct (data !! p) as [b|]; [|done]. cbn. f_equal.
  destruct (decide (Z.of_nat p / cs ∈ X)) as [Hx|Hx].
  - rewrite (bool_decide_true (_ ∈ X)), (bool_decide_true (_ ∈ X ∪ Y)) by (rewrite ?elem_of_union; tauto).
    repeat case_bool_decide; by destruct (content !! p).
  - rewrite (bool_decide_false (_ ∈ X)) by done. by rewrite (bool_decide_ext (Z.of_nat p / cs ∈ X ∪ Y) (Z.of_nat p / cs ∈ Y)) by (rewrite elem_of_union; tauto).
Qed.

Lemma write_chunk_exact i s n data :
  0 <= i < total -> store_inv d tid cs content s n -> usable d n -> file_at n (data_file d) = Some data ->
  write_chunk s i (chunk cs i content) (Fs n [])
  = ((Ok tt, insert_have i s),
     Fs (upd (delete (tmp_file d) (upd n (data_file d) (write_at (i * cs) (chunk cs i content) data))) (state_file d)
           (to_vec (state (insert_have i s)))) []).
Proof.
  intros Hi (Hok & _ & _) Hu Hd%file_at_Some. unfold write_chunk.
  rewrite (total_chunks_ok d tid cs content) by done. destruct (Z.leb_spec total i); [lia|].
  rewrite (expected_len_ok d tid cs content), Z.eqb_refl by done. cbn [negb].
  rewrite (offset_ok d tid cs content) by done. pose proof Hok as (_ & Hdp & _). rewrite Hdp.
  unfold file_write_at, sys, on_file. cbn [faults nodes]. rewrite Hd.
  rewrite (persist_exact d tid cs content _ _ (insert_have_ok d tid cs content Hcs Hlen s i Hok Hi)); [done|].
  by apply usable_upd.
Qed.

Lemma patch_one i data : 0 <= i < total -> zlen data = zlen content ->
  write_at (i * cs) (chunk cs i content) data = patch {[i]} data.
Proof.
  intros Hi Hl. assert (E : patch ∅ data = data).
  { apply list_eq. intros p. unfold patch. rewrite list_lookup_imap. destruct (data !! p); [|done]. cbn.
    by rewrite bool_decide_false by apply not_elem_of_empty. }
  rewrite <- E at 1. rewrite patch_write by done. by rewrite (right_id_L ∅ (∪)).
Qed.
Lemma reference_step i X s n data : 0 <= i < total -> zlen data = zlen content ->
  let data1 := write_at (i * cs) (chunk cs i content) data in
  let n1 := upd (delete (tmp_file d) (upd n (data_file d) data1)) (state_file d) (to_vec (state (insert_have i s))) in
  reference X (insert_have i s) n1 data1 = reference ({[i]} ∪ X) s n data.
Proof.
  intros Hi Hl data1 n1. pose proof (data_state_ne d). pose proof (data_tmp_ne d). pose proof (state_tmp_ne d).
  unfold reference. rewrite (decide_False (P := {[i]} ∪ X = ∅)) by (intros [E _]%empty_union_L; by apply (non_empty_singleton_L i) in E).
  assert (Hp : patch X data1 = patch ({[i]} ∪ X) data).
  { unfold data1. rewrite patch_one, patch_patch by done. by rewrite (union_comm_L X). }
  destruct (decide (X = ∅)) as [->|Hne].
  - unfold n1, data1, insert_all, insert_have. rewrite patch_one by done. by rewrite !(right_id_L ∅ (∪)).
  - assert (Es : insert_all X (insert_have i s) = insert_all ({[i]} ∪ X) s).
    { unfold insert_all, insert_have. cbn. by rewrite (assoc_L (∪)), (union_comm_L X). }
    rewrite Es, Hp. f_equal. apply map_eq. intros q. unfold n1.
    destruct (decide (q = state_file d)) as [->|]; [by rewrite !lookup_insert_eq|]. rewrite !(lookup_insert_ne _ (state_file d)) by done.
    destruct (decide (q = tmp_file d)) as [->|]; [by rewrite !lookup_delete_eq|]. rewrite !lookup_delete_ne by done.
    destruct (decide (q = data_file d)) as [->|]; [by rewrite !lookup_insert_eq|].
    by rewrite !lookup_insert_ne, lookup_delete_ne, lookup_insert_ne by done.
Qed.
Lemma write_chunks_reference l s n data :
  (forall i, i ∈ l -> 0 <= i < total) -> store_inv d tid cs content s n -> usable d n ->
  file_at n (data_file d) = Some data ->
  write_chunks l s (Fs n [])
  = ((map (fun _ => Ok tt) l, (reference (list_to_set l) s n data).1), Fs (reference (list_to_set l) s n data).2 []).
Proof.
  revert s n data. induction l as [|i l IH]; intros s n data Hl Hs Hu Hd; [done|].
  assert (Hi : 0 <= i < total) by (apply Hl; by left).
  pose proof (write_chunk_exact i s n data Hi Hs Hu Hd) as He.
  pose proof (write_chunk_inv d tid cs content Hcs Hlen s i (Fs n []) Hi Hs) as Hinv.
  destruct (write_chunk_runs d tid cs content Hcs Hlen s i (Fs n []) Hi Hs eq_refl Hu) as (f' & He' & _ & Hu').
  rewrite He in He', Hinv. injection He' as <-. cbn [nodes] in Hinv, Hu'. destruct Hinv as (_ & Hs' & _).
  assert (Hdl : zlen data = zlen content).
  { destruct Hs as (_ & _ & data' & Hd' & Hst & _). congruence. }
  cbn [write_chunks map]. rewrite He, (IH _ _ (write_at (i * cs) (chunk cs i content) data) (fun j Hj => Hl j (list_elem_of_further j i l Hj)) Hs' Hu').
  - by rewrite list_to_set_cons, (reference_step i _ s n data Hi Hdl).
  - rewrite file_at_insert_ne by (intros E; by apply (data_state_ne d)).
    rewrite file_at_delete_ne by (intros E; by apply (data_tmp_ne d)). apply file_at_insert.
Qed.

(** C7: The order in which chunks arrive does not matter, nor that some arrive
    more than once: two sequences of writes with the same set of chunks leave
    the same store and the same disk, every write having succeeded. *)
Theorem chunk_order_irrelevant l1 l2 s n :
  (forall i, i ∈ l1 <-> i ∈ l2) -> (forall i, i ∈ l1 -> 0 <= i < total) ->
  store_inv d tid cs content s n -> usable d n ->
  exists s' n', write_chunks l1 s (Fs n []) = ((map (fun _ => Ok tt) l1, s'), Fs n' [])
    /\ write_chunks l2 s (Fs n []) = ((map (fun _ => Ok tt) l2, s'), Fs n' [])
    /\ st_have (state s') = list_to_set l1 ∪ st_have (state s).
Proof.
  intros Hsame Hl Hs Hu. pose proof Hs as (_ & _ & data & Hd & _).
  assert (E : list_to_set l1 = (list_to_set l2 : gset Z)) by (apply set_eq; intros i; by rewrite !elem_of_list_to_set).
  rewrite (write_chunks_reference l1 s n data), (write_chunks_reference l2 s n data) by (done || (intros i Hi; by apply Hl, Hsame)).
  rewrite <- E. do 2 eexists. split; [done|]. split; [done|]. unfold reference.
  destruct (decide _) as [->|]; [|done]. cbn. by rewrite (left_id_L ∅ (∪)).
Qed.
End order.

(** Forwards, and backwards with a repetition. *)
Module Example.
#[local] Existing Instances Toy.blake3 Store.Example.toy_state.
Import Store.Example.

Lemma chunk_order_irrelevant_witness :
  let s := (opened "t" disk0).2 in let f := Fs (opened "t" disk0).1 [] in
  exists s' n', write_chunks 2 content [0; 1] s f = (([Ok tt; Ok tt], s'), Fs n' [])
    /\ write_chunks 2 content [1; 0; 1] s f = (([Ok tt; Ok tt; Ok tt], s'), Fs n' []).
Proof.
  destruct (chunk_order_irrelevant ["out"; "f.b2p-partial"] "t" 2 content ltac:(done) ltac:(done) [0; 1] [1; 0; 1]
    (opened "t" disk0).2 (opened "t" disk0).1) as (s' & n' & H1 & H2 & _).
  - intros i. rewrite !elem_of_cons. pose proof (elem_of_nil i). tauto.
  - intros i Hi. repeat apply elem_of_cons in Hi as [->|Hi]; [by vm_compute..|by apply elem_of_nil in Hi].
  - pose proof (open_or_create_inv ["out"] "f" "t" 2 content ltac:(done) ltac:(done) (Fs disk0 []) ltac:(by left)) as Ho.
    specialize (Ho ltac:(intros b st Hb; by vm_compute in Hb)). unfold opened, fs_open.
    destruct (open_or_create _ _ _ _ _ _) as [[st|e|] f] eqn:E; [exact Ho|by vm_compute in E|done].
  - repeat split; vm_compute; discriminate.
  - exists s', n'. by split.
Defined.
End Example.
