(* ===== verification/Archive.v ===== *)
(** * src/archive.rs: what is sent *)

From S2P Require Import Prelude Str Libs Fs Protocol.

Inductive Source : Type :=
| Blob (kind : Kind) (name : string) (entries : list Entry) (total_size : Z)
    (transfer_id : string) (file : path) (spool : option path)
| Text (content transfer_id : string).

Definition transfer_id (s : Source) : string :=
  match s with Blob _ _ _ _ tid _ _ => tid | Text _ tid => tid end.

(** A file under the inputs: relative path, path, size, modification time. *)
Record FileRec : Type := { fr_rel : string; fr_abs : string; fr_size : Z; fr_mtime : Z }.

(** What [fs::metadata] and [walkdir] report of an input: a regular file's
    size and modification time, if it has one after the epoch; a directory's
    entries in file-name order, or what fails on the walk. *)
Record Meta : Type := { m_len : Z; m_modified : option Z }.
Record WalkEntry : Type := { w_path : string; w_is_file : bool; w_meta : res Meta }.
Inductive Metadata : Type :=
| MFile (m : Meta)
| MDir (walk : list (res WalkEntry))
| MOther.

Definition mtime_secs (m : Meta) : Z := default 0 (m_modified m).

(** [path.strip_prefix(input)] and the separator normalised. *)
Definition replace_char (a b : Ascii.ascii) : string -> string :=
  fix go s := match s with
              | EmptyString => EmptyString
              | String c s' => String (if Ascii.eqb c a then b else c) (go s')
              end.
Definition strip_base (input p : string) : res string :=
  ok_or (EMsg "prefix not found") (strip_prefix (trim_end_char "/" input +:+ "/") p).

Section collect.
Variable metadata : string -> res Metadata.

Fixpoint collect_walk (base_name input : string) (w : list (res WalkEntry)) (files : list FileRec)
    : res (list FileRec) :=
  match w with
  | [] => mret files
  | entry :: w' =>
      entry ← entry;
      if negb (w_is_file entry) then collect_walk base_name input w' files
      else
        rel ← strip_base input (w_path entry);
        m ← w_meta entry;
        collect_walk base_name input w'
          (files ++ [{| fr_rel := base_name +:+ "/" +:+ replace_char "\" "/" rel; fr_abs := w_path entry;
                        fr_size := m_len m; fr_mtime := mtime_secs m |}])
  end.

Fixpoint collect_inputs (paths : list string) (files : list FileRec) : res (list FileRec) :=
  match paths with
  | [] => mret files
  | input :: paths' =>
      meta ← context ("cannot read " +:+ input) (metadata input);
      base_name ← ok_or (EMsg "path has no file name") (file_name input);
      files ← match meta with
              | MFile m => mret (files ++ [{| fr_rel := base_name; fr_abs := input;
                                              fr_size := m_len m; fr_mtime := mtime_secs m |}])
              | MDir w => collect_walk base_name input w files
              | MOther => Err (EMsg (input +:+ " is neither a file nor a directory"))
              end;
      collect_inputs paths' files
  end.

(** [files.sort_by(|a, b| a.0.cmp(&b.0))], a stable sort by the bytes of the
    relative path. *)
Fixpoint sort_insert (x : FileRec) (l : list FileRec) : list FileRec :=
  match l with
  | [] => [x]
  | y :: l' => if String.leb (fr_rel x) (fr_rel y) then x :: y :: l' else y :: sort_insert x l'
  end.
Definition sort_files (l : list FileRec) : list FileRec := foldr sort_insert [] l.

Definition collect_files (paths : list string) : res (list FileRec) :=
  files ← collect_inputs paths [];
  mret (sort_files files).
End collect.

(** What [fingerprint] feeds the hasher for a file. *)
Definition fingerprint_entry (f : FileRec) : bytes :=
  as_bytes (fr_rel f) ++ [Byte.x00] ++ to_le 8 (fr_size f) ++ [Byte.x00] ++ to_le 8 (fr_mtime f)
  ++ [Byte.x0a].

Section archive.
Context `{Blake3}.

Definition fingerprint_loop (h : hasher) (files : list FileRec) : hasher :=
  fold_left (fun h f =>
    let h := hasher_update h (as_bytes (fr_rel f)) in
    let h := hasher_update h [Byte.x00] in
    let h := hasher_update h (to_le 8 (fr_size f)) in
    let h := hasher_update h [Byte.x00] in
    let h := hasher_update h (to_le 8 (fr_mtime f)) in
    hasher_update h [Byte.x0a]) files h.
Definition fingerprint (files : list FileRec) : string :=
  String.substring 0 32 (hex_encode (hasher_finalize (fingerprint_loop hasher_new files))).

Definition prepare_text (content : string) : Source :=
  Text content (String.substring 0 32 (hex_encode (blake3_hash (as_bytes content)))).

(** [spool] is the fresh temporary file; [cwd] resolves relative paths;
    [tar_append] is [tar::Builder]'s [append_path_with_name], [tar_finish]
    its [finish]. The temporary file is deleted when the [Source] is dropped,
    after the transfer; here it stays. *)
Definition prepare (metadata : string -> res Metadata) (cwd spool : path)
    (tar_append : path -> string -> io unit) (tar_finish : io unit) (paths : list string) : io Source :=
  match paths with
  | [] => io_lift (Err (EMsg "nothing to send"))
  | path0 :: rest =>
      files ← io_lift (collect_files metadata paths);
      match files with
      | [] => io_lift (Err (EMsg "no regular files found in the given paths"))
      | file0 :: more =>
          let tid := fingerprint files in
          let entries := map (fun f => {| e_path := fr_rel f; e_size := fr_size f |}) files in
          let is_file := match metadata path0 with Ok (MFile _) => true | _ => false end in
          if match rest, more with [], [] => is_file | _, _ => false end then
            mret (Blob KFile (fr_rel file0) entries (fr_size file0) tid (join cwd (fr_abs file0)) None)
          else
            _ ← io_context "creating tar spool file" (open_rw spool true);
            _ ← foldr (fun fr k => _ ← tar_append (join cwd (fr_abs fr)) (fr_rel fr); k) (mret tt : io unit) files;
            _ ← tar_finish;
            total_size ← file_len spool;
            mret (Blob KTar "b2p-bundle.tar" entries total_size tid spool (Some spool))
      end
  end.

(** [tar::Archive::unpack] of the file's content. *)
Definition unpack_tar (tar_unpack : bytes -> path -> io unit) (tar_path out_dir : path) : io unit :=
  b ← fs_read tar_path;
  io_context "unpacking received archive" (tar_unpack b out_dir).
End archive.

(** ** Lemmas *)

Lemma fingerprint_loop_cons `{Blake3} h f files :
  fingerprint_loop h (f :: files) = fingerprint_loop (hasher_update h (fingerprint_entry f)) files.
Proof.
  unfold fingerprint_loop at 1. cbn [fold_left]. rewrite !hasher_update_app.
  unfold fingerprint_entry. rewrite !app_assoc. done.
Qed.
Lemma fingerprint_loop_spec `{Blake3} h files :
  fingerprint_loop h files = hasher_update h (concat (map fingerprint_entry files)).
Proof.
  revert h. induction files as [|f files IH]; intros h.
  - simpl. by rewrite hasher_update_nil.
  - by rewrite fingerprint_loop_cons, IH, hasher_update_app.
Qed.

(** A byte list without a byte is delimited by it. *)
Lemma delimited (x : byte) (a b u v : bytes) :
  ~ x ∈ a -> ~ x ∈ b -> a ++ (x :: u) = b ++ (x :: v) -> a = b /\ u = v.
Proof.
  revert b. induction a as [|y a IH]; intros [|z b] Ha Hb E; simpl in E.
  - by injection E.
  - injection E as <- _. by destruct Hb; left.
  - injection E as -> _. by destruct Ha; left.
  - injection E as -> E. apply not_elem_of_cons in Ha as [_ ?], Hb as [_ ?].
    by destruct (IH b) as [-> ->].
Qed.

Definition file_key (f : FileRec) : string * Z * Z := (fr_rel f, fr_size f, fr_mtime f).
(** File names hold no NUL; sizes and times are 64-bit. *)
Definition file_ok (f : FileRec) : Prop :=
  (Byte.x00 ∉ as_bytes (fr_rel f)) /\ u64_ok (fr_size f) /\ u64_ok (fr_mtime f).

Lemma fingerprint_entry_inj f g u v :
  file_ok f -> file_ok g -> fingerprint_entry f ++ u = fingerprint_entry g ++ v ->
  file_key f = file_key g /\ u = v.
Proof.
  intros (Hf & Hfs & Hfm) (Hg & Hgs & Hgm) E. unfold fingerprint_entry in E.
  rewrite <- !app_assoc in E. cbn [app] in E. apply delimited in E as [Er E]; [|done|done].
  assert (Hl : forall x y : Z, length (to_le 8 x) = length (to_le 8 y)) by (intros; by rewrite !length_to_le).
  apply app_inj_1 in E as [Es E]; [|apply Hl]. apply (f_equal tail) in E. cbn [tail] in E.
  apply app_inj_1 in E as [Em E]; [|apply Hl]. apply (f_equal tail) in E. cbn [tail] in E.
  pose proof (to_le_inj 8 (fr_size f) (fr_size g) Hfs Hgs Es) as Es'.
  pose proof (to_le_inj 8 (fr_mtime f) (fr_mtime g) Hfm Hgm Em) as Em'.
  apply as_bytes_inj in Er. unfold file_key. by rewrite Er, Es', Em'.
Qed.
Lemma fingerprint_entry_cons f : exists x l, fingerprint_entry f = x :: l.
Proof. unfold fingerprint_entry. destruct (as_bytes (fr_rel f)); simpl; eauto. Qed.

Lemma sort_insert_perm x l : sort_insert x l ≡ₚ x :: l.
Proof.
  induction l as [|y l IH]; simpl; [done|]. destruct (String.leb _ _); [done|].
  rewrite IH. apply Permutation_swap.
Qed.
Lemma sort_files_perm l : sort_files l ≡ₚ l.
Proof. induction l as [|x l IH]; simpl; [done|]. by rewrite sort_insert_perm, IH. Qed.

Definition rel_le (a b : FileRec) : Prop := String.leb (fr_rel a) (fr_rel b) = true.
Lemma string_leb_total a b : String.leb a b = false -> String.leb b a = true.
Proof. intros H. destruct (String.leb_total a b) as [E|E]; congruence. Qed.
Lemma ascii_compare_trans a b c : Ascii.compare a b = Lt -> Ascii.compare b c = Lt -> Ascii.compare a c = Lt.
Proof. unfold Ascii.compare. rewrite !N.compare_lt_iff. lia. Qed.
Lemma ascii_compare_eq a b : Ascii.compare a b = Eq -> a = b.
Proof. apply Ascii.compare_eq_iff. Qed.
Lemma string_leb_trans a b c : String.leb a b = true -> String.leb b c = true -> String.leb a c = true.
Proof.
  unfold String.leb. revert b c. induction a as [|x a IH]; intros [|y b] [|z c]; simpl; try done.
  destruct (Ascii.compare x y) eqn:E1; [apply ascii_compare_eq in E1 as ->| |done].
  - destruct (Ascii.compare y z) eqn:E2; [apply IH|done|done].
  - intros _. destruct (Ascii.compare y z) eqn:E2; [|intros _|done].
    + apply ascii_compare_eq in E2 as ->. by rewrite E1.
    + by rewrite (ascii_compare_trans x y z).
Qed.
Lemma sort_insert_sorted x l : StronglySorted rel_le l -> StronglySorted rel_le (sort_insert x l).
Proof.
  induction 1 as [|y l Hs IH Hy]; simpl; [by repeat constructor|].
  destruct (String.leb (fr_rel x) (fr_rel y)) eqn:E.
  - constructor; [by constructor|]. constructor; [done|]. eapply Forall_impl; [exact Hy|].
    intros z Hz. by eapply string_leb_trans.
  - constructor; [done|]. rewrite sort_insert_perm. constructor; [by apply string_leb_total|done].
Qed.
Lemma sort_files_sorted l : StronglySorted rel_le (sort_files l).
Proof. induction l as [|x l IH]; simpl; [constructor|]. by apply sort_insert_sorted. Qed.

(** ** Properties *)

(** The transfer id is the first 32 digits of the hash of a byte string that
    determines every file's relative path, size and modification time, in
    order: two lists of files that differ in one of these have different byte
    strings. *)
Theorem fingerprint_binds `{Blake3} files files' :
  Forall file_ok files -> Forall file_ok files' ->
  fingerprint files = String.substring 0 32 (hex_encode (blake3_hash (concat (map fingerprint_entry files))))
  /\ (concat (map fingerprint_entry files) = concat (map fingerprint_entry files') ->
      map file_key files = map file_key files').
Proof.
  intros Hf Hf'. split.
  - unfold fingerprint, blake3_hash. by rewrite fingerprint_loop_spec.
  - revert files' Hf'. induction Hf as [|f files Hf Hfs IH]; intros [|g files'] Hg E; simpl in *.
    + done.
    + destruct (fingerprint_entry_cons g) as (x & l & El). by rewrite El in E.
    + destruct (fingerprint_entry_cons f) as (x & l & El). by rewrite El in E.
    + apply Forall_cons in Hg as [Hg Hgs].
      apply fingerprint_entry_inj in E as [E1 E2]; [|done|done]. by rewrite E1, (IH files').
Qed.
Lemma fingerprint_binds_witness :
  let f := {| fr_rel := "a"; fr_abs := "/a"; fr_size := 3; fr_mtime := 5 |} in
  let g := {| fr_rel := "a"; fr_abs := "/x/a"; fr_size := 3; fr_mtime := 5 |} in
  concat (map fingerprint_entry [f]) = concat (map fingerprint_entry [g])
  /\ map file_key [f] = map file_key [g].
Proof.
  split; [reflexivity|].
  apply (fingerprint_binds (H := Toy.blake3) [_] [_]); [| |reflexivity].
  all: constructor; [|constructor]; split; [|by split; vm_compute; split; congruence].
  all: apply (bool_decide_unpack _); vm_compute; done.
Defined.

(** Collecting keeps exactly the files found, in increasing order of relative
    path. *)
Theorem collect_files_sorted metadata paths files :
  collect_files metadata paths = Ok files ->
  StronglySorted rel_le files
  /\ exists found, collect_inputs metadata paths [] = Ok found /\ files ≡ₚ found.
Proof.
  unfold collect_files. destruct (collect_inputs metadata paths []) as [found| |] eqn:E; [|done|done].
  intros [= <-]. split; [apply sort_files_sorted|]. exists found. split; [done|apply sort_files_perm].
Qed.
Definition example_meta (p : string) : res Metadata :=
  if String.eqb p "/d" then
    Ok (MDir [Ok {| w_path := "/d"; w_is_file := false; w_meta := Err EJson |};
              Ok {| w_path := "/d/x"; w_is_file := true; w_meta := Ok {| m_len := 3; m_modified := None |} |}])
  else if String.eqb p "/a.txt" then Ok (MFile {| m_len := 7; m_modified := Some 9 |})
  else Err (EIo "No such file or directory").
Lemma collect_files_sorted_witness :
  map fr_rel (default [] (ok (collect_files example_meta ["/d"; "/a.txt"]))) = ["a.txt"; "d/x"]
  /\ StronglySorted rel_le (default [] (ok (collect_files example_meta ["/d"; "/a.txt"]))).
Proof.
  split; [vm_compute; reflexivity|].
  apply (collect_files_sorted example_meta ["/d"; "/a.txt"]). vm_compute. reflexivity.
Defined.
