(* ===== verification/Pake.v ===== *)
(** * src/pake.rs: the password-authenticated key exchange *)

From S2P Require Import Prelude Str Libs.

Inductive Role : Type := Receiver | Sender.
#[export] Instance Role_eq_dec : EqDecision Role.
Proof. solve_decision. Defined.
(** The other side. *)
Definition peer (r : Role) : Role := match r with Receiver => Sender | Sender => Receiver end.
Lemma peer_peer r : peer (peer r) = r.
Proof. by destruct r. Qed.
Lemma peer_ne r : peer r <> r.
Proof. by destruct r. Qed.
Lemma role_cases r r' : r' = r \/ r' = peer r.
Proof. destruct r, r'; auto. Qed.

(** [SessionKey(pub [u8; 32])]. *)
Record SessionKey : Type := { session_key : bytes }.

Definition STREAM_CTX : string := "b2p-v2 stream key v1".
Definition SIGNALING_CTX : string := "b2p-v2 signaling key v1".
Definition stream_key `{Blake3} (k : SessionKey) : bytes := derive_key STREAM_CTX (session_key k).
Definition signaling_key `{Blake3} (k : SessionKey) : bytes := derive_key SIGNALING_CTX (session_key k).

(** [Pake]: the state [Spake2] keeps is the password, the identity and the
    random scalar. *)
Record Pake : Type := { pake_password : bytes; pake_identity : bytes; pake_random : bytes }.

Definition identity (topic : string) : bytes := as_bytes ("b2p-v2:" +:+ topic).

(** [r] is the scalar [start_symmetric] draws. *)
Definition start `{Spake2} (r : bytes) (secret : bytes) (topic : string) : Pake * bytes :=
  ({| pake_password := secret; pake_identity := identity topic; pake_random := r |},
   spake_start secret (identity topic) r).
Definition finish `{Spake2} (p : Pake) (peer_msg : bytes) : res SessionKey :=
  key ← ok_or (EExternal "PAKE handshake failed")
          (spake_finish (pake_password p) (pake_identity p) (pake_random p) peer_msg);
  if zlen key =? 32 then mret {| session_key := key |}
  else Err (EMsg ("unexpected PAKE key length " +:+ show (zlen key))).

Definition confirm_tag (sender_role : Role) : bytes :=
  as_bytes (match sender_role with
            | Receiver => "b2p-v2-confirm-receiver"
            | Sender => "b2p-v2-confirm-sender"
            end).
Definition confirmation `{Blake3} (key : SessionKey) (sender_role : Role) : bytes :=
  keyed_hash (session_key key) (confirm_tag sender_role).
(** [constant_time_eq] is equality. *)
Definition verify_confirmation `{Blake3} (key : SessionKey) (peer_role : Role) (mac : bytes) : bool :=
  bool_decide (confirmation key peer_role = mac).

(** ** Lemmas *)

(** Two sides with one password and topic derive one key. *)
Lemma finish_agree `{Spake2} pw topic r1 r2 :
  exists k, finish (fst (start r1 pw topic)) (snd (start r2 pw topic)) = Ok k
    /\ finish (fst (start r2 pw topic)) (snd (start r1 pw topic)) = Ok k.
Proof.
  destruct (spake_agree pw (identity topic) r1 r2) as (k & Hk & H1 & H2).
  exists {| session_key := k |}. unfold finish, start. simpl. rewrite H1, H2. simpl.
  unfold zlen. by rewrite Hk.
Qed.
Lemma verify_own `{Blake3} k r : verify_confirmation k r (confirmation k r) = true.
Proof. unfold verify_confirmation. by rewrite bool_decide_eq_true. Qed.
Lemma finish_not_panic `{Spake2} p m : finish p m <> Panic.
Proof. unfold finish. destruct (spake_finish _ _ _ _); simpl; [|done]. by case_match. Qed.
