(* ===== verification/Channel.v ===== *)
(** * Two programs over a reliable, ordered message channel

    [MsgChannel] of src/stream.rs: a program sends messages, receives
    messages and works on its disk. Two programs run against each other over
    a queue per direction, in any interleaving. *)

From S2P Require Import Prelude Fs.

(** ** Programs *)

(** What a program does to its channel: [send] and [recv] can fail. *)
Inductive proc (A : Type) : Type :=
| Done (a : A)
| Send (msg : bytes) (k : res unit -> proc A)
| Recv (k : res bytes -> proc A).
Arguments Done {A} a.
Arguments Send {A} msg k.
Arguments Recv {A} k.

Fixpoint proc_bind {A B} (p : proc A) (f : A -> proc B) : proc B :=
  match p with
  | Done a => f a
  | Send m k => Send m (fun r => proc_bind (k r) f)
  | Recv k => Recv (fun r => proc_bind (k r) f)
  end.

(** A program over a disk. *)
Definition prog (A : Type) : Type := fs -> proc (res A * fs).
#[export] Instance prog_ret : MRet prog := fun A a s => Done (Ok a, s).
#[export] Instance prog_bind : MBind prog := fun A B f m s =>
  proc_bind (m s) (fun '(r, s') =>
    match r with
    | Ok a => f a s'
    | Err e => Done (Err e, s')
    | Panic => Done (Panic, s')
    end).
Definition prog_res {A} (r : res A) : prog A := fun s => Done (r, s).
Definition prog_io {A} (m : io A) : prog A := fun s => Done (m s).
Definition send (m : bytes) : prog unit := fun s => Send m (fun r => Done (r, s)).
Definition recv : prog bytes := fun s => Recv (fun r => Done (r, s)).

Lemma prog_res_bind {A B} (a : A) (f : A -> prog B) s : (prog_res (Ok a) ≫= f) s = f a s.
Proof. done. Qed.
(** The rest of a program, given what a part of it came to. *)
Definition prog_k {A B} (f : A -> prog B) : res A * fs -> proc (res B * fs) :=
  fun '(r, s') => match r with
                  | Ok a => f a s'
                  | Err e => Done (Err e, s')
                  | Panic => Done (Panic, s')
                  end.
Lemma prog_bind_eq {A B} (m : prog A) (f : A -> prog B) s : (m ≫= f) s = proc_bind (m s) (prog_k f).
Proof. done. Qed.

(** ** Two programs, two queues *)

Section network.
Context {A B : Type}.

Record config : Type := Config {
  left_proc : proc A;
  right_proc : proc B;
  to_right : list bytes;
  to_left : list bytes;
}.

(** [cap] is the number of messages a direction holds before its sender
    waits. *)
Inductive step (cap : nat) : config -> config -> Prop :=
| left_sends m k r lr rl :
    (length lr < cap)%nat ->
    step cap (Config (Send m k) r lr rl) (Config (k (Ok tt)) r (lr ++ [m]) rl)
| left_receives m k r lr rl :
    step cap (Config (Recv k) r lr (m :: rl)) (Config (k (Ok m)) r lr rl)
| right_sends m k l lr rl :
    (length rl < cap)%nat ->
    step cap (Config l (Send m k) lr rl) (Config l (k (Ok tt)) lr (rl ++ [m]))
| right_receives m k l lr rl :
    step cap (Config l (Recv k) (m :: lr) rl) (Config l (k (Ok m)) lr rl).

(** Two different steps from one configuration are a step of each side; they
    commute. *)
Lemma step_diamond cap c c1 c2 :
  step cap c c1 -> step cap c c2 -> c1 = c2 \/ exists d, step cap c1 d /\ step cap c2 d.
Proof.
  intros H1 H2. inversion H1; subst; inversion H2; subst.
  all: try (left; congruence).
  all: right; eexists; split; simpl.
  all: try (econstructor; by eauto).
  all: try (constructor; simpl in *; lia).
Qed.

(** If some run of [k] steps ends where nothing can happen, every run can be
    continued to that end, in [k] steps altogether. *)
Lemma runs_converge cap k c fin :
  (forall d, ~ step cap fin d) -> nsteps (step cap) k c fin ->
  forall j c', nsteps (step cap) j c c' -> (j <= k)%nat /\ nsteps (step cap) (k - j) c' fin.
Proof.
  intros Hfin Hk j c' Hj. revert k Hk. induction Hj as [c|j c c1 c' H1 Hj IH]; intros k Hk.
  - rewrite Nat.sub_0_r. split; [lia|done].
  - assert (Hd : forall k c, nsteps (step cap) k c fin -> forall c1, step cap c c1 ->
      exists k', k = S k' /\ nsteps (step cap) k' c1 fin).
    { clear -Hfin. intros k. induction k as [|k IH]; intros c Hk c1 H1.
      - inversion Hk; subst. by destruct (Hfin c1).
      - exists k. split; [done|]. inversion Hk as [|? ? c2 ? H2 Hk2]; subst.
        destruct (step_diamond cap c c1 c2 H1 H2) as [->|(d & Hd1 & Hd2)]; [done|].
        destruct (IH c2 Hk2 d Hd2) as (k' & -> & Hd). by eapply nsteps_l. }
    destruct (Hd k c Hk c1 H1) as (k' & -> & Hk'). destruct (IH k' Hk') as [H2 H3].
    split; [lia|]. done.
Qed.
Lemma done_stuck cap a b lr rl d : ~ step cap (Config (Done a) (Done b) lr rl) d.
Proof. inversion 1. Qed.

End network.
Arguments config : clear implicits.
Arguments Config {A B}.

(** ** Everything a program can come to *)

(** [may P p Q]: if the messages received satisfy [P], [p] ends in [Q],
    wherever the channel fails. *)
Fixpoint may {A} (P : bytes -> Prop) (p : proc A) (Q : A -> Prop) : Prop :=
  match p with
  | Done a => Q a
  | Send m k => forall r, r <> Panic -> may P (k r) Q
  | Recv k => forall r, r <> Panic -> (forall m, r = Ok m -> P m) -> may P (k r) Q
  end.
Lemma may_bind {A B} P (p : proc A) (f : A -> proc B) (R : A -> Prop) (Q : B -> Prop) :
  may P p R -> (forall a, R a -> may P (f a) Q) -> may P (proc_bind p f) Q.
Proof. induction p as [a|m k IH|k IH]; simpl; intros Hp Hf; eauto. Qed.
Lemma may_mono {A} P (p : proc A) (Q Q' : A -> Prop) :
  may P p Q -> (forall a, Q a -> Q' a) -> may P p Q'.
Proof. induction p as [a|m k IH|k IH]; simpl; intros Hp HQ; eauto. Qed.

(** The messages a program sends on a run that receives messages of [P]; [None]
    when the run is not over. *)
Inductive trace {A} (P : bytes -> Prop) : proc A -> list bytes -> option A -> Prop :=
| trace_stop p : trace P p [] None
| trace_done a : trace P (Done a) [] (Some a)
| trace_send m k r l o : r <> Panic -> trace P (k r) l o -> trace P (Send m k) (m :: l) o
| trace_recv k r l o : r <> Panic -> (forall m, r = Ok m -> P m) -> trace P (k r) l o -> trace P (Recv k) l o.
Lemma may_trace {A} P (p : proc A) Q l a : may P p Q -> trace P p l (Some a) -> Q a.
Proof.
  intros Hm Ht. remember (Some a) as o eqn:Eo. revert Hm. induction Ht as [|b|m k r l o Hr Ht IH|k r l o Hr Hp Ht IH]; intros Hm; [done| | |].
  - by injection Eo as ->.
  - apply IH; [done|]. by apply Hm.
  - apply IH; [done|]. by apply Hm.
Qed.
Lemma trace_bind {A B} P (p : proc A) (f : A -> proc B) l o :
  trace P (proc_bind p f) l o ->
  (exists l1 a l2, trace P p l1 (Some a) /\ trace P (f a) l2 o /\ l = l1 ++ l2)
  \/ trace P p l None /\ o = None.
Proof.
  revert l o. induction p as [a|m k IH|k IH]; intros l o; simpl.
  - intros Ht. left. exists [], a, l. split; [constructor|done].
  - inversion 1 as [|?|? ? r l' ? Hr Ht|?]; subst; [right; split; [constructor|done]|].
    destruct (IH r _ _ Ht) as [(l1 & a & l2 & H1 & H2 & ->)|[H1 ->]].
    + left. exists (m :: l1), a, l2. split; [by econstructor|done].
    + right. split; [by econstructor|done].
  - inversion 1 as [|?|?|? r l' ? Hr Hm Ht]; subst; [right; split; [constructor|done]|].
    destruct (IH r _ _ Ht) as [(l1 & a & l2 & H1 & H2 & ->)|[H1 ->]].
    + left. exists l1, a, l2. split; [by econstructor|done].
    + right. split; [by econstructor|done].
Qed.
Lemma trace_pure {A} P (a : A) l o : trace P (Done a) l o -> l = [].
Proof. by inversion 1. Qed.
