(* ===== verification/Transport.v ===== *)
(** * Programs over a transport

    What src/stream.rs and the handshake rely on is a message channel
    ([MsgChannel], Channel). What the program has are transports: two ends with
    their tasks and what lies between them, with limits on what they hold. Here
    is what a transport promises, and that a pair of programs runs over it as
    over the channel, if it can carry what they send: whatever their runs over
    the channel come to, their runs over the transport come to, and none
    deadlocks on the way. *)

From S2P Require Import Prelude Str Libs Fs Pake Channel.

(** ** The messages of a run *)

Section labels.
Context {A B : Type}.

(** A step and the message it sends; the sender's program is on the left. *)
Definition label : Type := list (Role * bytes).
Inductive lstep (cap : nat) : config A B -> label -> config A B -> Prop :=
| l_left_sends m k r lr rl : (length lr < cap)%nat ->
    lstep cap (Channel.Config (Send m k) r lr rl) [(Sender, m)] (Channel.Config (k (Ok tt)) r (lr ++ [m]) rl)
| l_left_receives m k r lr rl :
    lstep cap (Channel.Config (Recv k) r lr (m :: rl)) [] (Channel.Config (k (Ok m)) r lr rl)
| l_right_sends m k l lr rl : (length rl < cap)%nat ->
    lstep cap (Channel.Config l (Send m k) lr rl) [(Receiver, m)] (Channel.Config l (k (Ok tt)) lr (rl ++ [m]))
| l_right_receives m k l lr rl :
    lstep cap (Channel.Config l (Recv k) (m :: lr) rl) [] (Channel.Config l (k (Ok m)) lr rl).
(** A step of a side that is not ahead: what it has sent has been received,
    up to one message when it receives itself. *)
Inductive near_step : config A B -> label -> config A B -> Prop :=
| n_left_sends m k r rl : near_step (Channel.Config (Send m k) r [] rl) [(Sender, m)] (Channel.Config (k (Ok tt)) r [m] rl)
| n_left_receives m k r lr rl : (length lr <= 1)%nat ->
    near_step (Channel.Config (Recv k) r lr (m :: rl)) [] (Channel.Config (k (Ok m)) r lr rl)
| n_right_sends m k l lr : near_step (Channel.Config l (Send m k) lr []) [(Receiver, m)] (Channel.Config l (k (Ok tt)) lr [m])
| n_right_receives m k l lr rl : (length rl <= 1)%nat ->
    near_step (Channel.Config l (Recv k) (m :: lr) rl) [] (Channel.Config l (k (Ok m)) lr rl).
Inductive steps_of (R : config A B -> label -> config A B -> Prop) : nat -> config A B -> label -> config A B -> Prop :=
| steps_O c : steps_of R 0 c [] c
| steps_S n c a c1 ms c2 : R c a c1 -> steps_of R n c1 ms c2 -> steps_of R (S n) c (a ++ ms) c2.
Abbreviation lsteps cap := (steps_of (lstep cap)).
Abbreviation near_steps := (steps_of near_step).

Lemma steps_mono (R R' : config A B -> label -> config A B -> Prop) n c ms c' :
  (forall c a c', R c a c' -> R' c a c') -> steps_of R n c ms c' -> steps_of R' n c ms c'.
Proof. intros HR. induction 1; econstructor; eauto. Qed.
Lemma steps_r R n c ms c1 a c2 : steps_of R n c ms c1 -> R c1 a c2 -> steps_of R (n + 1) c (ms ++ a) c2.
Proof.
  intros Hl. revert a c2. induction Hl as [c|n c b c1 ms c2 Hb _ IH]; intros a c3 Ha.
  - cbn. rewrite <- (app_nil_r a). eapply steps_S; [exact Ha|constructor].
  - rewrite <- app_assoc. econstructor; [exact Hb|by apply IH].
Qed.
Lemma step_lstep cap c c' : step cap c c' -> exists a, lstep cap c a c'.
Proof. destruct 1; eexists; by econstructor. Qed.
Lemma lstep_step cap c a c' : lstep cap c a c' -> step cap c c'.
Proof. destruct 1; by econstructor. Qed.
Lemma lstep_mono cap cap' c a c' : (cap <= cap')%nat -> lstep cap c a c' -> lstep cap' c a c'.
Proof. intros Hc. destruct 1; constructor; lia. Qed.
Lemma nsteps_lsteps cap n c c' : nsteps (step cap) n c c' -> exists ms, lsteps cap n c ms c'.
Proof.
  induction 1 as [c|n c c1 c2 Hs _ (ms & IH)]; [eexists; constructor|].
  apply step_lstep in Hs as [a Hs]. eexists. by econstructor.
Qed.
Lemma near_lstep c a c' : near_step c a c' -> lstep 1 c a c'.
Proof.
  destruct 1; [apply (l_left_sends 1 _ _ _ [])|apply l_left_receives|apply (l_right_sends 1 _ _ _ _ [])|apply l_right_receives];
    simpl; lia.
Qed.
(** A run held to one message a direction, from empty queues. *)
Definition held (c : config A B) : Prop := (length (to_right c) <= 1)%nat /\ (length (to_left c) <= 1)%nat.
Lemma held_near n c ms c' : lsteps 1 n c ms c' -> held c -> near_steps n c ms c'.
Proof.
  induction 1 as [c|n c a c1 ms c2 Hs _ IH]; intros [Hl Hr]; [constructor|].
  destruct Hs as [m k r lr rl Hc|m k r lr rl|m k l lr rl Hc|m k l lr rl]; cbn [to_right to_left] in *.
  - destruct lr; [|simpl in Hc; lia]. econstructor; [constructor|]. by apply IH.
  - econstructor; [by constructor|]. apply IH. split; simpl in *; lia.
  - destruct rl; [|simpl in Hc; lia]. econstructor; [constructor|]. by apply IH.
  - econstructor; [by constructor|]. apply IH. split; simpl in *; lia.
Qed.

Lemma near_diamond cap c a1 c1 a2 c2 : lstep cap c a1 c1 -> near_step c a2 c2 ->
  (c1 = c2 /\ a1 = a2) \/ exists d, near_step c1 a2 d /\ lstep cap c2 a1 d.
Proof.
  intros H1 H2. inversion H1; subst; inversion H2; subst.
  all: try (left; split; simpl; congruence).
  all: right; eexists; split; simpl.
  all: try (econstructor; by eauto).
  all: try (constructor; simpl in *; lia).
Qed.
(** Every run can be continued to the end of the one that has one, no side
    ahead of the other, and sends the same messages on the whole. *)
Lemma near_converges cap k c ms fin : (forall cap d, ~ step cap fin d) -> near_steps k c ms fin ->
  forall j ms1 c', lsteps cap j c ms1 c' -> exists ms2, near_steps (k - j) c' ms2 fin /\ (j <= k)%nat /\ ms1 ++ ms2 ≡ₚ ms.
Proof.
  intros Hfin Hk j ms1 c' Hj. revert k ms Hk. induction Hj as [c|j c a c1 ms1 c' H1 Hj IH]; intros k ms Hk.
  - exists ms. rewrite Nat.sub_0_r. split; [done|]. split; [lia|done].
  - assert (Hd : forall k c ms, near_steps k c ms fin -> forall a c1, lstep cap c a c1 ->
      exists k' ms', k = S k' /\ near_steps k' c1 ms' fin /\ a ++ ms' ≡ₚ ms).
    { clear -Hfin. intros k. induction k as [|k IH]; intros c ms Hk a c1 H1.
      - inversion Hk; subst. by destruct (Hfin cap c1); eapply lstep_step.
      - inversion Hk as [|? ? a2 c2 ms2 ? H2 Hk2]; subst.
        destruct (near_diamond cap c a c1 a2 c2 H1 H2) as [[-> ->]|(d & Hd1 & Hd2)]; [by exists k, ms2|].
        destruct (IH c2 ms2 Hk2 a d Hd2) as (k' & ms' & -> & Hd & Hp). exists (S k'), (a2 ++ ms'). split; [done|].
        split; [by econstructor|]. by rewrite Permutation_app_swap_app, Hp. }
    destruct (Hd k c ms Hk a c1 H1) as (k' & ms' & -> & Hk' & Hp). destruct (IH k' ms' Hk') as (ms2 & H2 & H3 & H4).
    exists ms2. split; [done|]. split; [lia|]. by rewrite <- app_assoc, H4.
Qed.
End labels.
Abbreviation lsteps cap := (steps_of (lstep cap)).
Abbreviation near_steps := (steps_of near_step).


Definition sent_by (r : Role) (ms : label) : list bytes := omap (fun x => if decide (x.1 = r) then Some x.2 else None) ms.
Lemma sent_by_app r a b : sent_by r (a ++ b) = sent_by r a ++ sent_by r b.
Proof. apply omap_app. Qed.
#[export] Instance sent_by_perm r : Proper ((≡ₚ) ==> (≡ₚ)) (sent_by r).
Proof. intros a b E. unfold sent_by. by rewrite E. Qed.

(** ** What a transport promises *)

(** What an application does to its end. *)
Inductive action : Type := ASend (f : bytes) | ATake (f : bytes).
Definition sent_in (a : option (Role * action)) : label := match a with Some (r, ASend m) => [(r, m)] | _ => [] end.
(** [q r]: what [r] has sent and its peer has not taken. *)
Definition queue_step (q : Role -> list bytes) (a : option (Role * action)) (q' : Role -> list bytes) : Prop :=
  match a with
  | None => forall r, q' r = q r
  | Some (r, ASend m) => q' r = q r ++ [m] /\ q' (peer r) = q (peer r)
  | Some (r, ATake m) => q (peer r) = m :: q' (peer r) /\ q' r = q r
  end.

(** Steps with what an application does in them, the queues a state stands
    for, an invariant of the state and of what has been sent, and the messages
    of a run the transport can carry. *)
Class Transport : Type := {
  tr_state : Type;
  tr_start : tr_state;
  tr_step : tr_state -> option (Role * action) -> tr_state -> Prop;
  tr_waiting : tr_state -> Role -> list bytes;
  tr_inv : tr_state -> label -> Prop;
  tr_carries : label -> Prop;
  tr_start_inv : tr_inv tr_start [];
  tr_start_waiting r : tr_waiting tr_start r = [];
  tr_step_inv w a w' ms : tr_step w a w' -> tr_inv w ms -> tr_inv w' (ms ++ sent_in a);
  tr_step_queue w a w' ms : tr_step w a w' -> tr_inv w ms -> queue_step (tr_waiting w) a (tr_waiting w');
  tr_carries_perm a b : a ≡ₚ b -> tr_carries a -> tr_carries b;
  tr_carries_prefix a b : tr_carries (a ++ b) -> tr_carries a;
  (** an end whose peer is not behind can take what waits for it *)
  tr_take_ready w ms r m l : tr_inv w ms -> tr_carries ms -> tr_waiting w (peer r) = m :: l -> (length (tr_waiting w r) <= 1)%nat ->
    exists w' w'', rtc (fun w w' => tr_step w None w') w w' /\ tr_step w' (Some (r, ATake m)) w'';
  (** an end whose peer has taken everything can send *)
  tr_send_ready w ms r m : tr_inv w ms -> tr_waiting w r = [] -> tr_carries (ms ++ [(r, m)]) ->
    exists w' w'', rtc (fun w w' => tr_step w None w') w w' /\ tr_step w' (Some (r, ASend m)) w'';
}.

(** ** Two programs over a transport *)

Section over.
Context {T : Transport} {A B : Type}.

Record over : Type := Over { o_left : proc A; o_right : proc B; o_sys : tr_state }.
Inductive over_step : over -> over -> Prop :=
| over_left_sends m k q w w' : tr_step w (Some (Sender, ASend m)) w' ->
    over_step (Over (Send m k) q w) (Over (k (Ok tt)) q w')
| over_left_receives m k q w w' : tr_step w (Some (Sender, ATake m)) w' ->
    over_step (Over (Recv k) q w) (Over (k (Ok m)) q w')
| over_right_sends m k p w w' : tr_step w (Some (Receiver, ASend m)) w' ->
    over_step (Over p (Send m k) w) (Over p (k (Ok tt)) w')
| over_right_receives m k p w w' : tr_step w (Some (Receiver, ATake m)) w' ->
    over_step (Over p (Recv k) w) (Over p (k (Ok m)) w')
| over_works p q w w' : tr_step w None w' -> over_step (Over p q w) (Over p q w').

(** What the programs see: the queues between them. *)
Definition seen (d : over) : config A B :=
  Channel.Config (o_left d) (o_right d) (tr_waiting (o_sys d) Sender) (tr_waiting (o_sys d) Receiver).

(** A step of the whole is one the programs make over the channel, or none. *)
Lemma over_step_seen d d' ms : over_step d d' -> tr_inv (o_sys d) ms ->
  exists a, tr_inv (o_sys d') (ms ++ a) /\ ((seen d' = seen d /\ a = []) \/ exists cap, lstep cap (seen d) a (seen d')).
Proof.
  intros Hs Hi. destruct Hs as [m k q w w' Hs|m k q w w' Hs|m k p w w' Hs|m k p w w' Hs|p q w w' Hs]; cbn [o_sys] in *;
    pose proof (tr_step_inv _ _ _ _ Hs Hi) as Hi'; pose proof (tr_step_queue _ _ _ _ Hs Hi) as Hq; cbn [queue_step peer] in Hq;
    eexists; (split; [exact Hi'|]); unfold seen; cbn [o_left o_right o_sys sent_in].
  - destruct Hq as [-> ->]. right. exists (S (length (tr_waiting w Sender))). by apply l_left_sends; lia.
  - destruct Hq as [-> ->]. right. exists 0%nat. apply l_left_receives.
  - destruct Hq as [-> ->]. right. exists (S (length (tr_waiting w Receiver))). by apply l_right_sends; lia.
  - destruct Hq as [-> ->]. right. exists 0%nat. apply l_right_receives.
  - left. by rewrite !Hq.
Qed.
Lemma works_over p q ms w w' : rtc (fun w w' => tr_step w None w') w w' -> tr_inv w ms ->
  rtc over_step (Over p q w) (Over p q w') /\ tr_inv w' ms /\ forall r, tr_waiting w' r = tr_waiting w r.
Proof.
  induction 1 as [w|w w1 w' Hs _ IH]; intros Hi; [by split; [apply rtc_refl|]|].
  pose proof (tr_step_inv _ _ _ _ Hs Hi) as Hi1. rewrite app_nil_r in Hi1. pose proof (tr_step_queue _ _ _ _ Hs Hi) as Hq.
  destruct (IH Hi1) as (Hr & Hi' & Hw). split; [eapply rtc_l; [by apply over_works|done]|]. split; [done|].
  intros r. by rewrite Hw, Hq.
Qed.
(** A step of a side that is not ahead can be made. *)
Lemma near_over d ms a c' : tr_inv (o_sys d) ms -> near_step (seen d) a c' -> tr_carries (ms ++ a) ->
  exists d', rtc over_step d d' /\ seen d' = c' /\ tr_inv (o_sys d') (ms ++ a).
Proof.
  intros Hi Hs Hc. destruct d as [p q w]. cbn [o_sys] in Hi.
  assert (Hgo : forall r x p' q', (exists w' w'', rtc (fun w w' => tr_step w None w') w w' /\ tr_step w' (Some (r, x)) w'') ->
    (forall w' w'', tr_step w' (Some (r, x)) w'' -> over_step (Over p q w') (Over p' q' w'')) ->
    exists w2, rtc over_step (Over p q w) (Over p' q' w2) /\ tr_inv w2 (ms ++ sent_in (Some (r, x)))
      /\ queue_step (tr_waiting w) (Some (r, x)) (tr_waiting w2)).
  { intros r x p' q' (w1 & w2 & Hr & Hst) Hov. destruct (works_over p q _ _ _ Hr Hi) as (Hr1 & Hi1 & Hw1).
    exists w2. split; [eapply rtc_r; [exact Hr1|by apply Hov]|]. split; [by eapply tr_step_inv|].
    pose proof (tr_step_queue _ _ _ _ Hst Hi1) as Hq. destruct x; cbn in *; by rewrite !Hw1 in Hq. }
  remember (seen (Over p q w)) as c eqn:Ec. unfold seen in Ec. cbn [o_left o_right o_sys] in Ec.
  destruct Hs as [m k r rl|m k r lr rl Hlen|m k l lr|m k l lr rl Hlen]; injection Ec as E1 E2 E3 E4; subst.
  - destruct (Hgo Sender (ASend m) (k (Ok tt)) q) as (w2 & Hr & Hi2 & Hq1 & Hq2); [by eapply tr_send_ready|by constructor|].
    eexists. split; [exact Hr|]. split; [|done]. cbn [peer] in Hq2. unfold seen. cbn [o_left o_right o_sys]. by rewrite Hq1, Hq2, <- E3.
  - rewrite app_nil_r in Hc.
    destruct (Hgo Sender (ATake m) (k (Ok m)) q) as (w2 & Hr & Hi2 & Hq1 & Hq2); [by eapply tr_take_ready|by constructor|].
    eexists. split; [exact Hr|]. split; [|done]. cbn [peer] in Hq1. unfold seen. cbn [o_left o_right o_sys]. rewrite Hq2. congruence.
  - destruct (Hgo Receiver (ASend m) p (k (Ok tt))) as (w2 & Hr & Hi2 & Hq1 & Hq2); [by eapply tr_send_ready|by constructor|].
    eexists. split; [exact Hr|]. split; [|done]. cbn [peer] in Hq2. unfold seen. cbn [o_left o_right o_sys]. by rewrite Hq1, Hq2, <- E4.
  - rewrite app_nil_r in Hc.
    destruct (Hgo Receiver (ATake m) p (k (Ok m))) as (w2 & Hr & Hi2 & Hq1 & Hq2); [by eapply tr_take_ready|by constructor|].
    eexists. split; [exact Hr|]. split; [|done]. cbn [peer] in Hq1. unfold seen. cbn [o_left o_right o_sys]. rewrite Hq2. congruence.
Qed.

(** What the programs have done by any point of a run over the transport is a
    run over the channel. *)
Lemma over_seen_run p q d : rtc over_step (Over p q tr_start) d ->
  exists cap j ms, lsteps cap j (Channel.Config p q [] []) ms (seen d) /\ tr_inv (o_sys d) ms.
Proof.
  intros Hr. remember (Over p q tr_start) as d0 eqn:E0.
  assert (H0 : exists cap j ms, lsteps cap j (Channel.Config p q [] []) ms (seen d0) /\ tr_inv (o_sys d0) ms).
  { subst d0. exists 0%nat, 0%nat, []. unfold seen. cbn [o_left o_right o_sys]. rewrite !tr_start_waiting.
    split; [constructor|apply tr_start_inv]. }
  clear E0. induction Hr as [d|d d1 d2 Hs _ IH]; [done|]. apply IH. destruct H0 as (cap & j & ms & Hl & Hi).
  destruct (over_step_seen d d1 ms Hs Hi) as (a & Hi1 & [[-> ->]|(cap1 & Ha)]).
  { rewrite app_nil_r in Hi1. by exists cap, j, ms. }
  exists (max cap cap1), (j + 1)%nat, (ms ++ a). split; [|done].
  eapply steps_r; [eapply steps_mono; [|exact Hl]|eapply lstep_mono; [|exact Ha]]; [intros ???; apply lstep_mono|]; lia.
Qed.
Lemma over_replays n c ms fin : near_steps n c ms fin -> forall d ms0, seen d = c -> tr_inv (o_sys d) ms0 -> tr_carries (ms0 ++ ms) ->
  exists d', rtc over_step d d' /\ seen d' = fin.
Proof.
  induction 1 as [c|n c a c1 ms c2 Hs _ IH]; intros d ms0 Hd Hi Hc; [exists d; split; [apply rtc_refl|done]|].
  rewrite app_assoc in Hc. rewrite <- Hd in Hs.
  destruct (near_over d ms0 a c1 Hi Hs (tr_carries_prefix _ _ Hc)) as (d1 & Hr1 & Hd1 & Hi1).
  destruct (IH d1 (ms0 ++ a) Hd1 Hi1 Hc) as (d' & Hr' & Hd'). exists d'. split; [by etrans|done].
Qed.
Lemma over_converges p q k ms fin : lsteps 1 k (Channel.Config p q [] []) ms fin -> (forall cap d, ~ step cap fin d) ->
  tr_carries ms -> forall d, rtc over_step (Over p q tr_start) d -> exists d', rtc over_step d d' /\ seen d' = fin.
Proof.
  intros Hk Hfin Hms d Hr. destruct (over_seen_run p q d Hr) as (cap & j & ms1 & Hl & Hi).
  apply held_near in Hk; [|by split; simpl; lia].
  destruct (near_converges cap k _ ms fin Hfin Hk j ms1 _ Hl) as (ms2 & H2 & _ & Hp).
  eapply over_replays; [exact H2|done|exact Hi|]. eapply tr_carries_perm; [|exact Hms]. by rewrite Hp.
Qed.

(** A pair of programs whose runs over the channel, held to one message a
    direction, send what the transport can carry; one run shows it, if it has
    an end. *)
Definition carried (p : proc A) (q : proc B) : Prop :=
  forall n ms c, lsteps 1 n (Channel.Config p q [] []) ms c -> tr_carries ms.
Lemma one_run_carried (p : proc A) (q : proc B) k ms fin :
  lsteps 1 k (Channel.Config p q [] []) ms fin -> (forall cap d, ~ step cap fin d) -> tr_carries ms -> carried p q.
Proof.
  intros Hk Hfin Hms j ms1 c Hj. apply held_near in Hk; [|by split; simpl; lia].
  destruct (near_converges 1 k _ ms fin Hfin Hk j ms1 c Hj) as (ms2 & _ & _ & Hp).
  eapply tr_carries_prefix, tr_carries_perm; [|exact Hms]. by rewrite Hp.
Qed.
(** Programs that come to an end over the channel come to it over the
    transport. *)
Lemma over_delivers p q fin : carried p q -> (forall cap d, ~ step cap fin d) ->
  rtc (step 1) (Channel.Config p q [] []) fin ->
  forall d, rtc over_step (Over p q tr_start) d ->
  exists d', rtc over_step d d' /\ o_left d' = left_proc fin /\ o_right d' = right_proc fin.
Proof.
  intros Hc Hfin [k Hk]%rtc_nsteps d Hd. apply nsteps_lsteps in Hk as [ms Hk].
  destruct (over_converges p q k ms fin Hk Hfin (Hc _ _ _ Hk) d Hd) as (d' & Hr & Hs). exists d'. split; [done|]. by rewrite <- Hs.
Qed.
End over.
Arguments over {T} A B.

(** That run, computed: the left side first. *)
Definition one_step {A B} (c : config A B) : option (label * config A B) :=
  match c with
  | Channel.Config (Send m k) r [] rl => Some ([(Sender, m)], Channel.Config (k (Ok tt)) r [m] rl)
  | Channel.Config (Recv k) r lr (m :: rl) => Some ([], Channel.Config (k (Ok m)) r lr rl)
  | Channel.Config l (Send m k) lr [] => Some ([(Receiver, m)], Channel.Config l (k (Ok tt)) lr [m])
  | Channel.Config l (Recv k) (m :: lr) rl => Some ([], Channel.Config l (k (Ok m)) lr rl)
  | _ => None
  end.
Fixpoint drive {A B} (fuel : nat) (c : config A B) : label * config A B :=
  match fuel with
  | O => ([], c)
  | S fuel' => match one_step c with
               | Some (a, c') => let (ms, d) := drive fuel' c' in (a ++ ms, d)
               | None => ([], c)
               end
  end.
Lemma one_step_lstep {A B} (c : config A B) a c' : one_step c = Some (a, c') -> lstep 1 c a c'.
Proof.
  destruct c as [[x|m k|k] [y|m' k'|k'] [|g lr] [|g' rl]]; cbn; intros [= <- <-].
  all: first [apply l_left_receives | apply l_right_receives | apply (l_left_sends 1 _ _ _ []); simpl; lia
             | apply (l_right_sends 1 _ _ _ _ []); simpl; lia].
Qed.
Lemma drive_lsteps {A B} fuel (c : config A B) : exists n, lsteps 1 n c (drive fuel c).1 (drive fuel c).2.
Proof.
  revert c. induction fuel as [|fuel IH]; intros c; cbn [drive]; [exists 0%nat; constructor|].
  destruct (one_step c) as [[a c']|] eqn:E; [|exists 0%nat; constructor].
  destruct (IH c') as [n Hn]. destruct (drive fuel c') as [ms d]. exists (S n). econstructor; [by apply one_step_lstep|done].
Qed.
Definition drives_to_end {A B} (carriedb : label -> bool) (fuel : nat) (c : config A B) : bool :=
  let '(ms, d) := drive fuel c in
  match d with Channel.Config (Done _) (Recv _) [] [] => carriedb ms | _ => false end.
Lemma drives_carried {T : Transport} {A B} carriedb fuel (p : proc A) (q : proc B) :
  (forall ms, carriedb ms = true -> tr_carries ms) ->
  drives_to_end carriedb fuel (Channel.Config p q [] []) = true -> carried p q.
Proof.
  unfold drives_to_end. intros Hb. destruct (drive_lsteps fuel (Channel.Config p q [] [])) as [n Hn].
  destruct (drive _ _) as [ms d]. destruct d as [[x|m k|k] [y|m' k'|k'] [|g lr] [|g' rl]]; try done. intros Hd.
  eapply one_run_carried; [exact Hn|intros cap d; by inversion 1|by apply Hb].
Qed.

(** ** Coming to an end *)

(** However [p] and [q] run, they can be brought to [fin]: over the channel,
    whatever a direction holds, in [k] steps on the whole; and over any
    transport that carries what they send. *)
Definition comes_to {A B} (p : proc A) (q : proc B) (k : nat) (fin : config A B) : Prop :=
  (forall cap j c, (1 <= cap)%nat -> nsteps (step cap) j (Channel.Config p q [] []) c ->
     (j <= k)%nat /\ nsteps (step cap) (k - j) c fin)
  /\ forall (T : Transport), carried p q -> forall d, rtc over_step (Over p q tr_start) d ->
       exists d', rtc over_step d d' /\ o_left d' = left_proc fin /\ o_right d' = right_proc fin.
Lemma comes_to_one {A B} (p : proc A) (q : proc B) k fin :
  (forall cap d, ~ step cap fin d) -> nsteps (step 1) k (Channel.Config p q [] []) fin -> comes_to p q k fin.
Proof.
  intros Hfin Hk. split.
  - intros cap j c Hcap. apply runs_converge; [by apply Hfin|].
    pose proof (nsteps_lsteps _ _ _ _ Hk) as [ms Hl]. clear Hk. induction Hl as [d|n d a d1 ms d2 Hs _ IH]; [constructor|].
    econstructor; [eapply lstep_step, lstep_mono; [exact Hcap|exact Hs]|by apply IH].
  - intros T Hc d Hd. eapply (over_delivers p q fin); try done. by eapply rtc_nsteps_2.
Qed.
