(* ===== verification/Send.v ===== *)
(** * src/send.rs: reading the source, manifests, failure reports *)

From S2P Require Import Prelude Str Libs Fs Crypto Protocol Store Archive.

Definition PARALLEL_UPLOADS : Z := 4.
Definition CHUNK_ATTEMPTS : Z := 5.
(** Seconds. *)
Definition ACCEPT_TIMEOUT : Z := 120.

Definition build_manifest (source : Source) : Manifest :=
  match source with
  | Blob k n es size tid _ _ =>
      {| version := PROTOCOL_VERSION; mf_transfer_id := tid; kind := k; name := n; entries := es;
         mf_total_size := size; mf_chunk_size := CHUNK_SIZE; text := None |}
  | Text content tid =>
      {| version := PROTOCOL_VERSION; mf_transfer_id := tid; kind := KText; name := ""; entries := [];
         mf_total_size := str_len content; mf_chunk_size := CHUNK_SIZE; text := Some content |}
  end.

(** [read_exact] fails when the file ends before the buffer is full. *)
Definition read_chunk (p : path) (index chunk_size total_size : Z) : io bytes :=
  b ← fs_read p;
  let off := (index * chunk_size)%u64 in
  let len := Z.min chunk_size (wrap64 (total_size - (index * chunk_size)%u64)) in
  if (len =? 0) || (off + len <=? zlen b) then mret (slice off len b)
  else io_lift (Err (EIo "failed to fill whole buffer")).

Definition blake3_file `{Blake3} (p : path) : io string :=
  b ← fs_read p; mret (hash_reader b).

(** ** Which layer failed *)

Inductive FailLayer : Type := Dns | Tls | Connect | Other.

Definition classify_error_text (chain : string) : FailLayer :=
  let t := to_ascii_lowercase chain in
  if contains "dns error" t || contains "failed to lookup address" t
     || contains "name or service not known" t || contains "nodename nor servname" t
     || contains "no such host" t then Dns
  else if contains "certificate" t || contains "unknownissuer" t || contains "handshake" t
          || contains "tls" t then Tls
  else if contains "connect" t || contains "timed out" t || contains "timeout" t
          || contains "reset" t || contains "refused" t then Connect
  else Other.

Definition failure_summary (name host : string) (ran_doctor : bool) : string :=
  if ran_doctor then name +:+ " failure reaching " +:+ host +:+ " — see diagnostics above"
  else name +:+ " failure reaching " +:+ host.

(** The layer's name and hint of [connect_failure], and whether it runs the
    doctor before reporting. *)
Definition layer_name (l : FailLayer) : string :=
  match l with Dns => "DNS" | Tls => "TLS" | Connect | Other => "transport" end.
Definition ran_doctor (l : FailLayer) : bool := match l with Other => false | _ => true end.
Definition connect_failure (host : option string) (chain : string) : error :=
  let h := default "<no host>" host in
  let layer := classify_error_text chain in
  EMsg (failure_summary (layer_name layer) h (ran_doctor layer)).

(** ** Lemmas *)

(** A chunk within the file is read as that chunk. *)
Lemma read_chunk_ok p cs content i f fl :
  0 < cs < U64 -> zlen content < U64 -> 0 <= i < n_chunks cs content ->
  file_at f p = Some content -> fl = [] ->
  read_chunk p i cs (zlen content) (Fs f fl) = (Ok (chunk cs i content), Fs f fl).
Proof.
  intros Hcs Hlen Hi Hf%file_at_Some ->.
  destruct (chunk_in_range cs i content ltac:(lia) Hi) as [H1 H2].
  pose proof (zlen_chunk cs i content ltac:(lia) Hi) as H3.
  unfold read_chunk, mbind, io_bind, fs_read, sys. simpl. rewrite Hf.
  rewrite !wrap64_small by (unfold u64_ok; rewrite ?wrap64_small by (unfold u64_ok; lia); lia).
  destruct (Z.leb_spec (i * cs + Z.min cs (zlen content - i * cs)) (zlen content)); [|lia].
  rewrite orb_true_r. unfold mret, io_ret. do 2 f_equal. unfold chunk.
  apply list_eq. intros k. destruct (decide (Z.of_nat k < Z.min cs (zlen content - i * cs))) as [Hk|Hk].
  - by rewrite !lookup_slice by lia.
  - assert (E : forall m, zlen m <= Z.min cs (zlen content - i * cs) -> (m : bytes) !! k = None).
    { intros m Hm. apply lookup_ge_None_2. unfold zlen in *. lia. }
    rewrite !E; [done|rewrite zlen_slice_min by lia; lia..].
Qed.
Lemma blake3_file_ok `{Blake3} p content f :
  file_at f p = Some content ->
  blake3_file p (Fs f []) = (Ok (hex_encode (blake3_hash content)), Fs f []).
Proof.
  intros Hf%file_at_Some. unfold blake3_file, mbind, io_bind, fs_read, sys. simpl. rewrite Hf.
  by rewrite <- hash_reader_spec.
Qed.

(** ** Properties *)

(** The report names the DNS layer before TLS and TLS before the transport:
    a chain that mentions a DNS failure is a DNS failure whatever else it
    mentions, and so on; and the report refers to diagnostics exactly when
    the doctor ran. *)
Theorem connect_failure_spec host chain :
  let t := to_ascii_lowercase chain in
  connect_failure (Some host) chain =
    EMsg (if contains "dns error" t || contains "failed to lookup address" t
             || contains "name or service not known" t || contains "nodename nor servname" t
             || contains "no such host" t
          then "DNS failure reaching " +:+ host +:+ " — see diagnostics above"
          else if contains "certificate" t || contains "unknownissuer" t || contains "handshake" t || contains "tls" t
          then "TLS failure reaching " +:+ host +:+ " — see diagnostics above"
          else if contains "connect" t || contains "timed out" t || contains "timeout" t
                  || contains "reset" t || contains "refused" t
          then "transport failure reaching " +:+ host +:+ " — see diagnostics above"
          else "transport failure reaching " +:+ host).
Proof.
  intros t. unfold connect_failure, classify_error_text. fold t. simpl.
  by do 3 (case_match; [reflexivity|]).
Qed.
