(* ===== verification/Stream.v ===== *)
(** * src/stream.rs: the payload transfer over a message channel *)

From S2P Require Import Prelude Str Libs Fs Crypto Protocol Store Archive Pake Channel Send.

Definition STREAM_FRAME_SIZE : Z := 16 * 1024.

Definition safe_name (name : string) : string := default "b2p-download" (file_name name).

Definition chunk_len (i total_size chunk_size : Z) : Z :=
  Z.min (wrap64 (total_size - (i * chunk_size)%u64)) chunk_size.

Definition stream_manifest (source : Source) : Manifest :=
  match source with
  | Blob k n es size tid _ _ =>
      {| version := PROTOCOL_VERSION; mf_transfer_id := tid; kind := k; name := n; entries := es;
         mf_total_size := size; mf_chunk_size := STREAM_FRAME_SIZE; text := None |}
  | Text content tid =>
      {| version := PROTOCOL_VERSION; mf_transfer_id := tid; kind := KText; name := ""; entries := [];
         mf_total_size := str_len content; mf_chunk_size := STREAM_FRAME_SIZE; text := Some content |}
  end.

Definition declined_ack : StreamManifestAck :=
  {| accepted := false; complete := false; have_runs := [] |}.

Section stream.
Context `{Aead} `{Blake3}.

Definition seal_val {T} `{Serde T} (sk : bytes) (domain : Domain) (index : Z) (v : T) : bytes :=
  seal sk domain index [] (to_vec v).
Definition open_val {T} `{Serde T} (sk : bytes) (domain : Domain) (index : Z) (ct : bytes) : res T :=
  pt ← map_err (fun _ => EMsg "frame failed to decrypt") (open sk domain index [] ct);
  ok_or EJson (from_slice pt).

Context `{!Serde Manifest} `{!Serde StreamManifestAck} `{!Serde Commit} `{!Serde CommitAck} `{!Serde State}.

(** ** The sender *)

(** The payload loop over the indices [l]. *)
Fixpoint send_payload (sk : bytes) (ack : StreamManifestAck) (p : path) (total_size : Z)
    (l : list Z) : prog unit :=
  match l with
  | [] => mret tt
  | i :: l' =>
      if complete ack || runs_contain (have_runs ack) i then send_payload sk ack p total_size l'
      else
        plain ← prog_io (read_chunk p i STREAM_FRAME_SIZE total_size);
        _ ← send (seal sk DStreamToReceiver (1 + i)%u64 [] plain);
        send_payload sk ack p total_size l'
  end.

(** From the payload on. *)
Definition send_blob (sk : bytes) (ack : StreamManifestAck) (manifest : Manifest) (p : path)
    (total_size : Z) : prog string :=
  total_chunks ← prog_res (Manifest_total_chunks manifest);
  _ ← send_payload sk ack p total_size (zrange 0 total_chunks);
  hash ← prog_io (blake3_file p);
  _ ← send (seal_val sk DStreamToReceiver (1 + total_chunks)%u64 {| blake3_hex := hash |});
  ct ← recv;
  cack ← prog_res (open_val (T := CommitAck) sk DStreamToSender 1 ct);
  if negb (ca_ok cack)
  then prog_res (Err (EMsg ("receiver failed to finalize: " +:+ default "" (ca_error cack))))
  else mret "transfer complete".

Definition send_source (key : SessionKey) (source : Source) : prog string :=
  let sk := stream_key key in
  let manifest := stream_manifest source in
  _ ← send (seal_val sk DStreamToReceiver 0 manifest);
  ct ← recv;
  ack ← prog_res (context "could not read the receiver's response (wrong code?)"
                    (open_val (T := StreamManifestAck) sk DStreamToSender 0 ct));
  if negb (accepted ack) then prog_res (Err (EMsg "the receiver declined the transfer"))
  else if bool_decide (kind manifest = KText) then mret "text delivered"
  else match source with
       | Blob _ _ _ total_size _ p _ => send_blob sk ack manifest p total_size
       | Text _ _ => prog_res Panic
       end.

(** ** The receiver *)

Variable tar_unpack : bytes -> path -> io unit.

(** [store.write_chunk(i, &plain)?], the store mutated. *)
Definition prog_write (store : Store) (i : Z) (plain : bytes) : prog Store := fun s =>
  let '((r, store'), s') := write_chunk store i plain s in
  Done (match r with Ok _ => Ok store' | Err e => Err e | Panic => Panic end, s').

Fixpoint recv_payload (sk : bytes) (have_set : list Z) (l : list Z) (store : Store) : prog Store :=
  match l with
  | [] => mret store
  | i :: l' =>
      if bool_decide (i ∈ have_set) then recv_payload sk have_set l' store
      else
        ct ← recv;
        plain ← prog_res (map_err (fun _ => EMsg ("frame " +:+ show i +:+ " failed to decrypt"))
                            (open sk DStreamToReceiver (1 + i)%u64 [] ct));
        store' ← prog_write store i plain;
        recv_payload sk have_set l' store'
  end.

Definition finalize (store : Store) (manifest : Manifest) (commit : Commit) (out_dir : path)
    (name : string) : io string :=
  c ← io_lift (is_complete store);
  if negb c then io_lift (Err (EMsg "transfer incomplete"))
  else
    h ← file_hash store;
    if negb (String.eqb h (blake3_hex commit))
    then io_lift (Err (EMsg "integrity check failed: hash mismatch"))
    else match kind manifest with
         | KFile =>
             let dest := join out_dir name in
             _ ← finalize_file store dest;
             mret ("saved " +:+ display dest)
         | KTar =>
             _ ← unpack_tar tar_unpack (data_path store) out_dir;
             _ ← cleanup store;
             mret ("unpacked archive into " +:+ display out_dir)
         | KText => io_lift Panic
         end.

(** The commit acknowledgement that reports a result. *)
Definition commit_ack (result : res string) : CommitAck :=
  match result with
  | Err e => {| ca_ok := false; ca_error := Some (error_to_string e) |}
  | _ => {| ca_ok := true; ca_error := None |}
  end.

(** From opening the store on. *)
Definition recv_blob (sk : bytes) (manifest : Manifest) (out_dir : path) (name : string) : prog string :=
  store ← prog_io (open_or_create out_dir name (mf_transfer_id manifest)
                     (mf_total_size manifest) (mf_chunk_size manifest));
  let hv := have store in
  done ← prog_res (is_complete store);
  _ ← send (seal_val sk DStreamToSender 0
              {| accepted := true; complete := done; have_runs := runs_from_sorted hv |});
  total_chunks ← prog_res (Manifest_total_chunks manifest);
  store ← recv_payload sk hv (zrange 0 total_chunks) store;
  ct ← recv;
  commit ← prog_res (open_val (T := Commit) sk DStreamToReceiver (1 + total_chunks)%u64 ct);
  result ← prog_io (io_try (finalize store manifest commit out_dir name));
  _ ← send (seal_val sk DStreamToSender 1 (commit_ack result));
  prog_res result.

(** [accept] may look at the disk. *)
Definition recv_into (key : SessionKey) (out_dir : path)
    (accept : gmap path node -> Manifest -> bool) : prog string :=
  let sk := stream_key key in
  ct ← recv;
  manifest ← prog_res (context "could not decrypt the manifest (wrong code?)"
                         (open_val (T := Manifest) sk DStreamToReceiver 0 ct));
  if negb (version manifest =? PROTOCOL_VERSION) then
    _ ← send (seal_val sk DStreamToSender 0 declined_ack);
    prog_res (Err (EMsg "protocol version mismatch"))
  else if negb (bool_decide (kind manifest = KText)) && negb (mf_chunk_size manifest =? STREAM_FRAME_SIZE) then
    _ ← send (seal_val sk DStreamToSender 0 declined_ack);
    prog_res (Err (EMsg ("unexpected frame size " +:+ show (mf_chunk_size manifest)
                         +:+ " (stream expects " +:+ show STREAM_FRAME_SIZE +:+ ")")))
  else
    let name := safe_name (name manifest) in
    fun s =>
    (if negb (accept (nodes s) manifest) then
       _ ← send (seal_val sk DStreamToSender 0 declined_ack);
       prog_res (Err (EMsg "transfer declined"))
     else if bool_decide (kind manifest = KText) then
       _ ← send (seal_val sk DStreamToSender 0
                   {| accepted := true; complete := false; have_runs := [] |});
       mret (default "" (text manifest))
     else recv_blob sk manifest out_dir name) s.
End stream.
