(* ===== verification/Transfer.v ===== *)
(** * A transfer, end to end: the two programs of src/stream.rs together *)

From S2P Require Import Prelude Str Libs Fs Crypto Protocol Store Archive Pake Channel Send Stream.

(** ** Names *)

Lemma plain_download : plain_name "b2p-download".
Proof. repeat split; vm_compute; congruence. Qed.
(** Whatever name the manifest claims, the file lands in the output
    directory itself. *)
Lemma safe_name_plain s : plain_name (safe_name s).
Proof.
  unfold safe_name. destruct (file_name s) as [n|] eqn:E; [|apply plain_download].
  by eapply file_name_plain.
Qed.
Lemma plain_suffix n : plain_name n -> plain_name (n +:+ ".b2p-partial").
Proof.
  intros (Hl & Hn & _ & _). split; [|split; [|split]].
  - unfold lacks in *. rewrite str_all_app, Hl. reflexivity.
  - intros E%(f_equal String.length). rewrite str_app_length in E. simpl in E. lia.
  - intros E%(f_equal String.length). rewrite str_app_length in E. simpl in E. lia.
  - intros E%(f_equal String.length). rewrite str_app_length in E. simpl in E. lia.
Qed.
Lemma partial_dir_plain out n : plain_name n -> partial_dir out n = out ++ [n +:+ ".b2p-partial"].
Proof. intros. by apply join_plain, plain_suffix. Qed.
Lemma dest_not_under out n :
  ~ (out ++ [n +:+ ".b2p-partial"]) `prefix_of` (out ++ [n]).
Proof.
  intros [k E]. rewrite <- app_assoc in E. apply app_inv_head in E. simpl in E.
  injection E as E _. apply (f_equal String.length) in E. rewrite str_app_length in E. simpl in E. lia.
Qed.

(** ** The store's operations stay in its directory *)

Section frame.
Context `{!Serde State}.
Variables (d : path) (x : gmap path node).

Definition keeps (n : gmap path node) : Prop := forall q, ~ d `prefix_of` q -> n !! q = x !! q.

Lemma keeps_upd n e b : keeps n -> keeps (upd n (d ++ [e]) b).
Proof.
  intros H q Hq. rewrite lookup_insert_ne; [by apply H|]. intros <-. apply Hq. by apply prefix_app_r.
Qed.
Lemma keeps_delete n e : keeps n -> keeps (delete (d ++ [e]) n).
Proof.
  intros H q Hq. rewrite lookup_delete_ne; [by apply H|]. intros <-. apply Hq. by apply prefix_app_r.
Qed.
Hint Resolve keeps_upd keeps_delete : core.

Lemma persist_keeps s : dir s = d -> state_path s = state_file d ->
  triple keeps (persist_state s) (fun _ => keeps) keeps.
Proof.
  intros Hd Hs. unfold persist_state, tmp_path. rewrite Hd, Hs, join_tmp.
  eapply (triple_bind _ _ _ (fun _ => keeps)).
  - apply triple_fs_write; unfold tmp_file; auto.
  - intros []. apply triple_rename; unfold tmp_file, state_file; auto.
Qed.
Lemma open_data_keeps size st : triple keeps (open_data d size st) (fun _ => keeps) keeps.
Proof.
  unfold open_data. rewrite join_data, join_state.
  eapply (triple_bind _ _ _ (fun _ => keeps)).
  { apply triple_open_rw; unfold data_file; auto. }
  intros []. eapply (triple_bind _ _ _ (fun _ => keeps)).
  { apply triple_set_len; unfold data_file; auto. }
  intros []. eapply (triple_bind _ _ _ (fun _ => keeps)); [by apply persist_keeps|].
  intros []. by apply triple_ret.
Qed.
Lemma write_chunk_keeps s i b f :
  dir s = d -> data_path s = data_file d -> state_path s = state_file d ->
  keeps (nodes f) -> keeps (nodes (write_chunk s i b f).2).
Proof.
  intros Hd Hdp Hs Hk. unfold write_chunk.
  destruct (total_chunks s) as [n| |]; [|done|done]. case_match; [done|].
  destruct (expected_len s i) as [el| |]; [|done|done]. case_match; [done|]. rewrite Hdp.
  pose proof (triple_write_at (data_file d) (i * st_chunk_size (state s))%u64 b keeps (fun _ => keeps) keeps) as Hw.
  unfold data_file in Hw. specialize (Hw ltac:(auto) ltac:(auto) ltac:(auto) f Hk). fold (data_file d) in Hw.
  destruct (file_write_at (data_file d) _ b f) as [[[]|e|] f1]; [|done|done].
  pose proof (persist_keeps (insert_have i s) Hd Hs f1 Hw) as Hp.
  destruct (persist_state _ f1) as [[[]|e|] f2]; done.
Qed.
End frame.

(** ** Opening inside an existing directory *)

(** [out] and everything above it are directories. *)
Definition dir_path (n : gmap path node) (out : path) : Prop :=
  forall p, p ∈ prefixes out -> n !! p = Some Dir.

Lemma prefixes_snoc out e : prefixes (out ++ [e]) = prefixes out ++ [out ++ [e]].
Proof.
  unfold prefixes. rewrite length_app. simpl. rewrite Nat.add_1_r, seq_S, map_app. f_equal.
  - apply map_ext_in. intros k Hk%in_seq. rewrite take_app_le by lia. done.
  - simpl. f_equal. apply take_ge. rewrite length_app. simpl. lia.
Qed.
Lemma dir_path_is_dir n out : dir_path n out -> is_dir n out = true.
Proof.
  intros H. unfold is_dir. destruct out as [|a out]; [done|]. rewrite bool_decide_eq_true.
  apply H. by apply self_prefix.
Qed.

Section open.
Context `{!Serde State} `{Blake3}.
Variables (out : path) (name tid : string) (cs : Z) (content : bytes).
Hypothesis Hcs : 0 < cs < U64.
Hypothesis Hlen : zlen content < U64.
Hypothesis Hname : plain_name name.
Local Abbreviation pd := (partial_dir out name).

(** Nothing but a staging directory of this shape is at its place. *)
Definition stageable (n : gmap path node) : Prop :=
  dir_path n out /\ file_at n pd = None
  /\ n !! data_file pd <> Some Dir /\ n !! state_file pd <> Some Dir /\ n !! tmp_file pd <> Some Dir.

(** What earlier attempts at this transfer may have left. *)
Definition resumable (n : gmap path node) : Prop :=
  stageable n /\ disk_inv pd tid cs content n /\ n !! (out ++ [name]) <> Some Dir.

(** Once the file is in place, and the staging directory gone, the disk is
    ready for another attempt. *)
Lemma placed_resumable n n' data :
  resumable n -> file_at n' (out ++ [name]) = Some data -> (forall q, pd `prefix_of` q -> n' !! q = None) ->
  (forall q, ~ pd `prefix_of` q -> q <> out ++ [name] -> n' !! q = n !! q) -> resumable n'.
Proof.
  intros ((Hout & _) & _) Hfile Hgone Hsame.
  assert (Hg : forall x, n' !! (pd ++ [x]) = None) by (intros x; apply Hgone; by apply prefix_app_r).
  split; [split; [|split; [|by unfold data_file, state_file, tmp_file; rewrite !Hg]]|split].
  - intros p Hp. rewrite Hsame; [by apply Hout| |].
    + rewrite partial_dir_plain by done. intros [k E]. apply elem_of_prefixes in Hp.
      apply (f_equal length) in E. rewrite !length_app in E. simpl in E. lia.
    + intros ->. apply elem_of_prefixes in Hp. rewrite length_app in Hp. simpl in Hp. lia.
  - unfold file_at. by rewrite Hgone.
  - intros b st Hb. unfold file_at, state_file in Hb. by rewrite Hg in Hb.
  - intros Hd. unfold file_at in Hfile. by rewrite Hd in Hfile.
Qed.

Lemma stageable_creatable n : stageable n -> creatable out name n.
Proof.
  intros (H1 & H2 & H3 & H4 & H5). split; [|split; [done|split; [done|split; [done|]]]].
  - intros p Hp. rewrite partial_dir_plain, prefixes_snoc in Hp by done.
    apply elem_of_app in Hp as [Hp|Hp%list_elem_of_singleton].
    + unfold file_at. by rewrite (H1 p Hp).
    + by rewrite Hp, <- partial_dir_plain.
  - rewrite partial_dir_plain by done. by destruct out.
Qed.

Lemma open_or_create_keeps n st n' :
  stageable n ->
  open_or_create out name tid (zlen content) cs (Fs n []) = (Ok st, Fs n' []) ->
  keeps pd n n'.
Proof.
  intros Hs Ho. pose proof (stageable_creatable n Hs) as (Hc & _).
  destruct (mkdirs_runs (prefixes pd) n Hc) as (n1 & He & Hd & Hsame & _).
  assert (Hk1 : keeps pd n n1).
  { intros q Hq. destruct (decide (q ∈ prefixes pd)) as [Hin|Hout]; [|by apply Hsame].
    rewrite (Hd q Hin). rewrite partial_dir_plain, prefixes_snoc in Hin by done.
    apply elem_of_app in Hin as [Hin|Hin%list_elem_of_singleton].
    - destruct Hs as (Hs & _). by rewrite (Hs q Hin).
    - rewrite Hin, <- partial_dir_plain in Hq by done. by destruct Hq. }
  unfold open_or_create in Ho. fold pd in Ho. rewrite join_state in Ho. unfold mbind, io_bind in Ho.
  unfold create_dir_all, sys at 1 in Ho. simpl in Ho. rewrite He in Ho.
  destruct (fs_read_nofault (state_file pd) (Fs n1 [])) as (fl & Er & Hfl); [by left|].
  rewrite Er in Ho. rewrite (Hfl eq_refl) in Ho. simpl in Ho.
  match type of Ho with open_data _ _ ?st0 _ = _ =>
    pose proof (open_data_keeps pd n (zlen content) st0 (Fs n1 []) Hk1) as Hk end.
  by rewrite Ho in Hk.
Qed.
End open.

(** ** A store from opening to finalizing *)

Section finish.
Context `{Blake3} `{!Serde State}.
Variables (out : path) (name tid : string) (cs : Z) (content : bytes).
Hypothesis Hcs : 0 < cs < U64.
Hypothesis Hlen : zlen content < U64.
Hypothesis Hname : plain_name name.
Local Abbreviation pd := (partial_dir out name).
Local Abbreviation total := (n_chunks cs content).

(** The receiving store and disk between two chunks. *)
Definition receiving (n0 : gmap path node) (st : Store) (n : gmap path node) : Prop :=
  store_inv pd tid cs content st n /\ usable pd n /\ keeps pd n0 n.

Lemma all_complete st n :
  store_inv pd tid cs content st n -> (forall i, 0 <= i < total -> i ∈ st_have (state st)) ->
  is_complete st = Ok true.
Proof.
  intros (Hok & _ & data & _ & _ & Hs) Hall. unfold is_complete.
  rewrite (total_chunks_ok pd tid cs content Hcs) by done. simpl.
  unfold mret, res_ret. f_equal. apply Z.eqb_eq. pose proof (n_chunks_range cs content Hcs).
  apply (bounded_set_size (st_have (state st)) total); [lia|by intros j [? _]%Hs|done].
Qed.

(** Finalizing a complete file transfer. *)
Lemma finalize_complete tar n0 st n m h :
  receiving n0 st n -> is_complete st = Ok true ->
  kind m = KFile -> blake3_hex h = hex_encode (blake3_hash content) ->
  dir_path n0 out -> n0 !! (out ++ [name]) <> Some Dir ->
  exists n', finalize tar st m h out name (Fs n []) = (Ok ("saved " +:+ display (out ++ [name])), Fs n' [])
    /\ file_at n' (out ++ [name]) = Some content
    /\ (forall q, pd `prefix_of` q -> n' !! q = None)
    /\ (forall q, ~ pd `prefix_of` q -> q <> out ++ [name] -> n' !! q = n0 !! q).
Proof.
  intros (Hst & Hu & Hk) Hc Hkind Hh Hout Hdest. pose proof Hst as ((Hd & Hdp & _) & _ & _).
  pose proof (complete_content out name tid cs content Hcs st n Hst Hc) as Hf.
  assert (Hnu : ~ pd `prefix_of` (out ++ [name])).
  { rewrite partial_dir_plain by done. apply dest_not_under. }
  destruct (finalize_file_spec st n (out ++ [name]) content) as (n' & He & H1 & H2 & H3).
  - by rewrite Hdp.
  - rewrite Hd. by destruct Hu.
  - by rewrite Hk.
  - unfold parent. rewrite removelast_last.
    assert (Hop : ~ pd `prefix_of` out).
    { rewrite partial_dir_plain by done. intros [k E]. apply (f_equal length) in E.
      rewrite !length_app in E. simpl in E. lia. }
    unfold is_dir. destruct out as [|a o] eqn:Eo; [done|]. rewrite <- Eo in *.
    rewrite Hk by done. rewrite bool_decide_eq_true. apply Hout. apply self_prefix. by rewrite Eo.
  - by rewrite Hd.
  - rewrite Hd, Hdp. by apply prefix_app_r.
  - exists n'. rewrite Hd in H2, H3. split; [|split; [done|split; [done|]]].
    + unfold finalize. rewrite Hc. unfold mbind, io_bind, io_lift. simpl.
      rewrite (file_hash_runs out name st n content) by done. rewrite Hh, String.eqb_refl. simpl.
      rewrite Hkind. rewrite join_plain by done. unfold mbind, io_bind. by rewrite He.
    + intros q Hq1 Hq2. rewrite H3 by done. by apply Hk.
Qed.
Lemma finalize_exec tar n0 st n m h :
  receiving n0 st n -> (forall i, 0 <= i < total -> i ∈ st_have (state st)) ->
  kind m = KFile -> blake3_hex h = hex_encode (blake3_hash content) ->
  dir_path n0 out -> n0 !! (out ++ [name]) <> Some Dir ->
  exists n', finalize tar st m h out name (Fs n []) = (Ok ("saved " +:+ display (out ++ [name])), Fs n' [])
    /\ file_at n' (out ++ [name]) = Some content
    /\ (forall q, pd `prefix_of` q -> n' !! q = None)
    /\ (forall q, ~ pd `prefix_of` q -> q <> out ++ [name] -> n' !! q = n0 !! q).
Proof. intros Hr Hall. apply (finalize_complete tar n0 st n m h Hr). destruct Hr as [Hst _]. by eapply all_complete. Qed.
End finish.

(** ** Running the payload loops against each other *)

Section exec.
Context `{Aead} `{Blake3} `{!Serde Manifest} `{!Serde StreamManifestAck} `{!Serde Commit}
  `{!Serde CommitAck} `{!Serde State}.
Variables (cap : nat) (sk : bytes) (src : path) (ns : gmap path node).
Variables (out : path) (name tid : string) (content : bytes).
Hypothesis Hlen : zlen content < U64.
Hypothesis Hname : plain_name name.
Hypothesis Hsrc : file_at ns src = Some content.
Local Abbreviation pd := (partial_dir out name).
Local Abbreviation cs := STREAM_FRAME_SIZE.
Local Abbreviation total := (n_chunks STREAM_FRAME_SIZE content).

Lemma frame_size_ok : 0 < cs < U64.
Proof. done. Qed.
Lemma total_range : 0 <= total /\ total + 1 < U64.
Proof.
  pose proof (n_chunks_range cs content frame_size_ok). pose proof (cdiv_mul_ge (zlen content) cs).
  pose proof (cdiv_spec (zlen content) cs (zlen_nonneg content) ltac:(done)).
  unfold n_chunks in *. change cs with 16384 in *. unfold U64 in *. lia.
Qed.

Lemma send_recv_chunk A B n0 st n i (KL : res unit * fs -> proc A) (KR : res Store * fs -> proc B)
    ack hv l :
  (1 <= cap)%nat -> 0 <= i < total -> receiving out name tid cs content n0 st n ->
  complete ack || runs_contain (have_runs ack) i = false -> i ∉ hv ->
  exists n', rtc (step cap)
    (Config (proc_bind (send_payload sk ack src (zlen content) (i :: l) (Fs ns [])) KL)
            (proc_bind (recv_payload sk hv (i :: l) st (Fs n [])) KR) [] [])
    (Config (proc_bind (send_payload sk ack src (zlen content) l (Fs ns [])) KL)
            (proc_bind (recv_payload sk hv l (insert_have i st) (Fs n' [])) KR) [] [])
    /\ receiving out name tid cs content n0 (insert_have i st) n'.
Proof.
  intros Hcap Hi (Hst & Hu & Hk) Hskip Hhv.
  destruct (write_chunk_runs pd tid cs content frame_size_ok Hlen st i (Fs n []) Hi Hst eq_refl Hu)
    as ([n' fl] & Hw & Hf & Hu'). simpl in Hf. subst fl.
  pose proof (write_chunk_inv pd tid cs content frame_size_ok Hlen st i (Fs n []) Hi Hst) as Hinv.
  rewrite Hw in Hinv. destruct Hinv as (_ & Hst' & _).
  destruct Hst as ((Hd & Hdp & Hsp & Hok) & _).
  pose proof (write_chunk_keeps pd n0 st i (chunk cs i content) (Fs n []) Hd Hdp Hsp Hk) as Hk'.
  rewrite Hw in Hk'. simpl in Hk'.
  exists n'. split; [|done].
  cbn [send_payload recv_payload]. rewrite Hskip. rewrite bool_decide_false by done.
  unfold mbind at 1, prog_bind at 1. unfold prog_io.
  rewrite (read_chunk_ok src cs content i ns []) by (done || apply frame_size_ok).
  cbn [proc_bind]. unfold mbind, prog_bind, send, recv, prog_res, prog_write. cbn [proc_bind].
  eapply rtc_l; [apply left_sends; simpl; lia|]. cbn [proc_bind app].
  eapply rtc_l; [apply right_receives|]. cbn [proc_bind].
  rewrite open_seal. cbn [proc_bind map_err]. rewrite Hw. cbn [proc_bind].
  done.
Qed.

(** The chunks the receiver is missing cross one by one. *)
Lemma payload_exec A B n0 (KL : res unit * fs -> proc A) (KR : res Store * fs -> proc B) ack hv l :
  (1 <= cap)%nat -> (forall i, i ∈ l -> 0 <= i < total /\ complete ack || runs_contain (have_runs ack) i = bool_decide (i ∈ hv)) ->
  forall st n, receiving out name tid cs content n0 st n ->
  exists st' n', rtc (step cap)
    (Config (proc_bind (send_payload sk ack src (zlen content) l (Fs ns [])) KL)
            (proc_bind (recv_payload sk hv l st (Fs n [])) KR) [] [])
    (Config (KL (Ok tt, Fs ns [])) (KR (Ok st', Fs n' [])) [] [])
    /\ receiving out name tid cs content n0 st' n'
    /\ forall i, i ∈ st_have (state st) \/ i ∈ l /\ i ∉ hv -> i ∈ st_have (state st').
Proof.
  intros Hcap. induction l as [|i l IH]; intros Hl st n Hr.
  - exists st, n. split; [apply rtc_refl|]. split; [done|]. intros i [?|[?%elem_of_nil _]]; done.
  - destruct (Hl i ltac:(by left)) as [Hi Hskip]. assert (Hl' : forall i, i ∈ l ->
      0 <= i < total /\ complete ack || runs_contain (have_runs ack) i = bool_decide (i ∈ hv)).
    { intros j Hj. apply Hl. by right. }
    destruct (decide (i ∈ hv)) as [Hin|Hout].
    + destruct (IH Hl' st n Hr) as (st' & n' & Hs & Hr' & Hh). exists st', n'. split; [|split; [done|]].
      * cbn [send_payload recv_payload]. rewrite Hskip, bool_decide_true by done. exact Hs.
      * intros j [Hj|[[->|Hj]%elem_of_cons Hn]]; [by apply Hh; left|done|by apply Hh; right].
    + rewrite bool_decide_false in Hskip by done.
      destruct (send_recv_chunk A B n0 st n i KL KR ack hv l Hcap Hi Hr Hskip Hout) as (n1 & Hs1 & Hr1).
      destruct (IH Hl' _ n1 Hr1) as (st' & n' & Hs & Hr' & Hh). exists st', n'.
      split; [etrans; [exact Hs1|exact Hs]|]. split; [done|].
      assert (Hins : forall j, j ∈ st_have (state st) -> j ∈ st_have (state (insert_have i st))).
      { intros j Hj. apply elem_of_union. by right. }
      intros j [Hj|[[->|Hj]%elem_of_cons Hn]]; apply Hh; [left; by apply Hins| |by right].
      left. apply elem_of_union. left. by apply elem_of_singleton.
Qed.

(** What the acknowledgement says is what the store has. *)
Lemma ack_skips st n done i :
  store_inv pd tid cs content st n -> is_complete st = Ok done -> 0 <= i < total ->
  done || runs_contain (runs_from_sorted (have st)) i = bool_decide (i ∈ have st).
Proof.
  intros (Hok & _ & data & _ & _ & Hs) Hc Hi.
  pose proof total_range as Ht.
  assert (Hb : Forall (fun i => 0 <= i < U64 - 1) (have st)).
  { apply Forall_forall. intros j Hj. unfold have in Hj. apply elem_of_bt_iter in Hj.
    destruct (Hs j Hj) as [? _]. lia. }
  destruct (runs_loop_spec (have st) [] (Forall_nil_2 _) Hb) as [H1 H2].
  change (expand []) with (@nil Z) in H2. simpl in H2.
  unfold runs_from_sorted. rewrite runs_contain_expand, H2 by done.
  unfold is_complete in Hc. rewrite (total_chunks_ok pd tid cs content frame_size_ok) in Hc by done.
  simpl in Hc. injection Hc as <-. destruct (Z.eqb_spec (Z.of_nat (size (st_have (state st)))) total) as [E|E]; [|done].
  simpl. symmetry. apply bool_decide_eq_true. unfold have. rewrite elem_of_bt_iter.
  by apply (bounded_set_size (st_have (state st)) total); [lia|by intros j [? _]%Hs|..].
Qed.

Lemma open_val_seal T `{!WireType T} `{!Serde T} d i (v : T) :
  wire_ok v -> open_val sk d i (seal_val sk d i v) = Ok v.
Proof.
  intros Hv. unfold open_val, seal_val. rewrite open_seal. simpl. by rewrite from_to_vec.
Qed.

Lemma ack_wire st n done :
  store_inv pd tid cs content st n ->
  wire_ok {| accepted := true; complete := done; have_runs := runs_from_sorted (have st) |}.
Proof.
  intros (_ & _ & data & _ & _ & Hs). pose proof total_range as Ht.
  assert (Hb : Forall (fun i => 0 <= i < U64 - 1) (have st)).
  { apply Forall_forall. intros j Hj. unfold have in Hj. apply elem_of_bt_iter in Hj.
    destruct (Hs j Hj) as [? _]. lia. }
  destruct (runs_loop_spec (have st) [] (Forall_nil_2 _) Hb) as [H1 _].
  unfold wire_ok, StreamManifestAck_wire. simpl. eapply Forall_impl; [exact H1|].
  intros [s l]. unfold run_ok, u64_ok. simpl. lia.
Qed.

End exec.

(** ** The whole exchange *)

Section exchange.
Context `{Aead} `{Blake3} `{!Serde Manifest} `{!Serde StreamManifestAck} `{!Serde Commit}
  `{!Serde CommitAck} `{!Serde State}.
Variables (cap : nat) (key : SessionKey) (src : path) (ns : gmap path node).
Variables (kd : Kind) (out : path) (nm tid : string) (es : list Entry) (sp : option path) (content : bytes).
Variable (tar : bytes -> path -> io unit) (accept : gmap path node -> Manifest -> bool).
Hypothesis Hkd : kd <> KText.
Hypothesis Hcap : (1 <= cap)%nat.
Hypothesis Hlen : zlen content < U64.
Hypothesis Hes : Forall (fun e => u64_ok (e_size e)) es.
Hypothesis Hsrc : file_at ns src = Some content.
Local Abbreviation sk := (stream_key key).
Local Abbreviation source := (Blob kd nm es (zlen content) tid src sp).
Local Abbreviation manifest := (stream_manifest source).
Local Abbreviation name := (safe_name nm).
Local Abbreviation pd := (partial_dir out (safe_name nm)).
Local Abbreviation total := (n_chunks STREAM_FRAME_SIZE content).

Lemma manifest_ok : wire_ok manifest.
Proof.
  pose proof (zlen_nonneg content). repeat split; simpl; try done; unfold U64 in *; lia.
Qed.
Lemma manifest_chunks : Manifest_total_chunks manifest = Ok total.
Proof. unfold Manifest_total_chunks. simpl. by rewrite div_ceil_ok. Qed.

(** The manifest crosses; the receiver opens its store and acknowledges. *)
Lemma opening_exec nr :
  accept nr manifest = true -> stageable out name nr ->
  disk_inv pd tid STREAM_FRAME_SIZE content nr ->
  exists st n done, is_complete st = Ok done /\ receiving out name tid STREAM_FRAME_SIZE content nr st n
    /\ rtc (step cap)
      (Config (send_source key source (Fs ns [])) (recv_into tar key out accept (Fs nr [])) [] [])
      (Config
        (send_blob sk {| accepted := true; complete := done; have_runs := runs_from_sorted (have st) |}
           manifest src (zlen content) (Fs ns []))
        ((total_chunks ← prog_res (Manifest_total_chunks manifest);
          store ← recv_payload sk (have st) (zrange 0 total_chunks) st;
          ct ← recv;
          commit ← prog_res (open_val (T := Commit) sk DStreamToReceiver (1 + total_chunks)%u64 ct);
          result ← prog_io (io_try (finalize tar store manifest commit out name));
          _ ← send (seal_val sk DStreamToSender 1 (commit_ack result));
          (prog_res result : prog string)) (Fs n [])) [] []).
Proof.
  intros Hacc Hst Hinv. pose proof (safe_name_plain nm) as Hname.
  destruct (open_or_create_resumes out name tid STREAM_FRAME_SIZE content nr frame_size_ok Hlen
    (stageable_creatable out name Hname nr Hst) Hinv) as (st & n & Ho & Hs & Hu & _).
  pose proof (open_or_create_keeps out name tid STREAM_FRAME_SIZE content Hname nr st n Hst Ho) as Hk.
  assert (Hdone : exists done, is_complete st = Ok done).
  { unfold is_complete. destruct Hs as (Hok & _).
    rewrite (total_chunks_ok pd tid STREAM_FRAME_SIZE content frame_size_ok) by done. by eexists. }
  destruct Hdone as [done Hdone]. exists st, n, done. split; [done|]. split; [done|].
  unfold send_source, recv_into, send, recv, prog_res, prog_io.
  unfold mbind, prog_bind. cbn [proc_bind].
  eapply rtc_l; [apply left_sends; simpl; lia|]. cbn [proc_bind app].
  eapply rtc_l; [apply right_receives|]. cbn [proc_bind].
  rewrite open_val_seal by apply manifest_ok. cbn [context proc_bind version kind mf_chunk_size].
  change (negb (version manifest =? PROTOCOL_VERSION)) with false. cbn iota.
  change (mf_chunk_size manifest =? STREAM_FRAME_SIZE) with true. rewrite andb_false_r.
  cbn beta iota zeta. cbn [nodes]. rewrite Hacc. cbn [negb].
  change (kind manifest) with kd. rewrite bool_decide_false by done. cbn beta iota.
  unfold recv_blob, prog_io, prog_res, send, mbind, prog_bind. cbn [proc_bind].
  change (mf_transfer_id manifest) with tid. change (mf_total_size manifest) with (zlen content).
  change (mf_chunk_size manifest) with STREAM_FRAME_SIZE. change (Stream.safe_name (Protocol.name manifest)) with name.
  rewrite Ho. cbn [proc_bind]. rewrite Hdone. cbn [proc_bind].
  eapply rtc_l; [apply right_sends; simpl; lia|]. cbn [proc_bind app].
  eapply rtc_l; [apply left_receives|]. cbn [proc_bind].
  rewrite open_val_seal by by eapply ack_wire. cbn [context proc_bind negb accepted].
  apply rtc_refl.
Qed.

(** How the receiver ends, the last chunk in: with [desc], and [Post] of its
    disk. *)
Definition finishes (nr : gmap path node) (desc : string) (Post : gmap path node -> Prop) : Prop :=
  forall st n, receiving out name tid STREAM_FRAME_SIZE content nr st n ->
    (forall i, 0 <= i < total -> i ∈ st_have (state st)) ->
    exists nr', finalize tar st manifest {| blake3_hex := hex_encode (blake3_hash content) |} out name (Fs n [])
                = (Ok desc, Fs nr' []) /\ Post nr'.

(** One run of the two programs that delivers. *)
Lemma exchange_exec nr desc Post :
  accept nr manifest = true -> stageable out name nr ->
  disk_inv pd tid STREAM_FRAME_SIZE content nr -> finishes nr desc Post ->
  exists nr', rtc (step cap)
      (Config (send_source key source (Fs ns [])) (recv_into tar key out accept (Fs nr [])) [] [])
      (Config (Done (Ok "transfer complete", Fs ns [])) (Done (Ok desc, Fs nr' [])) [] [])
    /\ Post nr'.
Proof.
  intros Hacc Hst Hinv Hends. pose proof (safe_name_plain nm) as Hname.
  destruct (opening_exec nr Hacc Hst Hinv) as (st & n & done & Hdone & Hr & Hopen).
  unfold send_blob in Hopen.
  rewrite manifest_chunks, !prog_res_bind, !prog_bind_eq in Hopen.
  match type of Hopen with rtc _ _ (Config (proc_bind _ ?KL) (proc_bind _ ?KR) _ _) =>
    destruct (payload_exec cap sk src ns out name tid content Hlen Hsrc _ _ nr KL KR
      {| accepted := true; complete := done; have_runs := runs_from_sorted (have st) |}
      (have st) (zrange 0 total) Hcap) with (st := st) (n := n) as (st' & n' & Hpay & Hr' & Hall); [|exact Hr|] end.
  { intros i Hi%elem_of_zrange. split; [lia|]. destruct Hr as (Hs & _).
    by eapply ack_skips. }
  assert (Hall' : forall i, 0 <= i < total -> i ∈ st_have (state st')).
  { intros i Hi. apply Hall. destruct (decide (i ∈ st_have (state st))); [by left|right].
    split; [by apply elem_of_zrange|]. unfold have. by rewrite elem_of_bt_iter. }
  destruct (Hends st' n' Hr' Hall') as (nr' & Hfin & HPost).
  exists nr'. split; [|done]. etrans; [exact Hopen|]. etrans; [exact Hpay|].
  unfold prog_k, send, recv, prog_res, prog_io, mbind, prog_bind. cbn [proc_bind].
  rewrite (blake3_file_ok src content ns Hsrc). cbn [proc_bind].
  eapply rtc_l; [apply left_sends; simpl; lia|]. cbn [proc_bind app].
  eapply rtc_l; [apply right_receives|]. cbn [proc_bind].
  rewrite open_val_seal by exact I. cbn [proc_bind]. unfold io_try. rewrite Hfin. cbn [proc_bind commit_ack].
  eapply rtc_l; [apply right_sends; simpl; lia|]. cbn [proc_bind app].
  eapply rtc_l; [apply left_receives|]. cbn [proc_bind].
  rewrite open_val_seal by exact I. cbn [proc_bind ca_ok negb]. apply rtc_refl.
Qed.
End exchange.

(** One run that delivers a file. *)
Lemma transfer_exec `{Aead} `{Blake3} `{!Serde Manifest} `{!Serde StreamManifestAck} `{!Serde Commit}
    `{!Serde CommitAck} `{!Serde State} cap key src ns out nm tid es sp content tar accept :
  (1 <= cap)%nat -> zlen content < U64 -> Forall (fun e => u64_ok (e_size e)) es -> file_at ns src = Some content ->
  forall nr,
  accept nr (stream_manifest (Blob KFile nm es (zlen content) tid src sp)) = true -> stageable out (safe_name nm) nr ->
  disk_inv (partial_dir out (safe_name nm)) tid STREAM_FRAME_SIZE content nr -> nr !! (out ++ [safe_name nm]) <> Some Dir ->
  exists nr', rtc (step cap)
      (Config (send_source key (Blob KFile nm es (zlen content) tid src sp) (Fs ns []))
              (recv_into tar key out accept (Fs nr [])) [] [])
      (Config (Done (Ok "transfer complete", Fs ns []))
              (Done (Ok ("saved " +:+ display (out ++ [safe_name nm])), Fs nr' [])) [] [])
    /\ file_at nr' (out ++ [safe_name nm]) = Some content
    /\ (forall q, partial_dir out (safe_name nm) `prefix_of` q -> nr' !! q = None)
    /\ (forall q, ~ partial_dir out (safe_name nm) `prefix_of` q -> q <> out ++ [safe_name nm] -> nr' !! q = nr !! q).
Proof.
  intros Hcap Hlen Hes Hsrc nr Hacc Hst Hinv Hdest.
  apply (exchange_exec cap key src ns KFile out nm tid es sp content tar accept); try done.
  intros st n Hr Hall.
  by apply (finalize_exec out (safe_name nm) tid STREAM_FRAME_SIZE content frame_size_ok (safe_name_plain nm) tar nr st n);
    [..|destruct Hst|].
Qed.

(** ** Properties *)

(** A file transfer delivers, whatever the interleaving: with a channel that
    holds [cap] messages a direction, a sender of [content] and a receiver
    that accepts, on whose disk any earlier attempts left what they may have
    left ([resumable]), every run of the two programs can be continued to one
    and the same end, in a bounded number of steps. There both report
    success, the file is in the output directory under its sanitized name,
    the staging directory is gone, and nothing else on the receiver's disk
    has changed. *)
Theorem transfer_delivers `{Aead} `{Blake3} `{!Serde Manifest} `{!Serde StreamManifestAck}
    `{!Serde Commit} `{!Serde CommitAck} `{!Serde State}
    cap key src ns out nm tid es sp content tar accept nr :
  (1 <= cap)%nat -> zlen content < U64 -> Forall (fun e => u64_ok (e_size e)) es ->
  file_at ns src = Some content ->
  accept nr (stream_manifest (Blob KFile nm es (zlen content) tid src sp)) = true ->
  resumable out (safe_name nm) tid STREAM_FRAME_SIZE content nr ->
  exists k nr',
    (let start := Config (send_source key (Blob KFile nm es (zlen content) tid src sp) (Fs ns []))
                         (recv_into tar key out accept (Fs nr [])) [] [] in
     let fin := Config (Done (Ok "transfer complete", Fs ns []))
                       (Done (Ok ("saved " +:+ display (out ++ [safe_name nm])), Fs nr' [])) [] [] in
     forall j c, nsteps (step cap) j start c -> (j <= k)%nat /\ nsteps (step cap) (k - j) c fin)
    /\ file_at nr' (out ++ [safe_name nm]) = Some content
    /\ (forall q, partial_dir out (safe_name nm) `prefix_of` q -> nr' !! q = None)
    /\ (forall q, ~ partial_dir out (safe_name nm) `prefix_of` q -> q <> out ++ [safe_name nm] ->
        nr' !! q = nr !! q).
Proof.
  intros Hcap Hlen Hes Hsrc Hacc (Hst & Hinv & Hdest).
  destruct (transfer_exec cap key src ns out nm tid es sp content tar accept Hcap Hlen Hes Hsrc nr
    Hacc Hst Hinv Hdest) as (nr' & Hr & Hrest).
  apply rtc_nsteps in Hr as [k Hk]. exists k, nr'. split; [|done].
  intros start fin. apply runs_converge; [|exact Hk]. intros d. apply done_stuck.
Qed.

(** A text arrives with the manifest, and a declined transfer ends there: in
    both cases every run comes to the same end, without a change to either
    disk, the sender learning which it was. *)
Theorem short_exchanges `{Aead} `{Blake3} `{!Serde Manifest} `{!Serde StreamManifestAck}
    `{!Serde Commit} `{!Serde CommitAck} `{!Serde State} cap key source out tar accept s1 s2 :
  (1 <= cap)%nat -> wire_ok (stream_manifest source) ->
  kind (stream_manifest source) = KText \/ accept (nodes s2) (stream_manifest source) = false ->
  exists k,
    let start := Config (send_source key source s1) (recv_into tar key out accept s2) [] [] in
    let fin := if accept (nodes s2) (stream_manifest source)
      then Config (Done (Ok "text delivered", s1)) (Done (Ok (default "" (text (stream_manifest source))), s2)) [] []
      else Config (Done (Err (EMsg "the receiver declined the transfer"), s1))
                  (Done (Err (EMsg "transfer declined"), s2)) [] [] in
    forall j c, nsteps (step cap) j start c -> (j <= k)%nat /\ nsteps (step cap) (k - j) c fin.
Proof.
  intros Hcap Hwire Hkind. exists 4%nat. intros start fin.
  apply runs_converge.
  { intros d. unfold fin. destruct (accept _ _); apply done_stuck. }
  assert (Hv : version (stream_manifest source) = PROTOCOL_VERSION) by (by destruct source).
  assert (Hc : mf_chunk_size (stream_manifest source) = STREAM_FRAME_SIZE) by (by destruct source).
  unfold start, send_source, recv_into, send, recv, prog_res, mbind, prog_bind. cbn [proc_bind].
  eapply nsteps_l; [apply left_sends; simpl; lia|]. cbn [proc_bind app].
  eapply nsteps_l; [apply right_receives|]. cbn [proc_bind].
  rewrite open_val_seal by done. cbn [context proc_bind].
  rewrite Hv, Hc, !Z.eqb_refl, andb_false_r. cbn [negb]. cbn beta iota zeta.
  unfold fin. destruct (accept (nodes s2) (stream_manifest source)) eqn:Ha; cbn [negb].
  - destruct Hkind as [Hk|]; [|done]. rewrite Hk. cbn [bool_decide]. rewrite bool_decide_true by done.
    cbn [proc_bind]. eapply nsteps_l; [apply right_sends; simpl; lia|]. cbn [proc_bind app].
    eapply nsteps_l; [apply left_receives|]. cbn [proc_bind].
    rewrite open_val_seal by constructor. cbn [context proc_bind negb accepted].
    destruct source as [k ? ? ? ? ? ?|]; [|apply nsteps_O]. simpl in Hk. subst k. apply nsteps_O.
  - cbn [proc_bind]. eapply nsteps_l; [apply right_sends; simpl; lia|]. cbn [proc_bind app].
    eapply nsteps_l; [apply left_receives|]. cbn [proc_bind].
    rewrite open_val_seal by constructor. cbn [context proc_bind negb accepted]. apply nsteps_O.
Qed.

(** A one-byte file into an empty directory. *)
Module Example.
#[local] Existing Instances Toy.aead Toy.blake3.
#[local] Instance toy_manifest : Serde Manifest := Toy.serde.
#[local] Instance toy_ack : Serde StreamManifestAck := Toy.serde.
#[local] Instance toy_commit : Serde Commit := Toy.serde.
#[local] Instance toy_commit_ack : Serde CommitAck := Toy.serde.
#[local] Instance toy_state : Serde State := Toy.serde.

Definition disk : gmap path node := {[ ["out"] := Dir ]}.
Lemma disk_resumable tid : resumable ["out"] (safe_name "../f") tid STREAM_FRAME_SIZE [Byte.x41] disk.
Proof.
  split; [split; [|repeat split; by vm_compute]|split; [|by vm_compute]].
  - intros p Hp. assert (E : prefixes ["out"] = [["out"]]) by reflexivity. rewrite E in Hp.
    apply list_elem_of_singleton in Hp as ->. reflexivity.
  - intros b s Hb. by vm_compute in Hb.
Qed.
Lemma transfer_delivers_witness :
  exists nr',
    file_at nr' ["out"; "f"] = Some [Byte.x41]
    /\ nr' !! ["out"; "f.b2p-partial"] = None.
Proof.
  destruct (transfer_delivers 1 {| session_key := [] |} ["s"] {[ ["s"] := File [Byte.x41] ]} ["out"] "../f" "t"
    [] None [Byte.x41] (fun _ _ => mret tt) (fun _ _ => true) disk) as (k & nr' & _ & H1 & H2 & _);
    [lia|done|constructor|done|done|apply disk_resumable|].
  exists nr'. split; [exact H1|]. apply H2. by exists [].
Defined.
Lemma short_exchanges_witness :
  exists k, forall j c,
    nsteps (step 1) j (Config (send_source {| session_key := [] |} (Text "hi" "t") (Fs disk []))
      (recv_into (fun _ _ => mret tt) {| session_key := [] |} ["out"] (fun _ _ => true) (Fs disk [])) [] []) c ->
    (j <= k)%nat /\ nsteps (step 1) (k - j) c
      (Config (Done (Ok "text delivered", Fs disk [])) (Done (Ok "hi", Fs disk [])) [] []).
Proof.
  apply (short_exchanges 1 {| session_key := [] |} (Text "hi" "t") ["out"] (fun _ _ => mret tt) (fun _ _ => true)
    (Fs disk []) (Fs disk [])).
  - lia.
  - apply (bool_decide_unpack _). vm_compute. done.
  - by left.
Defined.
End Example.
