(* ===== verification/Safety.v ===== *)
(** * What a peer, a broken channel and a failing disk can do to a receiver

    The receiver's program of src/stream.rs against any messages, with the
    channel failing anywhere and any fault on the disk. *)

From S2P Require Import Prelude Str Libs Fs Crypto Protocol Store Archive Pake Channel Send Stream Transfer.

(** ** Outcomes *)

(** Of the disk and the faults to come. *)
Definition fpred : Type := fs -> Prop.
(** [ends Q E]: a normal return satisfies [Q], an error [E]; no panic. *)
Definition ends {A : Type} (Q : A -> fpred) (E : error -> fpred) (o : res A * fs) : Prop :=
  match o with
  | (Ok a, s) => Q a s
  | (Err e, s) => E e s
  | (Panic, _) => False
  end.

Lemma may_prog_bind {A B : Type} (P : bytes -> Prop) (m : prog A) (f : A -> prog B) (s : fs)
    (R : A -> fs -> Prop) (Q : B -> fpred) (E : error -> fpred) :
  may P (m s) (fun '(r, s') => match r with Ok a => R a s' | Err e => E e s' | Panic => False end) ->
  (forall a s', R a s' -> may P (f a s') (ends Q E)) ->
  may P ((m ≫= f) s) (ends Q E).
Proof.
  intros Hm Hf. rewrite prog_bind_eq. eapply may_bind; [exact Hm|].
  intros [[a|e|] s'] H; simpl in *; [by apply Hf|done|done].
Qed.
Lemma may_send (P : bytes -> Prop) (m : bytes) (s : fs) (R : unit -> fs -> Prop) (E : error -> fpred) :
  R tt s -> (forall e, E e s) ->
  may P (send m s) (fun '(r, s') => match r with Ok a => R a s' | Err e => E e s' | Panic => False end).
Proof. intros HR HE r Hr. destruct r as [[]|e|]; simpl; [done|apply HE|done]. Qed.
Lemma may_recv (P : bytes -> Prop) (s : fs) (R : bytes -> fs -> Prop) (E : error -> fpred) :
  (forall m, P m -> R m s) -> (forall e, E e s) ->
  may P (recv s) (fun '(r, s') => match r with Ok a => R a s' | Err e => E e s' | Panic => False end).
Proof. intros HR HE r Hr HP. destruct r as [m|e|]; simpl; [by apply HR, HP|apply HE|done]. Qed.
(** A part of the program that only looks at values. *)
Lemma may_res {A : Type} (P : bytes -> Prop) (r : res A) (s : fs) (R : A -> fs -> Prop) (E : error -> fpred) :
  r <> Panic -> (forall a, r = Ok a -> R a s) -> (forall e, E e s) ->
  may P (prog_res r s) (fun '(r, s') => match r with Ok a => R a s' | Err e => E e s' | Panic => False end).
Proof. intros Hr HR HE. simpl. destruct r; [by apply HR|apply HE|done]. Qed.
Lemma may_io {A : Type} (P : bytes -> Prop) (m : io A) (s : fs) (R : A -> fs -> Prop) (E : error -> fpred) :
  match m s with (Ok a, s') => R a s' | (Err e, s') => E e s' | (Panic, _) => False end ->
  may P (prog_io m s) (fun '(r, s') => match r with Ok a => R a s' | Err e => E e s' | Panic => False end).
Proof. simpl. by destruct (m s) as [[a|e|] s']. Qed.

(** ** A receiver as a pattern

    What the receiver does to its disk, abstracted: [Idle] holds of the disk
    between operations before the store is open, [Open st] after. *)

Section receiver.
Context `{Aead} `{Blake3} `{!Serde Manifest} `{!Serde StreamManifestAck} `{!Serde Commit}
  `{!Serde CommitAck} `{!Serde State}.
Variables (sk : bytes) (tar : bytes -> path -> io unit) (P : bytes -> Prop).
Variables (Idle : fpred) (Open : Store -> fpred).
Hypothesis Hopen : forall (st : Store) (s : fs), Open st s -> Idle s.

(** [n] chunks; every message that opens as chunk [i] is written safely. *)
Variable total : Z.
Hypothesis Hwrite : forall (st : Store) (i : Z) (ct p : bytes) (s : fs), Open st s -> 0 <= i < total -> P ct ->
  Crypto.open sk DStreamToReceiver (1 + i)%u64 [] ct = Ok p ->
  match write_chunk st i p s with
  | ((Ok _, st'), s') => Open st' s'
  | ((Err _, _), s') => Idle s'
  | ((Panic, _), _) => False
  end.

Lemma recv_payload_may (hv l : list Z) (st : Store) (s : fs) :
  (forall i, i ∈ l -> 0 <= i < total) -> Open st s ->
  may P (recv_payload sk hv l st s) (ends (fun st' => Open st') (fun _ => Idle)).
Proof.
  revert st s. induction l as [|i l IH]; intros st s Hl Ho; cbn [recv_payload]; [exact Ho|].
  assert (Hl' : forall i, i ∈ l -> 0 <= i < total) by (intros j Hj; apply Hl; by right).
  case_bool_decide; [by apply IH|].
  eapply (may_prog_bind _ _ _ _ (fun ct s' => P ct /\ s' = s)).
  { apply may_recv; [by intros|]. intros e. by eapply Hopen. }
  intros ct s1 [Hct ->].
  eapply (may_prog_bind _ _ _ _ (fun p s' => Crypto.open sk DStreamToReceiver (1 + i)%u64 [] ct = Ok p /\ s' = s)).
  { apply may_res; [| |intros e; by eapply Hopen].
    - unfold map_err. pose proof (open_not_panic sk DStreamToReceiver (1 + i)%u64 [] ct).
      by destruct (Crypto.open _ _ _ _ _).
    - intros p. unfold map_err. destruct (Crypto.open _ _ _ _ _); [by intros [= ->]|done|done]. }
  intros p s1 [Hp ->].
  eapply (may_prog_bind _ _ _ _ (fun st' s' => Open st' s')).
  { pose proof (Hwrite st i ct p s Ho (Hl i ltac:(by left)) Hct Hp) as Hw. unfold prog_write.
    destruct (write_chunk st i p s) as [[[u|e|] st'] s']; simpl; done. }
  intros st' s' Ho'. by apply IH.
Qed.

Variables (m : Manifest) (out : path) (name : string).
Variable Final : string -> fpred.
Variable Failed : fpred.
Hypothesis Hfailed : forall (s : fs), Idle s -> Failed s.
Hypothesis Htotal : Manifest_total_chunks m = Ok total.
Hypothesis Hcomplete : forall (st : Store) (s : fs), Open st s -> is_complete st <> Panic.
Hypothesis Hfinalize : forall (st : Store) (commit : Commit) (s : fs) (ct : bytes), Open st s -> P ct ->
  open_val (T := Commit) sk DStreamToReceiver (1 + total)%u64 ct = Ok commit ->
  match finalize tar st m commit out name s with
  | (Ok d, s') => Final d s' /\ Failed s'
  | (Err _, s') => Failed s'
  | (Panic, _) => False
  end.

Lemma open_val_not_panic T `{!WireType T} `{!Serde T} d i ct : open_val (T := T) sk d i ct <> Panic.
Proof.
  unfold open_val. pose proof (open_not_panic sk d i [] ct). unfold map_err.
  destruct (Crypto.open _ _ _ _ _); [|done|done]. simpl. by destruct (from_slice a).
Qed.

Lemma recv_blob_may (s : fs) :
  match open_or_create out name (mf_transfer_id m) (mf_total_size m) (mf_chunk_size m) s with
  | (Ok st, s') => Open st s'
  | (Err _, s') => Idle s'
  | (Panic, _) => False
  end ->
  may P (recv_blob tar sk m out name s) (ends Final (fun _ => Failed)).
Proof.
  intros Ho. unfold recv_blob.
  eapply (may_prog_bind _ _ _ _ (fun st s' => Open st s')).
  { apply may_io. destruct (open_or_create _ _ _ _ _ s) as [[st|e|] s']; [done|by apply Hfailed|done]. }
  intros st s1 Hs1. assert (Hf1 : Failed s1) by (by eapply Hfailed, Hopen).
  eapply (may_prog_bind _ _ _ _ (fun _ s' => s' = s1)).
  { apply may_res; [by eapply Hcomplete|done|done]. }
  intros done ? ->. eapply (may_prog_bind _ _ _ _ (fun _ s' => s' = s1)); [by apply may_send|].
  intros [] ? ->. eapply (may_prog_bind _ _ _ _ (fun n s' => n = total /\ s' = s1)).
  { rewrite Htotal. apply may_res; [done| |done]. by intros a [= <-]. }
  intros ? ? [-> ->]. eapply (may_prog_bind _ _ _ _ (fun st' s' => Open st' s')).
  { eapply may_mono; [apply recv_payload_may; [|exact Hs1]|].
    - intros i. by rewrite elem_of_zrange.
    - intros [[st'|e|] s']; simpl; [done|by apply Hfailed|done]. }
  intros st' s2 Hs2. assert (Hf2 : Failed s2) by (by eapply Hfailed, Hopen).
  eapply (may_prog_bind _ _ _ _ (fun ct s' => P ct /\ s' = s2)); [by apply may_recv|].
  intros ct ? [Hct ->].
  eapply (may_prog_bind _ _ _ _ (fun commit s' =>
    open_val (T := Commit) sk DStreamToReceiver (1 + total)%u64 ct = Ok commit /\ s' = s2)).
  { by apply may_res; [apply open_val_not_panic| |]. }
  intros commit ? [Hco ->]. pose proof (Hfinalize st' commit s2 ct Hs2 Hct Hco) as Hfi.
  eapply (may_prog_bind _ _ _ _ (fun r s' => match r with
    | Ok d => Final d s' /\ Failed s' | Err _ => Failed s' | Panic => False end)).
  { apply may_io. unfold io_try. by destruct (finalize _ _ _ _ _ _ _) as [[d|e|] s']. }
  intros r s3 Hr. eapply (may_prog_bind _ _ _ _ (fun _ s' => s' = s3)).
  { apply may_send; [done|]. intros e. by destruct r as [d|e'|]; [destruct Hr| |]. }
  intros [] ? ->. destruct r as [d|e|]; simpl; [by destruct Hr|done|done].
Qed.
End receiver.

(** ** Moving the file into place, under any faults *)

(** [data] is at [dest], and outside [d] nothing else differs from [n1]. *)
Definition moved (d dest : path) (data : bytes) (n1 n : gmap path node) : Prop :=
  file_at n dest = Some data /\ forall q, ~ d `prefix_of` q -> q <> dest -> n !! q = n1 !! q.

Lemma finalize_file_any (st : Store) (dest : path) (data : bytes) (n1 : gmap path node) :
  file_at n1 (data_path st) = Some data -> dir st `prefix_of` data_path st ->
  ~ dir st `prefix_of` dest ->
  triple (fun n => n = n1) (finalize_file st dest)
    (fun _ => moved (dir st) dest data n1) (fun n => n = n1 \/ moved (dir st) dest data n1 n).
Proof.
  intros Hd Hdp Hdest. unfold finalize_file.
  eapply (triple_bind _ _ _ (fun _ => moved (dir st) dest data n1)).
  - assert (Ht : triple (fun n => n = n1) (fs_rename (data_path st) dest)
      (fun _ => moved (dir st) dest data n1) (fun n => n = n1 \/ moved (dir st) dest data n1 n)).
    { apply triple_rename; [by left|]. intros n b -> Hb. rewrite Hd in Hb. injection Hb as <-. simpl.
      assert (Hm : moved (dir st) dest data n1 (upd (delete (data_path st) n1) dest data)).
      { split; [by apply file_at_insert|]. intros q Hq Hqd. rewrite lookup_insert_ne by done.
        rewrite lookup_delete_ne; [done|]. by intros <-. }
      split; [done|by right]. }
    intros s Hs. specialize (Ht s Hs). unfold io_context.
    by destruct (fs_rename (data_path st) dest s) as [[[]|e|] s'].
  - intros []. eapply triple_weaken.
    + apply (triple_remove_dir_all (dir st) (moved (dir st) dest data n1)).
      intros n n' [H1 H2] Hk. split.
      * unfold file_at. rewrite Hk by done. exact H1.
      * intros q Hq Hqd. by rewrite Hk, H2.
    + done.
    + done.
    + by right.
Qed.

(** ** The file system's shape around the staging directory *)

Section shape.
Context `{!Serde State}.
Variables (out : path) (name : string).
Hypothesis Hname : plain_name name.
Local Abbreviation pd := (partial_dir out name).
Local Abbreviation dest := (out ++ [name]).

Definition shape (n : gmap path node) : Prop := stageable out name n /\ n !! dest <> Some Dir.

Lemma not_in_prefixes e : ~ (pd ++ [e]) ∈ prefixes out /\ pd <> pd ++ [e] /\ dest <> pd ++ [e]
  /\ ~ pd ∈ prefixes out /\ dest <> pd.
Proof.
  rewrite partial_dir_plain by done. split; [|split; [|split; [|split]]].
  - intros Hp%elem_of_prefixes. rewrite !length_app in Hp. simpl in Hp. lia.
  - intros E%(f_equal length). rewrite !length_app in E. simpl in E. lia.
  - intros E%(f_equal length). rewrite !length_app in E. simpl in E. lia.
  - intros Hp%elem_of_prefixes. rewrite !length_app in Hp. simpl in Hp. lia.
  - intros E. by destruct (dest_not_under out name); exists []; rewrite app_nil_r.
Qed.
Lemma shape_upd n e b : shape n -> shape (upd n (pd ++ [e]) b).
Proof.
  intros [(H1 & H2 & H3 & H4 & H5) H6]. destruct (not_in_prefixes e) as (N1 & N2 & N3 & _).
  assert (Hd : forall q, n !! q <> Some Dir -> upd n (pd ++ [e]) b !! q <> Some Dir).
  { intros q Hq. destruct (decide (pd ++ [e] = q)) as [<-|]; [by rewrite lookup_insert_eq|by rewrite lookup_insert_ne]. }
  split; [split; [|split; [|by auto]]|by auto].
  - intros p Hp. rewrite lookup_insert_ne; [by apply H1|]. by intros <-.
  - by rewrite file_at_insert_ne.
Qed.
Lemma shape_delete n e : shape n -> shape (delete (pd ++ [e]) n).
Proof.
  intros [(H1 & H2 & H3 & H4 & H5) H6]. destruct (not_in_prefixes e) as (N1 & N2 & N3 & _).
  assert (Hd : forall q, n !! q <> Some Dir -> delete (pd ++ [e]) n !! q <> Some Dir).
  { intros q Hq. destruct (decide (pd ++ [e] = q)) as [<-|]; [by rewrite lookup_delete_eq|by rewrite lookup_delete_ne]. }
  split; [split; [|split; [|by auto]]|by auto].
  - intros p Hp. rewrite lookup_delete_ne; [by apply H1|]. by intros <-.
  - by rewrite file_at_delete_ne.
Qed.
Hint Resolve shape_upd shape_delete : core.

Lemma mkdirs_other ps n q : ~ q ∈ ps -> snd (mkdirs ps n) !! q = n !! q.
Proof.
  revert n. induction ps as [|p ps IH]; intros n Hq; simpl; [done|].
  apply not_elem_of_cons in Hq as [Hp Hq].
  destruct (n !! p) as [[|b]|]; [by apply IH|done|]. rewrite IH by done. by rewrite lookup_insert_ne.
Qed.
Lemma mkdirs_dirs ps n q : n !! q = Some Dir -> snd (mkdirs ps n) !! q = Some Dir.
Proof.
  revert n. induction ps as [|p ps IH]; intros n Hq; simpl; [done|].
  destruct (n !! p) as [[|b]|] eqn:E; [by apply IH|done|]. apply IH. rewrite lookup_insert_ne; [done|congruence].
Qed.
Lemma shape_mkdirs n ps : (forall q, q ∈ ps -> q ∈ prefixes pd) -> shape n -> shape (snd (mkdirs ps n)).
Proof.
  intros Hps [(H1 & H2 & H3 & H4 & H5) H6].
  assert (Hin : forall e, ~ (pd ++ [e]) ∈ ps).
  { intros e Hp%Hps%elem_of_prefixes. rewrite length_app in Hp. simpl in Hp. lia. }
  split; [split; [|split; [|split; [|split]]]|].
  - intros p Hp. apply mkdirs_dirs. by apply H1.
  - by rewrite mkdirs_file_at.
  - unfold data_file. by rewrite mkdirs_other.
  - unfold state_file. by rewrite mkdirs_other.
  - unfold tmp_file. by rewrite mkdirs_other.
  - rewrite mkdirs_other; [done|]. intros Hp%Hps. rewrite partial_dir_plain, prefixes_snoc in Hp by done.
    apply elem_of_app in Hp as [Hp%elem_of_prefixes|Hp%list_elem_of_singleton].
    + rewrite length_app in Hp. simpl in Hp. lia.
    + destruct (not_in_prefixes "") as (_ & _ & _ & _ & Hne). rewrite partial_dir_plain in Hne by done. done.
Qed.
Lemma persist_shape st : dir st = pd -> state_path st = state_file pd ->
  triple shape (persist_state st) (fun _ => shape) shape.
Proof.
  intros Hd Hs. unfold persist_state, tmp_path. rewrite Hd, Hs, join_tmp.
  eapply (triple_bind _ _ _ (fun _ => shape)).
  - apply triple_fs_write; unfold tmp_file; auto.
  - intros []. apply triple_rename; unfold tmp_file, state_file; auto.
Qed.
Lemma open_data_shape size st : triple shape (open_data pd size st) (fun _ => shape) shape.
Proof.
  unfold open_data. rewrite join_data, join_state.
  eapply (triple_bind _ _ _ (fun _ => shape)); [apply triple_open_rw; unfold data_file; auto|].
  intros []. eapply (triple_bind _ _ _ (fun _ => shape)); [apply triple_set_len; unfold data_file; auto|].
  intros []. eapply (triple_bind _ _ _ (fun _ => shape)); [by apply persist_shape|].
  intros []. by apply triple_ret.
Qed.
Lemma create_shape : triple shape (create_dir_all pd) (fun _ => shape) shape.
Proof.
  apply triple_sys; [|done|].
  - intros n Hn. pose proof (mkdirs_ok (prefixes pd) n). pose proof (shape_mkdirs n (prefixes pd) ltac:(done) Hn) as Hs.
    by destruct (mkdirs (prefixes pd) n) as [[[]|e|] n'].
  - intros n k Hn. apply shape_mkdirs; [|done]. intros q Hq. by apply elem_of_take in Hq as (i & Hi%list_elem_of_lookup_2 & _).
Qed.
Lemma open_or_create_shape tid size cs : triple shape (open_or_create out name tid size cs) (fun _ => shape) shape.
Proof.
  unfold open_or_create. fold (partial_dir out name). eapply (triple_bind _ _ _ (fun _ => shape)).
  { apply create_shape. }
  intros []. eapply (triple_bind _ _ _ (fun _ => shape)).
  { apply triple_fs_read_try; [|done]. intros n Hn. by destruct (file_at n _). }
  intros r. apply open_data_shape.
Qed.
Lemma write_chunk_shape s i b f :
  dir s = pd -> data_path s = data_file pd -> state_path s = state_file pd ->
  shape (nodes f) -> shape (nodes (write_chunk s i b f).2).
Proof.
  intros Hd Hdp Hs Hk. unfold write_chunk.
  destruct (total_chunks s) as [n| |]; [|done|done]. case_match; [done|].
  destruct (expected_len s i) as [el| |]; [|done|done]. case_match; [done|]. rewrite Hdp.
  pose proof (triple_write_at (data_file pd) (i * st_chunk_size (state s))%u64 b shape (fun _ => shape) shape) as Hw.
  unfold data_file in Hw. specialize (Hw ltac:(auto) ltac:(auto) ltac:(auto) f Hk). fold (data_file pd) in Hw.
  destruct (file_write_at (data_file pd) _ b f) as [[[]|e|] f1]; [|done|done].
  pose proof (persist_shape (insert_have i s) Hd Hs f1 Hw) as Hp.
  destruct (persist_state _ f1) as [[[]|e|] f2]; done.
Qed.
End shape.

(** ** Finalizing, under any faults *)

Lemma file_hash_any `{Blake3} (st : Store) (n1 : gmap path node) :
  triple (fun n => n = n1) (file_hash st)
    (fun h n => n = n1 /\ exists data, file_at n1 (data_path st) = Some data /\ h = hex_encode (blake3_hash data))
    (fun n => n = n1).
Proof.
  unfold file_hash. eapply (triple_bind _ _ _ (fun b n => n = n1 /\ file_at n1 (data_path st) = Some b)).
  - apply triple_sys; [|by intros|by intros].
    intros n ->. destruct (n1 !! data_path st) as [[|b]|] eqn:E; [done| |done].
    split; [done|]. by apply file_at_Some.
  - intros b. apply triple_ret. intros n [-> Hb]. split; [done|]. exists b. by rewrite hash_reader_spec.
Qed.

Lemma finalize_any `{Blake3} (tar : bytes -> path -> io unit) (st : Store) (m : Manifest) (commit : Commit) (out : path)
    (name : string) (n1 : gmap path node) :
  kind m = KFile -> plain_name name -> is_complete st <> Panic ->
  dir st `prefix_of` data_path st -> ~ dir st `prefix_of` (out ++ [name]) ->
  triple (fun n => n = n1) (finalize tar st m commit out name)
    (fun _ n => exists data, file_at n1 (data_path st) = Some data /\ is_complete st = Ok true
      /\ moved (dir st) (out ++ [name]) data n1 n /\ hex_encode (blake3_hash data) = blake3_hex commit)
    (fun n => n = n1 \/ exists data, file_at n1 (data_path st) = Some data /\ is_complete st = Ok true
      /\ moved (dir st) (out ++ [name]) data n1 n).
Proof.
  intros Hk Hname Hp Hd Hdest. unfold finalize.
  eapply (triple_bind _ _ _ (fun c n => n = n1 /\ is_complete st = Ok c)).
  { intros s Hs. unfold io_lift. by destruct (is_complete st) as [c|e|]; [|left|]. }
  intros c. destruct c; simpl.
  2: { intros s [Hs _]. by left. }
  eapply (triple_bind _ _ _ (fun h n => (n = n1 /\ is_complete st = Ok true)
    /\ exists data, file_at n1 (data_path st) = Some data /\ h = hex_encode (blake3_hash data))).
  { intros s [Hs Hc]. pose proof (file_hash_any st n1 s Hs) as Ht.
    destruct (file_hash st s) as [[h|e|] s']; [|by left|done]. by destruct Ht as [? ?]. }
  intros h. destruct (String.eqb_spec h (blake3_hex commit)) as [Hh|Hh]; simpl.
  2: { intros s [[Hs _] _]. by left. }
  rewrite Hk, join_plain by done. subst h.
  intros s [[Hs Hc] (data & Hdata & Hh)]. unfold mbind, io_bind.
  pose proof (finalize_file_any st (out ++ [name]) data n1 Hdata Hd Hdest s Hs) as Ht.
  destruct (finalize_file st (out ++ [name]) s) as [[[]|e|] s']; [|destruct Ht as [Ht|Ht]|done]; simpl.
  - by exists data.
  - by left.
  - right. by exists data.
Qed.

(** ** Interrupted transfers *)

Section resume.
Context `{Aead} `{Blake3} `{!Serde Manifest} `{!Serde StreamManifestAck} `{!Serde Commit}
  `{!Serde CommitAck} `{!Serde State}.
Variables (sk : bytes) (out : path) (nm tid : string) (content : bytes).
Variables (tar : bytes -> path -> io unit).
Hypothesis Hlen : zlen content < U64.
Local Abbreviation name := (safe_name nm).
Local Abbreviation pd := (partial_dir out (safe_name nm)).
Local Abbreviation total := (n_chunks STREAM_FRAME_SIZE content).

(** Messages of a sender of [content]: junk, or frames it sealed. *)
Definition honest (m0 : Manifest) (ct : bytes) : Prop :=
  (forall m, open_val (T := Manifest) sk DStreamToReceiver 0 ct = Ok m -> m = m0)
  /\ forall i p, 0 <= i < total -> Crypto.open sk DStreamToReceiver (1 + i)%u64 [] ct = Ok p ->
     p = chunk STREAM_FRAME_SIZE i content.

Definition delivered (n : gmap path node) : Prop := file_at n (out ++ [name]) = Some content.
Local Abbreviation Idle := (resumable out (safe_name nm) tid STREAM_FRAME_SIZE content).
Definition opened (st : Store) (n : gmap path node) : Prop :=
  shape out name n /\ store_inv pd tid STREAM_FRAME_SIZE content st n.

Lemma opened_idle st n : opened st n -> Idle n.
Proof. intros ([H1 H2] & _ & H3 & _). done. Qed.
Lemma opened_no_panic st n : opened st n -> is_complete st <> Panic.
Proof.
  intros (_ & Hok & _). unfold is_complete.
  by rewrite (total_chunks_ok pd tid STREAM_FRAME_SIZE content frame_size_ok) by done.
Qed.
Lemma pd_not_dest : ~ pd `prefix_of` (out ++ [name]).
Proof. rewrite partial_dir_plain by apply safe_name_plain. apply dest_not_under. Qed.

Lemma recv_blob_resumable (m : Manifest) (s : fs) :
  mf_transfer_id m = tid -> mf_total_size m = zlen content -> mf_chunk_size m = STREAM_FRAME_SIZE ->
  kind m = KFile -> read_ok (faults s) -> Idle (nodes s) ->
  may (honest m) (recv_blob tar sk m out name s)
    (ends (fun _ s' => delivered (nodes s')) (fun _ s' => Idle (nodes s') \/ delivered (nodes s'))).
Proof.
  intros E1 E2 E3 Hk Hr Hidle.
  eapply may_mono; [apply (recv_blob_may sk tar (honest m) (fun s' => Idle (nodes s')) (fun st s' => opened st (nodes s'))) with (total := total)
    (Final := fun _ s' => delivered (nodes s')) (Failed := fun s' => Idle (nodes s') \/ delivered (nodes s'))|].
  - intros st f. apply opened_idle.
  - intros st i ct p f [Hsh Hst] Hi [_ Hc] Hp. rewrite (Hc i p Hi Hp).
    pose proof (write_chunk_inv pd tid STREAM_FRAME_SIZE content frame_size_ok Hlen st i f Hi Hst) as Hw.
    pose proof Hst as ((Hd & Hdp & Hsp & _) & _).
    pose proof (write_chunk_shape out name (safe_name_plain nm) st i (chunk STREAM_FRAME_SIZE i content) f Hd Hdp Hsp Hsh) as Hs'.
    destruct (write_chunk st i _ f) as [[[[]|e|] st'] f']; simpl in *.
    + by destruct Hw as (_ & ? & _).
    + destruct Hw as (_ & (_ & ? & _) & _). by destruct Hs'.
    + by destruct Hw.
  - by left.
  - unfold Manifest_total_chunks. rewrite E2, E3. by apply div_ceil_ok.
  - intros st f. apply opened_no_panic.
  - intros st commit f ct Hopen _ _. pose proof Hopen as (Hsh & (Hd & Hdp & _) & _ & data & Hdata & Hst).
    pose proof (finalize_any tar st m commit out name (nodes f) Hk (safe_name_plain nm) (opened_no_panic _ _ Hopen)) as Hf.
    rewrite Hd, Hdp in Hf. specialize (Hf ltac:(by apply prefix_app_r) pd_not_dest f eq_refl).
    assert (Hdel : forall data' n, file_at (nodes f) (data_file pd) = Some data' -> is_complete st = Ok true ->
      moved pd (out ++ [name]) data' (nodes f) n -> delivered n).
    { intros data' n Hd' Hc [Hm _]. unfold delivered. rewrite Hm. f_equal.
      destruct Hopen as (_ & Hinv). pose proof (complete_content out name tid STREAM_FRAME_SIZE content frame_size_ok _ _ Hinv Hc). congruence. }
    destruct (finalize tar st m commit out name f) as [[d|e|] f']; [| |done].
    + destruct Hf as (data' & H1 & H2 & H3 & _). split; [|right]; by eapply Hdel.
    + destruct Hf as [->|(data' & H1 & H2 & H3)]; [left; by eapply opened_idle|right; by eapply Hdel].
  - rewrite E1, E2, E3. pose proof Hidle as (Hsh & Hinv & Hdest).
    pose proof (open_or_create_inv out name tid STREAM_FRAME_SIZE content frame_size_ok Hlen s Hr Hinv) as Ho.
    pose proof (open_or_create_shape out name (safe_name_plain nm) tid (zlen content) STREAM_FRAME_SIZE s (conj Hsh Hdest)) as Hs'.
    destruct (open_or_create _ _ _ _ _ s) as [[st|e|] s']; [done|by destruct Hs'|done].
  - by intros [[d|e|] s'].
Qed.
End resume.

(** ** Reopening what was left *)

Section reopen.
Context `{!Serde State} `{Blake3}.
Variables (out : path) (name tid : string) (cs : Z) (content : bytes).
Hypothesis Hcs : 0 < cs < U64.
Hypothesis Hlen : zlen content < U64.
Hypothesis Hname : plain_name name.
Local Abbreviation pd := (partial_dir out name).
Local Abbreviation on_disk := (listed out name tid cs content).

(** The store has the chunks the disk lists, and the disk lists them still. *)
Lemma reopen n : resumable out name tid cs content n ->
  exists st n', open_or_create out name tid (zlen content) cs (Fs n []) = (Ok st, Fs n' [])
    /\ store_inv pd tid cs content st n' /\ usable pd n' /\ shape out name n' /\ keeps pd n n'
    /\ resumable out name tid cs content n' /\ st_have (state st) = on_disk n /\ on_disk n' = on_disk n.
Proof.
  intros (Hst & Hinv & Hd). pose proof (stageable_creatable _ _ Hname n Hst) as Hc.
  destruct (open_or_create_runs out name tid cs content Hcs Hlen (Fs n []) eq_refl Hc) as (st & [n' fl] & Ho & Hfl & Hu & Hl%loaded_listed).
  cbn [nodes faults] in *. subst fl.
  pose proof (open_or_create_saves out name tid cs content Hcs Hlen (Fs n []) st (Fs n' []) eq_refl Hc Ho) as Hsv.
  pose proof (open_or_create_inv out name tid cs content Hcs Hlen (Fs n []) ltac:(by left) Hinv) as Hi.
  pose proof (open_or_create_shape out name Hname tid (zlen content) cs (Fs n []) (conj Hst Hd)) as Hsh.
  rewrite Ho in Hi, Hsh. cbn [nodes] in *. pose proof Hsh as [Hst' Hd']. pose proof Hi as (Hok & Hi' & _).
  exists st, n'. split_and!; [done|done|done|done| |done|done|].
  - by apply (open_or_create_keeps out name tid cs content Hname n st n').
  - rewrite <- Hl. by apply saved_listed.
Qed.
End reopen.

(** ** The receiver's decisions *)

Section decisions.
Context `{Aead} `{Blake3} `{!Serde Manifest} `{!Serde StreamManifestAck} `{!Serde Commit}
  `{!Serde CommitAck} `{!Serde State}.
Variables (key : SessionKey) (out : path) (tar : bytes -> path -> io unit).
Variables (accept : gmap path node -> Manifest -> bool) (P : bytes -> Prop).
Local Abbreviation sk := (stream_key key).

Lemma recv_into_may (s : fs) (Q : string -> fpred) (E : error -> fpred) :
  (forall ct m, P ct -> open_val (T := Manifest) sk DStreamToReceiver 0 ct = Ok m ->
     kind m <> KText -> mf_chunk_size m = STREAM_FRAME_SIZE -> accept (nodes s) m = true ->
     may P (recv_blob tar sk m out (safe_name (name m)) s) (ends Q E)) ->
  (forall ct m, P ct -> open_val (T := Manifest) sk DStreamToReceiver 0 ct = Ok m ->
     kind m = KText -> accept (nodes s) m = true -> Q (default "" (text m)) s) ->
  (forall e, E e s) ->
  may P (recv_into tar key out accept s) (ends Q E).
Proof.
  intros Hblob Htext HE. unfold recv_into.
  eapply (may_prog_bind _ _ _ _ (fun ct s' => P ct /\ s' = s)); [by apply may_recv|].
  intros ct ? [Hct ->].
  eapply (may_prog_bind _ _ _ _ (fun m s' => open_val (T := Manifest) sk DStreamToReceiver 0 ct = Ok m /\ s' = s)).
  { pose proof (open_val_not_panic sk Manifest DStreamToReceiver 0 ct) as Hp.
    apply may_res; [by destruct (open_val _ _ _ _)| |done].
    intros m. by destruct (open_val _ _ _ _) as [m'|e|]; [intros [= ->]|..]. }
  intros m ? [Hm ->].
  assert (Hdecl : forall e, may P ((_ ← send (seal_val sk DStreamToSender 0 declined_ack); prog_res (Err e : res string)) s) (ends Q E)).
  { intros e. eapply (may_prog_bind _ _ _ _ (fun _ s' => s' = s)); [by apply may_send|].
    intros [] ? ->. apply HE. }
  destruct (version m =? PROTOCOL_VERSION); cbn [negb]; [|apply Hdecl].
  destruct (bool_decide_reflect (kind m = KText)) as [Hk|Hk]; cbn [negb andb].
  - destruct (accept (nodes s) m) eqn:Ha; cbn [negb]; [|apply Hdecl].
    eapply (may_prog_bind _ _ _ _ (fun _ s' => s' = s)); [by apply may_send|].
    intros [] ? ->. simpl. by eapply Htext.
  - destruct (Z.eqb_spec (mf_chunk_size m) STREAM_FRAME_SIZE) as [Hc|Hc]; cbn [negb]; [|apply Hdecl].
    destruct (accept (nodes s) m) eqn:Ha; cbn [negb]; [|apply Hdecl]. by eapply Hblob.
Qed.
End decisions.

(** ** A store of any transfer *)

Section any_store.
Context `{!Serde State}.
Variables (d : path) (size cs : Z).
Hypothesis Hcs : cs <> 0.

Definition store_at (st : Store) : Prop :=
  dir st = d /\ data_path st = data_file d /\ state_path st = state_file d
  /\ st_total_size (state st) = size /\ st_chunk_size (state st) = cs.

Lemma store_at_chunks st : store_at st -> total_chunks st = Ok (cdiv size cs).
Proof. intros (_ & _ & _ & E1 & E2). unfold total_chunks, div_ceil, cdiv. rewrite E1, E2. by apply Z.eqb_neq in Hcs as ->. Qed.
Lemma persist_no_panic st f : fst (persist_state st f) <> Panic.
Proof.
  unfold persist_state, mbind, io_bind.
  pose proof (triple_fs_write (tmp_path st) (to_vec (state st)) (fun _ => True) (fun _ _ => True) (fun _ => True)
    ltac:(done) ltac:(done) ltac:(done) f I) as H.
  destruct (fs_write _ _ f) as [[[]|e|] f1]; [|done|done].
  pose proof (triple_rename (tmp_path st) (state_path st) (fun _ => True) (fun _ _ => True) (fun _ => True)
    ltac:(done) ltac:(done) f1 I) as H2.
  by destruct (fs_rename _ _ f1) as [[[]|e|] f2].
Qed.
Lemma write_chunk_at st i b f : store_at st ->
  fst (fst (write_chunk st i b f)) <> Panic /\ store_at (snd (fst (write_chunk st i b f))).
Proof.
  intros Hs. unfold write_chunk. rewrite store_at_chunks by done. case_match; [done|].
  unfold expected_len. rewrite store_at_chunks by done. simpl. case_match; [done|].
  pose proof (triple_write_at (data_path st) (i * st_chunk_size (state st))%u64 b (fun _ => True) (fun _ _ => True) (fun _ => True)
    ltac:(done) ltac:(done) ltac:(done) f I) as H1.
  destruct (file_write_at _ _ b f) as [[[]|e|] f1]; [|done|done].
  pose proof (persist_no_panic (insert_have i st) f1) as Hp.
  by destruct (persist_state (insert_have i st) f1) as [r f2].
Qed.
Lemma open_data_at st f :
  st_total_size st = size -> st_chunk_size st = cs ->
  match open_data d size st f with (Ok s, _) => store_at s | (Err _, _) => True | (Panic, _) => False end.
Proof.
  intros E1 E2.
  assert (Ht : triple (fun _ => True) (open_data d size st) (fun s _ => store_at s) (fun _ => True)).
  { unfold open_data. rewrite join_data, join_state.
    eapply (triple_bind _ _ _ (fun _ _ => True)); [by apply triple_open_rw|].
    intros []. eapply (triple_bind _ _ _ (fun _ _ => True)); [by apply triple_set_len|].
    intros []. eapply (triple_bind _ _ _ (fun _ _ => True)).
    { intros s _. match goal with |- context [persist_state ?x s] => pose proof (persist_no_panic x s) end.
      by destruct (persist_state _ s) as [[[]|e|] s']. }
    intros []. by apply triple_ret. }
  specialize (Ht f I). by destruct (open_data d size st f) as [[s|e|] f'].
Qed.
End any_store.

Lemma load_state_geometry `{!Serde State} r tid size cs :
  st_total_size (load_state r tid size cs) = size /\ st_chunk_size (load_state r tid size cs) = cs.
Proof.
  unfold load_state. destruct r as [b|e|]; [|done..]. destruct (from_slice b) as [s|]; [|done].
  destruct (state_matches s tid size cs) eqn:E; [|done].
  unfold state_matches in E. rewrite !andb_true_iff, !Z.eqb_eq in E. tauto.
Qed.
Lemma open_or_create_at `{!Serde State} out name tid size cs s :
  match open_or_create out name tid size cs s with
  | (Ok st, _) => store_at (partial_dir out name) size cs st | (Err _, _) => True | (Panic, _) => False end.
Proof.
  assert (Ht : triple (fun _ => True) (open_or_create out name tid size cs)
    (fun st _ => store_at (partial_dir out name) size cs st) (fun _ => True)).
  { unfold open_or_create. eapply (triple_bind _ _ _ (fun _ _ => True)).
    { by apply triple_create_dir_all. }
    intros []. eapply (triple_bind _ _ _ (fun _ _ => True)).
    { apply triple_fs_read_try; [|done]. intros n _. by destruct (file_at n _). }
    intros r f _. destruct (load_state_geometry r tid size cs) as [E1 E2].
    pose proof (open_data_at (partial_dir out name) size cs _ f E1 E2).
    by destruct (open_data _ _ _ f) as [[st|e|] f']. }
  specialize (Ht s I). by destruct (open_or_create _ _ _ _ _ s) as [[st|e|] s'].
Qed.

Lemma frame_pos : STREAM_FRAME_SIZE <> 0.
Proof. done. Qed.

(** [open_or_create] changes nothing outside the staging directory. *)
Lemma open_or_create_keeps_any `{!Serde State} out name tid size cs (n0 : gmap path node) :
  plain_name name -> dir_path n0 out ->
  triple (fun n => n = n0) (open_or_create out name tid size cs)
    (fun _ => keeps (partial_dir out name) n0) (keeps (partial_dir out name) n0).
Proof.
  intros Hname Hout. set (pd := partial_dir out name).
  assert (Hmk : forall ps, (forall q, q ∈ ps -> q ∈ prefixes pd) -> keeps pd n0 (snd (mkdirs ps n0))).
  { intros ps Hps q Hq. destruct (decide (q ∈ ps)) as [Hin|]; [|by apply mkdirs_other].
    specialize (Hps q Hin). unfold pd in Hps, Hq. rewrite partial_dir_plain in Hps, Hq by done.
    rewrite prefixes_snoc in Hps. apply elem_of_app in Hps as [Hp|Hp%list_elem_of_singleton].
    - rewrite (Hout q Hp). apply mkdirs_dirs. by apply Hout.
    - subst q. by destruct Hq. }
  unfold open_or_create. change (join out (name +:+ ".b2p-partial")) with pd.
  eapply (triple_bind _ _ _ (fun _ => keeps pd n0)).
  { apply triple_sys.
    - intros n ->. pose proof (mkdirs_ok (prefixes pd) n0). pose proof (Hmk (prefixes pd) ltac:(done)) as Hs.
      by destruct (mkdirs (prefixes pd) n0) as [[[]|e|] n'].
    - by intros n ->.
    - intros n k ->. apply Hmk. intros q Hq. by apply elem_of_take in Hq as (i & Hi%list_elem_of_lookup_2 & _). }
  intros []. eapply (triple_bind _ _ _ (fun _ => keeps pd n0)).
  { apply triple_fs_read_try; [|done]. intros n Hn. by destruct (file_at n _). }
  intros r. apply open_data_keeps.
Qed.

(** ** Any messages at all *)

(** [n] differs from [n0] at most in the staging directory and the
    destination of [name]. *)
Definition outside (out : path) (name : string) (n0 n : gmap path node) : Prop :=
  forall q, ~ partial_dir out name `prefix_of` q -> q <> out ++ [name] -> n !! q = n0 !! q.

Lemma keeps_outside out name n0 n : keeps (partial_dir out name) n0 n -> outside out name n0 n.
Proof. intros H q Hq _. by apply H. Qed.

Section any.
Context `{Aead} `{Blake3} `{!Serde Manifest} `{!Serde StreamManifestAck} `{!Serde Commit}
  `{!Serde CommitAck} `{!Serde State}.
Variables (key : SessionKey) (out : path) (tar : bytes -> path -> io unit).
Variables (accept : gmap path node -> Manifest -> bool) (P : bytes -> Prop).
Local Abbreviation sk := (stream_key key).
Hypothesis Hnotar : forall ct m, P ct -> open_val (T := Manifest) sk DStreamToReceiver 0 ct = Ok m -> kind m <> KTar.

(** What is known of an accepted file. *)
Definition verified (m : Manifest) (n : gmap path node) : Prop :=
  exists ct commit data, P ct
    /\ open_val (T := Commit) sk DStreamToReceiver (1 + cdiv (mf_total_size m) STREAM_FRAME_SIZE)%u64 ct = Ok commit
    /\ file_at n (out ++ [safe_name (name m)]) = Some data
    /\ hex_encode (blake3_hash data) = blake3_hex commit.

Lemma recv_blob_any (m : Manifest) (s : fs) :
  kind m = KFile -> mf_chunk_size m = STREAM_FRAME_SIZE -> 0 <= mf_total_size m ->
  dir_path (nodes s) out ->
  may P (recv_blob tar sk m out (safe_name (name m)) s)
    (ends (fun _ s' => verified m (nodes s') /\ outside out (safe_name (name m)) (nodes s) (nodes s'))
          (fun _ s' => outside out (safe_name (name m)) (nodes s) (nodes s'))).
Proof.
  intros Hk Hc Hsize Hout. pose proof (safe_name_plain (name m)) as Hname.
  set (nm := safe_name (name m)) in *. set (pd := partial_dir out nm).
  pose (Idle := fun s' => keeps pd (nodes s) (nodes s')).
  pose (Open := fun st s' => keeps pd (nodes s) (nodes s') /\ store_at pd (mf_total_size m) STREAM_FRAME_SIZE st).
  assert (Hnp : forall st n, Open st n -> is_complete st <> Panic).
  { intros st n [_ Hst]. unfold is_complete. by rewrite (store_at_chunks pd (mf_total_size m) STREAM_FRAME_SIZE frame_pos). }
  eapply may_mono; [apply (recv_blob_may sk tar P Idle Open) with (total := cdiv (mf_total_size m) STREAM_FRAME_SIZE)
    (Final := fun _ s' => verified m (nodes s') /\ outside out nm (nodes s) (nodes s')) (Failed := fun s' => outside out nm (nodes s) (nodes s'))|].
  - by intros st n [? _].
  - intros st i ct p f [Hkeep Hst] _ _ _. pose proof Hst as (Hd & Hdp & Hsp & _).
    pose proof (write_chunk_keeps pd (nodes s) st i p f Hd Hdp Hsp Hkeep) as Hw.
    destruct (write_chunk_at pd (mf_total_size m) STREAM_FRAME_SIZE frame_pos st i p f Hst) as [H1 H2].
    by destruct (write_chunk st i p f) as [[[u|e|] st'] f']; simpl in *.
  - intros f. apply keeps_outside.
  - unfold Manifest_total_chunks. rewrite Hc. by apply div_ceil_ok.
  - exact Hnp.
  - intros st commit f ct [Hkeep Hst] HP Hco. pose proof Hst as (Hd & Hdp & _).
    assert (Hnu : ~ pd `prefix_of` (out ++ [nm])) by (unfold pd; rewrite partial_dir_plain by done; apply dest_not_under).
    pose proof (finalize_any tar st m commit out nm (nodes f) Hk Hname (Hnp st f (conj Hkeep Hst))) as Hf.
    rewrite Hd, Hdp in Hf. specialize (Hf ltac:(by apply prefix_app_r) Hnu f eq_refl).
    assert (Hmv : forall data n, moved pd (out ++ [nm]) data (nodes f) n -> outside out nm (nodes s) n).
    { intros data n [_ Hm] q Hq Hqd. rewrite Hm by done. by apply Hkeep. }
    destruct (finalize tar st m commit out nm f) as [[d|e|] f']; [| |done].
    + destruct Hf as (data & H1 & H2 & H3 & H4). split; [split|]; [|by eapply Hmv..].
      exists ct, commit, data. split; [done|]. split; [done|]. split; [by destruct H3|done].
    + destruct Hf as [->|(data & H1 & H2 & H3)]; [by apply keeps_outside|by eapply Hmv].
  - rewrite Hc.
    pose proof (open_or_create_keeps_any out nm (mf_transfer_id m) (mf_total_size m) STREAM_FRAME_SIZE (nodes s) Hname Hout s eq_refl) as H1.
    pose proof (open_or_create_at out nm (mf_transfer_id m) (mf_total_size m) STREAM_FRAME_SIZE s) as H2.
    by destruct (open_or_create _ _ _ _ _ s) as [[st|e|] s'].
  - done.
Qed.

Lemma recv_into_any (s : fs) :
  dir_path (nodes s) out ->
  may P (recv_into tar key out accept s)
    (ends (fun d s' => exists ct m, P ct /\ open_val (T := Manifest) sk DStreamToReceiver 0 ct = Ok m
             /\ accept (nodes s) m = true
             /\ (kind m = KText /\ d = default "" (text m) /\ nodes s' = nodes s
                 \/ kind m = KFile /\ verified m (nodes s') /\ outside out (safe_name (name m)) (nodes s) (nodes s')))
          (fun _ s' => exists nm, plain_name nm /\ outside out nm (nodes s) (nodes s')
             /\ (nodes s' = nodes s \/ exists m, kind m = KFile /\ nm = safe_name (name m) /\ accept (nodes s) m = true))).
Proof.
  intros Hout. apply recv_into_may.
  - intros ct m Hct Hm Hk Hc Ha. pose proof (Hnotar ct m Hct Hm) as Hnt.
    assert (Hkf : kind m = KFile) by (by destruct (kind m)).
    assert (Hsize : 0 <= mf_total_size m).
    { unfold open_val in Hm. destruct (map_err _ _) as [pt|e|]; [|done|done]. simpl in Hm.
      destruct (from_slice pt) as [m'|] eqn:Ef; [|done]. injection Hm as ->.
      apply from_slice_ok in Ef as (_ & [? _] & _). done. }
    eapply may_mono; [by apply recv_blob_any|]. intros [[d|e|] s'] Ho; simpl in *; [| |done].
    + exists ct, m. repeat (split; [done|]). by right.
    + exists (safe_name (name m)). split; [apply safe_name_plain|]. split; [done|]. right. by exists m.
  - intros ct m Hct Hm Hk Ha. exists ct, m. repeat (split; [done|]). by left.
  - intros _. exists (safe_name ""). split; [apply safe_name_plain|]. split; [by intros q|by left].
Qed.
End any.

(** ** Properties *)

(** C8: An interrupted transfer can be resumed: a receiver that gets only junk and
    the frames of a sender of [content], in any order and any number of times,
    whose channel and disk may fail at any call (the read of the state file
    apart), does not panic, and leaves its disk such that the next attempt
    resumes from chunks that are those of [content], unless the file is
    already in place. *)
Theorem recv_resumable `{Aead} `{Blake3} `{!Serde Manifest} `{!Serde StreamManifestAck}
    `{!Serde Commit} `{!Serde CommitAck} `{!Serde State}
    key src out nm tid es sp content tar accept s :
  zlen content < U64 ->
  read_ok (faults s) -> resumable out (safe_name nm) tid STREAM_FRAME_SIZE content (nodes s) ->
  may (honest (stream_key key) content (stream_manifest (Blob KFile nm es (zlen content) tid src sp)))
    (recv_into tar key out accept s)
    (fun o => o.1 <> Panic /\ (resumable out (safe_name nm) tid STREAM_FRAME_SIZE content (nodes o.2)
                              \/ file_at (nodes o.2) (out ++ [safe_name nm]) = Some content)).
Proof.
  intros Hlen Hr Hidle. eapply may_mono.
  - apply (recv_into_may key out tar accept _ s
      (fun _ s' => delivered out nm content (nodes s'))
      (fun _ s' => resumable out (safe_name nm) tid STREAM_FRAME_SIZE content (nodes s') \/ delivered out nm content (nodes s'))).
    + intros ct m Hct Hm _ _ _. pose proof (proj1 Hct m Hm) as ->.
      by apply recv_blob_resumable.
    + intros ct m Hct Hm Hk. by pose proof (proj1 Hct m Hm) as ->.
    + intros _. by left.
  - intros [[d|e|] s'] Ho; simpl in *; [by split; [|right]|by split|done].
Qed.

(** C10: Whatever messages a peer sends, wherever the channel and the disk fail,
    the receiver does not panic and touches nothing but one plain name in its
    output directory and the staging directory of that name. (Unpacking an
    archive is the [tar] crate's; manifests of archives are excluded.) *)
Theorem recv_confined `{Aead} `{Blake3} `{!Serde Manifest} `{!Serde StreamManifestAck}
    `{!Serde Commit} `{!Serde CommitAck} `{!Serde State} key out tar accept s (P : bytes -> Prop) :
  (forall ct m, P ct -> open_val (T := Manifest) (stream_key key) DStreamToReceiver 0 ct = Ok m -> kind m <> KTar) ->
  dir_path (nodes s) out ->
  may P (recv_into tar key out accept s)
    (fun o => o.1 <> Panic /\ exists nm, plain_name nm /\
      forall q, ~ partial_dir out nm `prefix_of` q -> q <> out ++ [nm] -> nodes o.2 !! q = nodes s !! q).
Proof.
  intros Hnt Hout. eapply may_mono; [by apply recv_into_any|].
  intros [[d|e|] s'] Ho; simpl in *; [|by destruct Ho as (nm & ? & ? & _); split; [|exists nm]|done]. split; [done|].
  destruct Ho as (ct & m & _ & _ & _ & [(_ & _ & ->)|(_ & _ & Ho)]).
  - exists (safe_name ""). split; [apply safe_name_plain|done].
  - exists (safe_name (name m)). split; [apply safe_name_plain|done].
Qed.

(** C11: A receiver that reports success for a file has, at its destination, data
    whose hash is the one a commit message authenticated under the session's
    key names, of a manifest authenticated under it that the user accepted. *)
Theorem recv_verified `{Aead} `{Blake3} `{!Serde Manifest} `{!Serde StreamManifestAck}
    `{!Serde Commit} `{!Serde CommitAck} `{!Serde State} key out tar accept s (P : bytes -> Prop) :
  (forall ct m, P ct -> open_val (T := Manifest) (stream_key key) DStreamToReceiver 0 ct = Ok m -> kind m <> KTar) ->
  dir_path (nodes s) out ->
  may P (recv_into tar key out accept s)
    (fun o => forall d, o.1 = Ok d ->
      exists ct m, P ct /\ open_val (T := Manifest) (stream_key key) DStreamToReceiver 0 ct = Ok m
      /\ accept (nodes s) m = true
      /\ (kind m = KText /\ d = default "" (text m)
          \/ kind m = KFile /\ exists ct' commit data, P ct'
              /\ open_val (T := Commit) (stream_key key) DStreamToReceiver
                   (1 + cdiv (mf_total_size m) STREAM_FRAME_SIZE)%u64 ct' = Ok commit
              /\ file_at (nodes o.2) (out ++ [safe_name (name m)]) = Some data
              /\ hex_encode (blake3_hash data) = blake3_hex commit)).
Proof.
  intros Hnt Hout. eapply may_mono; [by apply recv_into_any|].
  intros [[d|e|] s'] Ho d'; simpl in *; [|done|done]. intros [= <-].
  destruct Ho as (ct & m & H1 & H2 & H3 & [(H4 & H5 & _)|(H4 & H5 & _)]).
  - exists ct, m. repeat (split; [done|]). by left.
  - exists ct, m. repeat (split; [done|]). right. split; [done|]. exact H5.
Qed.

(** ** The properties at a concrete receiver *)

Module Example.
#[local] Existing Instances Toy.aead Toy.blake3 Transfer.Example.toy_manifest Transfer.Example.toy_ack
  Transfer.Example.toy_commit Transfer.Example.toy_commit_ack Transfer.Example.toy_state.

Definition key : SessionKey := {| session_key := [] |}.
Definition m0 : Manifest := stream_manifest (Blob KFile "../f" [] 1 "t" ["s"] None).
(** The sender's manifest and nothing else. *)
Definition only_manifest (ct : bytes) : Prop := ct = seal_val (stream_key key) DStreamToReceiver 0 m0.
Lemma only_manifest_file ct m : only_manifest ct ->
  open_val (T := Manifest) (stream_key key) DStreamToReceiver 0 ct = Ok m -> kind m <> KTar.
Proof.
  intros -> Hm. rewrite open_val_seal in Hm by (apply (bool_decide_unpack _); vm_compute; done).
  by injection Hm as <-.
Qed.
Lemma out_dir : dir_path Transfer.Example.disk ["out"].
Proof.
  intros p Hp. assert (E : prefixes ["out"] = [["out"]]) by reflexivity. rewrite E in Hp.
  apply list_elem_of_singleton in Hp as ->. reflexivity.
Qed.

Lemma recv_resumable_witness :
  let s := Fs Transfer.Example.disk [NoFault; NoFault; NoFault; FailPartial 0] in
  read_ok (faults s) /\
  may (honest (stream_key key) [Byte.x41] m0) (recv_into (fun _ _ => mret tt) key ["out"] (fun _ _ => true) s)
    (fun o => o.1 <> Panic /\ (resumable ["out"] (safe_name "../f") "t" STREAM_FRAME_SIZE [Byte.x41] (nodes o.2)
                              \/ file_at (nodes o.2) (["out"] ++ [safe_name "../f"]) = Some [Byte.x41])).
Proof.
  intros s. assert (Hr : read_ok (faults s)) by (by right). split; [exact Hr|].
  apply (recv_resumable key ["s"] ["out"] "../f" "t" [] None [Byte.x41] (fun _ _ => mret tt) (fun _ _ => true) s);
    [done|exact Hr|apply Transfer.Example.disk_resumable].
Defined.
Lemma recv_confined_witness :
  may only_manifest (recv_into (fun _ _ => mret tt) key ["out"] (fun _ _ => true) (Fs Transfer.Example.disk []))
    (fun o => o.1 <> Panic /\ exists nm, plain_name nm /\ forall q, ~ partial_dir ["out"] nm `prefix_of` q ->
       q <> ["out"] ++ [nm] -> nodes o.2 !! q = Transfer.Example.disk !! q).
Proof.
  apply (recv_confined key ["out"] (fun _ _ => mret tt) (fun _ _ => true) (Fs Transfer.Example.disk []) only_manifest);
    [apply only_manifest_file|apply out_dir].
Defined.
Lemma recv_verified_witness :
  may only_manifest (recv_into (fun _ _ => mret tt) key ["out"] (fun _ _ => true) (Fs Transfer.Example.disk []))
    (fun o => forall d, o.1 = Ok d -> exists ct m, only_manifest ct
       /\ open_val (T := Manifest) (stream_key key) DStreamToReceiver 0 ct = Ok m).
Proof.
  eapply may_mono; [apply (recv_verified key ["out"] (fun _ _ => mret tt) (fun _ _ => true)
    (Fs Transfer.Example.disk []) only_manifest); [apply only_manifest_file|apply out_dir]|].
  intros o Ho d Hd. destruct (Ho d Hd) as (ct & m & H1 & H2 & _). by exists ct, m.
Defined.
End Example.
