(* ===== verification/Nonces.v ===== *)
(** * No nonce is used twice under a session's key

    [SessionKey::stream_key] is deterministic, so within one session every
    frame either side seals must have a nonce of its own. *)

From S2P Require Import Prelude Str Libs Fs Crypto Protocol Store Archive Pake Channel Send Stream Transfer Safety.

(** ** What each side seals *)

Section nonces.
Context `{Aead} `{Blake3} `{!Serde Manifest} `{!Serde StreamManifestAck} `{!Serde Commit}
  `{!Serde CommitAck} `{!Serde State}.
Variable sk : bytes.

(** Frames [l] sealed in direction [d] at the indices [idx]. *)
Definition sealed (d : Domain) (idx : list Z) (l : list bytes) : Prop :=
  Forall2 (fun i m => exists p, m = seal sk d i [] p) idx l.
(** A run sends frames at indices drawn in order from [bound]. *)
Definition seals {A} (d : Domain) (bound : list Z) (p : proc A) : Prop :=
  forall P l o, trace P p l o -> exists idx, sublist idx bound /\ sealed d idx l.

Lemma seals_done {A} d bound (a : A) : seals d bound (Done a).
Proof. intros P l o ->%trace_pure. exists []. split; [apply sublist_nil_l|constructor]. Qed.
Lemma seals_mono {A} d b b' (p : proc A) : sublist b b' -> seals d b p -> seals d b' p.
Proof. intros Hb Hp P l o Ht. destruct (Hp P l o Ht) as (idx & H1 & H2). exists idx. split; [by etrans|done]. Qed.
Lemma seals_bind {A B} d b1 b2 (p : proc A) (f : A -> proc B) :
  seals d b1 p -> (forall a, seals d b2 (f a)) -> seals d (b1 ++ b2) (proc_bind p f).
Proof.
  intros Hp Hf P l o Ht. apply trace_bind in Ht as [(l1 & a & l2 & H1 & H2 & ->)|[H1 ->]].
  - destruct (Hp _ _ _ H1) as (i1 & S1 & F1). destruct (Hf _ _ _ _ H2) as (i2 & S2 & F2).
    exists (i1 ++ i2). split; [by apply sublist_app|by apply Forall2_app].
  - destruct (Hp _ _ _ H1) as (i1 & S1 & F1). exists i1. split; [|done].
    by apply sublist_inserts_r.
Qed.
Lemma seals_send d i p (s : fs) : seals d [i] (send (seal sk d i [] p) s).
Proof.
  intros P l o Ht. unfold send in Ht. inversion Ht as [|?|? ? r l' ? Hr Ht'|?]; subst.
  - exists []. split; [apply sublist_nil_l|constructor].
  - apply trace_pure in Ht' as ->. exists [i]. split; [done|]. constructor; [by exists p|constructor].
Qed.
Lemma seals_recv d (s : fs) : seals d [] (recv s).
Proof.
  intros P l o Ht. unfold recv in Ht. inversion Ht as [|?|?|? r l' ? Hr Hm Ht']; subst.
  - exists []. split; [done|constructor].
  - apply trace_pure in Ht' as ->. exists []. split; [done|constructor].
Qed.
(** Sequencing over the disk. *)
Lemma seals_prog {A B} d b1 b2 (m : prog A) (f : A -> prog B) (s : fs) :
  seals d b1 (m s) -> (forall a s', seals d b2 (f a s')) -> seals d (b1 ++ b2) ((m ≫= f) s).
Proof.
  intros Hm Hf. rewrite prog_bind_eq. apply seals_bind; [done|].
  intros [[a|e|] s']; simpl; [apply Hf|apply seals_done..].
Qed.

Lemma send_payload_seals ack p total l (s : fs) :
  seals DStreamToReceiver (map (fun i => (1 + i)%u64) l) (send_payload sk ack p total l s).
Proof.
  revert s. induction l as [|i l IH]; intros s; cbn [send_payload map]; [apply seals_done|].
  destruct (complete ack || runs_contain (have_runs ack) i).
  - eapply seals_mono; [|apply IH]. by apply sublist_cons.
  - apply (seals_prog _ [] (_ :: _)); [apply seals_done|]. intros plain s1.
    apply (seals_prog _ [(1 + i)%u64] _); [apply seals_send|]. intros _ s2. apply IH.
Qed.
Lemma recv_payload_seals hv l st (s : fs) : seals DStreamToSender [] (recv_payload sk hv l st s).
Proof.
  revert st s. induction l as [|i l IH]; intros st s; cbn [recv_payload]; [apply seals_done|].
  case_bool_decide; [apply IH|]. apply (seals_prog _ [] []); [apply seals_recv|].
  intros ct s1. apply (seals_prog _ [] []); [apply seals_done|].
  intros pt s2. apply (seals_prog _ [] []); [|by intros].
  unfold prog_write. destruct (write_chunk _ _ _ _) as [[r st'] s']. apply seals_done.
Qed.
Lemma send_blob_seals ack m p total (s : fs) :
  Manifest_total_chunks m = Ok total ->
  forall size, seals DStreamToReceiver (map (fun i => (1 + i)%u64) (zrange 0 total) ++ [(1 + total)%u64])
    (send_blob sk ack m p size s).
Proof.
  intros Ht size. unfold send_blob. rewrite Ht, prog_res_bind.
  apply seals_prog; [apply send_payload_seals|]. intros _ s1.
  apply (seals_prog _ [] [_]); [apply seals_done|]. intros hash s2.
  apply (seals_prog _ [_] []); [apply seals_send|]. intros _ s3.
  apply (seals_prog _ [] []); [apply seals_recv|]. intros ct s4.
  apply (seals_prog _ [] []); [apply seals_done|]. intros cack s5. case_match; apply seals_done.
Qed.
Lemma recv_blob_seals tar m out name (s : fs) : seals DStreamToSender [0; 1] (recv_blob tar sk m out name s).
Proof.
  unfold recv_blob. apply (seals_prog _ [] [0; 1]); [apply seals_done|]. intros st s1.
  apply (seals_prog _ [] [0; 1]); [apply seals_done|]. intros done s2.
  apply (seals_prog _ [0] [1]); [apply seals_send|]. intros _ s3.
  apply (seals_prog _ [] [1]); [apply seals_done|]. intros total s4.
  apply (seals_prog _ [] [1]); [apply recv_payload_seals|]. intros st' s5.
  apply (seals_prog _ [] [1]); [apply seals_recv|]. intros ct s6.
  apply (seals_prog _ [] [1]); [apply seals_done|]. intros commit s7.
  apply (seals_prog _ [] [1]); [apply seals_done|]. intros result s8.
  apply (seals_prog _ [1] []); [apply seals_send|]. intros _ s9. apply seals_done.
Qed.
End nonces.

Section both.
Context `{Aead} `{Blake3} `{!Serde Manifest} `{!Serde StreamManifestAck} `{!Serde Commit}
  `{!Serde CommitAck} `{!Serde State}.
Variable key : SessionKey.
Local Abbreviation sk := (stream_key key).

Definition source_size (source : Source) : Z :=
  match source with Blob _ _ _ size _ _ _ => size | Text _ _ => 0 end.
(** The indices of the sender's frames: the manifest, the payload, the
    commit. *)
Definition sender_indices (source : Source) : list Z :=
  0 :: map (fun i => (1 + i)%u64) (zrange 0 (cdiv (source_size source) STREAM_FRAME_SIZE))
    ++ [(1 + cdiv (source_size source) STREAM_FRAME_SIZE)%u64].

Lemma send_source_seals source (s : fs) :
  seals sk DStreamToReceiver (sender_indices source) (send_source key source s).
Proof.
  unfold send_source, sender_indices. apply (seals_prog _ _ [0] _); [apply seals_send|]. intros _ s1.
  apply (seals_prog _ _ [] _); [apply seals_recv|]. intros ct s2.
  apply (seals_prog _ _ [] _); [apply seals_done|]. intros ack s3.
  case_match; [apply seals_done|]. case_bool_decide; [apply seals_done|].
  destruct source as [k n es size tid p sp|c tid]; [|apply seals_done].
  apply send_blob_seals. unfold Manifest_total_chunks. simpl. by apply div_ceil_ok.
Qed.
Lemma recv_into_seals tar out accept (s : fs) :
  seals sk DStreamToSender [0; 1] (recv_into tar key out accept s).
Proof.
  unfold recv_into. apply (seals_prog _ _ [] [0; 1]); [apply seals_recv|]. intros ct s1.
  apply (seals_prog _ _ [] [0; 1]); [apply seals_done|]. intros m s2.
  assert (Hone : forall B (v : StreamManifestAck) (f : prog B) (s : fs), (forall s', seals sk DStreamToSender [1] (f s')) ->
    seals sk DStreamToSender [0; 1] ((_ ← send (seal_val sk DStreamToSender 0 v); f) s)).
  { intros B v f s' Hf. apply (seals_prog _ _ [0] [1]); [apply seals_send|]. intros _ s3. apply Hf. }
  case_match; [apply Hone; intros; apply seals_done|].
  case_match; [apply Hone; intros; apply seals_done|].
  case_match; [apply Hone; intros; apply seals_done|].
  case_match; [apply Hone; intros; apply seals_done|]. apply recv_blob_seals.
Qed.

Lemma sender_indices_ok source :
  u64_ok (source_size source) -> NoDup (sender_indices source) /\ Forall u64_ok (sender_indices source).
Proof.
  intros [Hs1 Hs2]. unfold sender_indices. set (n := cdiv (source_size source) STREAM_FRAME_SIZE).
  assert (Hn : 0 <= n /\ n + 1 < U64).
  { pose proof (cdiv_nonneg (source_size source) STREAM_FRAME_SIZE Hs1 ltac:(done)).
    pose proof (cdiv_spec (source_size source) STREAM_FRAME_SIZE Hs1 ltac:(done)).
    change STREAM_FRAME_SIZE with 16384 in *. unfold U64 in *. lia. }
  assert (E : map (fun i => (1 + i)%u64) (zrange 0 n) ++ [(1 + n)%u64] = map (fun i => 1 + i) (zrange 0 (n + 1))).
  { rewrite zrange_snoc, map_app by lia. simpl. f_equal.
    - apply map_ext_in. intros i Hi%list_elem_of_In%elem_of_zrange. apply wrap64_small. unfold u64_ok. lia.
    - f_equal. apply wrap64_small. unfold u64_ok. lia. }
  rewrite E. split.
  - constructor.
    + rewrite list_elem_of_In, in_map_iff. intros (i & Hi & Hr%list_elem_of_In%elem_of_zrange). lia.
    + apply NoDup_fmap_2; [intros x y; lia|apply NoDup_zrange].
  - constructor; [split; [lia|done]|]. apply Forall_forall. intros x Hx.
    apply list_elem_of_In, in_map_iff in Hx as (i & <- & Hr%list_elem_of_In%elem_of_zrange). unfold u64_ok. lia.
Qed.
End both.

(** ** Properties *)

(** C20: In one session - any runs of the sender and of the receiver under one
    session key, whatever they receive and wherever they stop - every frame
    sent by either side was sealed under the stream key with a nonce no other
    frame of the session has. *)
Theorem session_nonces_distinct `{Aead} `{Blake3} `{!Serde Manifest} `{!Serde StreamManifestAck}
    `{!Serde Commit} `{!Serde CommitAck} `{!Serde State} P Q key source s1 l1 o1 tar out accept s2 l2 o2 :
  u64_ok (source_size source) ->
  trace P (send_source key source s1) l1 o1 ->
  trace Q (recv_into tar key out accept s2) l2 o2 ->
  exists nonces, NoDup nonces
    /\ Forall2 (fun nonce m => exists p, m = aead_encrypt (stream_key key) nonce [] p) nonces (l1 ++ l2).
Proof.
  intros Hsize H1 H2.
  destruct (send_source_seals key source s1 P l1 o1 H1) as (i1 & S1 & F1).
  destruct (recv_into_seals key tar out accept s2 Q l2 o2 H2) as (i2 & S2 & F2).
  destruct (sender_indices_ok source Hsize) as [Hnd Hok].
  assert (Hok1 : forall i, i ∈ i1 -> u64_ok i).
  { intros i Hi. rewrite Forall_forall in Hok. apply Hok. by eapply elem_of_sublist. }
  assert (Hok2 : forall i, i ∈ i2 -> u64_ok i).
  { intros i Hi. assert (Hin : i ∈ [0; 1]) by (by eapply elem_of_sublist).
    rewrite !elem_of_cons in Hin. destruct Hin as [->|[->|?%elem_of_nil]]; by split. }
  assert (N1 : NoDup i1) by (by eapply sublist_NoDup).
  assert (N2 : NoDup i2) by (eapply sublist_NoDup; [|exact S2]; apply (bool_decide_unpack _); vm_compute; done).
  exists (map (make_nonce DStreamToReceiver) i1 ++ map (make_nonce DStreamToSender) i2). split.
  - apply NoDup_app. split; [|split].
    + apply NoDup_fmap_2_strong; [|done]. intros x y Hx Hy E. by apply (make_nonce_inj _ _ x y (Hok1 x Hx) (Hok1 y Hy)) in E as [_ ?].
    + intros n Hn1 Hn2. apply list_elem_of_In, in_map_iff in Hn1 as (x & <- & Hx%list_elem_of_In).
      apply list_elem_of_In, in_map_iff in Hn2 as (y & E & Hy%list_elem_of_In).
      by apply (make_nonce_inj _ _ y x (Hok2 y Hy) (Hok1 x Hx)) in E as [? _].
    + apply NoDup_fmap_2_strong; [|done]. intros x y Hx Hy E. by apply (make_nonce_inj _ _ x y (Hok2 x Hx) (Hok2 y Hy)) in E as [_ ?].
  - apply Forall2_app; apply Forall2_fmap_l; [eapply Forall2_impl; [exact F1|done]|eapply Forall2_impl; [exact F2|done]].
Qed.

Lemma session_nonces_distinct_witness :
  let source := Blob KFile "f" [] 1 "t" ["s"] None in
  let manifest := seal (H := Toy.aead) (stream_key (H := Toy.blake3) Safety.Example.key) DStreamToReceiver 0 []
    (to_vec (Serde := Transfer.Example.toy_manifest) (stream_manifest source)) in
  exists nonces, NoDup nonces
    /\ Forall2 (fun nonce m => exists p, m = aead_encrypt (Aead := Toy.aead) (stream_key (H := Toy.blake3) Safety.Example.key) nonce [] p)
         nonces ([manifest] ++ []).
Proof.
  intros source manifest.
  eapply (session_nonces_distinct (H := Toy.aead) (H0 := Toy.blake3) (Serde0 := Transfer.Example.toy_manifest)
    (Serde1 := Transfer.Example.toy_ack) (Serde2 := Transfer.Example.toy_commit)
    (Serde3 := Transfer.Example.toy_commit_ack) (Serde4 := Transfer.Example.toy_state)
    (fun _ => True) (fun _ => True) Safety.Example.key source (Fs ∅ []) [manifest] None (fun _ _ => mret tt) ["out"] (fun _ _ => true) (Fs ∅ []) [] None).
  - by split.
  - apply (trace_send _ _ _ (Ok tt)); [done|constructor].
  - constructor.
Defined.
