(* ===== verification/Sender.v ===== *)
(** * What leaves the sender's machine

    The sender's program of src/stream.rs against any messages, with the
    channel and the disk failing anywhere. *)

From S2P Require Import Prelude Str Libs Fs Crypto Protocol Store Archive Pake Channel Send Stream Transfer Safety Nonces.

(** ** Runs of a program, frame by frame *)

Section says.
Variables (P F : bytes -> Prop).

(** On every run that receives messages of [P], what is sent satisfies [F],
    and a run that is over ends in [Q] or [E], without a panic. *)
Definition says {A : Type} (p : proc (res A * fs)) (Q : A -> fpred) (E : error -> fpred) : Prop :=
  forall l o, trace P p l o -> Forall F l /\ forall a, o = Some a -> ends Q E a.

Lemma says_done {A} (r : res A) s (Q : A -> fpred) (E : error -> fpred) : ends Q E (r, s) -> says (Done (r, s)) Q E.
Proof. intros HQ l o Ht. inversion Ht; subst; (split; [constructor|]); [done|by intros ? [= <-]]. Qed.
Lemma says_bind {A B} (m : prog A) (f : A -> prog B) s (R : A -> fpred) (Q : B -> fpred) (E : error -> fpred) :
  says (m s) R E -> (forall a s', R a s' -> says (f a s') Q E) -> says ((m ≫= f) s) Q E.
Proof.
  intros Hm Hf l o Ht. rewrite prog_bind_eq in Ht. apply trace_bind in Ht as [(l1 & [r s1] & l2 & H1 & H2 & ->)|[H1 ->]].
  - destruct (Hm _ _ H1) as [HF Hr]. specialize (Hr _ eq_refl). destruct r as [a|e|]; cbn [ends prog_k] in *; [| |done].
    + destruct (Hf a s1 Hr _ _ H2) as [HF2 Ho]. split; [by apply Forall_app|done].
    + inversion H2; subst; rewrite app_nil_r; (split; [done|]); [done|by intros ? [= <-]].
  - destruct (Hm _ _ H1) as [HF _]. by split.
Qed.
Lemma says_send f s (R : unit -> fpred) (E : error -> fpred) : F f -> R tt s -> (forall e, E e s) -> says (send f s) R E.
Proof.
  intros HF HR HE l o Ht. unfold send in Ht. inversion Ht as [|?|? ? r l' ? Hr Ht'|?]; subst; [by split; [constructor|]|].
  assert (Ho : ends R E (r, s)) by (destruct r as [[]|e|]; [done|apply HE|done]).
  inversion Ht'; subst; (split; [by repeat constructor|]); [done|by intros ? [= <-]].
Qed.
Lemma says_recv s (R : bytes -> fpred) (E : error -> fpred) : (forall m, P m -> R m s) -> (forall e, E e s) -> says (recv s) R E.
Proof.
  intros HR HE l o Ht. unfold recv in Ht. inversion Ht as [|?|?|? r l' ? Hr Hm Ht']; subst; [by split; [constructor|]|].
  assert (Ho : ends R E (r, s)) by (destruct r as [m|e|]; [by apply HR, Hm|apply HE|done]).
  inversion Ht'; subst; (split; [constructor|]); [done|by intros ? [= <-]].
Qed.
Lemma says_res {A} (r : res A) s (R : A -> fpred) (E : error -> fpred) :
  r <> Panic -> (forall a, r = Ok a -> R a s) -> (forall e, E e s) -> says (prog_res r s) R E.
Proof. intros Hr HR HE. apply says_done. destruct r; [by apply HR|apply HE|done]. Qed.
Lemma says_io {A} (m : io A) s (R : A -> fpred) (E : error -> fpred) : ends R E (m s) -> says (prog_io m s) R E.
Proof. intros Hm. unfold prog_io. destruct (m s) as [r s'] eqn:Em. by apply says_done. Qed.
End says.

Lemma says_mono {A} P (F F' : bytes -> Prop) (p : proc (res A * fs)) Q E Q' E' :
  (forall f, F f -> F' f) -> (forall a s, Q a s -> Q' a s) -> (forall e s, E e s -> E' e s) ->
  says P F p Q E -> says P F' p Q' E'.
Proof.
  intros HF HQ HE Hp l o Ht. destruct (Hp l o Ht) as [Hl Ho]. split; [by eapply Forall_impl|].
  intros [[a|e|] s] Eo; specialize (Ho _ Eo); cbn [ends] in *; [by apply HQ|by apply HE|done].
Qed.

(** What a program sends satisfies [F]. *)
Definition sends_only {A} (P F : bytes -> Prop) (p : proc A) : Prop := forall l o, trace P p l o -> Forall F l.

Lemma sends_only_done {A} P F (a : A) : sends_only P F (Done a).
Proof. intros l o ->%trace_pure. constructor. Qed.
Lemma sends_only_bind {A B} P F (p : proc A) (f : A -> proc B) :
  sends_only P F p -> (forall a, sends_only P F (f a)) -> sends_only P F (proc_bind p f).
Proof.
  intros Hp Hf l o Ht. apply trace_bind in Ht as [(l1 & a & l2 & T1 & T2 & ->)|[T1 _]]; [|by eapply Hp].
  apply Forall_app. split; [by eapply Hp|by eapply Hf].
Qed.
Lemma sends_only_prog {A B} P F (m : prog A) (f : A -> prog B) s :
  sends_only P F (m s) -> (forall a s', sends_only P F (f a s')) -> sends_only P F ((m ≫= f) s).
Proof.
  intros Hm Hf. rewrite prog_bind_eq. apply sends_only_bind; [done|].
  intros [[a|e|] s']; cbn [prog_k]; [apply Hf|apply sends_only_done..].
Qed.
Lemma sends_only_send (P F : bytes -> Prop) m (s : fs) : F m -> sends_only P F (send m s).
Proof.
  intros Hm l o Ht. unfold send in Ht. inversion Ht as [|?|? ? r l' ? Hr Ht'|?]; subst; [constructor|].
  apply trace_pure in Ht' as ->. by constructor.
Qed.
Lemma sends_only_recv P F (s : fs) : sends_only P F (recv s).
Proof.
  intros l o Ht. unfold recv in Ht. inversion Ht as [|?|?|? r l' ? Hr Hm Ht']; subst; [constructor|].
  apply trace_pure in Ht' as ->. constructor.
Qed.

(** ** Reading changes nothing *)

Lemma fs_read_ends p s :
  ends (fun b s' => nodes s' = nodes s /\ file_at (nodes s) p = Some b) (fun _ s' => nodes s' = nodes s) (fs_read p s).
Proof.
  unfold fs_read, sys. destruct (faults s) as [|[| |n] fl]; try done;
    (destruct (nodes s !! p) as [[|b]|] eqn:E; try done; split; [done|by apply file_at_Some]).
Qed.

(** ** The sender *)

(** The bytes of chunk [i] of a file of [size] bytes, as [data] has them. *)
Definition piece (data : bytes) (i size : Z) : bytes :=
  slice (i * STREAM_FRAME_SIZE) (Z.min STREAM_FRAME_SIZE (size - i * STREAM_FRAME_SIZE)) data.

Lemma read_chunk_ends src i size s : 0 <= i < cdiv size STREAM_FRAME_SIZE -> u64_ok size ->
  ends (fun b s' => nodes s' = nodes s /\ exists data, file_at (nodes s) src = Some data /\ b = piece data i size)
    (fun _ s' => nodes s' = nodes s) (read_chunk src i STREAM_FRAME_SIZE size s).
Proof.
  intros Hi [Hs1 Hs2]. pose proof (cdiv_spec size STREAM_FRAME_SIZE Hs1 ltac:(done)) as Hc.
  change STREAM_FRAME_SIZE with 16384 in *. assert (Hoff : u64_ok (i * 16384)) by (unfold u64_ok in *; nia).
  assert (Hrest : u64_ok (size - i * 16384)) by (unfold u64_ok in *; nia).
  unfold read_chunk, mbind, io_bind. rewrite !(wrap64_small (i * 16384)), (wrap64_small (size - _)) by done.
  pose proof (fs_read_ends src s) as Hr. destruct (fs_read src s) as [[b|e|] s']; cbn [ends] in *; [|done..].
  destruct Hr as [Hn Hb]. case_match; [|done]. split; [done|]. by exists b.
Qed.

Section sender.
Context `{Aead} `{Blake3} `{!Serde Manifest} `{!Serde StreamManifestAck} `{!Serde Commit} `{!Serde CommitAck} `{!Serde State}.
Variables (key : SessionKey) (source : Source) (P : bytes -> Prop) (disk : gmap path node).
Hypothesis Hsize : u64_ok (source_size source).
Local Abbreviation sk := (stream_key key).
Local Abbreviation unchanged := (fun (_ : error) s' => nodes s' = disk).

(** Whoever has the key sealed an acceptance. *)
Definition agreed : Prop := exists ct ack,
  P ct /\ open_val (T := StreamManifestAck) sk DStreamToSender 0 ct = Ok ack /\ accepted ack = true.
(** Whoever has the key sealed the report that the file is complete. *)
Definition confirmed : Prop := exists ct ack,
  P ct /\ open_val (T := CommitAck) sk DStreamToSender 1 ct = Ok ack /\ ca_ok ack = true.
(** A frame of the file's contents, or its hash. *)
Definition payload (f : bytes) : Prop :=
  match source with
  | Blob _ _ _ size _ src _ => exists data, file_at disk src = Some data
      /\ ((exists i, 0 <= i < cdiv size STREAM_FRAME_SIZE
             /\ f = seal sk DStreamToReceiver (1 + i)%u64 [] (piece data i size))
          \/ f = seal_val sk DStreamToReceiver (1 + cdiv size STREAM_FRAME_SIZE)%u64
                   {| blake3_hex := hex_encode (blake3_hash data) |})
  | Text _ _ => False
  end.
Definition disclosed (f : bytes) : Prop :=
  f = seal_val sk DStreamToReceiver 0 (stream_manifest source) \/ agreed /\ payload f.

Lemma send_payload_says k n es size tid src sp ack l s :
  source = Blob k n es size tid src sp -> agreed -> (forall i, i ∈ l -> 0 <= i < cdiv size STREAM_FRAME_SIZE) -> nodes s = disk ->
  says P disclosed (send_payload sk ack src size l s) (fun _ s' => nodes s' = disk) unchanged.
Proof.
  intros Es Hag. revert s. induction l as [|i l IH]; intros s Hl Hs; cbn [send_payload]; [by apply says_done|].
  assert (Hl' : forall j, j ∈ l -> 0 <= j < cdiv size STREAM_FRAME_SIZE) by (intros j Hj; apply Hl; by right).
  destruct (complete ack || runs_contain (have_runs ack) i); [by apply IH|].
  eapply (says_bind _ _ _ _ _ (fun b s' => nodes s' = disk /\ exists data, file_at disk src = Some data /\ b = piece data i size)).
  { apply says_io. rewrite Es in Hsize. rewrite <- Hs.
    apply read_chunk_ends; [apply Hl; by left|done]. }
  intros b s1 (Hs1 & data & Hd & ->). eapply (says_bind _ _ _ _ _ (fun _ s' => nodes s' = disk)).
  { apply says_send; [|done..]. right. split; [done|]. unfold payload. rewrite Es. exists data. split; [done|]. left.
    exists i. split; [apply Hl; by left|done]. }
  intros _ s2 Hs2. by apply IH.
Qed.
Lemma send_blob_says k n es size tid src sp ack s :
  source = Blob k n es size tid src sp -> agreed -> nodes s = disk ->
  says P disclosed (send_blob sk ack (stream_manifest source) src size s) (fun _ s' => nodes s' = disk /\ confirmed) unchanged.
Proof.
  intros Es Hag Hs. unfold send_blob. set (total := cdiv size STREAM_FRAME_SIZE).
  assert (Ht : Manifest_total_chunks (stream_manifest source) = Ok total).
  { rewrite Es. unfold Manifest_total_chunks. by apply div_ceil_ok. }
  rewrite Ht, prog_res_bind. eapply (says_bind _ _ _ _ _ (fun _ s' => nodes s' = disk)).
  { eapply send_payload_says; [done..| |done]. intros i. by rewrite elem_of_zrange. }
  intros _ s1 Hs1.
  eapply (says_bind _ _ _ _ _ (fun h s' => nodes s' = disk /\ exists data, file_at disk src = Some data /\ h = hex_encode (blake3_hash data))).
  { apply says_io. unfold blake3_file, mbind, io_bind. pose proof (fs_read_ends src s1) as Hr.
    destruct (fs_read src s1) as [[b|e|] s']; cbn [ends] in *; [|congruence|done].
    destruct Hr as [Hn Hb]. split; [congruence|]. exists b. split; [congruence|by rewrite hash_reader_spec]. }
  intros h s2 (Hs2 & data & Hd & ->). eapply (says_bind _ _ _ _ _ (fun _ s' => nodes s' = disk)).
  { apply says_send; [|done..]. right. split; [done|]. unfold payload. rewrite Es. exists data. split; [done|by right]. }
  intros _ s3 Hs3. eapply (says_bind _ _ _ _ _ (fun ct s' => P ct /\ nodes s' = disk)); [by apply says_recv|].
  intros ct s4 [Hct Hs4].
  eapply (says_bind _ _ _ _ _ (fun a s' => open_val (T := CommitAck) sk DStreamToSender 1 ct = Ok a /\ nodes s' = disk)).
  { by apply says_res; [apply open_val_not_panic| |]. }
  intros a s5 [Ha Hs5]. destruct (ca_ok a) eqn:Ek; cbn [negb]; apply says_done; [|done]. split; [done|]. by exists ct, a.
Qed.
Lemma send_source_says s : nodes s = disk ->
  says P disclosed (send_source key source s)
    (fun _ s' => nodes s' = disk /\ agreed /\ (kind (stream_manifest source) <> KText -> confirmed)) unchanged.
Proof.
  intros Hs. unfold send_source.
  eapply (says_bind _ _ _ _ _ (fun _ s' => nodes s' = disk)); [by apply says_send; [left| |]|].
  intros _ s1 Hs1. eapply (says_bind _ _ _ _ _ (fun ct s' => P ct /\ nodes s' = disk)); [by apply says_recv|].
  intros ct s2 [Hct Hs2].
  eapply (says_bind _ _ _ _ _ (fun a s' => open_val (T := StreamManifestAck) sk DStreamToSender 0 ct = Ok a /\ nodes s' = disk)).
  { pose proof (open_val_not_panic sk StreamManifestAck DStreamToSender 0 ct) as Hp.
    apply says_res; [by destruct (open_val _ _ _ _)| |done].
    intros m. by destruct (open_val _ _ _ _) as [m'|e|]; [intros [= ->]|..]. }
  intros ack s3 [Hack Hs3]. destruct (accepted ack) eqn:Ea; cbn [negb]; [|by apply says_done].
  assert (Hag : agreed) by (by exists ct, ack).
  case_bool_decide as Hk; [by apply says_done|].
  assert (Hb : forall k n es size tid src sp, source = Blob k n es size tid src sp ->
    says P disclosed (send_blob sk ack (stream_manifest source) src size s3)
      (fun _ s' => nodes s' = disk /\ agreed /\ (kind (stream_manifest source) <> KText -> confirmed)) unchanged).
  { intros k n es size tid src sp Es l o Ht. destruct (send_blob_says k n es size tid src sp ack s3 Es Hag Hs3 l o Ht) as [HF Ho].
    split; [done|]. intros [[d|e|] s'] Ho'; specialize (Ho _ Ho'); cbn [ends] in *; [|done..]. by destruct Ho. }
  clear Hsize. destruct source as [k n es size tid src sp|c tid]; [by eapply Hb|by destruct Hk].
Qed.
End sender.

(** ** Property *)

(** What leaves the sender's machine: whatever a peer sends, wherever the
    channel and the disk fail, and wherever the run stops, every frame the
    sender has sent is the sealed manifest, or, once the session key's other
    holder has sealed an acceptance, a chunk or the hash of the one file it
    was given, sealed. It does not panic, it changes nothing on its disk, and
    it reports success only if the other holder of the key has accepted and,
    where there is a file, has reported it complete. *)
Theorem sender_discloses `{Aead} `{Blake3} `{!Serde Manifest} `{!Serde StreamManifestAck}
    `{!Serde Commit} `{!Serde CommitAck} `{!Serde State} key source (P : bytes -> Prop) s l o :
  u64_ok (source_size source) -> trace P (send_source key source s) l o ->
  Forall (disclosed key source P (nodes s)) l
  /\ forall r s', o = Some (r, s') -> r <> Panic /\ nodes s' = nodes s
       /\ forall d, r = Ok d -> agreed key P /\ (kind (stream_manifest source) <> KText -> confirmed key P).
Proof.
  intros Hsize Ht. destruct (send_source_says key source P (nodes s) Hsize s eq_refl l o Ht) as [HF Ho].
  split; [done|]. intros r s' Er. specialize (Ho _ Er). destruct r as [d|e|]; cbn [ends] in Ho; [|done..].
  destruct Ho as [Hn Hd]. split; [done|]. split; [done|]. by intros d' _.
Qed.

(** ** A whole transfer of one byte *)

Module Example.
#[local] Existing Instances Toy.aead Toy.blake3 Transfer.Example.toy_manifest Transfer.Example.toy_ack
  Transfer.Example.toy_commit Transfer.Example.toy_commit_ack Transfer.Example.toy_state.
Local Abbreviation key := Safety.Example.key.
Local Abbreviation one := (Blob KFile "f" [] 1 "t" ["s"] None).
Local Abbreviation yes := (seal_val (stream_key key) DStreamToSender 0 {| accepted := true; complete := false; have_runs := [] |}).
Local Abbreviation fine := (seal_val (stream_key key) DStreamToSender 1 (commit_ack (Ok ""))).
Local Abbreviation mine := (Fs {[ ["s"] := File [Byte.x41] ]} []).
Lemma sender_discloses_witness :
  exists l, length l = 3%nat
    /\ trace (fun m => m = yes \/ m = fine) (send_source key one mine) l (Some (Ok "transfer complete", mine))
    /\ Forall (disclosed key one (fun m => m = yes \/ m = fine) (nodes mine)) l.
Proof.
  assert (Ht : exists l, length l = 3%nat
    /\ trace (fun m => m = yes \/ m = fine) (send_source key one mine) l (Some (Ok "transfer complete", mine))).
  { eexists [_; _; _]. split; [reflexivity|]. apply (trace_send _ _ _ (Ok tt)); [done|].
    apply (trace_recv _ _ (Ok yes)); [done|intros m [= <-]; by left|].
    eapply (trace_send _ _ _ (Ok tt)); [done|]. eapply (trace_send _ _ _ (Ok tt)); [done|].
    apply (trace_recv _ _ (Ok fine)); [done|intros m [= <-]; by right|]. apply trace_done. }
  destruct Ht as (l & Hl & Ht). exists l. split; [exact Hl|]. split; [exact Ht|].
  apply (sender_discloses key one (fun m => m = yes \/ m = fine) mine l _ ltac:(by split) Ht).
Defined.
End Example.
