(* ===== verification/Handshake.v ===== *)
(** * src/handshake.rs: the key exchange over a channel or a rendezvous *)

From S2P Require Import Prelude Str Libs Fs Pake Channel.

(** Seconds. *)
Definition HANDSHAKE_TIMEOUT : Z := 120.
Definition KIND_PAKE : Z := 1.
Definition KIND_CONFIRM : Z := 2.
Definition KIND_SDP : Z := 3.
Definition KIND_ICE : Z := 4.

Definition role_byte (r : Role) : Z := match r with Receiver => 0 | Sender => 1 end.
Definition other (r : Role) : Role := match r with Receiver => Sender | Sender => Receiver end.

Definition encode_frame (kind : Z) (role : Role) (payload : bytes) : bytes :=
  z2b kind :: z2b (role_byte role) :: payload.
Definition decode_frame (frame : bytes) : option (Z * Z * bytes) :=
  match frame with
  | k :: r :: payload => Some (b2z k, b2z r, payload)
  | _ => None
  end.

(** [tokio::time::timeout(..).await.context(msg)?]: the deadline shows as the
    error [EElapsed] of whatever the program was waiting for. *)
Definition with_timeout {A} (msg : string) (p : prog A) : prog A := fun s =>
  proc_bind (p s) (fun '(r, s') =>
    Done (match r with Err EElapsed => Err (EContext msg EElapsed) | _ => r end, s')).

(** The read loops run until a frame matches; the deadline ends them after
    [fuel] frames at the latest. *)
Fixpoint recv_kind (fuel : nat) (kind from_role : Z) : prog bytes :=
  match fuel with
  | O => prog_res (Err EElapsed)
  | S fuel' =>
      frame ← recv;
      match decode_frame frame with
      | Some (k, r, payload) =>
          if (k =? kind) && (r =? from_role) then mret payload else recv_kind fuel' kind from_role
      | None => recv_kind fuel' kind from_role
      end
  end.

(** [stream.next()]: [None] when the stream has ended; a deadline is not an
    end. *)
Definition next : prog (option bytes) := fun s =>
  Recv (fun r => Done (match r with
                       | Ok m => Ok (Some m)
                       | Err EElapsed => Err EElapsed
                       | Err _ => Ok None
                       | Panic => Panic
                       end, s)).
Fixpoint wait_for (fuel : nat) (want_kind want_role : Z) : prog bytes :=
  match fuel with
  | O => prog_res (Err EElapsed)
  | S fuel' =>
      frame ← next;
      match frame with
      | None => prog_res (Err (EMsg "rendezvous stream ended before the peer responded"))
      | Some frame =>
          match decode_frame frame with
          | Some (k, r, payload) =>
              if (k =? want_kind) && (r =? want_role) then mret payload
              else wait_for fuel' want_kind want_role
          | None => wait_for fuel' want_kind want_role
          end
      end
  end.

Definition mismatch_msg : string :=
  "the code didn't match — double-check it, or another transfer may be using the same channel; try a fresh code".

Section handshake.
Context `{Spake2} `{Blake3}.
Variables (fuel : nat) (rnd : bytes) (context : string) (password : bytes) (role : Role).

Definition handshake_channel_inner : prog SessionKey :=
  let '(pake, my_msg) := start rnd password context in
  _ ← send (encode_frame KIND_PAKE role my_msg);
  peer_msg ← recv_kind fuel KIND_PAKE (role_byte (other role));
  key ← prog_res (finish pake peer_msg);
  _ ← send (encode_frame KIND_CONFIRM role (confirmation key role));
  peer_conf ← recv_kind fuel KIND_CONFIRM (role_byte (other role));
  if negb (verify_confirmation key (other role) peer_conf)
  then prog_res (Err ECodeMismatch)
  else mret key.
Definition handshake_over_channel : prog SessionKey :=
  with_timeout "timed out during the key exchange — the other side stopped responding"
    handshake_channel_inner.

(** Over a rendezvous, [publish] is [send] and [wait_for] reads the
    subscription; [subscribe] is done. *)
Definition handshake_inner : prog SessionKey :=
  let '(pake, my_msg) := start rnd password context in
  _ ← send (encode_frame KIND_PAKE role my_msg);
  peer_msg ← wait_for fuel KIND_PAKE (role_byte (other role));
  key ← prog_res (finish pake peer_msg);
  _ ← send (encode_frame KIND_CONFIRM role (confirmation key role));
  peer_conf ← wait_for fuel KIND_CONFIRM (role_byte (other role));
  if negb (verify_confirmation key (other role) peer_conf)
  then prog_res (Err (EMsg mismatch_msg))
  else mret key.
Definition timeout_msg : string :=
  let base := "timed out on the rendezvous — is the other side running?" in
  match role with
  | Receiver => base +:+ " — re-run `b2p receive` to try again"
  | Sender => base
  end.
Definition handshake : prog SessionKey := with_timeout timeout_msg handshake_inner.
End handshake.

(** ** Lemmas *)

Lemma decode_encode k role payload : 0 <= k < 256 ->
  decode_frame (encode_frame k role payload) = Some (k, role_byte role, payload).
Proof.
  intros Hk. unfold decode_frame, encode_frame. rewrite !b2z_z2b, !Z.mod_small; [done| |done].
  by destruct role.
Qed.
Lemma role_byte_inj r r' : role_byte r = role_byte r' -> r = r'.
Proof. by destruct r, r'. Qed.
Lemma recv_kind_hit fuel k r (s : fs) {A} (f : bytes -> prog A) (p : bytes) : (1 <= fuel)%nat -> 0 <= k < 256 ->
  exists g, (recv_kind fuel k (role_byte r) ≫= f) s = Recv g /\ g (Ok (encode_frame k r p)) = f p s.
Proof.
  intros Hf Hk. destruct fuel as [|fuel]; [lia|]. cbn [recv_kind]. eexists. split; [reflexivity|].
  cbn [proc_bind]. rewrite decode_encode by done. rewrite !Z.eqb_refl. done.
Qed.

(** ** Two ends *)

Section ends.
Context `{Spake2} `{Blake3}.
Variables (cap fuel : nat) (ctx : string).
Hypothesis Hcap : (1 <= cap)%nat.
Hypothesis Hfuel : (1 <= fuel)%nat.

(** How an end finishes, from the keys it and its peer derived. *)
Definition verdict (mine theirs : SessionKey) (role : Role) : res SessionKey :=
  if verify_confirmation mine (other role) (confirmation theirs (other role))
  then Ok mine else Err ECodeMismatch.

(** Both ends run to the comparison of their keys. *)
Lemma handshake_exec rA rB pwA pwB kA kB s1 s2 :
  finish (fst (start rA pwA ctx)) (snd (start rB pwB ctx)) = Ok kA ->
  finish (fst (start rB pwB ctx)) (snd (start rA pwA ctx)) = Ok kB ->
  nsteps (step cap) 8
    (Config (handshake_over_channel fuel rA ctx pwA Receiver s1)
            (handshake_over_channel fuel rB ctx pwB Sender s2) [] [])
    (Config (Done (verdict kA kB Receiver, s1)) (Done (verdict kB kA Sender, s2)) [] []).
Proof.
  intros HA HB. destruct fuel as [|f]; [lia|].
  unfold handshake_over_channel, with_timeout, handshake_channel_inner. unfold start in *. cbn [fst snd] in HA, HB.
  set (mA := spake_start pwA (identity ctx) rA) in *. set (mB := spake_start pwB (identity ctx) rB) in *.
  cbn [recv_kind]. unfold send, recv, prog_res, mbind, prog_bind. cbn [proc_bind].
  eapply nsteps_l; [apply left_sends; simpl; lia|]. cbn [proc_bind app].
  eapply nsteps_l; [apply right_sends; simpl; lia|]. cbn [proc_bind app].
  eapply nsteps_l; [apply left_receives|]. cbn [proc_bind].
  eapply nsteps_l; [apply right_receives|]. cbn [proc_bind].
  rewrite !decode_encode by done. cbn [other role_byte]. rewrite !Z.eqb_refl. cbn [andb mret prog_ret proc_bind].
  rewrite HA, HB. cbn [proc_bind].
  eapply nsteps_l; [apply left_sends; simpl; lia|]. cbn [proc_bind app].
  eapply nsteps_l; [apply right_sends; simpl; lia|]. cbn [proc_bind app].
  eapply nsteps_l; [apply left_receives|]. cbn [proc_bind].
  eapply nsteps_l; [apply right_receives|]. cbn [proc_bind].
  rewrite !decode_encode by done. cbn [other role_byte]. rewrite !Z.eqb_refl. cbn [andb mret prog_ret proc_bind].
  unfold verdict. cbn [other].
  destruct (verify_confirmation kA Sender _), (verify_confirmation kB Receiver _); apply nsteps_O.
Qed.
End ends.

(** ** What an end can come to, whatever it receives *)

Lemma recv_kind_may fuel kind from P (s : fs) :
  may P (recv_kind fuel kind from s)
    (fun o => o.1 <> Panic /\ o.2 = s /\ forall p, o.1 = Ok p ->
       exists frame, P frame /\ decode_frame frame = Some (kind, from, p)).
Proof.
  induction fuel as [|fuel IH]; cbn [recv_kind]; [done|].
  unfold mbind, prog_bind, recv. cbn [proc_bind may]. intros r Hr HP.
  destruct r as [frame|e|]; [|done|done].
  destruct (decode_frame frame) as [[[k r'] payload]|] eqn:E; [|exact IH].
  destruct (Z.eqb_spec k kind) as [->|]; [|exact IH].
  destruct (Z.eqb_spec r' from) as [->|]; [|exact IH]. cbn [andb]. split; [done|]. split; [done|].
  intros p [= <-]. exists frame. split; [by apply HP|done].
Qed.
Lemma wait_for_may fuel kind from P (s : fs) :
  may P (wait_for fuel kind from s)
    (fun o => o.1 <> Panic /\ o.2 = s /\ forall p, o.1 = Ok p ->
       exists frame, P frame /\ decode_frame frame = Some (kind, from, p)).
Proof.
  induction fuel as [|fuel IH]; cbn [wait_for]; [done|].
  unfold mbind, prog_bind, next. cbn [proc_bind may]. intros r Hr HP.
  destruct r as [frame|e|]; [|by destruct e|done].
  destruct (decode_frame frame) as [[[k r'] payload]|] eqn:E; [|exact IH].
  destruct (Z.eqb_spec k kind) as [->|]; [|exact IH].
  destruct (Z.eqb_spec r' from) as [->|]; [|exact IH]. cbn [andb]. split; [done|]. split; [done|].
  intros p [= <-]. exists frame. split; [by apply HP|done].
Qed.

Section outcome.
Context `{Spake2} `{Blake3}.
Variables (fuel : nat) (rnd : bytes) (ctx : string) (password : bytes) (role : Role).
Variables (P : bytes -> Prop) (s : fs).

(** The peer proved, by a frame it sent, to hold the key this end derived
    from another frame it sent. *)
Definition authenticated (key : SessionKey) : Prop :=
  exists f1 f2 m,
    P f1 /\ decode_frame f1 = Some (KIND_PAKE, role_byte (other role), m)
    /\ finish (fst (start rnd password ctx)) m = Ok key
    /\ P f2 /\ decode_frame f2 = Some (KIND_CONFIRM, role_byte (other role), confirmation key (other role)).
Definition outcome (o : res SessionKey * fs) : Prop :=
  o.1 <> Panic /\ o.2 = s /\ forall key, o.1 = Ok key -> authenticated key.

(** The exchange, for either read loop. *)
Lemma exchange_may (read : Z -> Z -> prog bytes) (bad : error) :
  (forall kind from, may P (read kind from s)
    (fun o => o.1 <> Panic /\ o.2 = s /\ forall p, o.1 = Ok p ->
       exists frame, P frame /\ decode_frame frame = Some (kind, from, p))) ->
  may P ((let '(pake, my_msg) := start rnd password ctx in
          _ ← send (encode_frame KIND_PAKE role my_msg);
          peer_msg ← read KIND_PAKE (role_byte (other role));
          key ← prog_res (finish pake peer_msg);
          _ ← send (encode_frame KIND_CONFIRM role (confirmation key role));
          peer_conf ← read KIND_CONFIRM (role_byte (other role));
          if negb (verify_confirmation key (other role) peer_conf)
          then prog_res (Err bad) else mret key : prog SessionKey) s) outcome.
Proof.
  intros Hread. unfold start. cbn [fst].
  unfold send, prog_res, mbind, prog_bind. cbn [proc_bind may].
  intros [[]|e|] Hr; [|by split|done]. cbn [proc_bind].
  eapply may_bind; [apply Hread|]. intros [[m|e|] s1] (Hnp & Hs1 & Hm); cbn [fst snd] in *;
    [subst s1|by split|done]. destruct (Hm m eq_refl) as (f1 & HP1 & Hd1). cbn [proc_bind].
  destruct (finish _ m) as [key|e|] eqn:Ek; cbn [proc_bind may]; [|by split|by destruct (finish_not_panic _ _ Ek)].
  intros [[]|e|] Hr2; [|by split|done]. cbn [proc_bind].
  eapply may_bind; [apply Hread|]. intros [[c|e|] s2] (Hnp2 & Hs2 & Hc); cbn [fst snd] in *;
    [subst s2|by split|done]. destruct (Hc c eq_refl) as (f2 & HP2 & Hd2).
  unfold verify_confirmation. case_bool_decide as Hv; cbn [negb may]; [|by split].
  split; [done|]. split; [done|]. intros k [= <-]. exists f1, f2, m. subst c. done.
Qed.
Lemma with_timeout_may msg (p : prog SessionKey) :
  may P (p s) outcome -> may P (with_timeout msg p s) outcome.
Proof.
  intros Hp. unfold with_timeout. eapply may_bind; [exact Hp|]. intros [r s'] (H1 & H2 & H3); cbn [fst snd] in *.
  split; [|split; [done|]]; simpl; destruct r as [k|e|]; try done; by destruct e.
Qed.
End outcome.

(** ** Properties *)

(** Two ends with the same code and context agree: every interleaving of the
    two handshakes over a channel ends, with both ends holding the same
    session key. *)
Theorem handshake_agrees `{Spake2} `{Blake3} cap fuel ctx pw rA rB s1 s2 :
  (1 <= cap)%nat -> (1 <= fuel)%nat ->
  exists k key, forall j c,
    nsteps (step cap) j
      (Config (handshake_over_channel fuel rA ctx pw Receiver s1)
              (handshake_over_channel fuel rB ctx pw Sender s2) [] []) c ->
    (j <= k)%nat /\ nsteps (step cap) (k - j) c (Config (Done (Ok key, s1)) (Done (Ok key, s2)) [] []).
Proof.
  intros Hcap Hfuel. destruct (finish_agree pw ctx rA rB) as (key & HA & HB).
  exists 8%nat, key. apply runs_converge; [intros d; apply done_stuck|].
  pose proof (handshake_exec cap fuel ctx Hcap Hfuel rA rB pw pw key key s1 s2 HA HB) as He.
  unfold verdict in He. by rewrite !verify_own in He.
Qed.
Lemma handshake_agrees_witness :
  exists k key, forall j c,
    nsteps (step 1) j
      (Config (handshake_over_channel (H := Toy.spake2) (H0 := Toy.blake3) 1 [] "room" [Byte.x07] Receiver (Fs ∅ []))
              (handshake_over_channel (H := Toy.spake2) (H0 := Toy.blake3) 1 [Byte.x01] "room" [Byte.x07] Sender (Fs ∅ [])) [] []) c ->
    (j <= k)%nat /\ nsteps (step 1) (k - j) c (Config (Done (Ok key, Fs ∅ [])) (Done (Ok key, Fs ∅ [])) [] []).
Proof. apply (handshake_agrees 1 1 "room" [Byte.x07] [] [Byte.x01]); lia. Defined.

(** Two ends that derived keys with different confirmation tags, as with
    different codes, both end with [CodeMismatch], in every interleaving. *)
Theorem handshake_mismatch `{Spake2} `{Blake3} cap fuel ctx pwA pwB rA rB kA kB s1 s2 :
  (1 <= cap)%nat -> (1 <= fuel)%nat ->
  finish (fst (start rA pwA ctx)) (snd (start rB pwB ctx)) = Ok kA ->
  finish (fst (start rB pwB ctx)) (snd (start rA pwA ctx)) = Ok kB ->
  (forall r, confirmation kA r <> confirmation kB r) ->
  exists k, forall j c,
    nsteps (step cap) j
      (Config (handshake_over_channel fuel rA ctx pwA Receiver s1)
              (handshake_over_channel fuel rB ctx pwB Sender s2) [] []) c ->
    (j <= k)%nat /\ nsteps (step cap) (k - j) c
      (Config (Done (Err ECodeMismatch, s1)) (Done (Err ECodeMismatch, s2)) [] []).
Proof.
  intros Hcap Hfuel HA HB Hne. exists 8%nat. apply runs_converge; [intros d; apply done_stuck|].
  pose proof (handshake_exec cap fuel ctx Hcap Hfuel rA rB pwA pwB kA kB s1 s2 HA HB) as He.
  unfold verdict, verify_confirmation in He.
  rewrite bool_decide_false in He by apply Hne.
  rewrite bool_decide_false in He by (intros E; by apply (Hne Receiver)). exact He.
Qed.
Lemma handshake_mismatch_witness :
  exists k, forall j c,
    nsteps (step 1) j
      (Config (handshake_over_channel (H := Toy.spake2) (H0 := Toy.blake3) 1 [] "room" [Byte.x07] Receiver (Fs ∅ []))
              (handshake_over_channel (H := Toy.spake2) (H0 := Toy.blake3) 1 [Byte.x01] "room" [Byte.x08] Sender (Fs ∅ [])) [] []) c ->
    (j <= k)%nat /\ nsteps (step 1) (k - j) c
      (Config (Done (Err ECodeMismatch, Fs ∅ [])) (Done (Err ECodeMismatch, Fs ∅ [])) [] []).
Proof.
  eapply (handshake_mismatch (H := Toy.spake2) (H0 := Toy.blake3) 1 1 "room" [Byte.x07] [Byte.x08] [] [Byte.x01]).
  - lia.
  - lia.
  - vm_compute. reflexivity.
  - vm_compute. reflexivity.
  - intros []; vm_compute; discriminate.
Defined.

Lemma handshake_channel_may `{Spake2} `{Blake3} fuel rnd ctx pw role (P : bytes -> Prop) (s : fs) :
  may P (handshake_over_channel fuel rnd ctx pw role s) (outcome rnd ctx pw role P s).
Proof. apply with_timeout_may; apply exchange_may; intros kind from; apply recv_kind_may. Qed.

(** C21: An end that accepts a key has seen its peer prove the same key: whatever
    it receives, over a channel or a rendezvous, it does not panic, and it
    returns a key only if it received a key-exchange message from which it
    derived that key and then that key's confirmation tag for the other
    role. *)
Theorem handshake_authenticates `{Spake2} `{Blake3} fuel rnd ctx pw role (P : bytes -> Prop) (s : fs) :
  may P (handshake_over_channel fuel rnd ctx pw role s) (outcome rnd ctx pw role P s)
  /\ may P (handshake fuel rnd ctx pw role s) (outcome rnd ctx pw role P s).
Proof.
  split; apply with_timeout_may; apply exchange_may; intros kind from;
    [apply recv_kind_may|apply wait_for_may].
Qed.

(** A frame decodes to what was encoded. *)
Theorem frame_roundtrip k role payload :
  0 <= k < 256 -> decode_frame (encode_frame k role payload) = Some (k, role_byte role, payload).
Proof. apply decode_encode. Qed.
Lemma frame_roundtrip_witness :
  0 <= KIND_ICE < 256 /\ decode_frame (encode_frame KIND_ICE Sender [Byte.x05]) = Some (4, 1, [Byte.x05]).
Proof. split; [done|]. by apply (frame_roundtrip KIND_ICE Sender [Byte.x05]). Defined.
