(* ===== verification/Session.v ===== *)
(** * src/session.rs: handshake and transfer, and which failures re-arm *)

From S2P Require Import Prelude Str Libs Fs Crypto Protocol Store Archive Pake Channel.
From S2P Require Import Send Stream Transfer Safety Handshake.

(** The marker types callers downcast to. *)
Definition is_transport_lost (e : error) : bool := match e with ETransportLost _ => true | _ => false end.
Definition is_code_mismatch (e : error) : bool := match e with ECodeMismatch => true | _ => false end.
Definition is_wait_closed (e : error) : bool := match e with EWaitClosed _ => true | _ => false end.
Definition is_establish (e : error) : bool := match e with EEstablish _ => true | _ => false end.
Definition is_room_busy (e : error) : bool := match e with ERoomBusy => true | _ => false end.

Definition establish_unless_rearmed (e : error) : error :=
  if downcast is_transport_lost e || downcast is_code_mismatch e then e else EEstablish e.

(** [.map_err(f)?] on an asynchronous result. *)
Definition prog_map_err {A} (f : error -> error) (m : prog A) : prog A := fun s =>
  proc_bind (m s) (fun '(r, s') => Done (map_err f r, s')).
(** A bounded wait whose outcome is ignored. *)
Definition grace : prog unit := fun s => Recv (fun _ => Done (Ok tt, s)).

Section session.
Context `{Spake2} `{Aead} `{Blake3} `{!Serde Manifest} `{!Serde StreamManifestAck} `{!Serde Commit}
  `{!Serde CommitAck} `{!Serde State}.
Variables (tar : bytes -> path -> io unit).
(** [relay::connect] or [webrtc::connect]: what it returns; once it has, the
    channel is the program's. *)
Variables (connect : prog unit) (fuel : nat) (rnd : bytes) (topic : string) (secret : bytes).

(** The closing handshake of the channel at the end ([ch.close().await], whose
    result the code drops) is left to the transport. *)
Definition receive_relay (out_dir : path) (accept : gmap path node -> Manifest -> bool) : prog string :=
  _ ← prog_map_err (fun e => if downcast is_wait_closed e then e else EEstablish e) connect;
  key ← prog_map_err
          (fun e => if downcast is_code_mismatch e || downcast is_transport_lost e then e
                    else ETransportLost e)
          (handshake_over_channel fuel rnd topic secret Receiver);
  desc ← recv_into tar key out_dir accept;
  _ ← grace;
  mret desc.

Definition send_relay (source : Source) : prog string :=
  _ ← prog_map_err EEstablish connect;
  key ← prog_map_err establish_unless_rearmed
          (handshake_over_channel fuel rnd topic secret Sender);
  send_source key source.

(** Over WebRTC the handshake runs over the rendezvous first; [use_channel]
    is the connected data channel taking the rendezvous' place. *)
Definition receive_p1 (out_dir : path) (accept : gmap path node -> Manifest -> bool) : prog string :=
  key ← prog_map_err EEstablish (handshake fuel rnd topic secret Receiver);
  _ ← prog_map_err EEstablish connect;
  desc ← recv_into tar key out_dir accept;
  _ ← grace;
  mret desc.
Definition send_p1 (source : Source) : prog string :=
  key ← prog_map_err EEstablish (handshake fuel rnd topic secret Sender);
  _ ← prog_map_err EEstablish connect;
  send_source key source.
End session.

(** ** Steps under a continuation *)

Lemma step_bind {A B C D} cap (f : A -> proc C) (g : B -> proc D) l r lr rl l' r' lr' rl' :
  step cap (Config l r lr rl) (Config l' r' lr' rl') ->
  step cap (Config (proc_bind l f) (proc_bind r g) lr rl) (Config (proc_bind l' f) (proc_bind r' g) lr' rl').
Proof. inversion 1; subst; simpl; by constructor. Qed.
Lemma nsteps_bind {A B C D} cap n (f : A -> proc C) (g : B -> proc D) c c' :
  nsteps (step cap) n c c' ->
  nsteps (step cap) n
    (Config (proc_bind (left_proc c) f) (proc_bind (right_proc c) g) (to_right c) (to_left c))
    (Config (proc_bind (left_proc c') f) (proc_bind (right_proc c') g) (to_right c') (to_left c')).
Proof.
  induction 1 as [c|n c c1 c2 H1 H2 IH]; [constructor|]. eapply nsteps_l; [|exact IH].
  destruct c, c1. by apply step_bind.
Qed.
Lemma rtc_bind {A B C D} cap (f : A -> proc C) (g : B -> proc D) l r lr rl l' r' lr' rl' :
  rtc (step cap) (Config l r lr rl) (Config l' r' lr' rl') ->
  rtc (step cap) (Config (proc_bind l f) (proc_bind r g) lr rl)
    (Config (proc_bind l' f) (proc_bind r' g) lr' rl').
Proof. intros [n Hn]%rtc_nsteps. apply rtc_nsteps. exists n. by apply (nsteps_bind cap n f g) in Hn. Qed.
Lemma rtc_bind_r {A B D} cap (g : B -> proc D) (c c' : config A B) :
  rtc (step cap) c c' ->
  rtc (step cap) (Config (left_proc c) (proc_bind (right_proc c) g) (to_right c) (to_left c))
    (Config (left_proc c') (proc_bind (right_proc c') g) (to_right c') (to_left c')).
Proof.
  induction 1 as [c|c c1 c2 H1 H2 IH]; [done|]. eapply rtc_l; [|exact IH].
  inversion H1; subst; simpl; by constructor.
Qed.
(** The two sides of a network exchange their names. *)
Lemma step_swap {A B} cap (l l' : proc A) (r r' : proc B) lr rl lr' rl' :
  step cap (Config l r lr rl) (Config l' r' lr' rl') ->
  step cap (Config r l rl lr) (Config r' l' rl' lr').
Proof. inversion 1; subst; by constructor. Qed.
Lemma rtc_swap {A B} cap (c c' : config A B) :
  rtc (step cap) c c' ->
  rtc (step cap) (Config (right_proc c) (left_proc c) (to_left c) (to_right c))
    (Config (right_proc c') (left_proc c') (to_left c') (to_right c')).
Proof.
  induction 1 as [c|c c1 c2 H1 H2 IH]; [done|]. eapply rtc_l; [|exact IH].
  destruct c, c1. by apply step_swap.
Qed.

(** A run of a session, given how the receiver ends with what was sent. *)
Lemma session_runs `{Spake2} `{Aead} `{Blake3} `{!Serde Manifest} `{!Serde StreamManifestAck}
    `{!Serde Commit} `{!Serde CommitAck} `{!Serde State}
    cap fuel topic secret rS rR src ns kd out nm tid es sp content tar accept nr desc Post :
  let source := Blob kd nm es (zlen content) tid src sp in
  kd <> KText -> (1 <= cap)%nat -> (1 <= fuel)%nat -> zlen content < U64 -> Forall (fun e => u64_ok (e_size e)) es ->
  file_at ns src = Some content -> accept nr (stream_manifest source) = true ->
  stageable out (safe_name nm) nr -> disk_inv (partial_dir out (safe_name nm)) tid STREAM_FRAME_SIZE content nr ->
  finishes src kd out nm tid es sp content tar nr desc Post ->
  exists nr',
    rtc (step cap)
      (Config (send_relay (mret tt) fuel rS topic secret source (Fs ns []))
              (receive_relay tar (mret tt) fuel rR topic secret out accept (Fs nr [])) [] [])
      (Config (Done (Ok "transfer complete", Fs ns []))
              (Recv (fun _ => Done (Ok desc, Fs nr' []))) [] [])
    /\ Post nr'.
Proof.
  intros source Hkd Hcap Hfuel Hlen Hes Hsrc Hacc Hst Hinv Hfin.
  destruct (finish_agree secret topic rS rR) as (key & HS & HR).
  pose proof (handshake_exec cap fuel topic Hcap Hfuel rR rS secret secret key key (Fs nr []) (Fs ns []) HR HS) as Hh.
  unfold verdict in Hh. rewrite !verify_own in Hh.
  assert (Hh' := rtc_swap cap _ _ (rtc_nsteps_2 _ _ _ Hh)). cbn [left_proc right_proc to_left to_right] in Hh'.
  destruct (exchange_exec cap key src ns kd out nm tid es sp content tar accept Hkd Hcap Hlen Hes Hsrc nr desc Post
    Hacc Hst Hinv Hfin) as (nr' & Ht & HPost).
  exists nr'. split; [|done]. unfold send_relay, receive_relay, prog_map_err. rewrite !prog_bind_eq.
  unfold mret at 1 2, prog_ret at 1 2. cbn [proc_bind map_err prog_k]. rewrite !prog_bind_eq.
  etrans; [apply rtc_bind, rtc_bind; exact Hh'|]. cbn [proc_bind map_err prog_k].
  rewrite prog_bind_eq. etrans; [apply (rtc_bind_r cap (prog_k _) _ _ Ht)|].
  cbn [left_proc right_proc to_left to_right proc_bind prog_k]. apply rtc_refl.
Qed.
(** With a file, from a disk any earlier attempt may have left. *)
Lemma session_exec `{Spake2} `{Aead} `{Blake3} `{!Serde Manifest} `{!Serde StreamManifestAck}
    `{!Serde Commit} `{!Serde CommitAck} `{!Serde State}
    cap fuel topic secret rS rR src ns out nm tid es sp content tar accept nr :
  (1 <= cap)%nat -> (1 <= fuel)%nat -> zlen content < U64 -> Forall (fun e => u64_ok (e_size e)) es ->
  file_at ns src = Some content ->
  accept nr (stream_manifest (Blob KFile nm es (zlen content) tid src sp)) = true ->
  resumable out (safe_name nm) tid STREAM_FRAME_SIZE content nr ->
  exists nr',
    rtc (step cap)
      (Config (send_relay (mret tt) fuel rS topic secret (Blob KFile nm es (zlen content) tid src sp) (Fs ns []))
              (receive_relay tar (mret tt) fuel rR topic secret out accept (Fs nr [])) [] [])
      (Config (Done (Ok "transfer complete", Fs ns []))
              (Recv (fun _ => Done (Ok ("saved " +:+ display (out ++ [safe_name nm])), Fs nr' []))) [] [])
    /\ file_at nr' (out ++ [safe_name nm]) = Some content
    /\ (forall q, partial_dir out (safe_name nm) `prefix_of` q -> nr' !! q = None).
Proof.
  intros Hcap Hfuel Hlen Hes Hsrc Hacc (Hst & Hinv & Hdest).
  apply (session_runs cap fuel topic secret rS rR src ns KFile out nm tid es sp content tar accept nr); try done.
  intros st n Hr Hall.
  destruct (finalize_exec out (safe_name nm) tid STREAM_FRAME_SIZE content frame_size_ok (safe_name_plain nm) tar nr st n
    (stream_manifest (Blob KFile nm es (zlen content) tid src sp)) {| blake3_hex := hex_encode (blake3_hash content) |})
    as (nr' & Hf & Hfile & Hgone & _); try done; [by destruct Hst|]. by exists nr'.
Qed.

(** An attempt whose connection is made goes on as if it were there. *)
Lemma receive_relay_connected `{Spake2} `{Aead} `{Blake3} `{!Serde Manifest} `{!Serde StreamManifestAck}
    `{!Serde Commit} `{!Serde CommitAck} `{!Serde State} tar connect fuel rnd topic secret out accept s :
  connect s = Done (Ok tt, s) ->
  receive_relay tar connect fuel rnd topic secret out accept s
    = receive_relay tar (mret tt) fuel rnd topic secret out accept s.
Proof. intros Hc. unfold receive_relay. rewrite !prog_bind_eq. unfold prog_map_err. by rewrite Hc. Qed.

Lemma may_true {A} P (p : proc A) : may P p (fun _ => True).
Proof. induction p as [a|m k IH|k IH]; simpl; auto. Qed.

(** What an attempt that got its connection can end with. *)
Lemma receive_relay_may `{Spake2} `{Aead} `{Blake3} `{!Serde Manifest} `{!Serde StreamManifestAck}
    `{!Serde Commit} `{!Serde CommitAck} `{!Serde State} tar fuel rnd topic secret out accept
    (P : bytes -> Prop) (s : fs) :
  may P (receive_relay tar (mret tt) fuel rnd topic secret out accept s)
    (fun o => (exists key, authenticated rnd topic secret Receiver P key)
      \/ exists e, o.1 = Err e /\ (downcast is_code_mismatch e = true \/ downcast is_transport_lost e = true)).
Proof.
  unfold receive_relay, prog_map_err. rewrite prog_bind_eq.
  unfold mret at 1, prog_ret at 1. cbn [proc_bind map_err prog_k]. rewrite prog_bind_eq.
  apply (may_bind _ _ _ (fun o : res SessionKey * fs =>
    (exists e, o.1 = Err e /\ (downcast is_code_mismatch e = true \/ downcast is_transport_lost e = true))
    \/ exists key, o.1 = Ok key /\ authenticated rnd topic secret Receiver P key)).
  { eapply may_bind; [apply (handshake_channel_may fuel rnd topic secret Receiver P s)|].
    intros [[key|e|] s'] (Hp & _ & Hk); cbn [fst snd map_err may] in *; [right; eauto| |done].
    left. eexists. split; [done|].
    destruct (downcast is_code_mismatch e) eqn:E1; [by left|].
    destruct (downcast is_transport_lost e) eqn:E2; [by right|]. by right. }
  intros [[key|e|] s'] [(e' & He & Hd)|(k & Hk & Ha)]; cbn [fst snd prog_k] in *; try done.
  - eapply may_mono; [apply may_true|]. intros o _. left. eauto.
  - cbn [may]. right. exists e. split; [done|]. by injection He as ->.
Qed.

(** ** Properties *)

(** A session delivers: a sender and a receiver with the same code, connected
    through a channel, exchange keys and transfer the file; every
    interleaving can be continued to the same end, where the sender reports
    completion, the receiver has the file in place and waits only for the
    connection to end, whatever comes of that wait. *)
Theorem session_delivers `{Spake2} `{Aead} `{Blake3} `{!Serde Manifest} `{!Serde StreamManifestAck}
    `{!Serde Commit} `{!Serde CommitAck} `{!Serde State}
    cap fuel topic secret rS rR src ns out nm tid es sp content tar accept nr :
  (1 <= cap)%nat -> (1 <= fuel)%nat -> zlen content < U64 -> Forall (fun e => u64_ok (e_size e)) es ->
  file_at ns src = Some content ->
  accept nr (stream_manifest (Blob KFile nm es (zlen content) tid src sp)) = true ->
  resumable out (safe_name nm) tid STREAM_FRAME_SIZE content nr ->
  exists k nr' wait,
    (let begin := Config
           (send_relay (mret tt) fuel rS topic secret (Blob KFile nm es (zlen content) tid src sp) (Fs ns []))
           (receive_relay tar (mret tt) fuel rR topic secret out accept (Fs nr [])) [] [] in
     let fin := Config (Done (Ok "transfer complete", Fs ns [])) (Recv wait) [] [] in
     forall j c, nsteps (step cap) j begin c -> (j <= k)%nat /\ nsteps (step cap) (k - j) c fin)
    /\ (forall r, wait r = Done (Ok ("saved " +:+ display (out ++ [safe_name nm])), Fs nr' []))
    /\ file_at nr' (out ++ [safe_name nm]) = Some content
    /\ (forall q, partial_dir out (safe_name nm) `prefix_of` q -> nr' !! q = None).
Proof.
  intros Hcap Hfuel Hlen Hes Hsrc Hacc Hnr.
  destruct (session_exec cap fuel topic secret rS rR src ns out nm tid es sp content tar accept nr
    Hcap Hfuel Hlen Hes Hsrc Hacc Hnr) as (nr' & Hrun & Hfile & Hgone).
  apply rtc_nsteps in Hrun as [k Hk]. exists k, nr'. eexists. split; [|split; [|done]].
  - intros begin fin. apply runs_converge; [|exact Hk]. by inversion 1.
  - done.
Qed.
Lemma session_delivers_witness :
  exists nr', file_at nr' ["out"; "f"] = Some [Byte.x41].
Proof.
  destruct (session_delivers (H := Toy.spake2) (H0 := Toy.aead) (H1 := Toy.blake3)
    (Serde0 := Transfer.Example.toy_manifest) (Serde1 := Transfer.Example.toy_ack) (Serde2 := Transfer.Example.toy_commit)
    (Serde3 := Transfer.Example.toy_commit_ack) (Serde4 := Transfer.Example.toy_state)
    1 1 "room" [Byte.x07] [] [Byte.x01] ["s"] {[ ["s"] := File [Byte.x41] ]} ["out"] "../f" "t"
    [] None [Byte.x41] (fun _ _ => mret tt) (fun _ _ => true) Transfer.Example.disk) as (k & nr' & w & _ & _ & H1 & _);
    [lia|lia|done|constructor|done|done|apply Transfer.Example.disk_resumable|].
  exists nr'. exact H1.
Defined.

(** Establishment failures are marked as such, everything else is not: an
    error before the transfer is an [EstablishError] unless it re-arms. *)
Theorem send_relay_classifies `{Spake2} `{Aead} `{Blake3} `{!Serde Manifest} `{!Serde StreamManifestAck}
    `{!Serde Commit} `{!Serde CommitAck} `{!Serde State} connect fuel rnd topic secret source s :
  (forall e s1, connect s = Done (Err e, s1) ->
     send_relay connect fuel rnd topic secret source s = Done (Err (EEstablish e), s1))
  /\ forall e, downcast is_establish (establish_unless_rearmed e) = true
       \/ establish_unless_rearmed e = e
          /\ (downcast is_transport_lost e = true \/ downcast is_code_mismatch e = true).
Proof.
  split.
  - intros e s1 Hc. unfold send_relay, prog_map_err. rewrite prog_bind_eq, Hc. done.
  - intros e. unfold establish_unless_rearmed.
    destruct (downcast is_transport_lost e), (downcast is_code_mismatch e); simpl; auto.
Qed.
