(* ===== verification/RelayWire.v ===== *)
(** * src/transport/relay.rs: frames in WebSocket payloads

    A payload is a sequence of pieces [u32 LE header || bytes]; the header's
    low 31 bits are the piece's length, its top bit says that the logical
    frame goes on in a later piece. *)

From S2P Require Import Prelude Str.

Definition MAX_WS_PAYLOAD : Z := 960 * 1024.
Definition CONT : Z := Z.shiftl 1 31.
Definition MAX_LOGICAL_FRAME : Z := 64 * 1024 * 1024.

(** The loop of [pack_frames]: [buf] and what is left of [pending]. *)
Fixpoint pack_loop (buf : bytes) (pending : list bytes) : bytes * list bytes :=
  match pending with
  | [] => (buf, [])
  | front :: rest =>
      let room := saturating_sub MAX_WS_PAYLOAD (zlen buf + 4) in
      if room =? 0 then (buf, pending)
      else if zlen front <=? room then pack_loop (buf ++ to_le 4 (zlen front) ++ front) rest
      else
        let piece := take (Z.to_nat room) front in
        (buf ++ to_le 4 (Z.lor (zlen piece) CONT) ++ piece, drop (Z.to_nat room) front :: rest)
  end.
Definition pack_frames (pending : list bytes) : option bytes * list bytes :=
  let '(buf, pending') := pack_loop [] pending in
  ((match buf with [] => None | _ => Some buf end), pending').

(** [Debatcher::push]'s loop over the rest of the payload [p]; a [u32] header
    and its length at each turn. *)
Fixpoint push_loop (fuel : nat) (p partial : bytes) (out : list bytes) : res (list bytes) * bytes :=
  match fuel with
  | O => (Panic, partial)
  | S fuel' =>
      match p with
      | [] => (Ok out, partial)
      | _ =>
          if zlen p <? 4 then (Err (EMsg "truncated sub-frame header"), partial)
          else
            let hdr := from_le (take 4 p) in
            let cont := negb (Z.land hdr CONT =? 0) in
            let len := Z.land hdr (Z.ones 31) in
            let p := drop 4 p in
            if zlen p <? len then (Err (EMsg "truncated sub-frame body"), partial)
            else if MAX_LOGICAL_FRAME <? zlen partial + len
            then (Err (EMsg ("logical frame exceeds " +:+ show MAX_LOGICAL_FRAME +:+ " bytes")), partial)
            else
              let partial := partial ++ take (Z.to_nat len) p in
              let p := drop (Z.to_nat len) p in
              if cont then push_loop fuel' p partial out
              else push_loop fuel' p [] (out ++ [partial])
      end
  end.
(** Every turn consumes at least the four bytes of a header. *)
Definition Debatcher_push (partial p : bytes) : res (list bytes) * bytes :=
  push_loop (S (length p)) p partial [].

(** ** Headers *)

Lemma land_cont h : 0 <= h < 2 ^ 32 -> (Z.land h CONT =? 0) = (h <? 2 ^ 31).
Proof.
  intros Hh. change CONT with (2 ^ 31).
  assert (E : Z.land h (2 ^ 31) = if Z.testbit h 31 then 2 ^ 31 else 0).
  { apply Z.bits_inj'. intros n Hn. rewrite Z.land_spec, Z.pow2_bits_eqb by lia.
    destruct (Z.eqb_spec 31 n) as [<-|Hne].
    - rewrite andb_true_r. destruct (Z.testbit h 31); [by rewrite Z.pow2_bits_true|by rewrite Z.bits_0].
    - rewrite andb_false_r. destruct (Z.testbit h 31); [by rewrite Z.pow2_bits_false|by rewrite Z.bits_0]. }
  rewrite E. pose proof (Z.testbit_true h 31 ltac:(lia)) as Ht.
  pose proof (Z.div_mod h (2 ^ 31) ltac:(lia)). pose proof (Z.mod_pos_bound h (2 ^ 31) ltac:(lia)).
  assert (Hq : h / 2 ^ 31 = 0 \/ h / 2 ^ 31 = 1) by nia.
  destruct (Z.testbit h 31).
  - destruct Ht as [Ht _]. specialize (Ht eq_refl). destruct Hq as [Hq|Hq]; rewrite Hq in Ht; [done|].
    symmetry. apply Z.ltb_ge. nia.
  - destruct Ht as [_ Ht]. destruct Hq as [Hq|Hq]; [|by rewrite Hq in Ht; specialize (Ht eq_refl)].
    symmetry. apply Z.ltb_lt. nia.
Qed.
Lemma lor_cont n : 0 <= n < 2 ^ 31 -> Z.lor n CONT = n + 2 ^ 31.
Proof.
  intros Hn. change CONT with (2 ^ 31). rewrite <- Z.lxor_lor; [symmetry; apply Z.add_nocarry_lxor|].
  all: apply Z.bits_inj'; intros k Hk; rewrite Z.land_spec, Z.bits_0, Z.pow2_bits_eqb by lia;
    destruct (Z.eqb_spec 31 k) as [<-|]; [|by rewrite andb_false_r];
    rewrite andb_true_r; apply Z.bits_above_log2; [lia|].
  all: destruct (decide (n = 0)) as [->|]; [done|]; apply Z.log2_lt_pow2; lia.
Qed.

(** One piece at the front of a payload. *)
Lemma push_piece fuel (cont : bool) piece rest partial out :
  zlen piece < 2 ^ 31 -> zlen partial + zlen piece <= MAX_LOGICAL_FRAME ->
  push_loop (S fuel) (to_le 4 (if cont then Z.lor (zlen piece) CONT else zlen piece) ++ piece ++ rest) partial out
  = if cont then push_loop fuel rest (partial ++ piece) out
    else push_loop fuel rest [] (out ++ [partial ++ piece]).
Proof.
  intros Hp Hm. pose proof (zlen_nonneg piece) as H0.
  set (hdr := if cont then Z.lor (zlen piece) CONT else zlen piece).
  assert (Hh : 0 <= hdr < 2 ^ 32 /\ (negb (Z.land hdr CONT =? 0)) = cont /\ Z.land hdr (Z.ones 31) = zlen piece).
  { unfold hdr. destruct cont.
    - rewrite lor_cont by lia. split; [lia|]. rewrite land_cont by lia. split.
      + destruct (Z.ltb_spec (zlen piece + 2 ^ 31) (2 ^ 31)); [lia|done].
      + rewrite Z.land_ones by lia. rewrite <- (Z.mul_1_l (2 ^ 31)) at 1. rewrite Z.mod_add by lia.
        by apply Z.mod_small.
    - split; [lia|]. rewrite land_cont by lia. split.
      + destruct (Z.ltb_spec (zlen piece) (2 ^ 31)); [done|lia].
      + rewrite Z.land_ones by lia. by apply Z.mod_small. }
  destruct Hh as (Hr & Hc & Hl).
  assert (Hl4 : length (to_le 4 hdr) = 4%nat) by apply length_to_le.
  destruct (to_le 4 hdr ++ piece ++ rest) as [|b p] eqn:E.
  { apply (f_equal length) in E. rewrite length_app, Hl4 in E. done. }
  cbn [push_loop]. rewrite <- E.
  destruct (Z.ltb_spec (zlen (to_le 4 hdr ++ piece ++ rest)) 4) as [Hlt|_].
  { rewrite zlen_app in Hlt. unfold zlen in Hlt at 1. rewrite Hl4 in Hlt. pose proof (zlen_nonneg (piece ++ rest)). lia. }
  rewrite take_app_length', drop_app_length' by lia.
  rewrite (from_to_le 4 hdr) by (change (256 ^ Z.of_nat 4) with (2 ^ 32); lia).
  rewrite Hc, Hl. rewrite zlen_app. pose proof (zlen_nonneg rest).
  destruct (Z.ltb_spec (zlen piece + zlen rest) (zlen piece)); [lia|].
  destruct (Z.ltb_spec MAX_LOGICAL_FRAME (zlen partial + zlen piece)); [lia|].
  rewrite take_app_length', drop_app_length' by (unfold zlen; lia). done.
Qed.

(** ** Packing and unpacking *)

(** The logical frames still to come, when [partial] of the first is already
    across. *)
Definition to_come (partial : bytes) (pending : list bytes) : list bytes :=
  match pending with [] => [] | f :: fs => (partial ++ f) :: fs end.
(** A receiver is in step with a sender's queue. *)
Definition in_step (partial : bytes) (pending : list bytes) : Prop :=
  (pending = [] -> partial = []) /\ Forall (fun f => zlen f <= MAX_LOGICAL_FRAME) (to_come partial pending).

Lemma pack_loop_spec pending : forall buf partial,
  in_step partial pending -> zlen buf <= MAX_WS_PAYLOAD ->
  exists enc pending' partial' out,
    pack_loop buf pending = (buf ++ enc, pending')
    /\ zlen (buf ++ enc) <= MAX_WS_PAYLOAD
    /\ (forall fuel out0, (length enc < fuel)%nat -> push_loop fuel enc partial out0 = (Ok (out0 ++ out), partial'))
    /\ out ++ to_come partial' pending' = to_come partial pending
    /\ in_step partial' pending'
    /\ (buf = [] -> pending <> [] -> enc <> []).
Proof.
  induction pending as [|front rest IH]; intros buf partial [Hnil Hall] Hbuf.
  - exists [], [], partial, []. rewrite app_nil_r. split; [done|]. split; [done|]. split.
    + intros [|fuel] out0 Hf; [simpl in Hf; lia|]. by rewrite app_nil_r.
    + done.
  - cbn [pack_loop]. set (room := saturating_sub MAX_WS_PAYLOAD (zlen buf + 4)).
    pose proof (zlen_nonneg buf). pose proof (zlen_nonneg front). pose proof (zlen_nonneg partial).
    assert (Hroom : 0 <= room) by (unfold room, saturating_sub; lia).
    cbn [to_come] in Hall. pose proof Hall as Hall'. apply Forall_cons in Hall' as [Hf Hrest].
    rewrite zlen_app in Hf. change MAX_LOGICAL_FRAME with 67108864 in *. change MAX_WS_PAYLOAD with 983040 in *.
    destruct (Z.eqb_spec room 0) as [Er|Er].
    { exists [], (front :: rest), partial, []. rewrite app_nil_r. split; [done|]. split; [done|]. split.
      - intros [|fuel] out0 Hfu; [simpl in Hfu; lia|]. by rewrite app_nil_r.
      - split; [done|]. split; [done|]. intros -> _. unfold room, saturating_sub, zlen in Er. simpl in Er. lia. }
    assert (Hr4 : room = 983040 - (zlen buf + 4)) by (unfold room, saturating_sub in *; lia).
    assert (Hhdr : forall z, zlen (to_le 4 z) = 4) by (intros; unfold zlen; by rewrite length_to_le).
    destruct (Z.leb_spec (zlen front) room) as [Hle|Hgt].
    + assert (Hin : in_step [] rest).
      { split; [done|]. by destruct rest. }
      destruct (IH (buf ++ to_le 4 (zlen front) ++ front) [] Hin) as (enc & pending' & partial' & out & P1 & P2 & P3 & P4 & P5 & _).
      { rewrite !zlen_app, Hhdr. lia. }
      exists (to_le 4 (zlen front) ++ front ++ enc), pending', partial', ((partial ++ front) :: out).
      split; [by rewrite P1, <- !app_assoc|]. split; [by rewrite <- !app_assoc in P2|]. split; [|split; [|split; [done|]]].
      * intros [|fuel] out0 Hfu; [lia|]. rewrite (push_piece fuel false); [|lia|change MAX_LOGICAL_FRAME with 67108864; lia].
        rewrite P3.
        -- by rewrite <- app_assoc.
        -- rewrite !length_app, length_to_le in Hfu. lia.
      * cbn [to_come]. rewrite <- app_comm_cons, P4. by destruct rest.
      * intros _ _ E. apply (f_equal length) in E. rewrite length_app, length_to_le in E. done.
    + set (piece := take (Z.to_nat room) front). set (remain := drop (Z.to_nat room) front).
      assert (Hpiece : zlen piece = room) by (unfold piece, zlen in *; rewrite length_take; lia).
      assert (Hsplit : piece ++ remain = front) by apply take_drop.
      exists (to_le 4 (Z.lor (zlen piece) CONT) ++ piece), (remain :: rest), (partial ++ piece), [].
      split; [done|]. split; [rewrite !zlen_app, Hhdr; lia|]. split; [|split; [|split]].
      * intros [|[|fuel]] out0 Hfu; [lia|rewrite length_app, length_to_le in Hfu; lia|].
        rewrite <- (app_nil_r piece) at 2. rewrite (push_piece (S fuel) true); [|lia|change MAX_LOGICAL_FRAME with 67108864; lia].
        simpl. by rewrite app_nil_r.
      * cbn [to_come app]. by rewrite <- app_assoc, Hsplit.
      * split; [done|]. cbn [to_come]. by rewrite <- app_assoc, Hsplit.
      * intros _ _ E. apply (f_equal length) in E. rewrite length_app, length_to_le in E. done.
Qed.

Lemma pack_frames_spec partial pending :
  in_step partial pending -> pending <> [] ->
  exists payload pending' partial' out,
    pack_frames pending = (Some payload, pending')
    /\ 0 < zlen payload <= MAX_WS_PAYLOAD
    /\ Debatcher_push partial payload = (Ok out, partial')
    /\ out ++ to_come partial' pending' = to_come partial pending
    /\ in_step partial' pending'.
Proof.
  intros Hs Hne. destruct (pack_loop_spec pending [] partial Hs) as (enc & pending' & partial' & out & H1 & H2 & H3 & H4 & H5 & H6);
    [done|]. specialize (H6 eq_refl Hne). simpl in H1, H2.
  exists enc, pending', partial', out. unfold pack_frames. rewrite H1.
  split; [by destruct enc|]. split; [|split; [|done]].
  - split; [|done]. destruct enc; [done|]. rewrite zlen_cons. pose proof (zlen_nonneg enc). lia.
  - unfold Debatcher_push. by rewrite H3 by lia.
Qed.

(** How much is left to pack. *)
Definition backlog (pending : list bytes) : nat := sum_list_with (fun f => S (length f)) pending.
Lemma pack_loop_backlog pending buf :
  (backlog (pack_loop buf pending).2 <= backlog pending)%nat
  /\ (buf = [] -> pending <> [] -> (backlog (pack_loop buf pending).2 < backlog pending)%nat).
Proof.
  revert buf. induction pending as [|front rest IH]; intros buf; [done|]. cbn [pack_loop].
  set (room := saturating_sub MAX_WS_PAYLOAD (zlen buf + 4)).
  destruct (Z.eqb_spec room 0) as [Er|Er].
  { split; [done|]. by intros ->. }
  destruct (Z.leb_spec (zlen front) room) as [Hle|Hgt].
  - destruct (IH (buf ++ to_le 4 (zlen front) ++ front)) as [H1 _]. unfold backlog in *. cbn [sum_list_with]. split; intros; lia.
  - assert (0 <= room) by (unfold room, saturating_sub; lia). clearbody room.
    unfold backlog. cbn [snd sum_list_with]. rewrite length_drop. unfold zlen in *. split; intros; lia.
Qed.
Lemma pack_frames_backlog pending : pending <> [] -> (backlog (pack_frames pending).2 < backlog pending)%nat.
Proof.
  intros Hne. pose proof (proj2 (pack_loop_backlog pending []) eq_refl Hne).
  unfold pack_frames. by destruct (pack_loop [] pending).
Qed.

(** ** The sender's queue and the receiver's reassembly together *)

(** The application queues a frame, or the io task packs and sends a payload
    that the other io task unpacks. *)
Inductive wire_event : Type := Queue (f : bytes) | Flush.
Record wire : Type := { w_pending : list bytes; w_partial : bytes; w_delivered : list bytes }.
Definition wire_step (w : wire) (e : wire_event) : res wire :=
  match e with
  | Queue f => Ok {| w_pending := w_pending w ++ [f]; w_partial := w_partial w; w_delivered := w_delivered w |}
  | Flush =>
      match pack_frames (w_pending w) with
      | (None, pending') =>
          Ok {| w_pending := pending'; w_partial := w_partial w; w_delivered := w_delivered w |}
      | (Some payload, pending') =>
          match Debatcher_push (w_partial w) payload with
          | (Ok out, partial') =>
              Ok {| w_pending := pending'; w_partial := partial'; w_delivered := w_delivered w ++ out |}
          | (Err e, _) => Err e
          | (Panic, _) => Panic
          end
      end
  end.
Fixpoint wire_run (w : wire) (es : list wire_event) : res wire :=
  match es with [] => Ok w | e :: es' => match wire_step w e with Ok w' => wire_run w' es' | r => r end end.
Definition wire0 : wire := {| w_pending := []; w_partial := []; w_delivered := [] |}.
Fixpoint queued (es : list wire_event) : list bytes :=
  match es with [] => [] | Queue f :: es' => f :: queued es' | Flush :: es' => queued es' end.

Definition wire_inv (w : wire) (sent : list bytes) : Prop :=
  in_step (w_partial w) (w_pending w) /\ w_delivered w ++ to_come (w_partial w) (w_pending w) = sent.

Lemma to_come_snoc partial pending f : (pending = [] -> partial = []) ->
  to_come partial (pending ++ [f]) = to_come partial pending ++ [f].
Proof. destruct pending; [by intros ->|done]. Qed.
Lemma wire_step_inv w e sent :
  wire_inv w sent -> (forall f, e = Queue f -> zlen f <= MAX_LOGICAL_FRAME) ->
  exists w', wire_step w e = Ok w' /\ wire_inv w' (sent ++ queued [e])
    /\ (e = Flush -> w_pending w <> [] -> (backlog (w_pending w') < backlog (w_pending w))%nat).
Proof.
  intros [[Hnil Hall] Hsent] Hf. destruct e as [f|]; cbn [wire_step queued].
  - eexists. split; [done|]. split; [|done]. split; cbn [w_partial w_pending w_delivered].
    + split; [by destruct (w_pending w)|]. rewrite to_come_snoc by done. apply Forall_app.
      split; [done|]. constructor; [by apply Hf|done].
    + by rewrite to_come_snoc, app_assoc, Hsent by done.
  - rewrite app_nil_r. destruct (decide (w_pending w = [])) as [E|E].
    + rewrite E. cbn. eexists. split; [done|]. split; [|done].
      split; cbn; rewrite <- ?E; [done|]. by rewrite <- Hsent, E.
    + destruct (pack_frames_spec (w_partial w) (w_pending w) (conj Hnil Hall) E)
        as (payload & pending' & partial' & out & H1 & _ & H3 & H4 & H5).
      pose proof (pack_frames_backlog (w_pending w) E) as Hb.
      rewrite H1 in Hb |- *. rewrite H3. eexists. split; [done|]. split; [|done].
      split; cbn; [done|]. by rewrite <- app_assoc, H4.
Qed.

(** ** Properties *)

(** The relay framing delivers exactly what is sent: whatever the sizes of
    the frames (up to the limit) and however queueing and flushing
    interleave, no payload is refused, and what came out on the other side,
    with what is still to come, is what was queued, in order; a queue that
    keeps being flushed empties, and then everything queued is out. *)
Theorem relay_framing es :
  Forall (fun f => zlen f <= MAX_LOGICAL_FRAME) (queued es) ->
  exists w, wire_run wire0 es = Ok w
    /\ w_delivered w ++ to_come (w_partial w) (w_pending w) = queued es
    /\ exists k w', wire_run wire0 (es ++ replicate k Flush) = Ok w'
        /\ w_pending w' = [] /\ w_partial w' = [] /\ w_delivered w' = queued es.
Proof.
  intros Hall.
  assert (Hgen : forall es w sent, wire_inv w sent -> Forall (fun f => zlen f <= MAX_LOGICAL_FRAME) (queued es) ->
    exists w', wire_run w es = Ok w' /\ wire_inv w' (sent ++ queued es)).
  { clear. induction es as [|e es IH]; intros w sent Hw Hall; cbn [wire_run].
    - exists w. by rewrite app_nil_r.
    - destruct (wire_step_inv w e sent Hw) as (w1 & H1 & H2 & _).
      { intros f ->. cbn [queued] in Hall. by apply Forall_cons in Hall as [? _]. }
      rewrite H1. assert (Hq : queued (e :: es) = queued [e] ++ queued es) by (by destruct e).
      rewrite Hq in Hall |- *. apply Forall_app in Hall as [_ Hall].
      rewrite app_assoc. by apply IH. }
  assert (Hdrain : forall n w sent, (backlog (w_pending w) <= n)%nat -> wire_inv w sent ->
    exists k w', wire_run w (replicate k Flush) = Ok w' /\ w_pending w' = [] /\ wire_inv w' sent).
  { clear. induction n as [|n IH]; intros w sent Hb Hw.
    - exists 0%nat, w. split; [done|]. split; [|done]. unfold backlog in Hb. destruct (w_pending w); [done|simpl in Hb; lia].
    - destruct (decide (w_pending w = [])) as [E|E]; [by exists 0%nat, w|].
      destruct (wire_step_inv w Flush sent Hw ltac:(done)) as (w1 & H1 & H2 & H3).
      specialize (H3 eq_refl E). cbn [queued] in H2. rewrite app_nil_r in H2.
      destruct (IH w1 sent ltac:(lia) H2) as (k & w' & H4 & H5). exists (S k), w'.
      split; [|done]. cbn [replicate wire_run]. by rewrite H1. }
  assert (Happ : forall es1 es2 w w1, wire_run w es1 = Ok w1 -> wire_run w (es1 ++ es2) = wire_run w1 es2).
  { clear. induction es1 as [|e es1 IH]; intros es2 w w1 H; cbn [wire_run app] in *; [by injection H as ->|].
    destruct (wire_step w e); [by apply IH|done|done]. }
  assert (H0 : wire_inv wire0 []) by done.
  destruct (Hgen es wire0 [] H0 Hall) as (w & H1 & H2). exists w. split; [done|]. split; [apply H2|].
  destruct (Hdrain _ w _ (le_n _) H2) as (k & w' & H3 & H4 & [[H5 _] H6]). exists k, w'.
  split; [by rewrite (Happ _ _ _ _ H1)|]. split; [done|]. specialize (H5 H4). split; [done|].
  rewrite H4, H5 in H6. cbn [to_come] in H6. by rewrite app_nil_r in H6.
Qed.
Lemma relay_framing_witness :
  let es := [Queue [Byte.x01; Byte.x02]; Queue []; Flush; Queue [Byte.x03]] in
  exists w, wire_run wire0 es = Ok w
    /\ w_delivered w ++ to_come (w_partial w) (w_pending w) = [[Byte.x01; Byte.x02]; []; [Byte.x03]].
Proof.
  intros es. destruct (relay_framing es) as (w & H1 & H2 & _).
  - repeat constructor; by vm_compute.
  - exists w. split; [exact H1|exact H2].
Defined.

Lemma push_loop_bounded fuel : forall p partial out,
  (length p < fuel)%nat -> zlen partial <= MAX_LOGICAL_FRAME ->
  Forall (fun f => zlen f <= MAX_LOGICAL_FRAME) out ->
  match push_loop fuel p partial out with
  | (r, partial') => r <> Panic /\ zlen partial' <= MAX_LOGICAL_FRAME
      /\ forall fs, r = Ok fs -> Forall (fun f => zlen f <= MAX_LOGICAL_FRAME) fs
  end.
Proof.
  induction fuel as [|fuel IH]; intros p partial out Hf Hp Ho; [lia|]. cbn [push_loop].
  destruct p as [|b p]; [split; [done|]; split; [done|]; by intros fs [= <-]|].
  destruct (Z.ltb_spec (zlen (b :: p)) 4); [done|].
  set (p4 := drop 4 (b :: p)). set (len := Z.land _ (Z.ones 31)).
  destruct (Z.ltb_spec (zlen p4) len) as [|Hlen]; [done|].
  destruct (Z.ltb_spec MAX_LOGICAL_FRAME (zlen partial + len)) as [|Hmax]; [done|].
  assert (Hl0 : 0 <= len).
  { unfold len. apply Z.land_nonneg. left. apply from_le_range. }
  assert (Hnew : zlen (partial ++ take (Z.to_nat len) p4) <= MAX_LOGICAL_FRAME).
  { rewrite zlen_app. unfold zlen in *. rewrite length_take. lia. }
  assert (Hdrop : (length (drop (Z.to_nat len) p4) < fuel)%nat).
  { unfold p4, zlen in *. rewrite !length_drop. simpl in *. lia. }
  destruct (negb _); apply IH; try done. apply Forall_app. by split; [|constructor].
Qed.

(** C25: A hostile stream of payloads cannot make the receiver panic or hold more
    than [MAX_LOGICAL_FRAME] bytes of a frame. *)
Theorem debatcher_bounded partial p :
  zlen partial <= MAX_LOGICAL_FRAME ->
  (Debatcher_push partial p).1 <> Panic
  /\ zlen (Debatcher_push partial p).2 <= MAX_LOGICAL_FRAME
  /\ forall fs, (Debatcher_push partial p).1 = Ok fs -> Forall (fun f => zlen f <= MAX_LOGICAL_FRAME) fs.
Proof.
  intros Hp. pose proof (push_loop_bounded (S (length p)) p partial [] ltac:(lia) Hp ltac:(constructor)) as H.
  unfold Debatcher_push. by destruct (push_loop _ p partial []).
Qed.
Lemma debatcher_bounded_witness :
  (Debatcher_push [] [Byte.xff; Byte.xff; Byte.xff; Byte.xff; Byte.x00]).1 <> Panic
  /\ zlen (Debatcher_push [] [Byte.xff; Byte.xff; Byte.xff; Byte.xff; Byte.x00]).2 <= MAX_LOGICAL_FRAME.
Proof.
  destruct (debatcher_bounded [] [Byte.xff; Byte.xff; Byte.xff; Byte.xff; Byte.x00]) as (H1 & H2 & _); [done|].
  split; [exact H1|exact H2].
Defined.
