(* ===== verification/Config.v ===== *)
(** * src/config.rs: where the relay is, and who gets its token *)

From S2P Require Import Prelude Str Libs Fs.

(** [normalize_relay_url] of src/transport/relay.rs. *)
Definition normalize_relay_url (s : string) : res string :=
  let s := trim_end_char "/" (trim s) in
  match strip_prefix "https://" s with
  | Some rest => Ok ("wss://" +:+ rest)
  | None =>
      match strip_prefix "http://" s with
      | Some rest => Ok ("ws://" +:+ rest)
      | None =>
          if starts_with "wss://" s || starts_with "ws://" s then Ok s
          else Err (EMsg ("relay URL must start with wss:// or https:// (got '" +:+ s +:+ "')"))
      end
  end.

Record Config : Type := { relay : option string; relay_token : option string }.
Definition default_config : Config := {| relay := None; relay_token := None |}.
Record RelayCfg : Type := { url : string; token : option string }.

(** [.map(normalize).transpose()?] *)
Definition normalize_opt (o : option string) : res (option string) :=
  match o with Some s => u ← normalize_relay_url s; mret (Some u) | None => mret None end.

Definition no_relay_msg : string :=
  "no relay configured — deploy relay-worker/ once (npx wrangler deploy), then run: b2p relay set wss://<your-worker>.workers.dev  (or pass --relay / set B2P_RELAY)".

Definition resolve_relay (flag code_host env_url env_token : option string) (file : Config)
    : res RelayCfg :=
  own ← match flag with
        | Some f => normalize_opt (Some f)
        | None => match env_url with
                  | Some e => normalize_opt (Some e)
                  | None => normalize_opt (relay file)
                  end
        end;
  ut ← match flag with
       | Some f => u ← normalize_relay_url f; mret (u, true)
       | None =>
           match code_host with
           | Some h =>
               let h := if contains "://" h then h else "wss://" +:+ h in
               u ← normalize_relay_url h;
               mret (u, bool_decide (own = Some u))
           | None =>
               match own with
               | Some u => mret (u, true)
               | None => Err (EMsg no_relay_msg)
               end
           end
       end;
  let '(u, trusted) := ut in
  mret {| url := u;
          token := if trusted : bool
                   then match env_token with Some t => Some t | None => relay_token file end
                   else None |}.

(** [toml]: pretty-printing and parsing of the configuration. *)
Class Toml := {
  toml_to_string : Config -> bytes;
  toml_from_str : bytes -> option Config;
  toml_roundtrip c : toml_from_str (toml_to_string c) = Some c;
}.

Section file.
Context `{Toml}.

Definition is_not_found (e : error) : bool :=
  match e with EIo w => String.eqb w "No such file or directory" | _ => false end.
(** [p] is the path under the OS configuration directory. A file that is not
    UTF-8, which [read_to_string] refuses, is refused by [toml_from_str]. *)
Definition load (p : path) : io Config :=
  r ← io_try (fs_read p);
  io_lift match r with
          | Ok s => match toml_from_str s with
                    | Some c => Ok c
                    | None => Err (EContext ("parsing " +:+ display p) (EExternal "toml"))
                    end
          | Err e => if is_not_found e then Ok default_config
                     else Err (EContext ("reading " +:+ display p) e)
          | Panic => Panic
          end.
Definition save (p : path) (cfg : Config) : io path :=
  _ ← create_dir_all (parent p);
  _ ← fs_write p (toml_to_string cfg);
  mret p.
End file.

(** ** Lemmas *)

Lemma normalize_scheme s u : normalize_relay_url s = Ok u ->
  starts_with "wss://" u = true \/ starts_with "ws://" u = true.
Proof.
  unfold normalize_relay_url. set (t := trim_end_char "/" (trim s)).
  destruct (strip_prefix "https://" t) as [r|]; [intros [= <-]; left; apply (starts_with_app "wss://" r)|].
  destruct (strip_prefix "http://" t) as [r|]; [intros [= <-]; right; apply (starts_with_app "ws://" r)|].
  destruct (starts_with "wss://" t || starts_with "ws://" t) eqn:E; [|done].
  intros [= <-]. by apply orb_true_iff in E.
Qed.
Lemma normalize_not_panic s : normalize_relay_url s <> Panic.
Proof. unfold normalize_relay_url. by repeat case_match. Qed.

(** The relay the user configured: flag, else environment, else file. *)
Definition own_relay (flag env_url : option string) (file : Config) : option string :=
  match flag with Some f => Some f | None => match env_url with Some e => Some e | None => relay file end end.

(** The URL by precedence: flag, code, environment, file. *)
Definition winner (flag code_host env_url : option string) (file : Config) : res string :=
  match flag with
  | Some f => normalize_relay_url f
  | None =>
      match code_host with
      | Some h => normalize_relay_url (if contains "://" h then h else "wss://" +:+ h)
      | None =>
          match own_relay flag env_url file with
          | Some o => normalize_relay_url o
          | None => Err (EMsg no_relay_msg)
          end
      end
  end.

(** ** Properties *)

(** C33: The bearer token goes only to a relay the user configured: when a token
    is attached it is the user's, and the URL it goes to is what the flag, or
    without one the environment, or without either the file, names. *)
Theorem token_only_to_own_relay flag code_host env_url env_token file cfg t :
  resolve_relay flag code_host env_url env_token file = Ok cfg -> token cfg = Some t ->
  (env_token = Some t \/ env_token = None /\ relay_token file = Some t)
  /\ exists own, own_relay flag env_url file = Some own /\ normalize_relay_url own = Ok (url cfg).
Proof.
  assert (Ht : forall u (b : bool) c, (mret {| url := u; token := if b then match env_token with Some t => Some t | None => relay_token file end else None |} : res RelayCfg) = Ok c ->
    token c = Some t -> b = true /\ url c = u /\ (env_token = Some t \/ env_token = None /\ relay_token file = Some t)).
  { intros u b c [= <-]; simpl. destruct b; [|done]. destruct env_token; intros [= <-]; auto. }
  unfold resolve_relay, own_relay. intros Hr Htok. destruct flag as [f|].
  - unfold normalize_opt in Hr. destruct (normalize_relay_url f) as [u|e|] eqn:E; [|done|done]. simpl in Hr.
    destruct (Ht _ true _ Hr Htok) as (_ & Hu & ?). split; [done|]. exists f. by rewrite Hu.
  - set (own := match env_url with Some e => normalize_opt (Some e) | None => normalize_opt (relay file) end) in Hr.
    assert (Hown : forall u, own = Ok (Some u) -> exists o,
      (match env_url with Some e => Some e | None => relay file end) = Some o /\ normalize_relay_url o = Ok u).
    { intros u. unfold own, normalize_opt. destruct env_url as [e|].
      - destruct (normalize_relay_url e) eqn:E; [|done|done]. intros [= <-]. by exists e.
      - destruct (relay file) as [o|]; [|done]. destruct (normalize_relay_url o) eqn:E; [|done|done].
        intros [= <-]. by exists o. }
    destruct own as [o|e|] eqn:Eo; [|done|done]. cbn [mbind res_bind] in Hr. destruct code_host as [h|].
    + destruct (normalize_relay_url (if contains "://" h then h else "wss://" +:+ h)) as [u|e|]; [|done|done].
      simpl in Hr. destruct (Ht _ _ _ Hr Htok) as (Hb & Hu & ?). split; [done|].
      apply bool_decide_eq_true in Hb. subst o. rewrite Hu. by apply Hown.
    + destruct o as [u|]; [|done]. simpl in Hr. destruct (Ht _ true _ Hr Htok) as (_ & Hu & ?).
      split; [done|]. rewrite Hu. by apply Hown.
Qed.
Lemma token_only_to_own_relay_witness :
  let file := {| relay := Some "https://my.relay/"; relay_token := Some "secret" |} in
  resolve_relay None (Some "my.relay") None None file = Ok {| url := "wss://my.relay"; token := Some "secret" |}
  /\ exists own, own_relay None None file = Some own /\ normalize_relay_url own = Ok "wss://my.relay".
Proof.
  intros file. split; [vm_compute; reflexivity|].
  apply (token_only_to_own_relay None (Some "my.relay") None None file
    {| url := "wss://my.relay"; token := Some "secret" |} "secret"); vm_compute; reflexivity.
Defined.

(** The relay is the flag's; else, the configured one being well-formed or
    absent, the code's host; else the environment's; else the file's; else an
    error; and its URL is a WebSocket URL. *)
Theorem resolve_relay_precedence flag code_host env_url env_token file :
  match own_relay flag env_url file with Some o => is_ok (normalize_relay_url o) = true | None => True end ->
  (url <$> resolve_relay flag code_host env_url env_token file) = winner flag code_host env_url file
  /\ forall cfg, resolve_relay flag code_host env_url env_token file = Ok cfg ->
       starts_with "wss://" (url cfg) = true \/ starts_with "ws://" (url cfg) = true.
Proof.
  intros Hown.
  assert (He : (url <$> resolve_relay flag code_host env_url env_token file) = winner flag code_host env_url file).
  { unfold winner, resolve_relay, own_relay, normalize_opt in *.
    destruct flag as [f|]; [by destruct (normalize_relay_url f)|].
    destruct env_url as [e|]; [|destruct (relay file) as [r|]].
    - destruct (normalize_relay_url e); [|done|done]. cbn [mbind res_bind mret res_ret]. destruct code_host as [h|]; [|done].
      by destruct (normalize_relay_url (if contains "://" h then h else "wss://" +:+ h)).
    - destruct (normalize_relay_url r); [|done|done]. cbn [mbind res_bind mret res_ret]. destruct code_host as [h|]; [|done].
      by destruct (normalize_relay_url (if contains "://" h then h else "wss://" +:+ h)).
    - cbn [mbind res_bind mret res_ret]. destruct code_host as [h|]; [|done].
      by destruct (normalize_relay_url (if contains "://" h then h else "wss://" +:+ h)). }
  split; [exact He|]. intros cfg Hc. rewrite Hc in He. simpl in He.
  unfold fmap, res_fmap, winner in He. symmetry in He.
  destruct flag; [by eapply normalize_scheme|]. destruct code_host; [by eapply normalize_scheme|].
  destruct (own_relay _ _ _); [by eapply normalize_scheme|done].
Qed.
Lemma resolve_relay_precedence_witness :
  let file := {| relay := Some "wss://file"; relay_token := None |} in
  (url <$> resolve_relay None (Some "code:8443") (Some "ws://env") None file) = Ok "wss://code:8443".
Proof.
  intros file.
  destruct (resolve_relay_precedence None (Some "code:8443") (Some "ws://env") None file) as [H _];
    [vm_compute; reflexivity|]. rewrite H. vm_compute. reflexivity.
Defined.

(** A malformed relay in the environment or the file makes resolution fail
    even when the code names a good host, which would have taken
    precedence. *)
Theorem malformed_own_blocks_code_host code_host env_token file :
  relay file = Some "ftp://x" -> is_ok (resolve_relay None code_host None env_token file) = false.
Proof. intros E. unfold resolve_relay. by rewrite E. Qed.
Lemma malformed_own_blocks_code_host_witness :
  is_ok (resolve_relay None (Some "good.example") None None {| relay := Some "ftp://x"; relay_token := None |}) = false.
Proof. apply (malformed_own_blocks_code_host (Some "good.example") None {| relay := Some "ftp://x"; relay_token := None |}). reflexivity. Defined.

(** What [save] wrote, [load] reads. *)
Lemma save_load `{Toml} d f cfg n :
  (forall p, p ∈ prefixes d -> file_at n p = None) -> n !! (d ++ [f]) <> Some Dir ->
  exists n', save (d ++ [f]) cfg (Fs n []) = (Ok (d ++ [f]), Fs n' [])
    /\ load (d ++ [f]) (Fs n' []) = (Ok cfg, Fs n' []).
Proof.
  intros Hd Hf. destruct (mkdirs_runs (prefixes d) n Hd) as (n1 & He & Hdirs & Hsame & _).
  assert (Hnp : ~ (d ++ [f]) ∈ prefixes d).
  { unfold prefixes. rewrite list_elem_of_In, in_map_iff. intros (k & E & Hk%in_seq).
    apply (f_equal length) in E. rewrite length_take, length_app in E. simpl in E. lia. }
  assert (Hdir : is_dir n1 d = true).
  { unfold is_dir. destruct d as [|a d'] eqn:Ed; [done|]. rewrite <- Ed in *. rewrite bool_decide_eq_true.
    apply Hdirs. unfold prefixes. rewrite list_elem_of_In, in_map_iff. exists (length d).
    split; [by apply take_ge|]. apply in_seq. rewrite Ed. simpl. lia. }
  exists (upd n1 (d ++ [f]) (toml_to_string cfg)). split.
  - unfold save, mbind, io_bind, create_dir_all, fs_write, sys, parent, put_file. simpl.
    rewrite removelast_last, He. simpl. rewrite (Hsame _ Hnp). unfold parent. rewrite removelast_last, Hdir.
    destruct (n !! (d ++ [f])) as [[|b]|]; [done|done|done].
  - unfold load, mbind, io_bind, io_try, fs_read, sys. simpl. rewrite lookup_insert_eq.
    unfold io_lift. by rewrite toml_roundtrip.
Qed.

(** A concrete [Toml]: the fields' bits. *)
#[refine] Definition toy_toml : Toml :=
  {| toml_to_string c := Toy.pos_bits (encode (relay c, relay_token c));
     toml_from_str b := o ← decode (A := option string * option string) (Toy.bits_pos b);
                        Some {| relay := fst o; relay_token := snd o |} |}.
Proof. intros [r t]. simpl. by rewrite Toy.bits_pos_bits, decode_encode. Defined.
