(* ===== verification/RelayFlow.v ===== *)
(** * src/transport/relay.rs: the connection, its io task and the send window *)

From S2P Require Import Prelude Str Libs Fs Pake Channel RelayWire Config.

(** Seconds. *)
Definition RELAY_CONNECT_TIMEOUT : Z := 15.
Definition PING_EVERY : Z := 30.
Definition PROGRESS_TIMEOUT : Z := 5 * 60.
(** Bytes. *)
Definition ACK_EVERY : Z := 1024 * 1024.
Definition WINDOW : Z := 8 * 1024 * 1024.
Definition PING : string := "{" +:+ String "034" "t" +:+ String "034" ":" +:+ String "034" "ping" +:+ String "034" "}".

(** ** Controls *)

#[local] Set Warnings "-register-all".
(** A JSON value; [serde_json]'s parser is a parameter. *)
Inductive json : Type :=
| JNull | JBool (b : bool) | JNum (n : option Z) | JStr (s : string) | JArr (l : list json)
| JObj (l : list (string * json)).
Fixpoint assoc (k : string) (l : list (string * json)) : option json :=
  match l with [] => None | (k', v) :: l' => if String.eqb k' k then Some v else assoc k l' end.
Definition json_get (k : string) (v : json) : option json :=
  match v with JObj l => assoc k l | _ => None end.
Definition as_str (v : json) : option string := match v with JStr s => Some s | _ => None end.
(** A number's value as [u64], where it is one. *)
Definition as_u64 (v : json) : option Z := match v with JNum (Some n) => guard (u64_ok n);; Some n | _ => None end.
Class JsonParser := json_parse : string -> option json.

Inductive Control : Type := PeerJoined | PeerLeft | Pong | Ack (n : Z).
Definition parse_control `{JsonParser} (t : string) : option Control :=
  v ← json_parse t;
  k ← json_get "t" v;
  s ← as_str k;
  if String.eqb s "peer-joined" then Some PeerJoined
  else if String.eqb s "peer-left" then Some PeerLeft
  else if String.eqb s "pong" then Some Pong
  else if String.eqb s "ack" then n ← json_get "n" v; n ← as_u64 n; Some (Ack n)
  else None.

(** ** Dialing *)

(** What a dial comes to: connected, no answer in time, an HTTP refusal, or
    another failure. *)
Inductive dial_result : Type := DialOk | DialTimeout | DialHttp (status : Z) | DialFailed (what : string).

Definition relay_dial_help (r : dial_result) (base : string) : error :=
  match r with
  | DialHttp s =>
      if s =? 401 then EMsg ("the relay " +:+ base +:+ " requires a token — set it with `b2p relay set " +:+ base
                             +:+ " --token <T>` or B2P_RELAY_TOKEN")
      else if s =? 409 then EContext ("relay " +:+ base +:+ " refused the join") ERoomBusy
      else EMsg ("the relay " +:+ base +:+ " refused the connection (HTTP " +:+ show s +:+ ")")
  | DialFailed w => EContext ("could not connect to the relay " +:+ base) (EExternal w)
  | _ => EContext ("could not connect to the relay " +:+ base) (EExternal "")
  end.
(** The URL dialed and the authorization header. *)
Definition dial_url (base room : string) (role : Role) : string :=
  base +:+ "/v1/room/" +:+ room +:+ "?role=" +:+ match role with Receiver => "recv" | Sender => "send" end.
Definition dial (attempt : string -> option string -> dial_result) (relay_url room : string)
    (role : Role) (token : option string) : res unit :=
  base ← normalize_relay_url relay_url;
  match attempt (dial_url base room role) ((fun t => "Bearer " +:+ t) <$> token) with
  | DialOk => Ok tt
  | DialTimeout => Err (EMsg ("timed out connecting to the relay " +:+ base))
  | r => Err (relay_dial_help r base)
  end.

(** WebSocket messages, and what reading the socket yields. *)
Inductive message : Type := MText (t : string) | MBinary (b : bytes) | MClose | MOther.
Inductive ws_item : Type := WsMsg (m : message) | WsErr (e : string) | WsEnd.

(** What happens while [connect] waits for the peer. *)
Inductive wait_event : Type := WDeadline | WPing (sent : bool) | WItem (i : ws_item).
Definition wait_closed (reason : string) : error := EWaitClosed reason.
(** The [select!] loop over the events in the order they are taken; [None]
    while it still waits. *)
Fixpoint wait_peer `{JsonParser} (es : list wait_event) : option (res unit) :=
  match es with
  | [] => None
  | WDeadline :: _ =>
      Some (Err (EMsg "timed out waiting for the other side — is it running with the same code?"))
  | WPing sent :: es' => if sent then wait_peer es' else Some (Err (wait_closed "keepalive failed"))
  | WItem (WsErr e) :: _ => Some (Err (wait_closed ("socket error: " +:+ e)))
  | WItem WsEnd :: _ => Some (Err (wait_closed "connection closed"))
  | WItem (WsMsg (MText t)) :: es' =>
      match parse_control t with Some PeerJoined => Some (Ok tt) | _ => wait_peer es' end
  | WItem (WsMsg MClose) :: _ => Some (Err (wait_closed "room expired or relay restarted"))
  | WItem (WsMsg _) :: es' => wait_peer es'
  end.
Definition connect `{JsonParser} attempt relay_url room role token (es : list wait_event) : option (res unit) :=
  match dial attempt relay_url room role token with
  | Ok _ => wait_peer es
  | Err e => Some (Err e)
  | Panic => Some Panic
  end.

(** [probe]'s wait: a ping must be answered; [None] on an item is the deadline. *)
Fixpoint probe_loop `{JsonParser} (items : list (option ws_item)) : option (res unit) :=
  match items with
  | [] => None
  | None :: _ => Some (Err (EMsg "relay accepted the connection but never answered a ping"))
  | Some WsEnd :: _ => Some (Err (EMsg "relay closed the connection during the probe"))
  | Some (WsErr e) :: _ => Some (Err (EExternal e))
  | Some (WsMsg (MText t)) :: items' =>
      match parse_control t with Some Pong => Some (Ok tt) | _ => probe_loop items' end
  | Some (WsMsg _) :: items' => probe_loop items'
  end.
(** [rnd]: the sixteen bytes of the throwaway room; [sent]: what came of the
    ping. *)
Definition probe `{JsonParser} (attempt : string -> option string -> dial_result) (relay_url : string) (token : option string)
    (rnd : bytes) (sent : res unit) (items : list (option ws_item)) : option (res unit) :=
  match dial attempt relay_url ("doctor" +:+ hex_encode rnd) Receiver token with
  | Ok _ => match sent with Ok _ => probe_loop items | r => Some r end
  | Err e => Some (Err e)
  | Panic => Some Panic
  end.

(** ** The application's side of the channel *)

Inductive OutMsg : Type := Frame (f : bytes) | Close.

(** The window check of [send]. *)
Definition window_open (sent acked len : Z) : bool :=
  let unacked := saturating_sub sent acked in
  ((unacked + len)%u64 <=? WINDOW) || (unacked <? ACK_EVERY).

(** What ends a wait for an acknowledgement. *)
Inductive ack_wait : Type := Acked (n : Z) | AckDead (reason : option string) | AckTimeout.
Definition lost (msg : string) : error := ETransportLost (EMsg msg).
Definition death_reason (reason : option string) (fallback : string) : error := lost (default fallback reason).
(** [send]'s wait on the acknowledgements to come; [None] while it waits. *)
Fixpoint send_wait (sent acked len : Z) (acks : list ack_wait) : option (res Z) :=
  if window_open sent acked len then Some (Ok (sent + len)%u64)
  else match acks with
       | [] => None
       | Acked n :: acks' => send_wait sent n len acks'
       | AckDead r :: _ => Some (Err (death_reason r "connection lost while sending"))
       | AckTimeout :: _ =>
           Some (Err (lost ("no acknowledgment progress for " +:+ show PROGRESS_TIMEOUT
                            +:+ "s — the receiver appears stalled")))
       end.
(** The new value of [sent]; the frame is queued when this is [Ok]. *)
Definition channel_send (sent acked : Z) (msg : bytes) (acks : list ack_wait) : option (res Z) :=
  if MAX_LOGICAL_FRAME <? zlen msg then
    Some (Err (EMsg ("a metadata frame of " +:+ show (zlen msg) +:+ " bytes exceeds the relay limit ("
      +:+ show MAX_LOGICAL_FRAME
      +:+ ") — for folders with very many files, archive first (e.g. tar.gz) and send the single file")))
  else send_wait sent acked (zlen msg) acks.

(** ** The io task *)

Record io_state : Type := {
  io_pending : list bytes;
  io_partial : bytes;
  io_consumed : Z;
  io_acked_out : Z;
  io_closing : bool;
  (** messages written to the socket *)
  io_ws : list message;
  (** frames handed to the application *)
  io_in : list bytes;
  (** the acknowledgement the application sees *)
  io_acked : Z;
  io_dead : option string;
}.
Definition io0 : io_state :=
  {| io_pending := []; io_partial := []; io_consumed := 0; io_acked_out := 0; io_closing := false;
     io_ws := []; io_in := []; io_acked := 0; io_dead := None |}.

(** Functional updates. *)
Definition io_die (reason : string) (s : io_state) : io_state :=
  {| io_pending := io_pending s; io_partial := io_partial s; io_consumed := io_consumed s;
     io_acked_out := io_acked_out s; io_closing := io_closing s; io_ws := io_ws s; io_in := io_in s;
     io_acked := io_acked s; io_dead := Some reason |}.
Definition io_write (m : message) (s : io_state) : io_state :=
  {| io_pending := io_pending s; io_partial := io_partial s; io_consumed := io_consumed s;
     io_acked_out := io_acked_out s; io_closing := io_closing s; io_ws := io_ws s ++ [m]; io_in := io_in s;
     io_acked := io_acked s; io_dead := io_dead s |}.
Definition io_set_pending (p : list bytes) (s : io_state) : io_state :=
  {| io_pending := p; io_partial := io_partial s; io_consumed := io_consumed s;
     io_acked_out := io_acked_out s; io_closing := io_closing s; io_ws := io_ws s; io_in := io_in s;
     io_acked := io_acked s; io_dead := io_dead s |}.
Definition io_set_closing (s : io_state) : io_state :=
  {| io_pending := io_pending s; io_partial := io_partial s; io_consumed := io_consumed s;
     io_acked_out := io_acked_out s; io_closing := true; io_ws := io_ws s; io_in := io_in s;
     io_acked := io_acked s; io_dead := io_dead s |}.
Definition io_set_partial (p : bytes) (s : io_state) : io_state :=
  {| io_pending := io_pending s; io_partial := p; io_consumed := io_consumed s;
     io_acked_out := io_acked_out s; io_closing := io_closing s; io_ws := io_ws s; io_in := io_in s;
     io_acked := io_acked s; io_dead := io_dead s |}.
Definition io_consume (f : bytes) (delivered : bool) (s : io_state) : io_state :=
  {| io_pending := io_pending s; io_partial := io_partial s; io_consumed := (io_consumed s + zlen f)%u64;
     io_acked_out := io_acked_out s; io_closing := io_closing s; io_ws := io_ws s;
     io_in := if delivered then io_in s ++ [f] else io_in s;
     io_acked := io_acked s; io_dead := io_dead s |}.
Definition io_set_acked_out (s : io_state) : io_state :=
  {| io_pending := io_pending s; io_partial := io_partial s; io_consumed := io_consumed s;
     io_acked_out := io_consumed s; io_closing := io_closing s; io_ws := io_ws s; io_in := io_in s;
     io_acked := io_acked s; io_dead := io_dead s |}.
Definition io_set_acked (n : Z) (s : io_state) : io_state :=
  {| io_pending := io_pending s; io_partial := io_partial s; io_consumed := io_consumed s;
     io_acked_out := io_acked_out s; io_closing := io_closing s; io_ws := io_ws s; io_in := io_in s;
     io_acked := n; io_dead := io_dead s |}.

(** Write-behind: flush everything queued. [ok]: the socket takes it; the text
    of its error is left out of the reason. *)
Fixpoint io_flush (fuel : nat) (ok : bool) (s : io_state) : io_state :=
  match fuel with
  | O => s
  | S fuel' =>
      match pack_frames (io_pending s) with
      | (Some payload, pending') =>
          if ok then io_flush fuel' ok (io_write (MBinary payload) (io_set_pending pending' s))
          else io_die "could not send to the relay" (io_set_pending pending' s)
      | (None, _) => s
      end
  end.
(** The [try_recv] loop. *)
Fixpoint drain_out (l : list OutMsg) (s : io_state) : io_state :=
  match l with
  | Frame f :: l' => drain_out l' (io_set_pending (io_pending s ++ [f]) s)
  | Close :: _ => io_set_closing s
  | [] => s
  end.
(** Handing frames to the application, which listens to [accepts] more. *)
Fixpoint io_deliver (accepts : nat) (fs : list bytes) (s : io_state) {struct fs} : io_state :=
  match fs with
  | [] => s
  | f :: fs' =>
      match accepts with
      | S n => io_deliver n fs' (io_consume f true s)
      | O => io_set_closing (io_consume f false s)
      end
  end.
Definition ack_message (n : Z) : message :=
  MText ("{" +:+ String "034" "t" +:+ String "034" ":" +:+ String "034" "ack" +:+ String "034" ","
         +:+ String "034" "n" +:+ String "034" ":" +:+ show n +:+ "}").

Inductive io_event : Type :=
| EvOut (first : option OutMsg) (queued : list OutMsg)
| EvPing
| EvItem (i : ws_item) (accepts : nat).

Definition io_event_step `{JsonParser} (ok : bool) (ev : io_event) (s : io_state) : io_state :=
  match ev with
  | EvOut (Some (Frame f)) queued => drain_out queued (io_set_pending (io_pending s ++ [f]) s)
  | EvOut _ _ => io_set_closing s
  | EvPing =>
      if ok then io_write (MText PING) s else io_die "relay connection dropped (keepalive failed)" s
  | EvItem (WsErr e) _ => io_die ("relay socket error: " +:+ e) s
  | EvItem WsEnd _ => io_die "the relay closed the connection" s
  | EvItem (WsMsg (MBinary b)) accepts =>
      match Debatcher_push (io_partial s) b with
      | (Ok frames, partial') =>
          let s := io_deliver accepts frames (io_set_partial partial' s) in
          if ACK_EVERY <=? (io_consumed s - io_acked_out s)%u64 then
            let s := io_set_acked_out s in
            if ok then io_write (ack_message (io_consumed s)) s
            else io_die "relay connection dropped (ack failed)" s
          else s
      | (Err e, partial') => io_die ("bad frame from the relay: " +:+ error_to_string e) (io_set_partial partial' s)
      | (Panic, partial') => io_die "panic" (io_set_partial partial' s)
      end
  | EvItem (WsMsg (MText t)) _ =>
      match parse_control t with
      | Some (Ack n) => io_set_acked n s
      | Some PeerLeft => io_die "the other side disconnected" s
      | _ => s
      end
  | EvItem (WsMsg MClose) _ => io_die "the relay closed the connection" s
  | EvItem (WsMsg MOther) _ => s
  end.

(** One turn of the loop: flush, then close or take an event. *)
Definition io_turn `{JsonParser} (ok : bool) (ev : io_event) (s : io_state) : io_state :=
  match io_dead s with
  | Some _ => s
  | None =>
      let s := io_flush (S (backlog (io_pending s))) ok s in
      match io_dead s with
      | Some _ => s
      | None => if io_closing s then io_die "closed" (io_write MClose s) else io_event_step ok ev s
      end
  end.

(** ** What the io task does *)

Definition frames_size (fs : list bytes) : Z := foldr (fun f n => zlen f + n) 0 fs.
Lemma frames_size_nonneg fs : 0 <= frames_size fs.
Proof. induction fs as [|f fs IH]; simpl; [done|]. pose proof (zlen_nonneg f). lia. Qed.
Lemma frames_size_app a b : frames_size (a ++ b) = frames_size a + frames_size b.
Proof. unfold frames_size. induction a as [|f a IH]; cbn [app foldr]; lia. Qed.
Lemma frames_size_prefix a b : a `prefix_of` b -> frames_size a <= frames_size b.
Proof. intros [k ->]. rewrite frames_size_app. pose proof (frames_size_nonneg k). lia. Qed.

(** What an end acknowledges on having consumed [consumed] bytes: the new
    last acknowledgement, and whether it is sent. *)
Definition ack_policy (consumed acked_out : Z) : Z * option Z :=
  if ACK_EVERY <=? (consumed - acked_out)%u64 then (consumed, Some consumed) else (acked_out, None).

Lemma io_deliver_spec fs n s :
  (length fs <= n)%nat -> 0 <= io_consumed s -> io_consumed s + frames_size fs < U64 ->
  io_deliver n fs s =
    {| io_pending := io_pending s; io_partial := io_partial s; io_consumed := io_consumed s + frames_size fs;
       io_acked_out := io_acked_out s; io_closing := io_closing s; io_ws := io_ws s; io_in := io_in s ++ fs;
       io_acked := io_acked s; io_dead := io_dead s |}.
Proof.
  revert n s. induction fs as [|f fs IH]; intros n s Hn H0 Hlt; simpl in *.
  - rewrite Z.add_0_r, app_nil_r. by destruct s.
  - destruct n as [|n]; [lia|]. pose proof (frames_size_nonneg fs). pose proof (zlen_nonneg f).
    assert (E : (io_consumed s + zlen f)%u64 = io_consumed s + zlen f) by (apply wrap64_small; unfold u64_ok; lia).
    rewrite IH; [|lia|simpl; rewrite E; lia..]. simpl. rewrite E. f_equal; [lia|by rewrite <- app_assoc].
Qed.

(** Payloads unpacked one after the other. *)
Fixpoint push_all (partial : bytes) (ps : list bytes) : res (list bytes) * bytes :=
  match ps with
  | [] => (Ok [], partial)
  | p :: ps' =>
      match Debatcher_push partial p with
      | (Ok out, partial') =>
          match push_all partial' ps' with (Ok out', q) => (Ok (out ++ out'), q) | r => r end
      | r => r
      end
  end.
Lemma io_flush_spec fuel s partial :
  (backlog (io_pending s) < fuel)%nat -> in_step partial (io_pending s) ->
  exists ps, io_flush fuel true s =
    {| io_pending := []; io_partial := io_partial s; io_consumed := io_consumed s;
       io_acked_out := io_acked_out s; io_closing := io_closing s; io_ws := io_ws s ++ map MBinary ps;
       io_in := io_in s; io_acked := io_acked s; io_dead := io_dead s |}
    /\ push_all partial ps = (Ok (to_come partial (io_pending s)), []).
Proof.
  revert s partial. induction fuel as [|fuel IH]; intros s partial Hb Hs; [lia|]. cbn [io_flush].
  destruct (decide (io_pending s = [])) as [E|E].
  - exists []. rewrite E. cbn. split.
    + rewrite app_nil_r. destruct s; simpl in *. by rewrite E.
    + destruct Hs as [Hs _]. by rewrite Hs.
  - destruct (pack_frames_spec partial (io_pending s) Hs E) as (payload & pending' & partial' & out & H1 & _ & H3 & H4 & H5).
    pose proof (pack_frames_backlog (io_pending s) E) as Hlt. rewrite H1 in Hlt |- *. simpl in Hlt.
    destruct (IH (io_write (MBinary payload) (io_set_pending pending' s)) partial') as (ps & He & Hp); [simpl; lia|done|].
    exists (payload :: ps). rewrite He. split.
    + cbn. by rewrite <- app_assoc.
    + cbn [push_all]. rewrite H3. cbn [io_pending io_write io_set_pending] in Hp. by rewrite Hp, H4.
Qed.

(** ** The window and the acknowledgements together *)

(** One direction: the sender's counters, the receiver's, the frames'
    lengths in flight, and the acknowledgements in flight back. *)
Record flow : Type := {
  fl_sent : Z;
  fl_acked : Z;
  fl_consumed : Z;
  fl_acked_out : Z;
  fl_data : list Z;
  fl_acks : list Z;
}.
Definition flow0 : flow :=
  {| fl_sent := 0; fl_acked := 0; fl_consumed := 0; fl_acked_out := 0; fl_data := []; fl_acks := [] |}.
Definition total (l : list Z) : Z := foldr Z.add 0 l.
(** A frame of at most [M] bytes is sent when the window lets it; a payload
    of some frames is consumed and perhaps acknowledged; an acknowledgement
    arrives. The totals stay below [2^64]. *)
Inductive flow_step (M : Z) : flow -> flow -> Prop :=
| flow_send s len :
    0 <= len <= M -> fl_sent s + len < U64 ->
    send_wait (fl_sent s) (fl_acked s) len [] = Some (Ok (fl_sent s + len)%u64) ->
    flow_step M s {| fl_sent := (fl_sent s + len)%u64; fl_acked := fl_acked s; fl_consumed := fl_consumed s;
                     fl_acked_out := fl_acked_out s; fl_data := fl_data s ++ [len]; fl_acks := fl_acks s |}
| flow_consume s now later :
    fl_data s = now ++ later ->
    flow_step M s {| fl_sent := fl_sent s; fl_acked := fl_acked s; fl_consumed := fl_consumed s + total now;
                     fl_acked_out := (ack_policy (fl_consumed s + total now) (fl_acked_out s)).1; fl_data := later;
                     fl_acks := fl_acks s ++ option_list (ack_policy (fl_consumed s + total now) (fl_acked_out s)).2 |}
| flow_ack s n acks :
    fl_acks s = n :: acks ->
    flow_step M s {| fl_sent := fl_sent s; fl_acked := n; fl_consumed := fl_consumed s;
                     fl_acked_out := fl_acked_out s; fl_data := fl_data s; fl_acks := acks |}.

Definition flow_inv (M : Z) (s : flow) : Prop :=
  fl_sent s = fl_consumed s + total (fl_data s) /\ Forall (fun n => 0 <= n) (fl_data s)
  /\ 0 <= fl_acked s <= fl_acked_out s /\ fl_acked_out s <= fl_consumed s
  /\ fl_sent s < U64 /\ fl_consumed s - fl_acked_out s < ACK_EVERY
  /\ default (fl_acked s) (last (fl_acks s)) = fl_acked_out s
  /\ Forall (fun n => fl_acked s <= n <= fl_acked_out s) (fl_acks s)
  /\ StronglySorted Z.le (fl_acks s)
  /\ fl_sent s - fl_acked s <= Z.max WINDOW (ACK_EVERY + M).

Lemma total_app a b : total (a ++ b) = total a + total b.
Proof. induction a as [|x a IH]; simpl; [done|]. lia. Qed.
Lemma total_nonneg l : Forall (fun n => 0 <= n) l -> 0 <= total l.
Proof. induction 1; simpl; lia. Qed.

Lemma flow_step_inv M s s' : 0 <= M -> flow_step M s s' -> flow_inv M s -> flow_inv M s'.
Proof.
  intros HM Hstep (I1 & I2 & I3 & I4 & I5 & I6 & I7 & I8 & I9 & I10).
  pose proof (total_nonneg _ I2) as Ht.
  inversion Hstep as [s0 len Hlen Hfit Hok|s0 now later Hd|s0 n acks Ha]; subst.
  - rewrite wrap64_small by (unfold u64_ok; lia).
    unfold flow_inv; simpl. rewrite total_app. simpl.
    repeat (split; [first [lia|done|apply Forall_app; split; [done|by repeat constructor; lia]]|]).
    cbn [send_wait] in Hok. unfold window_open, saturating_sub in Hok.
    rewrite Z.max_r in Hok by lia.
    destruct (Z.ltb_spec (fl_sent s - fl_acked s) ACK_EVERY); [lia|].
    destruct (Z.leb_spec (fl_sent s - fl_acked s + len)%u64 WINDOW) as [Hw|]; [|done].
    rewrite wrap64_small in Hw by (unfold u64_ok; lia). lia.
  - rewrite Hd in I1, I2. rewrite total_app in I1. apply Forall_app in I2 as [I2a I2b].
    pose proof (total_nonneg _ I2a). pose proof (total_nonneg _ I2b).
    unfold ack_policy. rewrite wrap64_small by (unfold u64_ok; lia).
    destruct (Z.leb_spec ACK_EVERY (fl_consumed s + total now - fl_acked_out s)); unfold flow_inv; cbn [fl_sent fl_acked fl_consumed fl_acked_out fl_data fl_acks fst snd option_list].
    + change (option_list (Some (fl_consumed s + total now))) with [fl_consumed s + total now].
      rewrite last_snoc. simpl.
      split; [lia|]. split; [done|]. split; [lia|]. split; [lia|]. split; [lia|].
      split; [rewrite Z.sub_diag; done|]. split; [done|]. split; [|split].
      * apply Forall_app. split; [|by repeat constructor; lia]. eapply Forall_impl; [exact I8|]. simpl. lia.
      * apply StronglySorted_app. split; [|split; [done|by repeat constructor]].
        intros x y Hx Hy%list_elem_of_singleton. subst y. rewrite Forall_forall in I8. specialize (I8 x Hx). lia.
      * lia.
    + change (option_list (@None Z)) with (@nil Z). rewrite app_nil_r. repeat (split; [first [lia|done]|]). lia.
  - rewrite Ha in I7, I8, I9. apply Forall_cons in I8 as [I8a I8b].
    apply StronglySorted_inv in I9 as [I9a I9b].
    assert (Hl : default n (last acks) = fl_acked_out s).
    { destruct acks as [|m acks]; [by simpl in I7|]. simpl in I7 |- *.
      destruct (last (m :: acks)) eqn:El; [done|by apply last_None in El]. }
    unfold flow_inv; simpl. repeat (split; [first [lia|done]|]). split; [|split; [done|lia]].
    rewrite Forall_forall in I8b, I9b |- *. intros x Hx. specialize (I8b x Hx). specialize (I9b x Hx). simpl in *. lia.
Qed.

(** ** Properties *)

(** Flow control neither stalls nor runs away: from the start, whatever the
    interleaving of sends, consumption and acknowledgements of frames of up
    to [M] bytes, once nothing is in flight the window is open for any frame,
    however large; and what is sent but not acknowledged never exceeds the
    window or one frame plus the acknowledgement interval. *)
Theorem flow_control M s :
  0 <= M -> rtc (flow_step M) flow0 s ->
  (fl_data s = [] -> fl_acks s = [] -> forall len, window_open (fl_sent s) (fl_acked s) len = true)
  /\ fl_sent s - fl_acked s <= Z.max WINDOW (ACK_EVERY + M)
  /\ total (fl_data s) <= Z.max WINDOW (ACK_EVERY + M).
Proof.
  intros HM Hr.
  assert (Hinv : flow_inv M s).
  { assert (H0 : flow_inv M flow0).
    { unfold flow_inv; simpl. repeat (split; [first [lia|done|constructor]|]). unfold WINDOW. lia. }
    revert H0. induction Hr as [|a b c H1 H2 IH]; [done|]. intros H0. by apply IH, (flow_step_inv M a b HM H1). }
  destruct Hinv as (I1 & I2 & I3 & I4 & I5 & I6 & I7 & I8 & I9 & I10). split; [|split; [done|lia]].
  intros Hd Ha len. rewrite Hd in I1. rewrite Ha in I7. simpl in I1, I7.
  unfold window_open, saturating_sub. apply orb_true_iff. right. apply Z.ltb_lt. lia.
Qed.
Lemma flow_control_witness :
  exists s, rtc (flow_step (32 * 1024 * 1024)) flow0 s /\ fl_sent s = 16777216
    /\ window_open (fl_sent s) (fl_acked s) 16777216 = true.
Proof.
  eexists.
  assert (Hr : rtc (flow_step (32 * 1024 * 1024)) flow0
    {| fl_sent := 16777216; fl_acked := 16777216; fl_consumed := 16777216; fl_acked_out := 16777216;
       fl_data := []; fl_acks := [] |}).
  { eapply rtc_l; [apply (flow_send _ flow0 16777216); [lia|done|vm_compute; reflexivity]|].
    eapply rtc_l; [apply (flow_consume _ _ [16777216] []); reflexivity|].
    eapply rtc_l; [apply (flow_ack _ _ 16777216 []); vm_compute; reflexivity|].
    apply rtc_refl. }
  split; [exact Hr|]. split; [reflexivity|].
  apply (flow_control (32 * 1024 * 1024) _ ltac:(lia) Hr); reflexivity.
Defined.

(** The io task implements that policy: a payload that unpacks is handed to a
    listening application in order, counted, and acknowledged exactly when
    [ACK_EVERY] more bytes have been consumed since the last time. *)
Theorem io_binary_spec `{JsonParser} s b fs partial' accepts :
  io_dead s = None -> io_pending s = [] -> io_closing s = false ->
  Debatcher_push (io_partial s) b = (Ok fs, partial') -> (length fs <= accepts)%nat ->
  0 <= io_acked_out s <= io_consumed s -> io_consumed s + frames_size fs < U64 ->
  io_turn true (EvItem (WsMsg (MBinary b)) accepts) s =
    let consumed := io_consumed s + frames_size fs in
    {| io_pending := []; io_partial := partial'; io_consumed := consumed;
       io_acked_out := (ack_policy consumed (io_acked_out s)).1; io_closing := false;
       io_ws := io_ws s ++ map ack_message (option_list (ack_policy consumed (io_acked_out s)).2);
       io_in := io_in s ++ fs; io_acked := io_acked s; io_dead := None |}.
Proof.
  intros Hd Hp Hc Hpush Hacc Hr Hlt. unfold io_turn. rewrite Hd, Hp. cbn [io_flush backlog sum_list_with].
  rewrite Hp. cbn [pack_frames pack_loop]. rewrite Hd, Hc. cbn [io_event_step]. rewrite Hpush.
  pose proof (frames_size_nonneg fs).
  rewrite (io_deliver_spec fs accepts (io_set_partial partial' s)) by (simpl; lia).
  cbn [io_set_partial io_pending io_partial io_consumed io_acked_out io_closing io_ws io_in io_acked io_dead].
  unfold ack_policy. destruct (ACK_EVERY <=? _); cbn; rewrite ?Hp, ?Hc, ?Hd, ?app_nil_r; reflexivity.
Qed.
Definition no_json : JsonParser := fun _ => None.
Lemma io_binary_spec_witness :
  io_in (io_turn (H := no_json) true (EvItem (WsMsg (MBinary (to_le 4 1 ++ [Byte.x41]))) 64) io0) = [[Byte.x41]].
Proof.
  rewrite (io_binary_spec (H := no_json) io0 (to_le 4 1 ++ [Byte.x41]) [[Byte.x41]] [] 64);
    [reflexivity|reflexivity|reflexivity|reflexivity|vm_compute; reflexivity|simpl; lia|done|done].
Defined.

(** Closing loses nothing: whatever the application had queued before it
    closed the channel goes out, in payloads that unpack to it, before the
    socket is closed. *)
Theorem io_close_flushes `{JsonParser} s ev :
  io_dead s = None -> io_closing s = true ->
  Forall (fun f => zlen f <= MAX_LOGICAL_FRAME) (io_pending s) ->
  exists payloads,
    io_ws (io_turn true ev s) = io_ws s ++ map MBinary payloads ++ [MClose]
    /\ io_dead (io_turn true ev s) = Some "closed"
    /\ push_all [] payloads = (Ok (io_pending s), []).
Proof.
  intros Hd Hc Hf. destruct (io_flush_spec (S (backlog (io_pending s))) s []) as (ps & He & Hp); [lia| |].
  { split; [done|]. by destruct (io_pending s). }
  exists ps. unfold io_turn. rewrite Hd, He. cbn [io_dead io_closing]. rewrite Hd, Hc. cbn.
  split; [by rewrite <- app_assoc|]. split; [done|]. rewrite Hp. by destruct (io_pending s).
Qed.
Lemma io_close_flushes_witness :
  exists payloads,
    io_ws (io_turn (H := no_json) true EvPing (io_set_closing (io_set_pending [[Byte.x41]; []] io0)))
      = [] ++ map MBinary payloads ++ [MClose]
    /\ push_all [] payloads = (Ok [[Byte.x41]; []], []).
Proof.
  destruct (io_close_flushes (H := no_json) (io_set_closing (io_set_pending [[Byte.x41]; []] io0)) EvPing)
    as (ps & H1 & _ & H3); [reflexivity|reflexivity|repeat constructor; by vm_compute|].
  exists ps. split; [exact H1|exact H3].
Defined.

(** A wait for the peer ends in one of three ways: paired, at the deadline
    with a plain error, or with [WaitClosed], on which a receiver redials. *)
Theorem wait_peer_outcomes `{JsonParser} es r :
  wait_peer es = Some r ->
  r = Ok tt
  \/ r = Err (EMsg "timed out waiting for the other side — is it running with the same code?")
  \/ exists reason, r = Err (EWaitClosed reason).
Proof.
  induction es as [|e es IH]; cbn [wait_peer]; [done|].
  destruct e as [|sent|[[t|b| |]|e|]]; try (intros [= <-]; eauto); try exact IH.
  - destruct sent; [exact IH|]. intros [= <-]. eauto.
  - destruct (parse_control t) as [[| | |n]|]; try exact IH. intros [= <-]. by left.
Qed.
Lemma wait_peer_outcomes_witness :
  wait_peer (H := no_json) [WPing true; WItem (WsMsg (MText "?")); WPing false] = Some (Err (EWaitClosed "keepalive failed"))
  /\ exists reason, (Err (EWaitClosed "keepalive failed") : res unit) = Err (EWaitClosed reason).
Proof.
  split; [reflexivity|].
  destruct (wait_peer_outcomes (H := no_json) [WPing true; WItem (WsMsg (MText "?")); WPing false]
    (Err (EWaitClosed "keepalive failed")) eq_refl) as [H|[H|H]]; [discriminate|discriminate|exact H].
Defined.
