(* ===== verification/RelayPipe.v ===== *)
(** * Two relay channels make a message channel

    [RelayChannel] of src/transport/relay.rs at both ends of a room: each
    application's queue, each io task, and what is on its way through the
    relay, which forwards in order. Together they are two first-in-first-out
    queues, which is what [MsgChannel]'s users rely on. *)

From S2P Require Import Prelude Str Pake Channel Transport RelayWire RelayFlow.

Section pipe.
Context `{JsonParser}.

(** One end: the frames its application has queued ([out_rx]), its io task,
    what the task writes once the frames it is handing over are in [in_rx]
    ([None] when it hands none over), the bytes its application has sent
    ([sent]), and the frames it has sent and taken so far. *)
Record endpoint : Type := {
  e_out : list bytes; e_io : io_state; e_owed : option (list message); e_count : Z;
  e_sent : list bytes; e_taken : list bytes }.
(** [spawn]. *)
Definition endpoint0 : endpoint :=
  {| e_out := []; e_io := io0; e_owed := None; e_count := 0; e_sent := []; e_taken := [] |}.
Definition with_io (s : io_state) (e : endpoint) : endpoint :=
  {| e_out := e_out e; e_io := s; e_owed := e_owed e; e_count := e_count e; e_sent := e_sent e; e_taken := e_taken e |}.
Definition with_owed (o : option (list message)) (e : endpoint) : endpoint :=
  {| e_out := e_out e; e_io := e_io e; e_owed := o; e_count := e_count e; e_sent := e_sent e; e_taken := e_taken e |}.

(** The places of [in_rx]. *)
Definition IN_CHANNEL : nat := 64.
(** Every frame handed over so far is in [in_rx], or taken from it. *)
Definition in_room (e : endpoint) : Prop := (length (io_in (e_io e)) <= length (e_taken e) + IN_CHANNEL)%nat.

(** What a turn wrote to the socket. *)
Definition emitted (s s' : io_state) : list message := drop (length (io_ws s)) (io_ws s').
(** A text that does not announce the other side's departure. *)
Definition quiet (t : string) : Prop := parse_control t <> Some PeerLeft.
(** The application listens to what a payload holds. *)
Definition listens (n : nat) (partial b : bytes) : Prop :=
  forall fs partial', Debatcher_push partial b = (Ok fs, partial') -> (length fs <= n)%nat.

(** A step of an end: the messages coming in before and after, and what it
    writes. An application sends when the window lets it. The io task flushes
    before it reads; while it hands frames over, it does nothing else, and the
    application may take them as they come. *)
Inductive end_step : endpoint -> list message -> option action -> endpoint -> list message -> list message -> Prop :=
| end_sends e inc f n : channel_send (e_count e) (io_acked (e_io e)) f [] = Some (Ok n) ->
    end_step e inc (Some (ASend f))
      {| e_out := e_out e ++ [f]; e_io := e_io e; e_owed := e_owed e; e_count := n;
         e_sent := e_sent e ++ [f]; e_taken := e_taken e |} inc []
| end_takes e inc f : io_in (e_io e) !! length (e_taken e) = Some f ->
    end_step e inc (Some (ATake f))
      {| e_out := e_out e; e_io := e_io e; e_owed := e_owed e; e_count := e_count e;
         e_sent := e_sent e; e_taken := e_taken e ++ [f] |} inc []
| end_flushes e inc : e_owed e = None ->
    let s' := io_flush (S (backlog (io_pending (e_io e)))) true (e_io e) in
    end_step e inc None (with_io s' e) inc (emitted (e_io e) s')
| end_queues e inc f queued rest : e_owed e = None -> e_out e = f :: queued ++ rest ->
    let s' := io_turn true (EvOut (Some (Frame f)) (map Frame queued)) (e_io e) in
    end_step e inc None
      {| e_out := rest; e_io := s'; e_owed := e_owed e; e_count := e_count e; e_sent := e_sent e; e_taken := e_taken e |}
      inc (emitted (e_io e) s')
| end_pings e inc : e_owed e = None ->
    let s' := io_turn true EvPing (e_io e) in end_step e inc None (with_io s' e) inc (emitted (e_io e) s')
| end_hears e t inc : e_owed e = None -> quiet t ->
    let s' := io_turn true (EvItem (WsMsg (MText t)) 0) (e_io e) in
    end_step e (MText t :: inc) None (with_io s' e) inc (emitted (e_io e) s')
| end_reads e b n inc : e_owed e = None -> io_pending (e_io e) = [] -> listens n (io_partial (e_io e)) b ->
    let s' := io_turn true (EvItem (WsMsg (MBinary b)) n) (e_io e) in
    end_step e (MBinary b :: inc) None (with_owed (Some (emitted (e_io e) s')) (with_io s' e)) inc []
| end_resumes e inc em : e_owed e = Some em -> in_room e ->
    end_step e inc None (with_owed None e) inc em.

(** Both ends and both directions; [swap] looks at it from the other side. *)
Record pipe : Type := { p_left : endpoint; p_right : endpoint; p_lr : list message; p_rl : list message }.
Definition pipe0 : pipe := {| p_left := endpoint0; p_right := endpoint0; p_lr := []; p_rl := [] |}.
Definition swap (c : pipe) : pipe :=
  {| p_left := p_right c; p_right := p_left c; p_lr := p_rl c; p_rl := p_lr c |}.
(** A step of the left end, a text of the relay's own to it, or a text of its
    own that the relay does not pass on. *)
Inductive left_step : pipe -> option action -> pipe -> Prop :=
| left_moves l r lr rl a l' rl' em : end_step l rl a l' rl' em ->
    left_step {| p_left := l; p_right := r; p_lr := lr; p_rl := rl |} a
              {| p_left := l'; p_right := r; p_lr := lr ++ em; p_rl := rl' |}
| relay_says l r lr rl rl' t : quiet t ->
    left_step {| p_left := l; p_right := r; p_lr := lr; p_rl := rl ++ rl' |} None
              {| p_left := l; p_right := r; p_lr := lr; p_rl := rl ++ MText t :: rl' |}
| relay_takes l r lr lr' rl t :
    left_step {| p_left := l; p_right := r; p_lr := lr ++ MText t :: lr'; p_rl := rl |} None
              {| p_left := l; p_right := r; p_lr := lr ++ lr'; p_rl := rl |}.
Inductive side : Type := LeftEnd | RightEnd.
Inductive pipe_step : pipe -> option (side * action) -> pipe -> Prop :=
| step_left c a c' : left_step c a c' -> pipe_step c (pair LeftEnd <$> a) c'
| step_right c a c' : left_step (swap c) a (swap c') -> pipe_step c (pair RightEnd <$> a) c'.
(** A run, and what the applications did. *)
Inductive pipe_run : pipe -> list (side * action) -> pipe -> Prop :=
| run_nil c : pipe_run c [] c
| run_step c a c1 tr c2 : pipe_step c a c1 -> pipe_run c1 tr c2 -> pipe_run c (option_list a ++ tr) c2.

(** ** The specification: two queues *)

(** To the right, to the left; [None] is an action the queues do not allow. *)
Definition fifo1 (q : list bytes * list bytes) (x : side * action) : option (list bytes * list bytes) :=
  match x with
  | (LeftEnd, ASend f) => Some (q.1 ++ [f], q.2)
  | (RightEnd, ASend f) => Some (q.1, q.2 ++ [f])
  | (LeftEnd, ATake f) => match q.2 with g :: l => if decide (f = g) then Some (q.1, l) else None | [] => None end
  | (RightEnd, ATake f) => match q.1 with g :: l => if decide (f = g) then Some (l, q.2) else None | [] => None end
  end.
Definition fifo (q : list bytes * list bytes) (tr : list (side * action)) : option (list bytes * list bytes) :=
  foldl (fun o x => q ← o; fifo1 q x) (Some q) tr.

(** ** The invariant *)

Definition binaries (ms : list message) : list bytes :=
  omap (fun m => match m with MBinary b => Some b | _ => None end) ms.
(** What may be read without the channel ending. *)
Definition readable (m : message) : Prop := match m with MText t => quiet t | MBinary _ => True | _ => False end.
Definition alive (e : endpoint) : Prop :=
  io_dead (e_io e) = None /\ io_closing (e_io e) = false
  /\ Forall (fun f => zlen f <= MAX_LOGICAL_FRAME) (e_out e)
  /\ e_taken e `prefix_of` io_in (e_io e)
  /\ Forall readable (default [] (e_owed e)) /\ binaries (default [] (e_owed e)) = [].
(** What the payloads under way unpack to, and the frames still queued, come
    after what the other end has, and make up what was sent. *)
Definition in_flight (x y : endpoint) (wire : list message) : Prop :=
  exists outs p, push_all (io_partial (e_io y)) (binaries wire) = (Ok outs, p)
    /\ in_step p (io_pending (e_io x))
    /\ io_in (e_io y) ++ outs ++ to_come p (io_pending (e_io x)) ++ e_out x = e_sent x.
Definition pipe_inv (c : pipe) : Prop :=
  alive (p_left c) /\ alive (p_right c)
  /\ in_flight (p_left c) (p_right c) (p_lr c) /\ in_flight (p_right c) (p_left c) (p_rl c)
  /\ Forall readable (p_lr c) /\ Forall readable (p_rl c).
Lemma pipe_inv_swap c : pipe_inv c -> pipe_inv (swap c).
Proof. by intros (? & ? & ? & ? & ? & ?). Qed.

Lemma binaries_app a b : binaries (a ++ b) = binaries a ++ binaries b.
Proof. apply omap_app. Qed.
Lemma binaries_map ps : binaries (map MBinary ps) = ps.
Proof. induction ps as [|p ps IH]; [done|]. unfold binaries in *. cbn. by rewrite IH. Qed.
Lemma push_all_app p ps out1 p1 qs out2 p2 :
  push_all p ps = (Ok out1, p1) -> push_all p1 qs = (Ok out2, p2) -> push_all p (ps ++ qs) = (Ok (out1 ++ out2), p2).
Proof.
  revert p out1. induction ps as [|b ps IH]; intros p out1; cbn [push_all app].
  - by intros [= <- <-].
  - destruct (Debatcher_push p b) as [[out|e|] p']; [|done..].
    destruct (push_all p' ps) as [[out'|e|] q] eqn:E; [|done..]. intros [= <- <-] H2.
    rewrite (IH p' out' E H2). by rewrite app_assoc.
Qed.

(** ** What a turn does *)

(** The io task after its flush, [ps] being the payloads it wrote. *)
Definition flushed (ps : list bytes) (s : io_state) : io_state :=
  {| io_pending := []; io_partial := io_partial s; io_consumed := io_consumed s;
     io_acked_out := io_acked_out s; io_closing := io_closing s; io_ws := io_ws s ++ map MBinary ps;
     io_in := io_in s; io_acked := io_acked s; io_dead := io_dead s |}.
Lemma flush_ok p s : in_step p (io_pending s) ->
  exists ps, io_flush (S (backlog (io_pending s))) true s = flushed ps s
    /\ push_all p ps = (Ok (to_come p (io_pending s)), []).
Proof. intros Hs. apply io_flush_spec; [lia|done]. Qed.
Lemma turn_ok p s : io_dead s = None -> io_closing s = false -> in_step p (io_pending s) ->
  exists ps, push_all p ps = (Ok (to_come p (io_pending s)), [])
    /\ forall ev, io_turn true ev s = io_event_step true ev (flushed ps s).
Proof.
  intros Hd Hc Hs. destruct (flush_ok p s Hs) as (ps & He & Hp). exists ps. split; [done|].
  intros ev. unfold io_turn. rewrite Hd, He. cbn [flushed io_dead io_closing]. by rewrite Hd, Hc.
Qed.
Lemma drop_ws (a b : list message) : drop (length a) (a ++ b) = b.
Proof. by apply drop_app_length. Qed.

(** Whatever the counters do, the frames reach the application. *)
Lemma deliver_ok fs n s : (length fs <= n)%nat ->
  let s' := io_deliver n fs s in
  io_in s' = io_in s ++ fs /\ io_pending s' = io_pending s /\ io_partial s' = io_partial s
  /\ io_closing s' = io_closing s /\ io_ws s' = io_ws s /\ io_dead s' = io_dead s.
Proof.
  revert n s. induction fs as [|f fs IH]; intros n s Hn; cbn [io_deliver].
  - by rewrite app_nil_r.
  - destruct n as [|n]; [simpl in Hn; lia|]. simpl in Hn.
    destruct (IH n (io_consume f true s) ltac:(lia)) as (-> & -> & -> & -> & -> & ->). cbn. by rewrite <- app_assoc.
Qed.
Lemma drain_ok l s : drain_out (map Frame l) s = io_set_pending (io_pending s ++ l) s.
Proof.
  revert s. induction l as [|f l IH]; intros s; cbn [map drain_out].
  - rewrite app_nil_r. by destruct s.
  - rewrite IH. cbn. by rewrite <- app_assoc.
Qed.

(** What an event does to a live, flushed io task: it stays alive, what it
    queues is pending, what it writes is readable and no payload, and a
    payload's frames reach the application. *)
Hypothesis Hping : quiet PING.
Hypothesis Hack : forall n, readable (ack_message n).

Definition kept (s s' : io_state) (em : list message) : Prop :=
  io_dead s' = None /\ io_closing s' = false /\ io_pending s' = [] /\ io_ws s' = io_ws s ++ em
  /\ Forall readable em /\ binaries em = [].
Lemma ping_ok s : io_dead s = None -> io_closing s = false -> io_pending s = [] ->
  exists em, kept s (io_event_step true EvPing s) em
    /\ io_partial (io_event_step true EvPing s) = io_partial s /\ io_in (io_event_step true EvPing s) = io_in s.
Proof. intros ???. exists [MText PING]. split; [|done]. split_and!; try done. by constructor. Qed.
Lemma hear_ok s t : quiet t -> io_dead s = None -> io_closing s = false -> io_pending s = [] ->
  let s' := io_event_step true (EvItem (WsMsg (MText t)) 0) s in
  kept s s' [] /\ io_partial s' = io_partial s /\ io_in s' = io_in s.
Proof.
  intros Hq ???. cbn [io_event_step]. unfold quiet in Hq. unfold kept. rewrite app_nil_r.
  destruct (parse_control t) as [[]|]; by split_and!.
Qed.
Lemma read_ok s b n fs partial' : Debatcher_push (io_partial s) b = (Ok fs, partial') -> (length fs <= n)%nat ->
  io_dead s = None -> io_closing s = false -> io_pending s = [] ->
  let s' := io_event_step true (EvItem (WsMsg (MBinary b)) n) s in
  exists em, kept s s' em /\ io_partial s' = partial' /\ io_in s' = io_in s ++ fs.
Proof.
  intros Hpush Hn Hd Hc Hp. cbn [io_event_step]. rewrite Hpush.
  destruct (deliver_ok fs n (io_set_partial partial' s) Hn) as (E1 & E2 & E3 & E4 & E5 & E6). cbn in E1, E2, E3, E4, E5, E6.
  set (s1 := io_deliver n fs (io_set_partial partial' s)) in *. unfold kept. destruct (ACK_EVERY <=? _).
  - exists [ack_message (io_consumed (io_set_acked_out s1))]. cbn. rewrite E1, E2, E3, E4, E5, E6. split_and!; try done.
    by constructor.
  - exists []. rewrite E1, E2, E3, E4, E5, E6, app_nil_r. by split_and!.
Qed.

(** ** What a step of an end does to both directions *)

Definition sends (a : option action) : list bytes := match a with Some (ASend f) => [f] | _ => [] end.
Definition takes (a : option action) : list bytes := match a with Some (ATake f) => [f] | _ => [] end.

(** Outgoing: [p] is what the other end will have of the first pending frame. *)
Definition goes_out (p : bytes) (e : endpoint) (a : option action) (e' : endpoint) (em : list message) : Prop :=
  exists outs p', push_all p (binaries em) = (Ok outs, p') /\ in_step p' (io_pending (e_io e'))
    /\ outs ++ to_come p' (io_pending (e_io e')) ++ e_out e'
       = to_come p (io_pending (e_io e)) ++ e_out e ++ sends a.
(** Incoming: [outs] is what the payloads under way unpack to. *)
Definition comes_in (outs q : _) (e : endpoint) (e' : endpoint) (inc' : list message) : Prop :=
  exists outs', push_all (io_partial (e_io e')) (binaries inc') = (Ok outs', q)
    /\ io_in (e_io e') ++ outs' = io_in (e_io e) ++ outs.
Definition step_ok (p : bytes) (outs q : _) (e : endpoint) (a : option action) (e' : endpoint)
    (inc' em : list message) : Prop :=
  alive e' /\ Forall readable inc' /\ Forall readable em
  /\ e_sent e' = e_sent e ++ sends a /\ e_taken e' = e_taken e ++ takes a
  /\ goes_out p e a e' em /\ comes_in outs q e e' inc'.

Lemma to_come_app p pending l : (pending = [] -> p = []) -> to_come p (pending ++ l) = to_come p pending ++ to_come [] l.
Proof. destruct pending; [intros ->; [done|done]|]. intros _. cbn. by destruct l. Qed.
Lemma to_come_nil l : to_come [] l = l.
Proof. by destruct l. Qed.

(** A turn that flushed [ps], kept the rest alive and wrote [em]. *)
Lemma turn_out p ps e s' em : in_step p (io_pending (e_io e)) ->
  push_all p ps = (Ok (to_come p (io_pending (e_io e))), []) ->
  kept (flushed ps (e_io e)) s' em ->
  Forall readable (emitted (e_io e) s') /\ goes_out p e None (with_io s' e) (emitted (e_io e) s').
Proof.
  intros Hs Hp (_ & _ & K3 & K4 & K5 & K6).
  assert (Hem : emitted (e_io e) s' = map MBinary ps ++ em).
  { unfold emitted. rewrite K4. cbn [flushed io_ws]. rewrite <- app_assoc. apply drop_ws. }
  rewrite Hem. split.
  - apply Forall_app. split; [|done]. apply Forall_map, Forall_true. done.
  - exists (to_come p (io_pending (e_io e))), []. rewrite binaries_app, binaries_map, K6, app_nil_r.
    split; [done|]. cbn [with_io e_io e_out sends]. rewrite K3. split; [by split|]. by rewrite app_nil_r.
Qed.
Lemma flush_kept ps s : io_dead s = None -> io_closing s = false -> kept (flushed ps s) (flushed ps s) [].
Proof. intros ??. split_and!; try done. by rewrite app_nil_r. Qed.

Lemma channel_send_ok sent acked f n : channel_send sent acked f [] = Some (Ok n) ->
  zlen f <= MAX_LOGICAL_FRAME /\ window_open sent acked (zlen f) = true /\ n = (sent + zlen f)%u64.
Proof.
  unfold channel_send. destruct (Z.ltb_spec MAX_LOGICAL_FRAME (zlen f)); [done|]. cbn [send_wait].
  destruct (window_open _ _ _); [|done]. by intros [= <-].
Qed.
(** A turn that brings the application [fs]. *)
Lemma turn_step_ok p ps outs outs' q e s' em fs inc' :
  alive e -> in_step p (io_pending (e_io e)) -> push_all p ps = (Ok (to_come p (io_pending (e_io e))), []) ->
  kept (flushed ps (e_io e)) s' em -> io_in s' = io_in (e_io e) ++ fs -> Forall readable inc' ->
  push_all (io_partial s') (binaries inc') = (Ok outs', q) -> outs = fs ++ outs' ->
  step_ok p outs q e None (with_io s' e) inc' (emitted (e_io e) s').
Proof.
  intros (Hd & Hc & Hout & Htk & Hro & Hbo) Hs Hps Hk Hin Hinc Hpush ->.
  destruct (turn_out p ps e _ em Hs Hps Hk) as [Hr Hg]. destruct Hk as (K1 & K2 & _).
  split_and!; cbn [with_io e_io e_out e_owed e_sent e_taken sends takes]; rewrite ?app_nil_r; try done.
  - split_and!; try done. cbn [with_io e_io e_taken]. rewrite Hin. by apply prefix_app_r.
  - exists outs'. cbn [with_io e_io]. rewrite Hin. split; [done|]. by rewrite <- app_assoc.
Qed.
Lemma turn_idle ev s : io_dead s = None -> io_closing s = false -> io_pending s = [] ->
  io_turn true ev s = io_event_step true ev s.
Proof. intros Hd Hc Hp. unfold io_turn. rewrite Hd, Hp. cbn [backlog list_sum io_flush]. rewrite Hp. cbn. by rewrite Hd, Hc. Qed.

Lemma queues_ok p outs q e inc f queued rest :
  e_out e = f :: queued ++ rest -> alive e -> Forall readable inc -> in_step p (io_pending (e_io e)) ->
  push_all (io_partial (e_io e)) (binaries inc) = (Ok outs, q) ->
  let s' := io_turn true (EvOut (Some (Frame f)) (map Frame queued)) (e_io e) in
  step_ok p outs q e None
    {| e_out := rest; e_io := s'; e_owed := e_owed e; e_count := e_count e; e_sent := e_sent e; e_taken := e_taken e |}
    inc (emitted (e_io e) s').
Proof.
  intros Hq (Hd & Hc & Hout & Htk & Hro & Hbo) Hinc Hs Hin. destruct (turn_ok p (e_io e) Hd Hc Hs) as (ps & Hps & Hturn).
  cbn zeta. rewrite Hturn. cbn [io_event_step]. set (s1 := flushed ps (e_io e)).
  assert (E : drain_out (map Frame queued) (io_set_pending (io_pending s1 ++ [f]) s1) = io_set_pending (f :: queued) s1)
    by (rewrite drain_ok; reflexivity).
  rewrite E. rewrite Hq in Hout. change (f :: queued ++ rest) with ((f :: queued) ++ rest) in Hout, Hq. apply Forall_app in Hout as [Hfq Hrest].
  assert (Hem : emitted (e_io e) (io_set_pending (f :: queued) s1) = map MBinary ps) by apply drop_ws.
  rewrite Hem. split_and!; try done; cbn [e_io e_out e_taken e_sent e_owed sends takes]; rewrite ?app_nil_r; try done.
  - apply Forall_map, Forall_true. done.
  - exists (to_come p (io_pending (e_io e))), []. rewrite binaries_map. split; [done|].
    cbn [e_io io_pending io_set_pending e_out sends]. split; [by split|]. by rewrite to_come_nil, Hq, app_nil_r.
  - by exists outs.
Qed.
Lemma reads_ok p outs q e b n inc :
  io_pending (e_io e) = [] -> listens n (io_partial (e_io e)) b -> e_owed e = None ->
  alive e -> Forall readable inc -> in_step p (io_pending (e_io e)) ->
  push_all (io_partial (e_io e)) (b :: binaries inc) = (Ok outs, q) ->
  let s' := io_turn true (EvItem (WsMsg (MBinary b)) n) (e_io e) in
  step_ok p outs q e None (with_owed (Some (emitted (e_io e) s')) (with_io s' e)) inc [].
Proof.
  intros Hpe Hl Ho (Hd & Hc & Hout & Htk & Hro & Hbo) Hinc Hs Hin. cbn [push_all] in Hin.
  destruct (Debatcher_push (io_partial (e_io e)) b) as [[fs|er|] partial'] eqn:Epush; [|done..].
  destruct (push_all partial' (binaries inc)) as [[outs'|er|] q'] eqn:Erest; [|done..]. injection Hin as <- <-.
  destruct (read_ok (e_io e) b n fs partial' Epush (Hl fs partial' Epush) Hd Hc Hpe) as (em & (K1 & K2 & K3 & K4 & K5 & K6) & Hpa & Hi).
  cbn zeta. rewrite turn_idle by done. unfold emitted. rewrite K4, drop_ws.
  split_and!; cbn [with_owed with_io e_io e_out e_sent e_taken sends takes]; rewrite ?app_nil_r; try done.
  - split_and!; try done. cbn [with_owed with_io e_io e_taken]. rewrite Hi. by apply prefix_app_r.
  - exists [], p. cbn [with_owed with_io e_io e_out sends]. rewrite K3, Hpe, app_nil_r in *. by split_and!.
  - exists outs'. cbn [with_owed with_io e_io]. rewrite Hpa, Hi. split; [exact Erest|]. by rewrite <- app_assoc.
Qed.

Lemma end_step_ok e inc a e' inc' em p outs q :
  end_step e inc a e' inc' em -> alive e -> Forall readable inc -> in_step p (io_pending (e_io e)) ->
  push_all (io_partial (e_io e)) (binaries inc) = (Ok outs, q) ->
  step_ok p outs q e a e' inc' em.
Proof.
  intros Hstep Hal Hinc Hs Hin. pose proof Hal as (Hd & Hc & Hout & Htk & Hro & Hbo).
  destruct (turn_ok p (e_io e) Hd Hc Hs) as (ps & Hps & Hturn).
  pose proof (flush_kept ps (e_io e) Hd Hc) as (F1 & F2 & F3 & _).
  destruct Hstep as [e inc f n Hf|e inc f Hf|e inc Ho s'|e inc f queued rest Ho Hq s'|e inc Ho s'|e t inc Ho Hqt s'|e b n inc Ho Hpe Hl s'|e inc em Ho Hroom].
  - apply channel_send_ok in Hf as (Hf & _). unfold step_ok, alive. split_and!; cbn; rewrite ?app_nil_r; try done.
    + apply Forall_app. split; [done|]. by constructor.
    + by exists [], p.
    + by exists outs.
  - unfold step_ok, alive. split_and!; cbn; rewrite ?app_nil_r; try done.
    + destruct Htk as [l Hl]. rewrite Hl in Hf |- *. rewrite lookup_app_r, Nat.sub_diag in Hf by lia.
      destruct l as [|g l]; [done|]. injection Hf as ->. exists l. by rewrite <- app_assoc.
    + exists [], p. cbn. by rewrite app_nil_r.
    + by exists outs.
  - destruct (flush_ok p (e_io e) Hs) as (ps' & He & Hps'). unfold s'. rewrite He. clear s'.
    apply (turn_step_ok p ps' outs outs q e _ [] []); try done; [by apply flush_kept|by rewrite app_nil_r].
  - by apply queues_ok.
  - destruct (ping_ok (flushed ps (e_io e)) F1 F2 F3) as (em & Hk & Hpa & Hi). unfold s'. rewrite Hturn. clear s'.
    apply (turn_step_ok p ps outs outs q e _ em []); try done. by rewrite app_nil_r, Hi.
  - apply Forall_cons in Hinc as [_ Hinc].
    destruct (hear_ok (flushed ps (e_io e)) t Hqt F1 F2 F3) as (Hk & Hpa & Hi). unfold s'. rewrite Hturn. clear s'.
    apply (turn_step_ok p ps outs outs q e _ [] []); try done; [by rewrite app_nil_r, Hi|by rewrite Hpa].
  - apply Forall_cons in Hinc as [_ Hinc]. by apply reads_ok.
  - rewrite Ho in Hro, Hbo. unfold step_ok, alive. split_and!; cbn [with_owed e_io e_out e_owed e_sent e_taken sends takes default]; rewrite ?app_nil_r; try done.
    + exists [], p. split; [by change (binaries em = []) in Hbo; rewrite Hbo|]. cbn. by rewrite app_nil_r.
    + by exists outs.
Qed.

(** ** The simulation *)

(** The queues a state of the two ends stands for. *)
Definition queues (c : pipe) : list bytes * list bytes :=
  (drop (length (e_taken (p_right c))) (e_sent (p_left c)), drop (length (e_taken (p_left c))) (e_sent (p_right c))).

Lemma in_prefix x y wire : in_flight x y wire -> io_in (e_io y) `prefix_of` e_sent x.
Proof. intros (outs & p & _ & _ & <-). by apply prefix_app_r. Qed.
Lemma taken_sent x y wire : alive y -> in_flight x y wire -> e_taken y `prefix_of` e_sent x.
Proof. intros (_ & _ & _ & Ht & _) Hf. etrans; [exact Ht|by eapply in_prefix]. Qed.

Definition side_action (s : side) (a : option action) (q q' : list bytes * list bytes) : Prop :=
  match a with None => q' = q | Some x => fifo1 q (s, x) = Some q' end.
(** A text on the wire changes nothing. *)
Lemma in_flight_text x y w t w' : in_flight x y (w ++ MText t :: w') <-> in_flight x y (w ++ w').
Proof.
  assert (E : binaries (w ++ MText t :: w') = binaries (w ++ w')) by (rewrite !binaries_app; reflexivity).
  unfold in_flight. by rewrite E.
Qed.
Lemma left_step_ok c a c' : left_step c a c' -> pipe_inv c ->
  pipe_inv c' /\ side_action LeftEnd a (queues c) (queues c').
Proof.
  intros Hstep (Hal & Har & Hlr & Hrl & Rlr & Rrl). destruct Hstep as [l r lr rl a l' rl' em Hs|l r lr rl rl' t Ht|l r lr lr' rl t]; cbn [p_left p_right p_lr p_rl] in *.
  - pose proof (taken_sent l r lr Har Hlr) as Hts. pose proof (in_prefix r l rl Hrl) as Hin.
    destruct Hlr as (outs & p & Hp & Hsp & Heq), Hrl as (outs2 & q & Hq & Hsq & Heq2).
    destruct (end_step_ok l rl a l' rl' em p outs2 q Hs Hal Rrl Hsp Hq) as (Hal' & Rrl' & Rem & Es & Et & (o1 & p1 & G1 & G2 & G3) & (o2 & C1 & C2)).
    split.
    + split_and!; cbn [p_left p_right p_lr p_rl]; [done|done| | |by apply Forall_app|done].
      * exists (outs ++ o1), p1. rewrite binaries_app. split; [by eapply push_all_app|]. split; [done|].
        rewrite Es, <- Heq, <- !app_assoc. by rewrite G3.
      * exists o2, q. split; [done|]. split; [done|]. rewrite <- Heq2, !app_assoc. by rewrite C2.
    + unfold queues. cbn [p_left p_right p_lr p_rl side_action]. rewrite Es, Et. unfold side_action.
      destruct a as [[f|f]|]; cbn [sends takes]; rewrite ?app_nil_r; [| |done].
      * cbn. rewrite drop_app_le; [done|]. by apply prefix_length.
      * inversion Hs as [|e0 i0 f0 Hf| | | | | |]; subst. cbn. rewrite length_app. cbn. rewrite Nat.add_1_r.
        eapply prefix_lookup_Some in Hin; [|exact Hf]. rewrite (drop_S _ f _ Hin). by rewrite decide_True.
  - split; [|done]. split_and!; cbn [p_left p_right p_lr p_rl]; try done.
    + by apply in_flight_text.
    + apply Forall_app in Rrl as [??]. apply Forall_app. split; [done|]. by constructor.
  - split; [|done]. split_and!; cbn [p_left p_right p_lr p_rl]; try done.
    + by eapply in_flight_text.
    + apply Forall_app in Rlr as [? [_ ?]%Forall_cons]. by apply Forall_app.
Qed.
Lemma step_simulates c a c' : pipe_step c a c' -> pipe_inv c ->
  pipe_inv c' /\ fifo (queues c) (option_list a) = Some (queues c').
Proof.
  intros [c1 a1 c1' Hs|c1 a1 c1' Hs] Hi.
  - destruct (left_step_ok _ _ _ Hs Hi) as [Hi' Ha]. split; [done|]. destruct a1; cbn in *; [done|by rewrite Ha].
  - destruct (left_step_ok _ _ _ Hs (pipe_inv_swap _ Hi)) as [Hi' Ha]. split; [by apply pipe_inv_swap in Hi'; destruct c1'|].
    unfold side_action, queues in *. cbn [swap p_left p_right] in Ha. destruct a1 as [[f|f]|]; cbn in *.
    + by injection Ha as -> ->.
    + destruct (drop (length (e_taken (p_right c1))) (e_sent (p_left c1))) as [|g l']; [done|].
      destruct (decide (f = g)); [|done]. by injection Ha as -> ->.
    + by injection Ha as -> ->.
Qed.
Lemma fifo_app q a b : fifo q (a ++ b) = q' ← fifo q a; fifo q' b.
Proof.
  unfold fifo. rewrite foldl_app. generalize (foldl (fun o x => q0 ← o; fifo1 q0 x) (Some q) a). intros [q'|]; [done|].
  cbn. induction b as [|x b IH]; [done|exact IH].
Qed.
Lemma run_simulates c tr c' : pipe_run c tr c' -> pipe_inv c ->
  pipe_inv c' /\ fifo (queues c) tr = Some (queues c').
Proof.
  induction 1 as [c|c a c1 tr c2 Hs _ IH]; intros Hi; [done|].
  destruct (step_simulates _ _ _ Hs Hi) as [Hi1 Hq]. destruct (IH Hi1) as [Hi2 Hq2].
  split; [done|]. by rewrite fifo_app, Hq.
Qed.

Lemma run_trans c tr c1 tr2 c2 : pipe_run c tr c1 -> pipe_run c1 tr2 c2 -> pipe_run c (tr ++ tr2) c2.
Proof.
  induction 1 as [c|c a c0 tr c1 Hs _ IH]; intros H2; [done|]. rewrite <- app_assoc. eapply run_step; [done|by apply IH].
Qed.

(** ** Everything sent arrives *)

(** What an end does on its own leaves what its application has done. *)
Definition same_app (e e' : endpoint) : Prop := e_sent e' = e_sent e /\ e_taken e' = e_taken e /\ e_count e' = e_count e.
Definition idle_end (e : endpoint) : Prop := e_out e = [] /\ io_pending (e_io e) = [].
#[export] Instance same_app_refl : Reflexive same_app.
Proof. by intros e. Qed.
#[export] Instance same_app_trans : Transitive same_app.
Proof. intros e1 e2 e3 (?&?&?) (?&?&?). split_and!; congruence. Qed.

(** The frames a payload holds. *)
Definition frames_in (partial b : bytes) : nat :=
  match Debatcher_push partial b with (Ok fs, _) => length fs | _ => 0 end.
(** An end whose other end is idle and whose wire is empty has it all. *)
Lemma all_arrived x y : in_flight x y [] -> idle_end x -> io_in (e_io y) = e_sent x.
Proof.
  intros (outs & p & Hp & _ & Heq) [Ho Hpe]. cbn in Hp. injection Hp as <- <-.
  rewrite Ho, Hpe in Heq. cbn in Heq. by rewrite app_nil_r in Heq.
Qed.
End pipe.

(** ** Property *)

Lemma pipe0_inv `{JsonParser} : pipe_inv pipe0.
Proof.
  assert (Ha : alive endpoint0) by (split_and!; try done; constructor).
  assert (Hf : in_flight endpoint0 endpoint0 []) by (exists [], []; repeat split; try done; constructor).
  split_and!; try done; constructor.
Qed.

(** Two relay channels refine a pair of first-in-first-out queues: in any run
    of both ends, with frames up to the limit, whatever the io tasks batch,
    split, acknowledge and ping, however long an application lets frames wait,
    and whatever the relay says in between, the applications send and take
    exactly as the queues allow, in order, each frame whole and once; and
    neither end dies. The parser must read pings and acknowledgements as
    something other than the peer's departure. *)
Theorem relay_refines_fifo `{JsonParser} tr c :
  quiet PING -> (forall n, readable (ack_message n)) -> pipe_run pipe0 tr c ->
  fifo ([], []) tr = Some (queues c) /\ io_dead (e_io (p_left c)) = None /\ io_dead (e_io (p_right c)) = None.
Proof.
  intros Hp Ha Hr. destruct (run_simulates Hp Ha _ _ _ Hr pipe0_inv) as [((Hl & _) & (Hd & _) & _) Hq]. done.
Qed.

(** ** Closing *)

(** [close]: [Close] goes behind what the application has queued; then it waits
    for the io task to be dead, 5 s at most: [dead] is what the task shows
    while it waits, [None] the end of its sender. Its outcome does not
    matter. *)
Definition close_queue (e : endpoint) : list OutMsg := map Frame (e_out e) ++ [Close].
Fixpoint close_wait (seen : option string) (dead : list (option (option string))) : bool :=
  match seen with
  | Some _ => true
  | None => match dead with
            | Some d :: dead' => close_wait d dead'
            | None :: _ => true
            | [] => false
            end
  end.
(** How the io task takes what is queued. *)
Definition take_queue (q : list OutMsg) : io_event := EvOut (head q) (tail q).

Lemma drain_close l s : drain_out (map Frame l ++ [Close]) s = io_set_closing (io_set_pending (io_pending s ++ l) s).
Proof.
  revert s. induction l as [|f l IH]; intros s; cbn [map app drain_out].
  - rewrite app_nil_r. by destruct s.
  - rewrite IH. cbn. by rewrite <- app_assoc.
Qed.
(** A closed channel loses nothing: from any point of a run at which the io
    task does not wait for the application, once that has closed its end, two turns of the io task write all that
    was sent and not yet on its way, in payloads the other end unpacks to
    exactly that, then close the socket, and the wait in [close] is over. *)
Theorem close_flushes_queue `{JsonParser} e p ev dead :
  alive e -> in_step p (io_pending (e_io e)) ->
  let s := io_turn true ev (io_turn true (take_queue (close_queue e)) (e_io e)) in
  (exists payloads, emitted (e_io e) s = map MBinary payloads ++ [MClose]
    /\ push_all p payloads = (Ok (to_come p (io_pending (e_io e)) ++ e_out e), []))
  /\ io_dead s = Some "closed"
  /\ close_wait None (Some (io_dead s) :: dead) = true.
Proof.
  intros (Hd & Hc & Hf & _) Hs. destruct (turn_ok p (e_io e) Hd Hc Hs) as (ps & Hp & Ht).
  rewrite Ht. set (s0 := flushed ps (e_io e)).
  assert (E : io_event_step true (take_queue (close_queue e)) s0 = io_set_closing (io_set_pending (e_out e) s0)).
  { unfold take_queue, close_queue. destruct (e_out e) as [|f l]; [done|].
    cbn [map app head tail io_event_step]. by rewrite drain_close. }
  rewrite E. cbn zeta.
  destruct (io_close_flushes (io_set_closing (io_set_pending (e_out e) s0)) ev Hd eq_refl Hf) as (qs & Hw & Hdead & Hq).
  rewrite Hdead. split; [|split; [done|by destruct dead]]. exists (ps ++ qs). split.
  - unfold emitted. rewrite Hw. cbn [io_set_closing io_set_pending io_ws s0 flushed].
    by rewrite map_app, <- !app_assoc, drop_ws.
  - by apply (push_all_app _ _ _ []).
Qed.

Module Example.
#[local] Existing Instance no_json.
Definition queued2 : endpoint :=
  {| e_out := [[Byte.x41]; []]; e_io := io0; e_owed := None; e_count := 1; e_sent := [[Byte.x41]; []]; e_taken := [] |}.
Lemma close_flushes_queue_witness :
  exists payloads,
    emitted io0 (io_turn true EvPing (io_turn true (take_queue (close_queue queued2)) io0))
      = map MBinary payloads ++ [MClose]
    /\ push_all [] payloads = (Ok [[Byte.x41]; []], []).
Proof.
  destruct (close_flushes_queue queued2 [] EvPing []) as [(ps & H1 & H2) _].
  - split_and!; [done|done|repeat constructor; by vm_compute|apply prefix_nil|constructor|done].
  - split; [done|constructor].
  - exists ps. split; [exact H1|exact H2].
Defined.
Definition sent1 (f : bytes) : endpoint :=
  {| e_out := [f]; e_io := io0; e_owed := None; e_count := zlen f; e_sent := [f]; e_taken := [] |}.
Lemma relay_refines_fifo_witness :
  exists c, pipe_run pipe0 [(LeftEnd, ASend [Byte.x41]); (RightEnd, ASend [])] c /\ queues c = ([[Byte.x41]], [[]]).
Proof.
  set (l1 := sent1 [Byte.x41]). set (r1 := sent1 []). set (c := {| p_left := l1; p_right := r1; p_lr := []; p_rl := [] |}).
  assert (Hr : pipe_run pipe0 [(LeftEnd, ASend [Byte.x41]); (RightEnd, ASend [])] c).
  { apply (run_step pipe0 (Some (LeftEnd, ASend [Byte.x41])) {| p_left := l1; p_right := endpoint0; p_lr := []; p_rl := [] |} [(RightEnd, ASend [])]).
    - apply (step_left pipe0 (Some (ASend [Byte.x41])) {| p_left := l1; p_right := endpoint0; p_lr := []; p_rl := [] |}).
      apply (left_moves endpoint0 endpoint0 [] [] _ l1 [] []), end_sends. vm_compute. reflexivity.
    - apply (run_step _ (Some (RightEnd, ASend [])) c []); [|constructor].
      apply (step_right {| p_left := l1; p_right := endpoint0; p_lr := []; p_rl := [] |} (Some (ASend [])) c).
      apply (left_moves endpoint0 l1 [] [] _ r1 [] []), end_sends. vm_compute. reflexivity. }
  pose proof (relay_refines_fifo [(LeftEnd, ASend [Byte.x41]); (RightEnd, ASend [])] c) as Hth. ospecialize (Hth _ _ Hr);
    [unfold quiet; vm_compute; discriminate|intros n; unfold ack_message, readable, quiet; vm_compute; discriminate|].
  exists c. split; [exact Hr|]. destruct Hth as [Hq _]. change (Some ([[Byte.x41]], [[]]) = Some (queues c)) in Hq. congruence.
Defined.
End Example.
