(* ===== verification/RelayRoom.v ===== *)
(** * The relay: what a room promises, and the two relays there are

    relay-worker/src/index.js is the relay people run, a Durable Object per
    room; src/transport/mock.rs is the relay of the offline tests. Both pair
    one sender and one receiver and forward what they say. *)

From S2P Require Import Prelude Str Libs Pake RelayWire RelayFlow.

Definition tagged (t : string) : string :=
  "{" +:+ String "034" "t" +:+ String "034" ":" +:+ String "034" t +:+ String "034" "}".
Definition PEER_JOINED : message := MText (tagged "peer-joined").
Definition PEER_LEFT : message := MText (tagged "peer-left").
Definition PONG : message := MText (tagged "pong").
Definition is_ping (m : message) : bool := match m with MText t => String.eqb t PING | _ => false end.

Definition role_tag (r : Role) : string := match r with Receiver => "recv" | Sender => "send" end.

(** ** The promise *)

(** A room and its connections, each a number. *)
Inductive room_event : Type :=
| Join (r : Role) (c : nat)
| Receive (r : Role) (c : nat) (m : message)
| Leave (r : Role) (c : nat).
Definition outputs : Type := list (nat * message).
(** What is said to both when a peer is there. *)
Definition greeting (c : nat) (other : option nat) : outputs :=
  match other with Some p => [(c, PEER_JOINED); (p, PEER_JOINED)] | None => [] end.
Definition passed_on (c : nat) (m : message) (other : option nat) : outputs :=
  if is_ping m then [(c, PONG)] else match other with Some p => [(p, m)] | None => [] end.
Definition farewell (other : option nat) : outputs :=
  match other with Some p => [(p, PEER_LEFT)] | None => [] end.
(** What a message channel's client sends. *)
Definition data (m : message) : Prop := match m with MText _ | MBinary _ => True | _ => False end.

Class RelayRoom := {
  room : Type;
  room0 : room;
  steady : room -> Prop;
  member : room -> Role -> option nat;
  on_event : room_event -> room -> room * outputs;
  room0_steady : steady room0;
  room0_empty r : member room0 r = None;
  joins s r c : steady s -> member s r = None -> member s (peer r) <> Some c ->
    let '(s', out) := on_event (Join r c) s in
    steady s' /\ member s' r = Some c /\ member s' (peer r) = member s (peer r) /\ out = greeting c (member s (peer r));
  receives s r c m : steady s -> member s r = Some c -> data m ->
    let '(s', out) := on_event (Receive r c m) s in
    steady s' /\ (forall r', member s' r' = member s r') /\ out = passed_on c m (member s (peer r));
  leaves s r c : steady s -> member s r = Some c ->
    let '(s', out) := on_event (Leave r c) s in
    steady s' /\ member s' r = None /\ member s' (peer r) = member s (peer r) /\ out = farewell (member s (peer r));
}.

(** ** relay-worker/src/index.js *)

Module Worker.
(** What the handlers read of a request. *)
Record Request : Type := {
  pathname : string; authorization : option string; upgrade : option string; role_param : option string }.

(** [/^\/v1\/room\/([A-Za-z0-9]{1,64})$/]. *)
Definition room_of_path (p : string) : option string :=
  name ← strip_prefix "/v1/room/" p;
  guard (str_all is_ascii_alphanumeric name = true /\ (1 <= String.length name <= 64)%nat);; Some name.
(** The default export's [fetch]: a status, or the room that answers. An empty
    [RELAY_TOKEN] is no token. *)
Definition entry (relay_token : option string) (q : Request) : Z + string :=
  if String.eqb (pathname q) "/healthz" then inl 200
  else match room_of_path (pathname q) with
       | None => inl 404
       | Some name =>
           match relay_token with
           | Some t => if String.eqb t "" then inr name
                       else if String.eqb (default "" (authorization q)) ("Bearer " +:+ t) then inr name else inl 401
           | None => inr name
           end
       end.

Definition EXPIRE_UNPAIRED_MS : Z := 30 * 60 * 1000.

(** A socket the object holds: its tag, whether the object closed it. *)
Record socket : Type := { ws_id : nat; ws_tag : string; ws_closed : bool }.
(** The object: the sockets attached, oldest first, and its alarm. *)
Record Room : Type := { sockets : list socket; alarm : option Z }.
Definition new_room : Room := {| sockets := []; alarm := None |}.
(** What a handler does to sockets. *)
Inductive effect : Type := Send (ws : nat) (m : message) | CloseWs (ws : nat) (code : Z) (reason : string).

Section room.
(** [getWebSockets] gives the attached sockets of a tag in an order it does
    not promise; a socket stays attached until its closing handshake is over
    or its loss is noticed. *)
Variable arrange : list socket -> list socket.

Definition getWebSockets (tag : string) (r : Room) : list socket :=
  arrange (filter (fun s => ws_tag s = tag) (sockets r)).
Definition peerOf (role : string) (r : Room) : option socket :=
  head (getWebSockets (if String.eqb role "send" then "recv" else "send") r).
Definition close_all (gone : list socket) (l : list socket) : list socket :=
  map (fun s => if bool_decide (ws_id s ∈ map ws_id gone)
                then {| ws_id := ws_id s; ws_tag := ws_tag s; ws_closed := true |} else s) l.

(** [Room.fetch]: the status, what is done to sockets, the object after. [id]
    is the new socket, [now] the clock. *)
Definition fetch (q : Request) (id : nat) (now : Z) (r : Room) : (Z * list effect) * Room :=
  if negb (bool_decide (upgrade q = Some "websocket")) then ((426, []), r)
  else match role_param q with
       | Some role =>
           if negb (String.eqb role "send" || String.eqb role "recv") then ((400, []), r)
           else
             let old := getWebSockets role r in
             let closes := map (fun s => CloseWs (ws_id s) 1012 "replaced by a new connection") old in
             let server := {| ws_id := id; ws_tag := role; ws_closed := false |} in
             let r1 := {| sockets := close_all old (sockets r) ++ [server]; alarm := alarm r |} in
             match peerOf role r1 with
             | Some other =>
                 ((101, closes ++ [Send id PEER_JOINED; Send (ws_id other) PEER_JOINED]),
                  {| sockets := sockets r1; alarm := None |})
             | None =>
                 ((101, closes), {| sockets := sockets r1; alarm := Some (now + EXPIRE_UNPAIRED_MS) |})
             end
       | None => ((400, []), r)
       end.
Definition webSocketMessage (ws : socket) (message : message) (r : Room) : list effect :=
  match peerOf (ws_tag ws) r with Some p => [Send (ws_id p) message] | None => [] end.
(** [departed], on [webSocketClose] and [webSocketError]; the runtime then
    detaches the socket. *)
Definition departed (ws : socket) (now : Z) (r : Room) : list effect * Room :=
  if existsb (fun s => negb (ws_id s =? ws_id ws)%nat) (getWebSockets (ws_tag ws) r) then ([], r)
  else match peerOf (ws_tag ws) r with
       | Some p => ([Send (ws_id p) PEER_LEFT], {| sockets := sockets r; alarm := Some (now + EXPIRE_UNPAIRED_MS) |})
       | None => ([], r)
       end.
Definition detach (ws : nat) (r : Room) : Room :=
  {| sockets := filter (fun s => ws_id s <> ws) (sockets r); alarm := alarm r |}.
(** [alarm()]: the runtime has cleared it. *)
Definition on_alarm (r : Room) : list effect * Room :=
  (map (fun s => CloseWs (ws_id s) 1013 "room expired") (sockets r),
   {| sockets := close_all (sockets r) (sockets r); alarm := None |}).
(** A message arrives: the one set in the constructor is answered without the
    object. *)
Definition on_message (ws : socket) (m : message) (r : Room) : list effect :=
  if is_ping m then [Send (ws_id ws) PONG] else webSocketMessage ws m r.
Definition on_close (ws : socket) (now : Z) (r : Room) : list effect * Room :=
  let (es, r') := departed ws now r in (es, detach (ws_id ws) r').
End room.

(** *** The room keeps the promise *)

Section promise.
Variables (arrange : list socket -> list socket) (now : Z).
Hypothesis Harrange : forall l, arrange l ≡ₚ l.

Definition upgraded (r : Role) : Request :=
  {| pathname := ""; authorization := None; upgrade := Some "websocket"; role_param := Some (role_tag r) |}.
Definition sock (r : Role) (c : nat) : socket := {| ws_id := c; ws_tag := role_tag r; ws_closed := false |}.
Definition said (es : list effect) : outputs :=
  omap (fun e => match e with Send c m => Some (c, m) | CloseWs _ _ _ => None end) es.
Definition handle (e : room_event) (r : Room) : Room * outputs :=
  match e with
  | Join ro c => let '((_, es), r') := fetch arrange (upgraded ro) c now r in (r', said es)
  | Receive ro c m => (r, said (on_message arrange (sock ro c) m r))
  | Leave ro c => let (es, r') := on_close arrange (sock ro c) now r in (r', said es)
  end.

(** The sockets attached are those of [m], one a role, all open. *)
Definition slot (m : Role -> option nat) (r : Role) : list socket := option_list (sock r <$> m r).
Definition slots (m : Role -> option nat) (s : Room) : Prop :=
  sockets s ≡ₚ slot m Sender ++ slot m Receiver /\ forall c, m Sender = Some c -> m Receiver <> Some c.
Definition set_slot (r : Role) (o : option nat) (m : Role -> option nat) : Role -> option nat :=
  fun r' => if decide (r' = r) then o else m r'.

Lemma slot_tag m r tag : filter (fun s => ws_tag s = tag) (slot m r) = if decide (role_tag r = tag) then slot m r else [].
Proof.
  unfold slot. destruct (m r) as [c|]; [|by destruct (decide _)].
  change (option_list _) with [sock r c]. rewrite filter_cons, filter_nil. change (ws_tag (sock r c)) with (role_tag r). by destruct (decide (role_tag r = tag)).
Qed.
Lemma arrange_option {o} {l : list socket} : l ≡ₚ option_list o -> arrange l = option_list o.
Proof.
  intros H. rewrite <- (Harrange l) in H. destruct o as [x|]; cbn in *.
  - by apply Permutation_singleton_r in H.
  - by apply Permutation_nil_r in H.
Qed.
Lemma gws_slots m s r : slots m s -> getWebSockets arrange (role_tag r) s = slot m r.
Proof.
  intros [H _]. unfold getWebSockets. apply arrange_option. rewrite H, filter_app, !slot_tag.
  unfold slot. destruct r; cbn; by rewrite ?app_nil_r.
Qed.
Lemma peerOf_slots m s r : slots m s -> peerOf arrange (role_tag r) s = head (slot m (peer r)).
Proof. intros H. unfold peerOf. rewrite <- (gws_slots m s) by done. by destruct r. Qed.
Lemma slots_join m s r c : slots m s -> m r = None -> m (peer r) <> Some c ->
  slots (set_slot r (Some c) m) {| sockets := sockets s ++ [sock r c]; alarm := alarm s |}.
Proof.
  intros [Hp Hd] Hn Hc. unfold slots, slot, set_slot in *. cbn. rewrite Hp. destruct r; cbn in *; rewrite Hn in *; cbn.
  - rewrite app_nil_r. split; [done|]. intros c' Hs [= ->]. done.
  - rewrite Permutation_app_comm. split; [done|]. intros c' [= ->]. done.
Qed.
Lemma slots_detach m s r c : slots m s -> m r = Some c -> slots (set_slot r None m) (detach c s).
Proof.
  intros [Hp Hd] Hc. unfold slots, detach, slot, set_slot in *. cbn. rewrite Hp, filter_app.
  assert (Hf : forall ro o, filter (fun s => ws_id s <> c) (option_list (sock ro <$> o))
    = if decide (o = Some c) then [] else option_list (sock ro <$> o)).
  { intros ro [x|]; [|by rewrite decide_False]. change (option_list _) with [sock ro x].
    rewrite filter_cons, filter_nil. change (ws_id (sock ro x)) with x.
    destruct (decide (Some x = Some c)) as [[= ->]|Hx]; [by rewrite decide_False by auto|]. by rewrite decide_True by congruence. }
  rewrite !Hf. destruct r; cbn; rewrite Hc in *; rewrite (decide_True (P := Some c = Some c)) by done.
  - split; [|done]. rewrite decide_False; [done|]. intros E. by apply (Hd c).
  - split; [|done]. rewrite decide_False; [done|]. intros E. by apply (Hd c).
Qed.

Definition steady_room (s : Room) : Prop := exists m, slots m s.
Definition member_of (s : Room) (r : Role) : option nat := ws_id <$> head (getWebSockets arrange (role_tag r) s).
Lemma member_slots m s r : slots m s -> member_of s r = m r.
Proof. intros H. unfold member_of. rewrite (gws_slots m) by done. unfold slot. by destruct (m r). Qed.
Lemma close_none l : close_all [] l = l.
Proof. unfold close_all. etrans; [|apply map_id]. apply map_ext. intros s. by rewrite bool_decide_false by apply not_elem_of_nil. Qed.
Lemma fetch_free m s r c : slots m s -> m r = None -> m (peer r) <> Some c ->
  handle (Join r c) s
  = ({| sockets := sockets s ++ [sock r c];
        alarm := match m (peer r) with Some _ => None | None => Some (now + EXPIRE_UNPAIRED_MS) end |}, greeting c (m (peer r))).
Proof.
  intros Hs Hn Hc. unfold handle, fetch. cbn [upgraded upgrade role_param]. rewrite bool_decide_true by done. cbn [negb].
  replace (negb (String.eqb (role_tag r) "send" || String.eqb (role_tag r) "recv")) with false by by destruct r.
  assert (E : getWebSockets arrange (role_tag r) s = []) by (rewrite (gws_slots m) by done; unfold slot; by rewrite Hn).
  rewrite E. cbn [map app].
  rewrite close_none. pose proof (slots_join m s r c Hs Hn Hc) as Hs'.
  rewrite (peerOf_slots (set_slot r (Some c) m)) by exact Hs'. unfold slot, set_slot. rewrite decide_False by apply peer_ne.
  by destruct (m (peer r)).
Qed.
Lemma leave_member m s r c : slots m s -> m r = Some c ->
  handle (Leave r c) s
  = (detach c {| sockets := sockets s; alarm := match m (peer r) with Some _ => Some (now + EXPIRE_UNPAIRED_MS) | None => alarm s end |},
     farewell (m (peer r))).
Proof.
  intros Hs Hc. unfold handle, on_close, departed. cbn [sock ws_tag ws_id].
  assert (E : getWebSockets arrange (role_tag r) s = [sock r c]) by (rewrite (gws_slots m) by done; unfold slot; by rewrite Hc).
  rewrite E. cbn [existsb]. cbn [sock ws_id]. rewrite Nat.eqb_refl. cbn [negb orb]. rewrite (peerOf_slots m) by done. unfold slot.
  by destruct (m (peer r)), s.
Qed.
(** The object of relay-worker/src/index.js, whatever order [getWebSockets]
    has, is a relay. *)
#[refine] Instance relay : RelayRoom := {|
  room := Room; room0 := new_room; steady := steady_room; member := member_of; on_event := handle |}.
Proof.
  - by exists (fun _ => None).
  - intros r. by apply (member_slots (fun _ => None)).
  - intros s r c [m Hs] Hm Hc. rewrite (member_slots m s _ Hs) in Hm. rewrite (member_slots m s _ Hs) in Hc.
    rewrite (fetch_free m s r c Hs Hm Hc), (member_slots m s _ Hs). set (a := match m (peer r) with Some _ => _ | None => _ end).
    pose proof (slots_join m s r c Hs Hm Hc) as Hs'. change (slots (set_slot r (Some c) m) {| sockets := sockets s ++ [sock r c]; alarm := a |}) in Hs'.
    split; [by eexists|]. rewrite !(member_slots _ _ _ Hs'). unfold set_slot.
    by rewrite (decide_True (P := r = r)), (decide_False (P := peer r = r)) by (done || apply peer_ne).
  - intros s r c msg [m Hs] Hm _. cbn [handle]. split; [by exists m|]. split; [done|].
    rewrite (member_slots m) by done. unfold on_message, passed_on. destruct (is_ping msg); [done|].
    unfold webSocketMessage. cbn [sock ws_tag]. rewrite (peerOf_slots m) by done. unfold slot. by destruct (m (peer r)).
  - intros s r c [m Hs] Hm. rewrite (member_slots m) in Hm |- * by done.
    rewrite (leave_member m s r c Hs Hm). set (a := match m (peer r) with Some _ => _ | None => _ end).
    pose proof (slots_detach m {| sockets := sockets s; alarm := a |} r c Hs Hm) as Hs'.
    split; [by eexists|]. rewrite !(member_slots _ _ _ Hs'). unfold set_slot.
    by rewrite (decide_True (P := r = r)), (decide_False (P := peer r = r)) by (done || apply peer_ne).
Defined.

(** *** Expiry *)

(** What may happen to a room without a second connection of a role. *)
Definition legal (s : Room) (e : room_event) : Prop :=
  match e with
  | Join r c => member_of s r = None /\ member_of s (peer r) <> Some c
  | Receive r c _ | Leave r c => member_of s r = Some c
  end.
Inductive reached : Room -> Prop :=
| reached_new : reached new_room
| reached_on s e : reached s -> legal s e -> reached (handle e s).1.
Definition alarmed (m : Role -> option nat) (s : Room) : Prop :=
  forall r c, m r = Some c -> (m (peer r) = None <-> is_Some (alarm s)).
Lemma reached_inv s : reached s -> exists m, slots m s /\ alarmed m s.
Proof.
  induction 1 as [|s e _ (m & Hs & Ha) Hl]; [by exists (fun _ => None)|].
  destruct e as [r c|r c msg|r c]; cbn [legal] in Hl; rewrite !(member_slots m s _ Hs) in Hl.
  - destruct Hl as [Hm Hc]. rewrite (fetch_free m s r c Hs Hm Hc). eexists. split; [exact (slots_join m s r c Hs Hm Hc)|].
    intros r' c' Hr'. unfold set_slot in *. cbn [fst alarm]. destruct r, r'; cbn [peer] in *; repeat case_decide; simplify_eq; rewrite ?Hm.
    all: rewrite ?Hr'; unfold is_Some; try match goal with |- context [match ?o with _ => _ end] => destruct o end; naive_solver.
  - by exists m.
  - rewrite (leave_member m s r c Hs Hl). eexists. split; [by apply (slots_detach m)|].
    intros r' c' Hr'. unfold set_slot in *. cbn [fst alarm detach]. destruct r, r'; cbn [peer] in *; repeat case_decide; simplify_eq.
    all: rewrite ?Hr'; unfold is_Some; try match goal with |- context [match ?o with _ => _ end] => destruct o end; naive_solver.
Qed.

(** *** Takeover *)

(** A socket the object has closed that is still attached. *)
Definition closed_sock (r : Role) (c : nat) : socket := {| ws_id := c; ws_tag := role_tag r; ws_closed := true |}.
(** The object while [old] is closed and [new] has taken its place. *)
Lemma fetch_takeover m s r old new : slots m s -> m r = Some old -> new <> old -> m (peer r) <> Some new ->
  let greet := match m (peer r) with Some p => [Send new PEER_JOINED; Send p PEER_JOINED] | None => [] end in
  exists l, l ≡ₚ closed_sock r old :: slot m (peer r)
    /\ fetch arrange (upgraded r) new now s
       = ((101, CloseWs old 1012 "replaced by a new connection" :: greet),
          {| sockets := l ++ [sock r new];
             alarm := match m (peer r) with Some _ => None | None => Some (now + EXPIRE_UNPAIRED_MS) end |}).
Proof.
  intros Hs Ho Hne Hc greet. pose proof Hs as [Hp Hd].
  assert (E : getWebSockets arrange (role_tag r) s = [sock r old]) by (rewrite (gws_slots m) by done; unfold slot; by rewrite Ho).
  set (l := close_all [sock r old] (sockets s)).
  assert (Hl : l ≡ₚ closed_sock r old :: slot m (peer r)).
  { unfold l, close_all. rewrite Hp.
    assert (Hsp : slot m Sender ++ slot m Receiver ≡ₚ slot m r ++ slot m (peer r)) by (destruct r; [apply Permutation_app_comm|done]).
    rewrite Hsp. unfold slot at 1. rewrite Ho. change (option_list _) with [sock r old]. cbn [app map]. cbn [sock ws_id ws_tag].
    rewrite bool_decide_true by by apply list_elem_of_singleton. f_equiv. unfold slot.
    destruct (m (peer r)) as [p|] eqn:Ep; [|done]. change (option_list _) with [sock (peer r) p]. cbn [map]. cbn [sock ws_id].
    rewrite bool_decide_false; [done|]. intros ->%list_elem_of_singleton. destruct r; by eapply Hd. }
  exists l. split; [done|].
  unfold fetch. cbn [upgraded upgrade role_param]. rewrite bool_decide_true by done. cbn [negb].
  replace (negb (String.eqb (role_tag r) "send" || String.eqb (role_tag r) "recv")) with false by by destruct r.
  rewrite E. fold l. cbn [map app sock ws_id].
  assert (Epeer : peerOf arrange (role_tag r) {| sockets := l ++ [sock r new]; alarm := alarm s |} = head (slot m (peer r))).
  { unfold peerOf, getWebSockets. cbn [sockets].
    replace (if String.eqb (role_tag r) "send" then "recv" else "send") with (role_tag (peer r)) by by destruct r.
    f_equal. apply arrange_option. rewrite Hl. cbn [app]. rewrite filter_cons_False by by destruct r.
    rewrite filter_app, slot_tag, decide_True by done. rewrite filter_cons_False by by destruct r. by rewrite filter_nil, app_nil_r. }
  unfold sock in Epeer at 1. rewrite Epeer. unfold slot, greet. by destruct (m (peer r)).
Qed.

(** C31: Takeover: a second connection of a role closes the first, is greeted with
    the peer that is there, and has its place for good: when the closed
    socket's loss is noticed the peer is not told that anybody left, and the
    room is one the relay's promise holds for, the new connection in it. *)
Theorem takeover_replaces m s r old new : slots m s -> m r = Some old -> new <> old -> m (peer r) <> Some new ->
  exists s1, fetch arrange (upgraded r) new now s
    = ((101, CloseWs old 1012 "replaced by a new connection"
         :: match m (peer r) with Some p => [Send new PEER_JOINED; Send p PEER_JOINED] | None => [] end), s1)
  /\ let '(es, s2) := on_close arrange (closed_sock r old) now s1 in
     es = [] /\ steady_room s2 /\ member_of s2 r = Some new /\ member_of s2 (peer r) = m (peer r).
Proof.
  intros Hs Ho Hne Hc. destruct (fetch_takeover m s r old new Hs Ho Hne Hc) as (l & Hl & E).
  eexists. split; [exact E|]. set (s1 := {| sockets := l ++ [sock r new]; alarm := _ |}).
  assert (Hdep : departed arrange (closed_sock r old) now s1 = ([], s1)).
  { unfold departed. replace (existsb _ _) with true; [done|]. symmetry. apply existsb_exists. exists (sock r new).
    split; [|by apply negb_true_iff, Nat.eqb_neq]. apply list_elem_of_In. unfold getWebSockets.
    rewrite Harrange, list_elem_of_filter. split; [done|]. apply elem_of_app. right. by apply list_elem_of_singleton. }
  unfold on_close. rewrite Hdep.
  assert (Hs2 : slots (set_slot r (Some new) m) (detach old s1)).
  { destruct Hs as [Hp Hd]. unfold slots, detach, s1. cbn [sockets]. rewrite Hl. split.
    - assert (Hf : filter (fun s0 => ws_id s0 <> old) ((closed_sock r old :: slot m (peer r)) ++ [sock r new]) = slot m (peer r) ++ [sock r new]).
      { cbn [app]. rewrite filter_cons_False by (intros E'; by apply E'). rewrite filter_app, filter_cons_True, filter_nil by done. f_equal.
        unfold slot. destruct (m (peer r)) as [p|] eqn:Ep; [|done]. change (option_list _) with [sock (peer r) p].
        rewrite filter_cons_True, filter_nil; [done|]. cbn. intros ->. destruct r; by eapply Hd. }
      rewrite Hf. unfold slot, set_slot. destruct r; cbn [peer]; rewrite ?decide_True, ?decide_False by done; [done|apply Permutation_app_comm].
    - unfold set_slot. intros c. destruct r; cbn in *; repeat case_decide; naive_solver. }
  split; [done|]. split; [by eexists|]. rewrite !(member_slots _ _ _ Hs2). unfold set_slot.
  by rewrite (decide_True (P := r = r)), (decide_False (P := peer r = r)) by (done || apply peer_ne).
Qed.

(** A connection alone in its room always has the expiry armed, and one that
    is paired never: nobody holds a room for good without a peer, and no
    transfer is cut off. *)
Theorem expiry_iff_alone s r c : reached s -> member_of s r = Some c -> (member_of s (peer r) = None <-> is_Some (alarm s)).
Proof.
  intros (m & Hs & Ha)%reached_inv. rewrite !(member_slots m s _ Hs). apply Ha.
Qed.
End promise.

(** Until the loss of a replaced socket is noticed it is attached, and first in
    the order of attachment: what the peer says goes there. *)
Theorem stale_socket_hears m s r old new p msg now :
  slots m s -> m r = Some old -> new <> old -> m (peer r) = Some p -> p <> new -> is_ping msg = false ->
  let s1 := (fetch (fun l => l) (upgraded r) new now s).2 in
  on_message (fun l => l) (sock (peer r) p) msg s1 = [Send old msg].
Proof.
  intros Hs Ho Hne Hp Hpn Hping s1.
  destruct (fetch_takeover (fun l => l) now ltac:(done) m s r old new Hs Ho Hne ltac:(congruence)) as (l & Hl & E).
  unfold s1. rewrite E. cbn [snd]. unfold on_message. rewrite Hping. unfold webSocketMessage, peerOf, getWebSockets. cbn [sock ws_tag sockets].
  replace (if String.eqb (role_tag (peer r)) "send" then "recv" else "send") with (role_tag r) by by destruct r.
  assert (Hf : filter (fun s0 => ws_tag s0 = role_tag r) l = [closed_sock r old]).
  { apply Permutation_singleton_r. rewrite Hl, filter_cons_True, slot_tag by done. rewrite decide_False; [done|]. by destruct r. }
  by rewrite filter_app, Hf.
Qed.

(** The request a client's [dial] makes. *)
Definition dialed (room : string) (role : Role) (token : option string) : Request :=
  {| pathname := "/v1/room/" +:+ room; authorization := (fun t => "Bearer " +:+ t) <$> token;
     upgrade := Some "websocket"; role_param := Some (role_tag role) |}.
(** What [dial] of src/transport/relay.rs asks for is a room of the relay:
    with the relay's token, or on one without, the room's object answers;
    with another or none the status is 401, which the client reports as a
    missing token. *)
Theorem dial_reaches_room base room role token relay_token :
  str_all is_ascii_alphanumeric room = true -> (1 <= String.length room <= 64)%nat ->
  let q := dialed room role token in
  dial_url base room role = base +:+ pathname q +:+ "?role=" +:+ default "" (role_param q)
  /\ entry relay_token q
     = (if decide (relay_token = None \/ relay_token = Some "" \/ relay_token = token) then inr room else inl 401)
  /\ relay_dial_help (DialHttp 401) base
     = EMsg ("the relay " +:+ base +:+ " requires a token — set it with `b2p relay set " +:+ base
             +:+ " --token <T>` or B2P_RELAY_TOKEN").
Proof.
  intros Hr Hl q. split; [|split; [|done]].
  - unfold dial_url, q, dialed. cbn [pathname role_param default]. by rewrite !str_app_assoc.
  - unfold entry. assert (Hp : room_of_path (pathname q) = Some room).
    { unfold room_of_path, q, dialed. cbn [pathname]. rewrite strip_prefix_app. cbn [mbind option_bind].
      by rewrite option_guard_True. }
    rewrite Hp. replace (String.eqb (pathname q) "/healthz") with false by done.
    destruct relay_token as [t|]; [|by rewrite decide_True by auto].
    destruct (String.eqb_spec t "") as [->|Ht]; [by rewrite decide_True by auto|].
    destruct token as [t'|]; cbn [q dialed authorization fmap option_fmap option_map].
    + change (default "" (Some ("Bearer " +:+ t'))) with ("Bearer " +:+ t'). destruct (String.eqb_spec ("Bearer " +:+ t') ("Bearer " +:+ t)) as [E|E].
      * apply str_app_inv_head in E as ->. by rewrite decide_True by auto.
      * rewrite decide_False; [done|]. intros [?|[?|?]]; congruence.
    + rewrite decide_False by naive_solver. done.
Qed.

(** A receiver, a sender, and the sender again. *)
Definition arrival : list socket -> list socket := fun l => l.
Definition pair_room : Room := (handle arrival 0 (Join Sender 1) (handle arrival 0 (Join Receiver 2) new_room).1).1.
Definition pair_slot (r : Role) : option nat := match r with Sender => Some 1%nat | Receiver => Some 2%nat end.
Lemma pair_slots : slots pair_slot pair_room.
Proof. split; [apply Permutation_swap|]. by intros c [= <-]. Qed.
Lemma takeover_replaces_witness :
  exists s1, fetch arrival (upgraded Sender) 3 0 pair_room
    = ((101, [CloseWs 1 1012 "replaced by a new connection"; Send 3 PEER_JOINED; Send 2 PEER_JOINED]), s1)
  /\ (on_close arrival (closed_sock Sender 1) 0 s1).1 = [].
Proof.
  destruct (takeover_replaces arrival 0 (fun l => Permutation_refl l) pair_slot pair_room Sender 1 3 pair_slots eq_refl
    ltac:(discriminate) ltac:(discriminate)) as (s1 & E & Hc).
  exists s1. split; [exact E|]. destruct (on_close arrival (closed_sock Sender 1) 0 s1) as [es s2]. apply Hc.
Defined.
Lemma expiry_iff_alone_witness :
  alarm pair_room = None /\ (member_of arrival pair_room Receiver = None <-> is_Some (alarm pair_room)).
Proof.
  split; [reflexivity|].
  apply (expiry_iff_alone arrival 0 (fun l => Permutation_refl l) pair_room Sender 1); [|reflexivity].
  apply (reached_on arrival 0 _ (Join Sender 1)); [|split; [reflexivity|discriminate]].
  apply (reached_on arrival 0 _ (Join Receiver 2)); [|split; [reflexivity|discriminate]]. apply reached_new.
Defined.
Lemma dial_reaches_room_witness :
  entry (Some "s3cret") (dialed "abc" Sender (Some "s3cret")) = inr "abc"
  /\ entry (Some "s3cret") (dialed "abc" Sender None) = inl 401.
Proof.
  split.
  - rewrite (proj1 (proj2 (dial_reaches_room "wss://r" "abc" Sender (Some "s3cret") (Some "s3cret") eq_refl ltac:(vm_compute; lia)))).
    reflexivity.
  - rewrite (proj1 (proj2 (dial_reaches_room "wss://r" "abc" Sender None (Some "s3cret") eq_refl ltac:(vm_compute; lia)))).
    reflexivity.
Defined.
End Worker.

(** ** src/transport/mock.rs *)

Module Mock.
(** [Peers]: who is connected under a key, by the number of its connection,
    which stands for its channel. *)
Abbreviation Peers := (gmap string nat).
(** [s.split_once(p)] for a [str] pattern. *)
Fixpoint split_once_str (p s : string) : option (string * string) :=
  match strip_prefix p s with
  | Some rest => Some ("", rest)
  | None => match s with
            | EmptyString => None
            | String a s' => match split_once_str p s' with Some (l, r) => Some (String a l, r) | None => None end
            end
  end.
Definition send_to (key : string) (m : message) (peers : Peers) : outputs :=
  match peers !! key with Some tx => [(tx, m)] | None => [] end.
(** The room and the role of the path. *)
Definition room_and_role (path : string) : option (string * string) :=
  r ← strip_prefix "/v1/room/" path; split_once_str "?role=" r.
(** The callback of the upgrade: whether the join gets status 409. *)
Definition refused (path : string) (peers : Peers) : bool :=
  match room_and_role path with
  | Some (room, role) => bool_decide (is_Some (peers !! (room +:+ "/" +:+ role)))
  | None => false
  end.
Definition me (room role : string) : string := room +:+ "/" +:+ role.
Definition them (room role : string) : string := room +:+ "/" +:+ (if String.eqb role "send" then "recv" else "send").
(** After the upgrade; [tx] is the connection's channel. *)
Definition join (room role : string) (tx : nat) (peers : Peers) : Peers * outputs :=
  let peers' := <[me room role := tx]> peers in
  let joined := bool_decide (is_Some (peers' !! them room role)) in
  (peers', if joined then send_to (me room role) PEER_JOINED peers' ++ send_to (them room role) PEER_JOINED peers' else []).
(** An item of the connection's stream: what is sent, [None] when it ends. *)
Definition on_item (room role : string) (item : ws_item) (peers : Peers) : option outputs :=
  match item with
  | WsMsg (MText t) =>
      if String.eqb t PING then Some (send_to (me room role) PONG peers)
      else Some (send_to (them room role) (MText t) peers)
  | WsMsg (MBinary b) => Some (send_to (them room role) (MBinary b) peers)
  | WsMsg MClose | WsErr _ | WsEnd => None
  | WsMsg MOther => Some []
  end.
(** After the loop. *)
Definition leave (room role : string) (peers : Peers) : Peers * outputs :=
  let peers' := delete (me room role) peers in (peers', send_to (them room role) PEER_LEFT peers').

(** *** A room of the mock keeps the promise *)

Section promise.
Variable name : string.
Hypothesis Hroom : lacks "?" name = true.

Definition path (r : Role) : string := "/v1/room/" +:+ name +:+ "?role=" +:+ role_tag r.
Definition handle (e : room_event) (peers : Peers) : Peers * outputs :=
  match e with
  | Join r c =>
      if refused (path r) peers then (peers, [])
      else match room_and_role (path r) with Some (room, role) => join room role c peers | None => (peers, []) end
  | Receive r c m => (peers, default [] (on_item name (role_tag r) (WsMsg m) peers))
  | Leave r c => leave name (role_tag r) peers
  end.

Lemma split_once_role p rest : lacks "?" p = true -> split_once_str "?role=" (p +:+ "?role=" +:+ rest) = Some (p, rest).
Proof.
  intros Hp. induction p as [|a p IH].
  - done.
  - unfold lacks in Hp. cbn in Hp. apply andb_true_iff in Hp as [Ha Hp].
    change (String a p +:+ "?role=" +:+ rest) with (String a (p +:+ "?role=" +:+ rest)). cbn [split_once_str].
    assert (strip_prefix "?role=" (String a (p +:+ "?role=" +:+ rest)) = None) as ->.
    { cbn [strip_prefix]. rewrite Ascii.eqb_sym. by destruct (Ascii.eqb a "?"). }
    by rewrite (IH Hp).
Qed.
Lemma room_and_role_path r : room_and_role (path r) = Some (name, role_tag r).
Proof.
  unfold room_and_role, path. rewrite strip_prefix_app. cbn [mbind option_bind]. by apply split_once_role.
Qed.
Lemma them_me r : them name (role_tag r) = me name (role_tag (peer r)).
Proof. by destruct r. Qed.
Lemma keys_ne r : me name (role_tag (peer r)) <> me name (role_tag r).
Proof. unfold me. intros E. apply str_app_inv_head in E. by destruct r. Qed.
(** A room of the mock is a relay. *)
#[refine] Instance relay : RelayRoom := {|
  room := Peers; room0 := ∅; steady _ := True; member peers r := peers !! me name (role_tag r); on_event := handle |}.
Proof.
  - done.
  - done.
  - intros s r c _ Hm _. cbn [handle]. unfold refused. rewrite room_and_role_path. fold (me name (role_tag r)). rewrite Hm.
    rewrite bool_decide_false by by intros [? ?]. unfold join, send_to. rewrite them_me, lookup_insert_eq.
    rewrite lookup_insert_ne by (apply not_eq_sym, keys_ne). split; [done|]. split; [done|]. split; [done|].
    by destruct (s !! me name (role_tag (peer r))).
  - intros s r c m _ Hm Hd. cbn [handle]. split; [done|]. split; [done|]. unfold on_item, send_to, passed_on, is_ping.
    rewrite them_me, Hm. destruct m as [t|b| |]; [|done..]. by destruct (String.eqb t PING).
  - intros s r c _ Hm. cbn [handle]. unfold leave, send_to. rewrite them_me, lookup_delete_eq.
    rewrite lookup_delete_ne by (apply not_eq_sym, keys_ne). split; [done|]. split; [done|]. split; [done|].
    by destruct (s !! me name (role_tag (peer r))).
Defined.
End promise.
End Mock.
