(* ===== verification/RelayRun.v ===== *)
(** * Two clients and a relay make a message channel

    The whole of the relay transport: both clients dial a room, wait for each
    other ([connect] of src/transport/relay.rs) and run their io tasks, through
    a relay that is any [RelayRoom]: the Worker of relay-worker, or the mock of
    the tests. *)

From stdpp Require Import functions.
From S2P Require Import Prelude Str Libs Pake Channel Transport RelayWire RelayFlow RelayPipe RelayRoom.

(** What the parser must make of the texts of the relay, and of an
    acknowledgement. *)
Definition relay_texts : list string := ["ping"; "pong"; "peer-joined"; "peer-left"].
Definition reads_texts `{JsonParser} : Prop :=
  forall v, v ∈ relay_texts -> json_parse (tagged v) = Some (JObj [("t", JStr v)]).
Definition acks_quietly `{JsonParser} : Prop := forall n, readable (ack_message n).

Ltac relay_text := repeat first [apply list_elem_of_here | apply list_elem_of_further].

(** State by role. *)
Lemma insert_peer {A} (f : Role -> A) r x : <[r := x]> f (peer r) = f (peer r).
Proof. apply fn_lookup_insert_ne, not_eq_sym, peer_ne. Qed.
Create Rewrite HintDb roles.
#[export] Hint Rewrite @fn_lookup_insert @insert_peer peer_peer : roles.

Section run.
Context `{JsonParser} `{RelayRoom}.
(** The two connections. *)
Variable id : Role -> nat.
Hypothesis Hid : id Sender <> id Receiver.

(** Not there yet; in [wait_peer]; with its io task. *)
Inductive client : Type := Away | Waiting | Running (e : endpoint).
(** What is on its way to the relay and from it, by client. *)
Record system : Type := {
  clients : Role -> client; up : Role -> list message; down : Role -> list message; c_room : room }.
Definition system0 : system :=
  {| clients := fun _ => Away; up := fun _ => []; down := fun _ => []; c_room := room0 |}.
(** What the relay says reaches the client it is said to. *)
Definition said_to (r : Role) (out : outputs) : list message :=
  omap (fun o => if decide (o.1 = id r) then Some o.2 else None) out.
Definition deliver (out : outputs) (d : Role -> list message) : Role -> list message :=
  fun r => d r ++ said_to r out.
(** What a message does to a client that waits. *)
Definition heard (m : message) : client :=
  match wait_peer [WItem (WsMsg m)] with Some (Ok _) => Running endpoint0 | _ => Waiting end.

Inductive system_step : system -> option (Role * action) -> system -> Prop :=
| sys_joins c r s' out : clients c r = Away -> on_event (Join r (id r)) (c_room c) = (s', out) ->
    system_step c None {| clients := <[r := Waiting]> (clients c); up := up c; down := deliver out (down c); c_room := s' |}
| sys_pings c r : clients c r = Waiting ->
    system_step c None {| clients := clients c; up := <[r := up c r ++ [MText PING]]> (up c); down := down c; c_room := c_room c |}
| sys_hears c r m rest : clients c r = Waiting -> down c r = m :: rest ->
    system_step c None {| clients := <[r := heard m]> (clients c); up := up c; down := <[r := rest]> (down c); c_room := c_room c |}
| sys_moves c r e a e' inc em : clients c r = Running e -> end_step e (down c r) a e' inc em ->
    system_step c (pair r <$> a)
      {| clients := <[r := Running e']> (clients c); up := <[r := up c r ++ em]> (up c); down := <[r := inc]> (down c); c_room := c_room c |}
| sys_relays c r m rest s' out : up c r = m :: rest -> on_event (Receive r (id r) m) (c_room c) = (s', out) ->
    system_step c None {| clients := clients c; up := <[r := rest]> (up c); down := deliver out (down c); c_room := s' |}.
Inductive system_run : system -> list (Role * action) -> system -> Prop :=
| sys_nil c : system_run c [] c
| sys_cons c a c1 tr c2 : system_step c a c1 -> system_run c1 tr c2 -> system_run c (option_list a ++ tr) c2.

(** ** The two ends it stands for *)

Definition side_of (r : Role) : side := match r with Sender => LeftEnd | Receiver => RightEnd end.
Definition on_side (x : Role * action) : side * action := (side_of x.1, x.2).
Definition end_of (k : client) : endpoint := match k with Running e => e | _ => endpoint0 end.
(** The relay's part of a wire comes before what is still to reach it. *)
Definition view (r : Role) (c : system) : pipe :=
  {| p_left := end_of (clients c r); p_right := end_of (clients c (peer r));
     p_lr := down c (peer r) ++ up c r; p_rl := down c r ++ up c (peer r) |}.
Abbreviation ends c := (view Sender c).

Lemma view_swap r c : swap (view r c) = view (peer r) c.
Proof. unfold swap, view. by rewrite peer_peer. Qed.
Lemma view_step r a c c' : left_step (view r c) a (view r c') -> pipe_step (ends c) (pair (side_of r) <$> a) (ends c').
Proof.
  intros Hs. destruct r; [|by apply step_left]. apply (step_right (ends c) a). by rewrite !view_swap.
Qed.
Lemma end_step_frame e inc a e' inc' em x :
  end_step e inc a e' inc' em -> end_step e (inc ++ x) a e' (inc' ++ x) em.
Proof. destruct 1; by econstructor. Qed.
Lemma id_inj r r' : id r = id r' -> r = r'.
Proof. by destruct r, r'; congruence. Qed.

(** ** The invariant *)

Hypothesis Hreads : reads_texts.
Hypothesis Hack : acks_quietly.

(** Before the greeting there are only answers to pings. *)
Definition chatter (m : message) : Prop := m = PONG.
Definition greeted (d : list message) : Prop := exists q rest, d = q ++ PEER_JOINED :: rest /\ Forall chatter q.
Definition client_ok (c : system) (r : Role) : Prop :=
  match clients c r with
  | Away => member (c_room c) r = None /\ up c r = [] /\ down c r = []
  | Waiting => member (c_room c) r = Some (id r) /\ Forall (fun m => m = MText PING) (up c r)
      /\ match clients c (peer r) with Away => Forall chatter (down c r) | _ => greeted (down c r) end
  | Running _ => member (c_room c) r = Some (id r) /\ clients c (peer r) <> Away
  end.
Definition system_inv (c : system) : Prop :=
  steady (c_room c) /\ (forall r, client_ok c r) /\ pipe_inv (ends c).

Lemma parse_tagged v : v ∈ relay_texts -> parse_control (tagged v)
  = if String.eqb v "peer-joined" then Some PeerJoined else if String.eqb v "peer-left" then Some PeerLeft
    else if String.eqb v "pong" then Some Pong else if String.eqb v "ack" then None else None.
Proof. intros Hv. unfold parse_control. rewrite Hreads by done. cbn. by repeat destruct (String.eqb v _). Qed.
Lemma ping_tagged : PING = tagged "ping".
Proof. reflexivity. Qed.
Lemma ping_quiet : quiet PING.
Proof. unfold quiet. rewrite ping_tagged, parse_tagged by relay_text. cbn. discriminate. Qed.
Lemma pong_chatter m : chatter m -> exists t, m = MText t /\ quiet t /\ heard m = Waiting.
Proof.
  intros ->. eexists. split; [done|]. unfold quiet, heard, PONG. cbn [wait_peer]. rewrite parse_tagged by relay_text. done.
Qed.
Lemma joined_quiet : quiet (tagged "peer-joined").
Proof. unfold quiet. rewrite parse_tagged by relay_text. discriminate. Qed.
Lemma heard_joined : heard PEER_JOINED = Running endpoint0.
Proof. unfold heard, PEER_JOINED. cbn [wait_peer]. by rewrite parse_tagged by relay_text. Qed.
Lemma greeted_app d x : greeted d -> greeted (d ++ x).
Proof. intros (q & rest & -> & Hq). exists q, (rest ++ x). by rewrite <- app_assoc. Qed.
Lemma greeted_new d : Forall chatter d -> greeted (d ++ [PEER_JOINED]).
Proof. intros Hd. by exists d, []. Qed.


(** ** A step of the whole is steps of the two ends *)


Lemma said_self r m out : said_to r ((id r, m) :: out) = m :: said_to r out.
Proof. unfold said_to. cbn. by rewrite decide_True. Qed.
Lemma said_other r m out : said_to r ((id (peer r), m) :: out) = said_to r out.
Proof. unfold said_to. cbn. rewrite decide_False; [done|]. intros E%id_inj. by destruct (peer_ne r). Qed.
Lemma said_self' r m out : said_to (peer r) ((id r, m) :: out) = said_to (peer r) out.
Proof. rewrite <- (peer_peer r) at 2. apply said_other. Qed.
Lemma said_nil r : said_to r [] = [].
Proof. done. Qed.
#[local] Hint Rewrite said_self said_other said_self' said_nil @app_nil_r : roles.

Lemma member_client c r : client_ok c r -> member (c_room c) r = match clients c r with Away => None | _ => Some (id r) end.
Proof. unfold client_ok. destruct (clients c r); by intros []. Qed.

Lemma run_one c a c' : pipe_step c a c' -> pipe_run c (option_list a) c'.
Proof. intros Hs. rewrite <- (app_nil_r (option_list a)). eapply run_step; [exact Hs|constructor]. Qed.
Lemma run_none c c1 c2 : pipe_run c [] c1 -> pipe_run c1 [] c2 -> pipe_run c [] c2.
Proof. apply (run_trans c [] c1 [] c2). Qed.
Definition piped (l x : endpoint) (lr rl : list message) : pipe := {| p_left := l; p_right := x; p_lr := lr; p_rl := rl |}.
Lemma says_at r c c' t l x lr rl rl' : quiet t ->
  view r c = piped l x lr (rl ++ rl') -> view r c' = piped l x lr (rl ++ MText t :: rl') -> pipe_run (ends c) [] (ends c').
Proof. intros Ht E E'. apply (run_one _ None), (view_step r None). rewrite E, E'. by apply relay_says. Qed.
Lemma takes_at r c c' t l x lr lr' rl :
  view r c = piped l x (lr ++ MText t :: lr') rl -> view r c' = piped l x (lr ++ lr') rl -> pipe_run (ends c) [] (ends c').
Proof. intros E E'. apply (run_one _ None), (view_step r None). rewrite E, E'. by apply relay_takes. Qed.

Lemma same_view r c c' : view r c' = view r c -> pipe_run (ends c) [] (ends c').
Proof.
  intros E. assert (E' : ends c' = ends c) by (destruct r; [|done]; by rewrite <- !(view_swap Receiver), E).
  rewrite E'. constructor.
Qed.
Ltac sides r := unfold view, piped, deliver; cbn [clients up down c_room]; autorewrite with roles.

Lemma inv_joins c r s' out : system_inv c -> clients c r = Away -> on_event (Join r (id r)) (c_room c) = (s', out) ->
  let c' := {| clients := <[r := Waiting]> (clients c); up := up c; down := deliver out (down c); c_room := s' |} in
  steady s' /\ (forall r, client_ok c' r) /\ pipe_run (ends c) [] (ends c').
Proof.
  intros (Hs & Hok & _) Ha He c'. pose proof (Hok r) as Hr. unfold client_ok in Hr. rewrite Ha in Hr. destruct Hr as (Hm & Hu & Hd).
  pose proof (member_client c (peer r) (Hok _)) as Hmp.
  pose proof (joins (c_room c) r (id r) Hs Hm) as Hj. rewrite He in Hj.
  destruct Hj as (Hs' & Hm1 & Hm2 & Eo).
  { rewrite Hmp. destruct (clients c (peer r)); intros E; simplify_eq; by apply id_inj in E as E%peer_ne. }
  split; [done|]. pose proof (Hok (peer r)) as Hp. unfold client_ok in Hp. rewrite peer_peer, Ha in Hp.
  rewrite Hmp in Eo, Hm2. unfold client_ok, c'. clear c'. subst out.
  destruct (clients c (peer r)) as [| |e] eqn:Ep; [| |by destruct Hp].
  - destruct Hp as (_ & Hup & Hdp). split.
    + intros r'. destruct (role_cases r r') as [->| ->]; sides r; rewrite ?Ep; cbn [greeting]; autorewrite with roles.
      * rewrite Hu, Hd. split_and!; [done|constructor|constructor].
      * by rewrite Hm2.
    + apply (same_view r). sides r. rewrite Ha, Ep. cbn [greeting end_of]. by autorewrite with roles.
  - destruct Hp as (_ & Hup & Hdp). split.
    + intros r'. destruct (role_cases r r') as [->| ->]; sides r; rewrite ?Ep; cbn [greeting]; autorewrite with roles.
      * rewrite Hu, Hd. split_and!; [done|constructor|by apply greeted_new].
      * rewrite Hm2. split_and!; [done|done|by apply greeted_new].
    + set (c1 := {| clients := <[r := Waiting]> (clients c); up := up c;
        down := <[r := down c r ++ [PEER_JOINED]]> (down c); c_room := s' |}).
      apply (run_none _ (ends c1)).
      * eapply (says_at r c c1); [apply joined_quiet|reflexivity|]. unfold c1. sides r. rewrite Ha. cbn [end_of].
        by rewrite <- app_assoc.
      * eapply (says_at (peer r) c1); [apply joined_quiet|reflexivity|]. unfold c1. sides r. cbn [greeting]. autorewrite with roles.
        by rewrite <- !app_assoc.
Qed.

Lemma inv_pings c r : system_inv c -> clients c r = Waiting ->
  let c' := {| clients := clients c; up := <[r := up c r ++ [MText PING]]> (up c); down := down c; c_room := c_room c |} in
  steady (c_room c') /\ (forall r, client_ok c' r) /\ pipe_run (ends c) [] (ends c').
Proof.
  intros (Hs & Hok & _) Hw c'. split; [done|]. unfold c'. clear c'. split.
  - intros r'. pose proof (Hok r') as Hr. unfold client_ok in *. destruct (role_cases r r') as [->| ->]; sides r.
    + rewrite Hw in *. destruct Hr as (? & Hu & ?). split_and!; [done| |done]. apply Forall_app. split; [done|by constructor].
    + by rewrite peer_peer in Hr.
  - eapply (says_at (peer r) _ _ PING _ _ _ (down c (peer r) ++ up c r) []); [apply ping_quiet| |]; sides r; [done|].
    by rewrite app_assoc.
Qed.
Lemma inv_hears c r m rest : system_inv c -> clients c r = Waiting -> down c r = m :: rest ->
  let c' := {| clients := <[r := heard m]> (clients c); up := up c; down := <[r := rest]> (down c); c_room := c_room c |} in
  steady (c_room c') /\ (forall r, client_ok c' r) /\ pipe_run (ends c) [] (ends c').
Proof.
  intros (Hs & Hok & _) Hw Hd c'. split; [done|].
  pose proof (Hok r) as Hr. unfold client_ok in Hr. rewrite Hw in Hr. destruct Hr as (Hm & Hu & Hg).
  assert (Hcase : (exists t, m = MText t)
    /\ ((heard m = Waiting /\ match clients c (peer r) with Away => Forall chatter rest | _ => greeted rest end)
        \/ (heard m = Running endpoint0 /\ clients c (peer r) <> Away))).
  { rewrite Hd in Hg. assert (Hch : chatter m -> (exists t, m = MText t) /\ heard m = Waiting) by (intros (t & ? & _ & ?)%pong_chatter; eauto).
    assert (Hgr : greeted (m :: rest) -> (exists t, m = MText t) /\ ((heard m = Waiting /\ greeted rest) \/ heard m = Running endpoint0)).
    { intros ([|x q] & rest' & [= -> ->] & Hq); [split; [by eexists|right; apply heard_joined]|].
      apply Forall_cons in Hq as [[Ht Hx]%Hch Hq]. split; [done|]. left. split; [done|]. by exists q, rest'. }
    destruct (clients c (peer r)) eqn:Ep.
    - apply Forall_cons in Hg as [[Ht Hx]%Hch Hq]. auto.
    - destruct (Hgr Hg) as [? [[??]|?]]; split; auto.
    - destruct (Hgr Hg) as [? [[??]|?]]; split; auto. }
  destruct Hcase as [[t ->] Hcase]. split.
  - intros r'. pose proof (Hok r') as Hr. unfold client_ok in *. unfold c'.
    destruct (role_cases r r') as [->| ->]; sides r.
    + destruct Hcase as [[-> Hg']|[-> Hp]]; [|done]. by split_and!.
    + rewrite peer_peer, Hw in Hr. destruct (clients c (peer r)); [done|by destruct Hcase as [[-> _]|[-> _]]|].
      destruct Hcase as [[-> _]|[-> _]]; by destruct Hr.
  - eapply (takes_at (peer r) _ _ t _ _ []); unfold c'; sides r.
    + rewrite Hd. reflexivity.
    + cbn [app]. rewrite Hw. by destruct Hcase as [[-> _]|[-> _]].
Qed.
Lemma inv_moves c r e a e' inc em : system_inv c -> clients c r = Running e -> end_step e (down c r) a e' inc em ->
  let c' := {| clients := <[r := Running e']> (clients c); up := <[r := up c r ++ em]> (up c); down := <[r := inc]> (down c); c_room := c_room c |} in
  steady (c_room c') /\ (forall r, client_ok c' r) /\ pipe_run (ends c) (option_list (pair (side_of r) <$> a)) (ends c').
Proof.
  intros (Hs & Hok & _) Hw Hstep c'. split; [done|]. unfold c'. split.
  - intros r'. pose proof (Hok r') as Hr. unfold client_ok in *.
    destruct (role_cases r r') as [->| ->]; sides r; [by rewrite Hw in Hr|].
    rewrite peer_peer, Hw in Hr. destruct (clients c (peer r)); [done|done|]. by destruct Hr.
  - apply run_one, view_step. sides r. rewrite Hw. cbn [end_of]. rewrite app_assoc.
    apply left_moves. by apply end_step_frame.
Qed.
Lemma view_inv r c : pipe_inv (ends c) -> pipe_inv (view r c).
Proof. intros Hi. destruct r; [|done]. change (view Receiver c) with (view (peer Sender) c). rewrite <- view_swap. by apply pipe_inv_swap. Qed.
Lemma is_ping_spec m : is_ping m = true -> m = MText PING.
Proof. destruct m as [t| | |]; try done. cbn [is_ping]. by intros ->%String.eqb_eq. Qed.

(** The relay takes the next message of [r]: a ping is answered, anything
    else goes to the peer, who is there. *)
Lemma relay_out c r m rest : system_inv c -> up c r = m :: rest ->
  exists s' out, on_event (Receive r (id r) m) (c_room c) = (s', out) /\ steady s'
    /\ (forall r', member s' r' = member (c_room c) r') /\ clients c r <> Away
    /\ ((m = MText PING /\ out = [(id r, PONG)])
        \/ (out = [(id (peer r), m)] /\ clients c (peer r) <> Away /\ exists e, clients c r = Running e)).
Proof.
  intros (Hs & Hok & Hi) Hu. pose proof (Hok r) as Hr. pose proof (member_client c r Hr) as Hm.
  pose proof (member_client c (peer r) (Hok (peer r))) as Hmp. unfold client_ok in Hr.
  assert (Hna : clients c r <> Away) by (intros E; rewrite E, Hu in Hr; by destruct Hr as (_ & ? & _)).
  assert (Hdata : data m).
  { destruct (view_inv r c Hi) as (_ & _ & _ & _ & Hl & _). cbn [view p_lr] in Hl. rewrite Hu in Hl.
    apply Forall_app in Hl as [_ [Hl _]%Forall_cons]. by destruct m. }
  assert (Hm' : member (c_room c) r = Some (id r)) by by destruct (clients c r).
  pose proof (receives (c_room c) r (id r) m Hs Hm' Hdata) as Hrec. destruct (on_event _ _) as [s' out].
  destruct Hrec as (Hs' & Hmem & ->). do 2 eexists. split; [done|]. split_and!; [done..|]. rewrite Hmp. unfold passed_on.
  destruct (is_ping m) eqn:Ep; [left; split; [by apply is_ping_spec|done]|right].
  destruct (clients c r) as [| |e] eqn:Er; [done| |].
  - destruct Hr as (_ & Hpings & _). rewrite Hu in Hpings. apply Forall_cons in Hpings as [-> _]. cbn [is_ping] in Ep. by rewrite String.eqb_refl in Ep.
  - destruct Hr as [_ Hp]. destruct (clients c (peer r)); [done| |]; split_and!; eauto.
Qed.
Lemma inv_relays c r m rest s' out : system_inv c -> up c r = m :: rest -> on_event (Receive r (id r) m) (c_room c) = (s', out) ->
  let c' := {| clients := clients c; up := <[r := rest]> (up c); down := deliver out (down c); c_room := s' |} in
  steady (c_room c') /\ (forall r, client_ok c' r) /\ pipe_run (ends c) [] (ends c').
Proof.
  intros Hinv Hu He c'. destruct (relay_out c r m rest Hinv Hu) as (s1 & out1 & He1 & Hs' & Hmem & Hna & Hcase).
  rewrite He in He1. injection He1 as <- <-. split; [done|]. destruct Hinv as (_ & Hok & _).
  pose proof (Hok r) as Hr. pose proof (Hok (peer r)) as Hp. unfold client_ok in Hr, Hp. rewrite Hu in Hr. rewrite peer_peer in Hp.
  destruct Hcase as [[-> ->]|(-> & Hnp & e & Er)]; unfold c'; clear c'; split.
  - intros r'. unfold client_ok. destruct (role_cases r r') as [->| ->]; sides r; rewrite Hmem; [|done].
    destruct (clients c r); [done| |done]. destruct Hr as (? & [_ ?]%Forall_cons & Hg). split_and!; [done|done|].
    destruct (clients c (peer r)); [|by apply greeted_app..]. apply Forall_app. split; [done|]. by apply Forall_singleton.
  - set (c1 := {| clients := clients c; up := <[r := rest]> (up c); down := down c; c_room := s' |}).
    apply (run_none _ (ends c1)).
    + eapply (takes_at r c c1); unfold c1; sides r; [by rewrite Hu|done].
    + destruct (pong_chatter PONG eq_refl) as (t & Et & Hq & _).
      eapply (says_at r c1 _ t); [done|reflexivity|]. unfold c1. sides r. by rewrite Et, <- app_assoc.
  - intros r'. unfold client_ok. destruct (role_cases r r') as [->| ->]; sides r; rewrite Hmem, ?Er in *; [by destruct Hr|].
    destruct (clients c (peer r)); [done| |done]. destruct Hp as (? & ? & ?). split_and!; [done..|]. by apply greeted_app.
  - apply (same_view r). sides r. by rewrite Hu, <- app_assoc.
Qed.

Lemma system_step_refines c a c' : system_step c a c' -> system_inv c ->
  system_inv c' /\ pipe_run (ends c) (map on_side (option_list a)) (ends c').
Proof.
  intros Hs Hinv. assert (Hg : steady (c_room c') /\ (forall r, client_ok c' r) /\ pipe_run (ends c) (map on_side (option_list a)) (ends c')).
  { destruct Hs as [c r s' out Ha He|c r Hw|c r m rest Hw Hd|c r e a e' inc em Hw He|c r m rest s' out Hu He].
    - by eapply inv_joins.
    - by apply inv_pings.
    - by apply inv_hears.
    - pose proof (inv_moves c r e a e' inc em Hinv Hw He) as Hm. by destruct a.
    - by eapply inv_relays. }
  destruct Hg as (H1 & H2 & H3). split; [|done]. split; [done|]. split; [done|].
  by eapply (run_simulates ping_quiet Hack); [|apply Hinv].
Qed.
Lemma system_run_refines c tr c' : system_run c tr c' -> system_inv c ->
  system_inv c' /\ pipe_run (ends c) (map on_side tr) (ends c').
Proof.
  induction 1 as [c|c a c1 tr c2 Hs _ IH]; intros Hi; [split; [done|constructor]|].
  destruct (system_step_refines _ _ _ Hs Hi) as [Hi1 Hr1]. destruct (IH Hi1) as [Hi2 Hr2].
  split; [done|]. rewrite map_app. by eapply run_trans.
Qed.
Lemma system0_inv : system_inv system0.
Proof.
  split; [apply room0_steady|]. split; [|apply pipe0_inv]. intros r. unfold client_ok. cbn. by rewrite room0_empty.
Qed.

(** ** Everything sent arrives *)

(** The clients and the relay work on, the applications idle. *)
Definition settles (c c' : system) : Prop := system_run c [] c'.
Lemma settles_one c c1 c2 : system_step c None c1 -> settles c1 c2 -> settles c c2.
Proof. apply (sys_cons c None c1 []). Qed.
Lemma system_trans c tr c1 tr2 c2 : system_run c tr c1 -> system_run c1 tr2 c2 -> system_run c (tr ++ tr2) c2.
Proof.
  induction 1 as [c|c a c0 tr c1 Hs _ IH]; intros H2; [done|]. rewrite <- app_assoc. eapply sys_cons; [done|by apply IH].
Qed.
Lemma system_settles_trans c c1 c2 : settles c c1 -> settles c1 c2 -> settles c c2.
Proof. apply (system_trans c [] c1 []). Qed.
Lemma settles_once c c1 : system_step c None c1 -> settles c c1.
Proof. intros Hs. eapply settles_one; [exact Hs|constructor]. Qed.
Lemma settles_inv c c' : settles c c' -> system_inv c -> system_inv c'.
Proof. intros Hs Hi. by eapply system_run_refines. Qed.

(** Both dial in. *)
Lemma joins_in r c : system_inv c -> exists c', settles c c' /\ clients c' r <> Away
  /\ (clients c (peer r) <> Away -> clients c' (peer r) <> Away) /\ forall r', end_of (clients c' r') = end_of (clients c r').
Proof.
  intros Hi. destruct (clients c r) eqn:E; [|exists c; rewrite E; split; [constructor|done]..].
  destruct (on_event (Join r (id r)) (c_room c)) as [s' out] eqn:He.
  eexists. split; [eapply settles_once, sys_joins; [exact E|exact He]|]. cbn [clients]. autorewrite with roles.
  split_and!; [done..|]. intros r'. destruct (role_cases r r') as [->| ->]; autorewrite with roles; by rewrite ?E.
Qed.
(** The relay takes what is on its way from [r]. *)
Lemma drains r n : forall c, length (up c r) = n -> system_inv c ->
  exists c', settles c c' /\ up c' r = [] /\ up c' (peer r) = up c (peer r) /\ forall r', clients c' r' = clients c r'.
Proof.
  induction n as [|n IH]; intros c Hn Hi; [exists c; split; [constructor|]; split_and!; [by apply nil_length_inv|done..]|].
  destruct (up c r) as [|m rest] eqn:Eu; [done|].
  destruct (relay_out c r m rest Hi Eu) as (s' & out & He & _).
  pose proof (sys_relays c r m rest s' out Eu He) as Hs.
  match type of Hs with system_step _ _ ?c1 => set (c1' := c1) in Hs; destruct (IH c1') as (c' & Hr & E1 & E2 & E3) end.
  { unfold c1'. cbn [up]. autorewrite with roles. simpl in Hn. lia. }
  { by eapply system_step_refines. }
  exists c'. split; [by eapply settles_one|]. split; [done|]. rewrite E2. unfold c1' at 1. cbn [up]. by autorewrite with roles.
Qed.
(** A client hears that its peer is there. *)
Lemma pairs r n : forall c, length (down c r) = n -> system_inv c -> clients c r <> Away -> clients c (peer r) <> Away ->
  exists c' e, settles c c' /\ clients c' r = Running e /\ e = end_of (clients c r)
    /\ clients c' (peer r) = clients c (peer r).
Proof.
  induction n as [|n IH]; intros c Hn Hi Ha Hp; (destruct (clients c r) as [| |e] eqn:Er; [done| |exists c, e; split; [constructor|done]]).
  all: pose proof Hi as (_ & Hok & _); specialize (Hok r); unfold client_ok in Hok; rewrite Er in Hok; destruct Hok as (_ & _ & Hg).
  all: assert (Hgr : greeted (down c r)) by by destruct (clients c (peer r)).
  all: destruct Hgr as (q & rest & Ed & Hq).
  { rewrite Ed, length_app in Hn. simpl in Hn. lia. }
  destruct (down c r) as [|m rest'] eqn:Edr; [by destruct q|].
  pose proof (sys_hears c r m rest' Er Edr) as Hs.
  match type of Hs with system_step _ _ ?c1 => set (c1' := c1) in Hs; destruct (IH c1') as (c' & e & Hr & E1 & E2 & E3) end.
  - unfold c1'. cbn [down]. autorewrite with roles. simpl in Hn. lia.
  - by eapply system_step_refines.
  - unfold c1', heard. cbn [clients]. autorewrite with roles. by destruct (wait_peer _) as [[]|].
  - unfold c1'. cbn [clients]. by autorewrite with roles.
  - exists c', e. split; [by eapply settles_one|]. split; [done|]. rewrite E2, E3. unfold c1', heard. cbn [clients].
    autorewrite with roles. split; [|done]. by destruct (wait_peer _) as [[]|].
Qed.

(** A step of a client's own, its peer left alone. *)
Lemma moves_alone c r e e' inc em : system_inv c -> clients c r = Running e -> end_step e (down c r) None e' inc em ->
  exists c1, settles c c1 /\ system_inv c1 /\ clients c1 r = Running e' /\ down c1 r = inc
    /\ clients c1 (peer r) = clients c (peer r) /\ up c1 (peer r) = up c (peer r).
Proof.
  intros Hi Er Hs. pose proof (sys_moves c r e None e' inc em Er Hs) as Hst. eexists. split; [by apply settles_once|].
  split; [by eapply system_step_refines|]. cbn [clients down up]. by autorewrite with roles.
Qed.
Lemma running_in_step c r e : system_inv c -> clients c r = Running e ->
  io_dead (e_io e) = None /\ exists p, in_step p (io_pending (e_io e)).
Proof.
  intros (_ & _ & Hi) Er. destruct (view_inv r c Hi) as ((Hd & _) & _ & (outs & p & _ & Hs & _) & _).
  unfold view in Hd, Hs. rewrite Er in Hd, Hs. split; [done|by exists p].
Qed.
(** The io task goes on once its frames have found room. *)
Lemma frees r c e : system_inv c -> clients c r = Running e -> in_room e ->
  exists c', settles c c' /\ system_inv c' /\ clients c' r = Running (with_owed None e) /\ down c' r = down c r
    /\ clients c' (peer r) = clients c (peer r) /\ up c' (peer r) = up c (peer r).
Proof.
  intros Hi Er Hroom. destruct (e_owed e) as [em|] eqn:Eo.
  - destruct (moves_alone c r e _ _ _ Hi Er (end_resumes e (down c r) em Eo Hroom)) as (c1 & Hr & Hi1 & Er1 & Ed & Ep & Eu).
    by exists c1.
  - exists c. split; [constructor|]. split; [done|]. split; [|done]. rewrite Er. f_equal. destruct e. cbn in Eo. by subst.
Qed.
Lemma flushes r c e : system_inv c -> clients c r = Running e -> in_room e ->
  exists c' e', settles c c' /\ system_inv c' /\ clients c' r = Running e' /\ idle_end e' /\ same_app e e'
    /\ e_owed e' = None /\ io_in (e_io e') = io_in (e_io e) /\ clients c' (peer r) = clients c (peer r).
Proof.
  intros Hi Er Hroom. destruct (frees r c e Hi Er Hroom) as (c0 & R0 & Hi0 & Er0 & _ & Ep0 & _).
  set (e0 := with_owed None e) in *.
  assert (H1 : exists c1 e1, settles c0 c1 /\ system_inv c1 /\ clients c1 r = Running e1 /\ e_out e1 = []
    /\ same_app e e1 /\ e_owed e1 = None /\ io_in (e_io e1) = io_in (e_io e) /\ clients c1 (peer r) = clients c (peer r)).
  { destruct (e_out e) as [|f queued] eqn:E; [exists c0, e0; split; [constructor|by split_and!]|].
    rewrite <- (app_nil_r queued) in E.
    destruct (moves_alone c0 r e0 _ _ _ Hi0 Er0 (end_queues e0 (down c0 r) f queued [] eq_refl E)) as (c1 & Hr & Hi1 & Er1 & _ & Ep & _).
    destruct (running_in_step c0 r e0 Hi0 Er0) as (Hd & p & Hs). destruct (turn_ok p (e_io e0) Hd) as (ps & _ & Ht); [|done|].
    { destruct Hi0 as (_ & _ & Hv). apply (view_inv r) in Hv as ((_ & Hc & _) & _). unfold view in Hc. by rewrite Er0 in Hc. }
    exists c1. eexists. split; [done|]. split; [done|]. split; [exact Er1|]. split_and!; try done; [|congruence].
    cbn [e_io]. rewrite Ht. cbn [io_event_step]. by rewrite drain_ok. }
  destruct H1 as (c1 & e1 & Hr1 & Hi1 & Er1 & Eo & Hsa & Eow & Ein & Ep).
  destruct (moves_alone c1 r e1 _ _ _ Hi1 Er1 (end_flushes e1 (down c1 r) Eow)) as (c2 & Hr2 & Hi2 & Er2 & _ & Ep2 & _).
  destruct (running_in_step c1 r e1 Hi1 Er1) as (_ & p & Hs). destruct (flush_ok p (e_io e1) Hs) as (ps & Hf & _).
  exists c2. eexists. split; [by do 2 (eapply system_settles_trans; [eassumption|])|]. split; [done|]. split; [exact Er2|]. rewrite Hf.
  split_and!; try done. congruence.
Qed.
(** An idle client reads what has reached it, as far as its application lets it. *)
Lemma reads_one r c e m rest : system_inv c -> clients c r = Running e -> idle_end e -> e_owed e = None -> down c r = m :: rest ->
  exists c' e', settles c c' /\ system_inv c' /\ clients c' r = Running e' /\ idle_end e' /\ same_app e e' /\ down c' r = rest
    /\ clients c' (peer r) = clients c (peer r) /\ up c' (peer r) = up c (peer r).
Proof.
  intros Hi Er Hid' Hf Ed. pose proof Hi as (_ & _ & Hv). apply (view_inv r) in Hv.
  destruct Hv as (Hal & _ & (outs & p & Hp & Hsp & _) & (outs2 & q & Hq & _) & _ & Hrd).
  unfold view in *. cbn [p_left p_right p_lr p_rl] in *. rewrite Er, Ed in *. cbn [end_of] in *.
  assert (Hstep : exists e1 em, end_step e (m :: rest) None e1 rest em /\ same_app e e1).
  { cbn [app] in Hrd. apply Forall_cons in Hrd as [Hm _]. destruct Hid' as [_ Hpe]. destruct m as [t|b| |]; [| |done|done].
    - eexists _, _. split; [by apply end_hears|done].
    - eexists _, _. split; [apply (end_reads e b (frames_in (io_partial (e_io e)) b)); try done|done].
      intros fs q' E. unfold frames_in. by rewrite E. }
  destruct Hstep as (e1 & em & Hs & Hsa).
  assert (Hid1 : idle_end e1).
  { destruct (end_step_ok ping_quiet Hack e _ None e1 _ em p outs2 q (end_step_frame _ _ _ _ _ _ (up c (peer r)) Hs) Hal Hrd Hsp Hq)
      as (_ & _ & _ & _ & _ & (o1 & p1 & _ & _ & G3) & _).
    destruct Hid' as [Ho Hpe]. rewrite Ho, Hpe in G3. cbn in G3. apply app_nil in G3 as [_ G3]. apply app_nil in G3 as [G3 G4].
    split; [done|]. by destruct (io_pending (e_io e1)). }
  rewrite <- Ed in Hs. destruct (moves_alone c r e e1 rest em Hi Er Hs) as (c1 & ?). exists c1, e1. by destruct_and!.
Qed.
Lemma reads r n : forall c e, length (down c r) = n -> system_inv c -> clients c r = Running e -> idle_end e ->
  exists c' e', settles c c' /\ system_inv c' /\ clients c' r = Running e' /\ same_app e e'
    /\ (down c' r = [] \/ ~ in_room e')
    /\ clients c' (peer r) = clients c (peer r) /\ up c' (peer r) = up c (peer r).
Proof.
  induction n as [|n IH]; intros c e Hn Hi Er Hid'; (destruct (down c r) as [|m rest] eqn:Ed; try done).
  - exists c, e. split; [constructor|]. split_and!; try done. by left.
  - destruct (decide (in_room e)) as [Hroom|Hfull]; [|by exists c, e; split; [constructor|]; split_and!; auto].
    simpl in Hn. destruct (frees r c e Hi Er Hroom) as (c0 & R0 & Hi0 & Er0 & Ed0 & Ep0 & Eu0). rewrite Ed in Ed0.
    destruct (reads_one r c0 _ m rest Hi0 Er0 Hid' eq_refl Ed0) as (c1 & e1 & R1 & Hi1 & Er1 & Hid1 & Hsa & Ed1 & Ep1 & Eu1).
    destruct (IH c1 e1) as (c' & e' & R2 & Hi2 & Er2 & Hsa2 & Ed2 & Ep2 & Eu2); [rewrite Ed1; lia|done..|].
    exists c', e'. split; [by do 2 (eapply system_settles_trans; [eassumption|])|]. split_and!; try done; [by etrans|congruence..].
Qed.

Lemma both_run c : system_inv c ->
  exists c', settles c c' /\ system_inv c' /\ forall r, clients c' r = Running (end_of (clients c r)).
Proof.
  intros Hi. destruct (joins_in Sender c Hi) as (c1 & R1 & A1 & _ & E1). pose proof (settles_inv _ _ R1 Hi) as Hi1.
  destruct (joins_in Receiver c1 Hi1) as (c2 & R2 & A2 & P2 & E2). pose proof (settles_inv _ _ R2 Hi1) as Hi2.
  destruct (pairs Sender _ c2 eq_refl Hi2 (P2 A1) A2) as (c3 & e3 & R3 & C3 & -> & P3). pose proof (settles_inv _ _ R3 Hi2) as Hi3.
  destruct (pairs Receiver _ c3 eq_refl Hi3) as (c4 & e4 & R4 & C4 & -> & P4).
  { cbn [peer] in P3. by rewrite P3. }
  { cbn [peer]. by rewrite C3. }
  exists c4. split; [by do 3 (eapply system_settles_trans; [eassumption|])|]. split; [by eapply settles_inv|].
  cbn [peer] in *. intros []; [rewrite C4, P3|rewrite P4, C3]; by rewrite E2, E1.
Qed.
Lemma arrived r c x y : system_inv c -> clients c r = Running y -> clients c (peer r) = Running x -> idle_end x ->
  down c r = [] -> up c (peer r) = [] -> io_in (e_io y) = e_sent x.
Proof.
  intros (_ & _ & Hi) Ey Ex Hx Hd Hu. apply (view_inv r) in Hi. destruct Hi as (_ & _ & _ & Hf & _).
  unfold view in Hf. cbn [p_left p_right p_rl] in Hf. rewrite Ey, Ex, Hd, Hu in Hf. by apply (all_arrived x y).
Qed.
(** What [r]'s application has sent and the peer's has not taken. *)
Definition waiting (c : system) (r : Role) : list bytes :=
  drop (length (e_taken (end_of (clients c (peer r))))) (e_sent (end_of (clients c r))).
Lemma few_in_room r c : system_inv c -> (length (waiting c (peer r)) <= IN_CHANNEL)%nat -> in_room (end_of (clients c r)).
Proof.
  intros (_ & _ & Hi) Hw. apply (view_inv r) in Hi. destruct Hi as (_ & _ & _ & Hf & _). apply in_prefix, prefix_length in Hf.
  unfold view in Hf. cbn [p_left p_right] in Hf. unfold waiting in Hw. rewrite peer_peer, length_drop in Hw. unfold in_room. lia.
Qed.
(** What has been sent to [r] is there, as far as there is room. *)
Definition filled (c : system) (r : Role) : Prop :=
  exists x y, clients c r = Running y /\ clients c (peer r) = Running x
    /\ (io_in (e_io y) = e_sent x \/ ~ in_room y).
Definition idle_apps (c c' : system) : Prop := forall r, same_app (end_of (clients c r)) (end_of (clients c' r)).
Lemma idle_waiting c c' r : idle_apps c c' -> waiting c' r = waiting c r.
Proof. intros Ha. unfold waiting. destruct (Ha r) as (-> & _), (Ha (peer r)) as (_ & -> & _). done. Qed.
Lemma fills r c : system_inv c -> in_room (end_of (clients c (peer r))) ->
  exists c', settles c c' /\ system_inv c' /\ idle_apps c c' /\ filled c' r
    /\ io_in (e_io (end_of (clients c' (peer r)))) = io_in (e_io (end_of (clients c (peer r)))).
Proof.
  intros Hi Hroom. destruct (both_run c Hi) as (c0 & R0 & Hi0 & E0).
  destruct (flushes (peer r) c0 _ Hi0 (E0 _) Hroom) as (c1 & x & R1 & Hi1 & X1 & Ix & Ax & _ & Nx & P1).
  rewrite peer_peer, E0 in P1. set (y := end_of (clients c r)) in *.
  assert (Hidle : forall c' y', clients c' r = Running y' -> clients c' (peer r) = Running x -> same_app y y' -> idle_apps c c').
  { intros c' y' Ey Ex Ay r'. destruct (role_cases r r') as [->| ->]; by rewrite ?Ey, ?Ex. }
  destruct (decide (in_room y)) as [Hy|Hfull].
  2: { exists c1. split; [by eapply system_settles_trans|]. split; [done|]. split; [by eapply Hidle|]. split; [exists x, y; auto|by rewrite X1]. }
  destruct (flushes r c1 y Hi1 P1 Hy) as (c2 & y2 & R2 & Hi2 & Y2 & Iy & Ay & _ & _ & P2). rewrite X1 in P2.
  destruct (drains (peer r) _ c2 eq_refl Hi2) as (c3 & R3 & U3 & _ & C3). pose proof (settles_inv _ _ R3 Hi2) as Hi3.
  rewrite <- C3 in Y2, P2.
  destruct (reads r _ c3 y2 eq_refl Hi3 Y2 Iy) as (c4 & y4 & R4 & Hi4 & Y4 & Ay4 & D4 & P4 & U4). rewrite U3 in U4. rewrite P2 in P4.
  exists c4. split; [by do 4 (eapply system_settles_trans; [eassumption|])|]. split; [done|].
  split; [eapply Hidle; [done..|by etrans]|]. split; [|by rewrite P4].
  exists x, y4. split_and!; try done. destruct D4 as [D4|D4]; [left|by right]. by eapply arrived.
Qed.
(** With no more than [IN_CHANNEL] frames waiting either way, all arrives. *)
Definition all_there (c : system) : Prop :=
  forall r, exists x y, clients c r = Running y /\ clients c (peer r) = Running x /\ io_in (e_io y) = e_sent x.
Lemma filled_there r c : system_inv c -> (length (waiting c (peer r)) <= IN_CHANNEL)%nat -> filled c r ->
  io_in (e_io (end_of (clients c r))) = e_sent (end_of (clients c (peer r))).
Proof.
  intros Hi Hw (x & y & Ey & Ex & Hin). apply (few_in_room _ _ Hi) in Hw. rewrite Ey in Hw. rewrite Ey, Ex. cbn [end_of] in *. by destruct Hin.
Qed.
Lemma all_arrives c : system_inv c -> (forall r, (length (waiting c r) <= IN_CHANNEL)%nat) ->
  exists c', settles c c' /\ system_inv c' /\ idle_apps c c' /\ all_there c'.
Proof.
  intros Hi Hfew. destruct (fills Receiver c Hi (few_in_room _ _ Hi (Hfew _))) as (c1 & R1 & Hi1 & A1 & F1 & _).
  assert (Hfew1 : forall r, (length (waiting c1 r) <= IN_CHANNEL)%nat) by (intros r; by rewrite (idle_waiting _ _ _ A1)).
  destruct (fills Sender c1 Hi1 (few_in_room _ _ Hi1 (Hfew1 _))) as (c2 & R2 & Hi2 & A2 & F2 & N2).
  assert (Hfew2 : forall r, (length (waiting c2 r) <= IN_CHANNEL)%nat) by (intros r; by rewrite (idle_waiting _ _ _ A2)).
  apply (filled_there Receiver) in F1; [|done..]. pose proof (filled_there Sender c2 Hi2 (Hfew2 _) F2) as G2.
  destruct F2 as (x & y & Ey & Ex & _). cbn [peer] in *. rewrite Ey, Ex in G2. rewrite Ex in N2. cbn [end_of] in *.
  exists c2. split; [by eapply system_settles_trans|]. split; [done|]. split; [intros r; etrans; [apply A1|apply A2]|].
  intros []; [|by exists x, y]. exists y, x. split_and!; [done..|]. rewrite N2, F1. destruct (A2 Sender) as (E & _). by rewrite Ey in E.
Qed.
End run.

(** ** Property *)

(** C15: The relay transport as a whole refines a pair of first-in-first-out
    queues, whichever relay it runs on: from an empty room, whatever the order
    in which the clients dial, hear of each other, ping, batch, acknowledge,
    wait for the window to send and for their application to take, and in
    which the relay takes what reaches it, the applications send and take
    exactly as two queues allow; and no io task dies. From wherever the run has
    come, clients and relay alone bring what was sent to a client to where its
    application can take it, as far as there is room for it, unless the other
    client is itself held up by its application; so with no more than
    [IN_CHANNEL] frames waiting either way they bring everything. The parser
    must read the relay's texts as JSON, and no acknowledgement as a
    departure. *)
Theorem relay_transport_fifo `{JsonParser} `{RelayRoom} id tr c :
  id Sender <> id Receiver -> reads_texts -> acks_quietly -> system_run id (system0) tr c ->
  fifo ([], []) (map on_side tr) = Some (queues (view Sender c))
  /\ (forall r e, clients c r = Running e -> io_dead (e_io e) = None)
  /\ (forall r, (length (waiting c r) <= IN_CHANNEL)%nat ->
        exists c', system_run id c [] c' /\ idle_apps c c' /\ filled c' r)
  /\ ((forall r, (length (waiting c r) <= IN_CHANNEL)%nat) ->
        exists c', system_run id c [] c' /\ idle_apps c c' /\ all_there c').
Proof.
  intros Hid Hj Ha Hr. destruct (system_run_refines id Hid Hj Ha _ _ _ Hr (system0_inv id)) as [Hi Hp].
  split; [exact (proj2 (run_simulates (ping_quiet Hj) Ha _ _ _ Hp pipe0_inv))|]. split; [|split].
  - intros r e Er. by destruct (running_in_step id c r e Hi Er).
  - intros r Hw. destruct (fills id Hid Hj Ha r c Hi) as (c' & ?); [by eapply few_in_room; rewrite ?peer_peer|].
    exists c'. by destruct_and!.
  - intros Hw. destruct (all_arrives id Hid Hj Ha c Hi Hw) as (c' & ?). exists c'. by destruct_and!.
Qed.

(** A frame through the Worker, and through the mock. *)
Module Example.
(** Reads the texts of the relay and the acknowledgements. *)
Definition ack_head : string :=
  "{" +:+ String "034" "t" +:+ String "034" ":" +:+ String "034" "ack" +:+ String "034" "," +:+ String "034" "n" +:+ String "034" ":".
#[local] Instance toy_json : JsonParser := fun s =>
  match strip_prefix ack_head s with
  | Some rest =>
      n ← parse_uint (U64 - 1) (String.substring 0 (String.length rest - 1) rest);
      Some (JObj [("t", JStr "ack"); ("n", JNum (Some n))])
  | None => v ← head (filter (fun v => tagged v = s) relay_texts); Some (JObj [("t", JStr v)])
  end.
Lemma toy_reads : reads_texts.
Proof.
  assert (H : Forall (fun v => json_parse (tagged v) = Some (JObj [("t", JStr v)])) relay_texts) by (repeat constructor).
  intros v Hv. rewrite Forall_forall in H. by apply H.
Qed.
Lemma substring_head v x : String.substring 0 (String.length v) (v +:+ x) = v.
Proof. induction v as [|a v IH]; [by destruct x|]. simpl. by rewrite IH. Qed.
Lemma toy_ack n : json_parse (match ack_message n with MText t => t | _ => "" end)
  = n ← parse_uint (U64 - 1) (show n); Some (JObj [("t", JStr "ack"); ("n", JNum (Some n))]).
Proof.
  unfold json_parse, toy_json. cbn [ack_message].
  match goal with |- context [strip_prefix _ ?t] => change t with (ack_head +:+ (show n +:+ "}")) end.
  rewrite strip_prefix_app, str_app_length, Nat.add_sub. by rewrite substring_head.
Qed.
Lemma toy_acks : acks_quietly.
Proof.
  intros n. unfold readable, quiet, parse_control. pose proof (toy_ack n) as E. cbn [ack_message] in E |- *. rewrite E.
  destruct (parse_uint _ _); [|done]. cbn. by case_guard.
Qed.
Definition ids (r : Role) : nat := match r with Sender => 1 | Receiver => 2 end.
Lemma ids_ne : ids Sender <> ids Receiver.
Proof. done. Qed.
Definition worker : RelayRoom := Worker.relay (fun l => l) 0 (fun l => Permutation_refl l).
Definition mock : RelayRoom := Mock.relay "room" eq_refl.
(** The receiver dials, then the sender, who hears of it and sends a frame. *)
Lemma one_frame (R : RelayRoom) (s1 s2 : room) :
  on_event (Join Receiver 2) room0 = (s1, []) ->
  on_event (Join Sender 1) s1 = (s2, [(1%nat, PEER_JOINED); (2%nat, PEER_JOINED)]) ->
  exists c, system_run ids system0 [(Sender, ASend [Byte.x41])] c /\ waiting c Sender = [[Byte.x41]] /\ waiting c Receiver = []
    /\ e_taken (end_of (clients c Receiver)) = []
    /\ exists e, clients c Sender = Running e /\ e_sent e = [[Byte.x41]].
Proof.
  intros E1 E2. eexists. split.
  - eapply (sys_cons _ _ None _ [(Sender, ASend [Byte.x41])]); [eapply (sys_joins ids _ Receiver); [reflexivity|exact E1]|].
    eapply (sys_cons _ _ None _ [(Sender, ASend [Byte.x41])]); [eapply (sys_joins ids _ Sender); [reflexivity|exact E2]|].
    eapply (sys_cons _ _ None _ [(Sender, ASend [Byte.x41])]); [eapply (sys_hears ids _ Sender); reflexivity|].
    eapply (sys_cons _ _ (Some (Sender, ASend [Byte.x41])) _ []); [|constructor].
    eapply (sys_moves ids _ Sender endpoint0 (Some (ASend [Byte.x41]))); [reflexivity|]. apply end_sends. vm_compute. reflexivity.
  - split_and!; [done..|]. by eexists.
Qed.
Lemma there_arrived (R : RelayRoom) (c c' : system) f : waiting c Sender = [f] -> e_taken (end_of (clients c Receiver)) = [] -> idle_apps c c' -> all_there c' ->
  exists er, clients c' Receiver = Running er /\ io_in (e_io er) = [f].
Proof.
  intros Hw Ht Ha Hall. destruct (Hall Receiver) as (x & y & Ey & Ex & E). exists y. split; [done|]. rewrite E.
  destruct (Ha Sender) as (Es & _). cbn [peer] in Ex. rewrite Ex in Es. cbn [end_of] in Es. rewrite Es.
  unfold waiting in Hw. cbn [peer] in Hw. by rewrite Ht in Hw.
Qed.
Lemma relay_transport_fifo_witness :
  (exists c c' er, system_run (H0 := worker) ids system0 [(Sender, ASend [Byte.x41])] c /\ system_run (H0 := worker) ids c [] c'
    /\ clients c' Receiver = Running er /\ io_in (e_io er) = [[Byte.x41]])
  /\ exists c c' er, system_run (H0 := mock) ids system0 [(Sender, ASend [Byte.x41])] c /\ system_run (H0 := mock) ids c [] c'
    /\ clients c' Receiver = Running er /\ io_in (e_io er) = [[Byte.x41]].
Proof.
  split.
  - destruct (one_frame worker _ _ eq_refl eq_refl) as (c & Hr & Hs & Hs' & Ht & _).
    destruct (relay_transport_fifo (H0 := worker) ids _ c ids_ne toy_reads toy_acks Hr) as (_ & _ & _ & Hall).
    destruct Hall as (c' & Hr' & Ha & Hth); [intros []; rewrite ?Hs, ?Hs'; vm_compute; lia|].
    destruct (there_arrived _ c c' _ Hs Ht Ha Hth) as (er & E1 & E2). by exists c, c', er.
  - destruct (one_frame mock _ _ eq_refl eq_refl) as (c & Hr & Hs & Hs' & Ht & _).
    destruct (relay_transport_fifo (H0 := mock) ids _ c ids_ne toy_reads toy_acks Hr) as (_ & _ & _ & Hall).
    destruct Hall as (c' & Hr' & Ha & Hth); [intros []; rewrite ?Hs, ?Hs'; vm_compute; lia|].
    destruct (there_arrived _ c c' _ Hs Ht Ha Hth) as (er & E1 & E2). by exists c, c', er.
Defined.
End Example.
