(* ===== verification/RelayWindow.v ===== *)
(** * The window over the whole relay transport

    [send] of src/transport/relay.rs waits until the window is open, which
    depends on the acknowledgements that come back through the relay. Here the
    counters of both io tasks are followed along any run of RelayRun: once what
    is under way has arrived, the window is open for any frame. *)

From stdpp Require Import functions.
From S2P Require Import Prelude Str Libs Pake Channel Transport RelayWire RelayFlow RelayPipe RelayRoom RelayRun.

(** What the parser must make of an acknowledgement. *)
Definition reads_acks `{JsonParser} : Prop :=
  forall n t, u64_ok n -> ack_message n = MText t ->
    json_parse t = Some (JObj [("t", JStr "ack"); ("n", JNum (Some n))]).

Section window.
Context `{JsonParser} `{RelayRoom}.
Variable id : Role -> nat.
Hypothesis Hid : id Sender <> id Receiver.
Hypothesis Hreads : reads_texts.
Hypothesis Hack : acks_quietly.
Hypothesis Hread_acks : reads_acks.

(** The acknowledgements on a wire. *)
Definition ack_of (m : message) : option Z :=
  match m with MText t => match parse_control t with Some (Ack n) => Some n | _ => None end | _ => None end.
Definition acks_on (w : list message) : list Z := omap ack_of w.

Lemma ack_read n : u64_ok n -> ack_of (ack_message n) = Some n.
Proof.
  intros Hn. pose proof (Hread_acks n _ Hn eq_refl) as E. unfold ack_of, ack_message, parse_control. rewrite E. cbn. by rewrite option_guard_True.
Qed.
Lemma acks_app a b : acks_on (a ++ b) = acks_on a ++ acks_on b.
Proof. apply omap_app. Qed.
Lemma acks_binary ps : acks_on (map MBinary ps) = [].
Proof. by induction ps. Qed.
Lemma acks_text t w : acks_on (MText t :: w) = match parse_control t with Some (Ack n) => n :: acks_on w | _ => acks_on w end.
Proof. unfold acks_on. cbn [omap list_omap ack_of]. by destruct (parse_control t) as [[]|]. Qed.
Lemma parse_ack_u64 t n : parse_control t = Some (Ack n) -> u64_ok n.
Proof.
  unfold parse_control. destruct (json_parse t) as [v|]; [|done]. cbn. destruct (json_get "t" v) as [k|]; [|done]. cbn.
  destruct (as_str k) as [s|]; [|done]. cbn. destruct (String.eqb s "peer-joined"), (String.eqb s "peer-left"), (String.eqb s "pong"), (String.eqb s "ack"); try done.
  destruct (json_get "n" v) as [[| |[m|]| | |]|]; try done. cbn. by case_guard; intros [= <-].
Qed.
Lemma acks_nonneg w : Forall (fun n => 0 <= n) (acks_on w).
Proof.
  apply Forall_forall. intros n. unfold acks_on. rewrite list_elem_of_omap. intros ([t| | |] & _ & E); try done.
  cbn in E. destruct (parse_control t) as [[]|] eqn:Et; try done. injection E as <-. by apply parse_ack_u64 in Et as [].
Qed.

(** What an end's step does to its counters as the one that acknowledges, and
    as the one that is acknowledged. *)
Definition acks_step (y y' : io_state) (acks : list Z) : Prop :=
  exists fs, io_in y' = io_in y ++ fs
    /\ (0 <= io_acked_out y <= io_consumed y -> io_consumed y + frames_size fs < U64 ->
        io_consumed y - io_acked_out y < ACK_EVERY ->
        io_consumed y' = io_consumed y + frames_size fs
        /\ ((acks = [] /\ io_acked_out y' = io_acked_out y /\ io_consumed y' - io_acked_out y' < ACK_EVERY)
            \/ (acks = [io_consumed y'] /\ io_acked_out y' = io_consumed y'))).
Definition acked_step (x x' : io_state) (w w' : list message) : Prop :=
  (io_acked x' = io_acked x /\ acks_on w' = acks_on w) \/ acks_on w = io_acked x' :: acks_on w'.
(** What the io task still owes counts as on the wire. *)
Definition owed (e : endpoint) : list message := default [] (e_owed e).
Definition end_counts (e e' : endpoint) (inc inc' em : list message) : Prop :=
  (exists new, acks_on (em ++ owed e') = acks_on (owed e) ++ new /\ acks_step (e_io e) (e_io e') new)
  /\ acked_step (e_io e) (e_io e') inc inc'.

Lemma acks_step_same y y' : io_in y' = io_in y -> io_consumed y' = io_consumed y -> io_acked_out y' = io_acked_out y ->
  acks_step y y' [].
Proof.
  intros E1 E2 E3. exists []. rewrite app_nil_r. split; [done|]. intros Hr _ Hlt. cbn. rewrite E2, E3. split; [lia|]. left. by split_and!.
Qed.
(** A turn that does no more than write texts which are no acknowledgements. *)
Lemma counts_same e e' inc inc' em : io_in (e_io e') = io_in (e_io e) -> io_consumed (e_io e') = io_consumed (e_io e) ->
  io_acked_out (e_io e') = io_acked_out (e_io e) -> acks_on (em ++ owed e') = acks_on (owed e) ->
  acked_step (e_io e) (e_io e') inc inc' -> end_counts e e' inc inc' em.
Proof. intros E1 E2 E3 E4 Hx. split; [|done]. exists []. rewrite app_nil_r. split; [done|]. by apply acks_step_same. Qed.
Lemma deliver_acked fs n s : io_acked (io_deliver n fs s) = io_acked s.
Proof. revert n s. induction fs as [|f fs IH]; intros [|n] s; cbn [io_deliver]; try done. by rewrite IH. Qed.
Lemma emitted_acks ps s s' em : io_ws s' = io_ws s ++ map MBinary ps ++ em -> acks_on (emitted s s') = acks_on em.
Proof. intros E. unfold emitted. by rewrite E, drop_ws, acks_app, acks_binary. Qed.

Lemma reads_counts e b n inc :
  e_owed e = None -> io_pending (e_io e) = [] -> listens n (io_partial (e_io e)) b -> io_dead (e_io e) = None ->
  io_closing (e_io e) = false -> (exists outs, (push_all (io_partial (e_io e)) (b :: binaries inc)).1 = Ok outs) ->
  let s' := io_turn true (EvItem (WsMsg (MBinary b)) n) (e_io e) in
  end_counts e (with_owed (Some (emitted (e_io e) s')) (with_io s' e)) (MBinary b :: inc) inc [].
Proof.
  intros Ho Hpe Hl Hd Hc [outs Hin]. cbn [push_all] in Hin.
  destruct (Debatcher_push (io_partial (e_io e)) b) as [[fs|er|] partial'] eqn:Hpush; [|done..].
  cbn zeta. rewrite turn_idle by done. cbn [io_event_step]. rewrite Hpush. pose proof (Hl fs partial' Hpush) as Hn.
  set (s1 := io_set_partial partial' (e_io e)). destruct (deliver_ok fs n s1 Hn) as (E1 & _ & _ & _ & E5 & _).
  match goal with |- context [with_io ?y e] => set (y' := y) end. assert (Hin' : io_in y' = io_in (e_io e) ++ fs) by (unfold y'; destruct (_ <=? _); exact E1).
  assert (Hacked : io_acked y' = io_acked (e_io e)) by (unfold y'; destruct (_ <=? _); apply (deliver_acked fs n s1)).
  split; [|left; by split]. exists (acks_on (emitted (e_io e) y')). unfold owed. rewrite Ho. split; [done|].
  exists fs. split; [exact Hin'|]. intros Hr Hlt Hpol. unfold y'. pose proof (frames_size_nonneg fs).
  rewrite (io_deliver_spec fs n s1 Hn) by (cbn; lia). cbn [s1 io_set_partial io_consumed io_acked_out].
  rewrite (wrap64_small (_ - _)) by (unfold u64_ok; lia).
  destruct (Z.leb_spec ACK_EVERY (io_consumed (e_io e) + frames_size fs - io_acked_out (e_io e))) as [Hle|Hgt]; cbn.
  - split; [done|]. right. split; [|done]. erewrite (emitted_acks []); [|reflexivity].
    unfold acks_on. cbn [omap list_omap]. by rewrite ack_read by (unfold u64_ok; lia).
  - split; [done|]. left. split; [|split; [done|lia]]. by erewrite (emitted_acks [] _ _ []); [|symmetry; apply app_nil_r].
Qed.
Lemma end_acks e inc a e' inc' em p outs q :
  end_step e inc a e' inc' em -> alive e -> in_step p (io_pending (e_io e)) ->
  push_all (io_partial (e_io e)) (binaries inc) = (Ok outs, q) -> end_counts e e' inc inc' em.
Proof.
  intros Hstep (Hd & Hc & _) Hs Hin. destruct (turn_ok p (e_io e) Hd Hc Hs) as (ps & Hps & Hturn).
  destruct Hstep as [e inc f n Hf|e inc f Hf|e inc Ho s'|e inc f queued rest Ho Hq s'|e inc Ho s'|e t inc Ho Hqt s'|e b n inc Ho Hpe Hl s'|e inc em Ho Hroom].
  - apply counts_same; try done. by left.
  - apply counts_same; try done. by left.
  - destruct (flush_ok p (e_io e) Hs) as (ps' & He & _). unfold s'. rewrite He. apply counts_same; try done; [|by left].
    rewrite acks_app. by erewrite (emitted_acks ps' _ _ []); [|by rewrite app_nil_r].
  - unfold s'. rewrite Hturn. cbn [io_event_step]. rewrite drain_ok. apply counts_same; try done; [|by left].
    rewrite acks_app. by erewrite (emitted_acks ps _ _ []); [|by rewrite app_nil_r].
  - unfold s'. rewrite Hturn. apply counts_same; try done; [|by left].
    rewrite acks_app. erewrite (emitted_acks ps _ _ [MText PING]); [|by cbn; rewrite <- app_assoc].
    by rewrite acks_text, ping_tagged, parse_tagged by (done || relay_text).
  - unfold s', acked_step. rewrite Hturn. cbn [io_event_step].
    destruct (parse_control t) as [[| | |k]|] eqn:Et; try by destruct (Hqt Et).
    all: apply counts_same; try done; [|unfold acked_step; rewrite acks_text, Et; by auto].
    all: rewrite acks_app; by erewrite (emitted_acks ps _ _ []); [|by cbn; rewrite app_nil_r].
  - apply reads_counts; try done. exists outs. change (push_all (io_partial (e_io e)) (b :: binaries inc) = (Ok outs, q)) in Hin. by rewrite Hin.
  - apply counts_same; try done; [|by left]. unfold owed. by rewrite Ho, app_nil_r.
Qed.
(** ** Along a run *)

Lemma default_last_app {A} (d : A) l k : default d (last (l ++ k)) = default (default d (last l)) (last k).
Proof. rewrite last_app. by destruct (last k). Qed.

(** The most that is ever sent and not acknowledged. *)
Definition MAX_UNACKED : Z := Z.max WINDOW (ACK_EVERY + MAX_LOGICAL_FRAME).
(** [x] sends, [y] acknowledges; [w] is the wire back. *)
Definition window_ok (x y : endpoint) (w : list message) : Prop :=
  0 <= io_acked (e_io x) /\
  (frames_size (e_sent x) < U64 ->
    e_count x = frames_size (e_sent x)
    /\ io_consumed (e_io y) = frames_size (io_in (e_io y))
    /\ 0 <= io_acked_out (e_io y) <= io_consumed (e_io y) /\ io_consumed (e_io y) - io_acked_out (e_io y) < ACK_EVERY
    /\ default (io_acked (e_io x)) (last (acks_on w)) = io_acked_out (e_io y)
    /\ Forall (fun n => n <= io_acked_out (e_io y)) (io_acked (e_io x) :: acks_on w)
    /\ StronglySorted Z.le (io_acked (e_io x) :: acks_on w)
    /\ e_count x - io_acked (e_io x) <= MAX_UNACKED).
Definition back (c : system) (r : Role) : list message := (down c (peer r) ++ up c r) ++ owed (end_of (clients c r)).
Definition windows_ok (c : system) : Prop :=
  forall r, window_ok (end_of (clients c (peer r))) (end_of (clients c r)) (back c r).

(** What the acknowledging end does. *)
Lemma window_consumes x y y' w w' new : window_ok x y w -> acks_on w' = acks_on w ++ new ->
  acks_step (e_io y) (e_io y') new -> io_in (e_io y') `prefix_of` e_sent x -> window_ok x y' w'.
Proof.
  intros [W0 W] Ew (fs & Hin & Hy) Hpre. split; [done|]. intros Hlt. destruct (W Hlt) as (W1 & W2 & W3 & W4 & W5 & W6 & W7 & W8).
  apply frames_size_prefix in Hpre. rewrite Hin, frames_size_app in Hpre |- *. destruct (Hy W3 ltac:(lia) W4) as (Y1 & Y2).
  pose proof (frames_size_nonneg fs). rewrite Y1. split; [done|]. split; [lia|]. rewrite Ew, default_last_app, W5.
  destruct Y2 as [(-> & -> & Y2)|(-> & ->)]; cbn [last from_option default].
  - split; [lia|]. split; [lia|]. by rewrite app_nil_r.
  - split; [lia|]. split; [unfold ACK_EVERY; lia|]. split; [done|]. rewrite (app_comm_cons (acks_on w)). split_and!; [| |done].
    + apply Forall_app. split; [|by repeat constructor; lia]. eapply Forall_impl; [exact W6|]. simpl. lia.
    + apply StronglySorted_app. split; [|split; [done|by repeat constructor]].
      intros a b Ha Hb%list_elem_of_singleton. subst b. rewrite Forall_forall in W6. specialize (W6 a Ha). simpl in W6. lia.
Qed.
(** What the sending end does: its count, and what it has not had
    acknowledged, [acked] being an acknowledgement that comes in. *)
Lemma window_counts e e' inc inc' a em : end_step e inc a e' inc' em -> 0 <= io_acked (e_io e) ->
  frames_size (e_sent e') < U64 /\ e_sent e' = e_sent e ++ sends a -> e_count e = frames_size (e_sent e) ->
  e_count e - io_acked (e_io e) <= MAX_UNACKED ->
  e_count e' = frames_size (e_sent e') /\ (io_acked (e_io e) <= io_acked (e_io e') -> e_count e' - io_acked (e_io e') <= MAX_UNACKED).
Proof.
  intros Hs H0' [Hlt Es] Hc Hm. pose proof (frames_size_nonneg (e_sent e)). unfold MAX_UNACKED in *.
  destruct Hs as [e inc f n Hf|e inc f Hf|e inc Ho s'|e inc f queued rest Ho Hq s'|e inc Ho s'|e t inc Ho Hqt s'|e b n inc Ho Hpe Hl s'|e inc em Ho Hroom];
    cbn [e_count e_sent e_io with_io with_owed] in *; try (split; [done|lia]).
  apply channel_send_ok in Hf as (Hf & Hopen & ->). rewrite frames_size_app in Hlt |- *. cbn [frames_size foldr] in *.
  pose proof (zlen_nonneg f). rewrite wrap64_small by (unfold u64_ok; lia). split; [lia|]. intros _.
  unfold window_open, saturating_sub in Hopen. apply orb_true_iff in Hopen as [Hopen%Z.leb_le|Hopen%Z.ltb_lt]; [|lia].
  rewrite wrap64_small in Hopen by (unfold u64_ok; lia). lia.
Qed.
Lemma window_sends e e' y inc inc' w a em : end_step e inc a e' inc' em -> e_sent e' = e_sent e ++ sends a ->
  acked_step (e_io e) (e_io e') inc inc' -> window_ok e y (inc ++ w) -> window_ok e' y (inc' ++ w).
Proof.
  intros Hs Es Hx [W0 W]. split.
  { destruct Hx as [[-> _]|E]; [done|]. pose proof (acks_nonneg inc) as Hn. rewrite E in Hn. by apply Forall_cons in Hn as []. }
  intros Hlt. assert (Hlt' : frames_size (e_sent e) < U64).
  { rewrite Es, frames_size_app in Hlt. pose proof (frames_size_nonneg (sends a)). lia. }
  destruct (W Hlt') as (W1 & W2 & W3 & W4 & W5 & W6 & W7 & W8).
  destruct (window_counts e e' inc inc' a em Hs W0 (conj Hlt Es) W1 W8) as [C1 C2].
  rewrite acks_app in *. split; [done|]. split; [done|]. split; [done|]. split; [done|].
  destruct Hx as [[Ea ->]|Ea]; [rewrite Ea in C2 |- *; split_and!; [done..|apply C2; lia]|]. rewrite Ea in *. cbn [app] in *.
  apply Forall_cons in W6 as [_ W6]. apply StronglySorted_inv in W7 as [W7 W9]. apply Forall_cons in W9 as [W9 _].
  split_and!; [|done|done|]; [rewrite <- W5, last_cons; by destruct (last (acks_on inc' ++ acks_on w))|specialize (C2 W9); lia].
Qed.

Lemma windows_same c c' : (forall r, end_of (clients c' r) = end_of (clients c r)) ->
  (forall r, acks_on (back c' r) = acks_on (back c r)) -> windows_ok c -> windows_ok c'.
Proof. intros He Hw Hok r. unfold window_ok. rewrite !He, Hw. apply Hok. Qed.
Lemma windows_moves c r e a e' inc em : system_inv id c -> windows_ok c -> clients c r = Running e ->
  end_step e (down c r) a e' inc em ->
  windows_ok {| clients := <[r := Running e']> (clients c); up := <[r := up c r ++ em]> (up c); down := <[r := inc]> (down c); c_room := c_room c |}.
Proof.
  intros Hi Hw Er Hs. pose proof (system_step_refines id Hid Hreads Hack _ _ _ (sys_moves id c r e a e' inc em Er Hs) Hi) as [Hi' _].
  destruct (view_inv r c (proj2 (proj2 Hi))) as (Hal & _ & (outs & p & _ & Hsp & _) & (outs2 & q & Hq & _) & _ & Hrd).
  unfold view in Hal, Hsp, Hq, Hrd. cbn [p_left p_right p_lr p_rl] in *. rewrite Er in Hal, Hsp, Hq. cbn [end_of] in *.
  pose proof (end_step_frame _ _ _ _ _ _ (up c (peer r)) Hs) as Hs'.
  destruct (end_acks e _ a e' _ em p outs2 q Hs' Hal Hsp Hq) as [(new & Hnew & Hy) Hx].
  destruct (end_step_ok (ping_quiet Hreads) Hack e _ a e' _ em p outs2 q Hs' Hal Hrd Hsp Hq) as (_ & _ & _ & Esent & _).
  intros r'. destruct (role_cases r r') as [->| ->]; unfold back; cbn [clients up down]; autorewrite with roles; cbn [end_of].
  - destruct (view_inv r _ (proj2 (proj2 Hi'))) as (_ & _ & _ & Hf & _). apply in_prefix in Hf. revert Hf. unfold view.
    cbn [p_left p_right clients]. autorewrite with roles. cbn [end_of]. intros Hf.
    pose proof (Hw r) as Hwr. rewrite Er in Hwr. eapply window_consumes; [exact Hwr| |exact Hy|exact Hf].
    unfold back. rewrite Er. cbn [end_of]. rewrite !acks_app in *. rewrite <- !app_assoc. by rewrite Hnew.
  - pose proof (Hw (peer r)) as Hwr. rewrite peer_peer, Er in Hwr. unfold back in Hwr. rewrite peer_peer in Hwr.
    cbn [end_of] in Hwr. eapply window_sends; [exact Hs'|done|done|exact Hwr].
Qed.

(** The relay's own texts acknowledge nothing. *)
Lemma no_ack_text v : v ∈ relay_texts -> ack_of (MText (tagged v)) = None.
Proof.
  intros Hv. unfold ack_of. rewrite (parse_tagged Hreads) by done.
  by destruct (String.eqb v "peer-joined"), (String.eqb v "peer-left"), (String.eqb v "pong"), (String.eqb v "ack").
Qed.
Lemma no_ack_ping : ack_of (MText PING) = None.
Proof. rewrite ping_tagged. apply no_ack_text. relay_text. Qed.
Lemma no_ack_pong : ack_of PONG = None.
Proof. apply no_ack_text. relay_text. Qed.
Lemma no_ack_joined : ack_of PEER_JOINED = None.
Proof. apply no_ack_text. relay_text. Qed.
Lemma acks_none m w : ack_of m = None -> acks_on (m :: w) = acks_on w.
Proof. intros E. unfold acks_on. cbn [omap list_omap]. by rewrite E. Qed.
Create Rewrite HintDb acks.
Hint Rewrite acks_app : acks.
Hint Rewrite acks_none using (first [apply no_ack_ping | apply no_ack_pong | apply no_ack_joined]) : acks.

Lemma windows_joins c r s' out : system_inv id c -> windows_ok c -> clients c r = Away ->
  on_event (Join r (id r)) (c_room c) = (s', out) ->
  windows_ok {| clients := <[r := Waiting]> (clients c); up := up c; down := deliver id out (down c); c_room := s' |}.
Proof.
  intros (Hs & Hok & _) Hw Ha He. pose proof (Hok r) as Hr. unfold client_ok in Hr. rewrite Ha in Hr. destruct Hr as (Hm & _).
  pose proof (member_client id c (peer r) (Hok _)) as Hmp. pose proof (joins (c_room c) r (id r) Hs Hm) as Hj. rewrite He in Hj.
  destruct Hj as (_ & _ & _ & Eo).
  { rewrite Hmp. destruct (clients c (peer r)); intros E; simplify_eq; by apply (id_inj id Hid) in E as E%peer_ne. }
  assert (Hnone : forall r', acks_on (said_to id r' out) = []).
  { intros r'. rewrite Eo, Hmp. unfold said_to.
    destruct (clients c (peer r)); cbn [greeting omap list_omap fst snd]; repeat case_decide; by autorewrite with acks. }
  apply (windows_same c); [| |exact Hw].
  - intros r'. destruct (role_cases r r') as [->| ->]; cbn [clients]; autorewrite with roles; by rewrite ?Ha.
  - intros r'. unfold back, deliver. cbn [clients up down]. autorewrite with acks. rewrite Hnone, app_nil_r.
    destruct (role_cases r r') as [->| ->]; autorewrite with roles; by rewrite ?Ha.
Qed.
Lemma windows_hears c r m rest : system_inv id c -> windows_ok c -> clients c r = Waiting -> down c r = m :: rest ->
  windows_ok {| clients := <[r := heard m]> (clients c); up := up c; down := <[r := rest]> (down c); c_room := c_room c |}.
Proof.
  intros (_ & Hok & _) Hw Er Ed. pose proof (Hok r) as Hr. unfold client_ok in Hr. rewrite Er, Ed in Hr. destruct Hr as (_ & _ & Hg).
  assert (Hm : ack_of m = None /\ end_of (heard m) = endpoint0).
  { split; [|unfold heard; by destruct (wait_peer _) as [[]|]].
    assert (Hcase : m = PONG \/ m = PEER_JOINED).
    { destruct (clients c (peer r)); [apply Forall_cons in Hg as [? _]; by left|..];
        destruct Hg as ([|x q] & rest' & [= -> ->] & Hq); auto; apply Forall_cons in Hq as [? _]; by left. }
    destruct Hcase as [-> | ->]; [apply no_ack_pong|apply no_ack_joined]. }
  destruct Hm as [Hm He]. apply (windows_same c); [| |exact Hw].
  - intros r'. destruct (role_cases r r') as [->| ->]; cbn [clients]; autorewrite with roles; by rewrite ?Er.
  - intros r'. unfold back. cbn [clients up down].
    destruct (role_cases r r') as [->| ->]; autorewrite with roles; [by rewrite He, Er|]. by rewrite Ed, !acks_app, acks_none.
Qed.
Lemma windows_relays c r m rest s' out : system_inv id c -> windows_ok c -> up c r = m :: rest ->
  on_event (Receive r (id r) m) (c_room c) = (s', out) ->
  windows_ok {| clients := clients c; up := <[r := rest]> (up c); down := deliver id out (down c); c_room := s' |}.
Proof.
  intros Hi Hw Eu He. destruct (relay_out id c r m rest Hi Eu) as (s1 & out1 & He1 & _ & _ & _ & Hcase).
  rewrite He in He1. injection He1 as <- <-. apply (windows_same c); [done| |exact Hw].
  intros r'. unfold back, deliver. cbn [clients up down].
  destruct Hcase as [[-> ->]|(-> & _)]; destruct (role_cases r r') as [->| ->]; autorewrite with roles;
    rewrite ?(said_self id), ?(said_other id Hid), ?(said_self' id Hid), ?(said_nil id), ?app_nil_r, ?Eu; autorewrite with acks; try done.
  - by rewrite app_nil_r.
  - f_equal. rewrite <- app_assoc. f_equal. by rewrite <- acks_app.
Qed.
Lemma windows_step c a c' : system_step id c a c' -> system_inv id c -> windows_ok c -> windows_ok c'.
Proof.
  intros Hs Hi Hw. destruct Hs as [c r s' out Ha He|c r Er|c r m rest Er Hd|c r e a e' inc em Er He|c r m rest s' out Hu He].
  - by apply windows_joins.
  - apply (windows_same c); [done| |exact Hw]. intros r'. unfold back. cbn [clients up down].
    destruct (role_cases r r') as [->| ->]; autorewrite with roles acks; [|done]. by rewrite app_nil_r.
  - by apply windows_hears.
  - by eapply windows_moves.
  - by eapply windows_relays.
Qed.
Lemma windows_run c tr c' : system_run id c tr c' -> system_inv id c -> windows_ok c -> windows_ok c'.
Proof.
  induction 1 as [c|c a c1 tr c2 Hs _ IH]; intros Hi Hw; [done|].
  apply IH; [by eapply system_step_refines|by eapply windows_step].
Qed.
Lemma windows0 : windows_ok system0.
Proof. intros r. split; [done|]. intros _. split_and!; try done; by repeat constructor. Qed.

(** ** The window opens *)

(** [r]'s window is open for whatever it has to send. *)
Definition may_send (c : system) (r : Role) : Prop :=
  exists e, clients c r = Running e /\ forall f, zlen f <= MAX_LOGICAL_FRAME ->
    exists n, channel_send (e_count e) (io_acked (e_io e)) f [] = Some (Ok n).
Lemma open_may_send c r e : clients c r = Running e ->
  (forall len, window_open (e_count e) (io_acked (e_io e)) len = true) -> may_send c r.
Proof.
  intros Er Ho. exists e. split; [done|]. intros f Hf. unfold channel_send.
  destruct (Z.ltb_spec MAX_LOGICAL_FRAME (zlen f)); [lia|]. cbn [send_wait]. rewrite Ho. by eexists.
Qed.
(** One that has sent little never waits. *)
Lemma little_may_send c r e : windows_ok c -> clients c r = Running e -> frames_size (e_sent e) < ACK_EVERY -> may_send c r.
Proof.
  intros Hw Er Hlt. apply (open_may_send c r e Er). intros len. destruct (Hw (peer r)) as [W0 W].
  rewrite peer_peer, Er in W0, W. cbn [end_of] in *. destruct W as (-> & _); [unfold ACK_EVERY, U64 in *; lia|].
  unfold window_open, saturating_sub. apply orb_true_iff. right. apply Z.ltb_lt.
  pose proof (frames_size_nonneg (e_sent e)). lia.
Qed.
(** All that [r] sent has arrived, and neither io task waits for its
    application: the acknowledgements come back. *)
Lemma window_opens r c : system_inv id c -> windows_ok c -> (forall r', (length (waiting c r') <= IN_CHANNEL)%nat) ->
  frames_size (e_sent (end_of (clients c r))) < U64 -> all_there c ->
  exists c', settles id c c' /\ system_inv id c' /\ idle_apps c c' /\ may_send c' r.
Proof.
  intros Hi Hw Hfew Hlt Hall. destruct (Hall (peer r)) as (x & y & Ey & Ex & Hin). rewrite peer_peer in Ex.
  assert (Hroom : forall r' e, clients c r' = Running e -> in_room e).
  { intros r' e Ee. pose proof (few_in_room id Hid r' c Hi (Hfew _)) as Hr. by rewrite Ee in Hr. }
  destruct (frees id Hid Hreads Hack (peer r) c y Hi Ey (Hroom _ _ Ey)) as (c1 & R1 & Hi1 & Y1 & _ & X1 & _).
  rewrite peer_peer, Ex in X1.
  destruct (flushes id Hid Hreads Hack r c1 x Hi1 X1 (Hroom _ _ Ex)) as (c2 & x2 & R2 & Hi2 & X2 & Ix2 & Ax2 & _ & _ & Y2).
  rewrite Y1 in Y2. destruct (drains id Hid Hreads Hack (peer r) _ c2 eq_refl Hi2) as (c3 & R3 & U3 & _ & C3).
  pose proof (settles_inv id Hid Hreads Hack _ _ R3 Hi2) as Hi3. rewrite <- C3 in X2, Y2.
  destruct (reads id Hid Hreads Hack r _ c3 x2 eq_refl Hi3 X2 Ix2) as (c4 & x4 & R4 & Hi4 & X4 & Ax4 & D4 & Y4 & U4).
  rewrite U3 in U4. rewrite Y2 in Y4. assert (Hsx : same_app x x4) by by etrans.
  assert (Hr : settles id c c4) by by do 3 (eapply system_settles_trans; [eassumption|]).
  assert (Hidle : idle_apps c c4).
  { intros r'. destruct (role_cases r r') as [->| ->]; [by rewrite Ex, X4|by rewrite Ey, Y4]. }
  assert (D4' : down c4 r = []).
  { destruct D4 as [?|Hn]; [done|]. exfalso. apply Hn. pose proof (few_in_room id Hid r c4 Hi4) as Hf. rewrite X4 in Hf. apply Hf.
    by rewrite (idle_waiting _ _ _ Hidle). }
  exists c4. split; [done|]. split; [done|]. split; [done|]. apply (open_may_send c4 r x4 X4). intros len.
  pose proof (windows_run c [] c4 Hr Hi Hw (peer r)) as [_ W]. unfold back in W. rewrite peer_peer, X4, Y4, D4', U4 in W.
  cbn [end_of with_owed owed e_owed e_io default] in W. destruct Hsx as (Es & _). rewrite Ex in Hlt. cbn [end_of] in Hlt.
  rewrite Es in W. destruct (W Hlt) as (W1 & W2 & W3 & W4 & W5 & _). cbn in W5. rewrite Hin in W2.
  unfold window_open, saturating_sub. apply orb_true_iff. right. apply Z.ltb_lt. lia.
Qed.
End window.

(** ** Property *)

(** C26: Flow control over the whole relay transport neither stalls nor runs
    away, whichever relay it runs on: in any run of both clients from an empty
    room, a client that has sent less than [2^64] bytes never has more
    unacknowledged than the window, or one frame plus the acknowledgement
    interval; and with no more than [IN_CHANNEL] frames waiting for either
    application, clients and relay alone come to where it can send any frame
    up to the limit, however full the window was. *)
Theorem relay_window `{JsonParser} `{RelayRoom} id tr c r e :
  id Sender <> id Receiver -> reads_texts -> acks_quietly -> reads_acks -> system_run id system0 tr c ->
  clients c r = Running e -> frames_size (e_sent e) < U64 ->
  e_count e - io_acked (e_io e) <= MAX_UNACKED
  /\ ((forall r', (length (waiting c r') <= IN_CHANNEL)%nat) ->
       exists c', system_run id c [] c' /\ idle_apps c c' /\ may_send c' r).
Proof.
  intros Hid Hj Ha Hra Hr Er Hlt. pose proof (proj1 (system_run_refines id Hid Hj Ha _ _ _ Hr (system0_inv id))) as Hi.
  pose proof (windows_run id Hid Hj Ha Hra _ _ _ Hr (system0_inv id) windows0) as Hw. split.
  - destruct (Hw (peer r)) as [_ W]. rewrite peer_peer, Er in W. by apply W.
  - intros Hfew. destruct (all_arrives id Hid Hj Ha c Hi Hfew) as (c1 & R1 & Hi1 & A1 & Hall).
    destruct (window_opens id Hid Hj Ha Hra r c1 Hi1) as (c2 & R2 & _ & A2 & Hs).
    + by eapply windows_run.
    + intros r'. by rewrite (idle_waiting _ _ _ A1).
    + destruct (A1 r) as (-> & _). by rewrite Er.
    + done.
    + exists c2. split; [by eapply system_settles_trans|]. split; [intros r'; etrans; [apply A1|apply A2]|done].
Qed.

Module Example.
#[local] Existing Instance RelayRun.Example.toy_json.
Lemma toy_reads_acks : reads_acks.
Proof.
  intros n t Hn E. pose proof (RelayRun.Example.toy_ack n) as Ha. rewrite E in Ha. rewrite Ha.
  rewrite (parse_show (U64 - 1)) by (destruct Hn; lia). done.
Qed.
#[local] Existing Instance RelayRun.Example.worker.
Lemma relay_window_witness :
  exists c c', system_run RelayRun.Example.ids system0 [(Sender, ASend [Byte.x41])] c
    /\ system_run RelayRun.Example.ids c [] c' /\ may_send c' Sender.
Proof.
  destruct (RelayRun.Example.one_frame RelayRun.Example.worker _ _ eq_refl eq_refl) as (c & Hr & Hs & Hs' & Ht & e & Er & Hsz).
  destruct (relay_window RelayRun.Example.ids _ c Sender e RelayRun.Example.ids_ne RelayRun.Example.toy_reads
    RelayRun.Example.toy_acks toy_reads_acks Hr Er) as [_ Hw]; [rewrite Hsz; vm_compute; reflexivity|].
  destruct Hw as (c' & Hr' & _ & Hm); [intros []; rewrite ?Hs, ?Hs'; vm_compute; lia|]. by exists c, c'.
Defined.
End Example.
