(* ===== verification/Words.v ===== *)
(** * src/words.rs: the word list of the human codes *)

From S2P Require Import Prelude.

Definition WORDS : list string :=
  ["acorn"; "actor"; "album"; "amber"; "ankle"; "apron"; "arrow"; "aspen"; "atlas"; "audio";
   "autumn"; "bacon"; "badger"; "banjo"; "barrel"; "basil"; "bishop"; "bison"; "branch";
   "brave"; "bronze"; "bucket"; "buffalo"; "cabin"; "cactus"; "candle"; "canyon"; "cargo";
   "carpet"; "castle"; "cellar"; "chapel"; "cherry"; "chimney"; "circus"; "citrus";
   "clover"; "coffee"; "comet"; "copper"; "coral"; "cottage"; "cougar"; "cricket";
   "crystal"; "cymbal"; "dahlia"; "daisy"; "decoy"; "denim"; "diesel"; "domino"; "donkey";
   "drummer"; "eagle"; "elbow"; "emerald"; "empire"; "ethics"; "fabric"; "fennel"; "ferry";
   "fiddle"; "fjord"; "flamingo"; "flute"; "forest"; "fountain"; "foxglove"; "fresco";
   "gadget"; "gallery"; "gecko"; "geyser"; "giraffe"; "glacier"; "glimpse"; "granite";
   "gravel"; "guitar"; "gumbo"; "habitat"; "hamlet"; "hammer"; "helmet"; "hermit";
   "hornet"; "hostel"; "import"; "insect"; "ironic"; "ivory"; "jackal"; "jaguar";
   "jasmine"; "jester"; "jigsaw"; "jockey"; "junior"; "kayak"; "ketchup"; "kettle";
   "kimono"; "kitchen"; "koala"; "lagoon"; "lantern"; "leopard"; "lettuce"; "lilac";
   "lizard"; "llama"; "locket"; "locust"; "lotus"; "lumber"; "mango"; "maple"; "marble";
   "meadow"; "medal"; "meteor"; "mildew"; "mirror"; "mohair"; "molten"; "mustard";
   "nectar"; "nephew"; "nickel"; "nomad"; "noodle"; "nostril"; "nutmeg"; "oatmeal";
   "octopus"; "onion"; "orchard"; "orchid"; "osprey"; "otter"; "outlaw"; "oyster";
   "paddle"; "pancake"; "panda"; "panther"; "parrot"; "parsley"; "pebble"; "pelican";
   "penguin"; "pepper"; "petal"; "phantom"; "pigeon"; "pirate"; "pistol"; "plaza"; "plume";
   "pollen"; "poplar"; "poppy"; "potato"; "powder"; "pretzel"; "prism"; "pudding";
   "puppet"; "python"; "quiver"; "rabbit"; "radish"; "rafter"; "rainbow"; "raven";
   "ravine"; "rhino"; "ribbon"; "robin"; "rooster"; "rubber"; "rudder"; "saffron";
   "sandal"; "sapphire"; "satchel"; "scarlet"; "scholar"; "serpent"; "shadow"; "shrimp";
   "signal"; "silver"; "slipper"; "sonnet"; "spinach"; "sponge"; "squid"; "stadium";
   "stallion"; "stingray"; "stucco"; "sulfur"; "summit"; "swallow"; "sweater"; "symbol";
   "tablet"; "tadpole"; "tangent"; "tapestry"; "temple"; "tenant"; "tepee"; "thimble";
   "thorn"; "timber"; "tinsel"; "tornado"; "tortoise"; "totem"; "trolley"; "trophy";
   "tundra"; "turban"; "turtle"; "tuxedo"; "ulcer"; "upward"; "urchin"; "vacuum"; "valley";
   "velvet"; "vendor"; "venom"; "viking"; "violet"; "vortex"; "waffle"; "walrus"; "warden";
   "wasabi"; "whistle"; "willow"; "winter"; "wombat"; "xylophone"; "yarn"; "yeast";
   "yogurt"; "zebra"; "zephyr"; "zigzag"; "zodiac"; "zombie"].

(** [WORDS[index as usize]]. *)
Definition word (index : byte) : res string :=
  match WORDS !! Z.to_nat (b2z index) with Some w => Ok w | None => Panic end.

(** [iter().position(|x| *x == w)]. *)
Fixpoint position (w : string) (l : list string) : option nat :=
  match l with
  | [] => None
  | x :: l' => if String.eqb x w then Some O else S <$> position w l'
  end.
(** [.map(|i| i as u8)]. *)
Definition index_of (w : string) : option byte :=
  i ← position w WORDS; Some (z2b (Z.of_nat i)).

(** ** Lemmas *)

Lemma position_lookup w l i : position w l = Some i -> l !! i = Some w.
Proof.
  revert i. induction l as [|x l IH]; intros i; simpl; [done|].
  destruct (String.eqb_spec x w) as [->|]; [by intros [= <-]|].
  destruct (position w l) as [j|]; [|done]. intros [= <-]. by apply IH.
Qed.
Lemma lookup_position w l i : NoDup l -> l !! i = Some w -> position w l = Some i.
Proof.
  intros Hn. revert i. induction Hn as [|x l Hx Hn IH]; intros i; [done|].
  destruct i as [|i]; simpl; [intros [= ->]; by rewrite String.eqb_refl|].
  intros Hi. destruct (String.eqb_spec x w) as [->|].
  - destruct Hx. by eapply list_elem_of_lookup_2.
  - by rewrite (IH i Hi).
Qed.
Lemma length_WORDS : length WORDS = 256%nat.
Proof. reflexivity. Qed.
Lemma NoDup_WORDS : NoDup WORDS.
Proof. apply (bool_decide_unpack _). vm_compute. exact I. Qed.
Definition is_lower (a : Ascii.ascii) : bool :=
  let c := Ascii.N_of_ascii a in ((97 <=? c) && (c <=? 122))%N.



(** The 256 words are distinct, one for every byte: a byte's word indexes back
    to the byte, and an indexed word is the byte's word. *)
Lemma word_index_of b w : word b = Ok w <-> index_of w = Some b.
Proof.
  unfold word, index_of. pose proof (b2z_range b) as Hb. split.
  - destruct (WORDS !! Z.to_nat (b2z b)) as [w'|] eqn:E; [|done]. intros [= ->].
    rewrite (lookup_position _ _ _ NoDup_WORDS E). simpl. rewrite Z2Nat.id by lia. by rewrite z2b_b2z.
  - destruct (position w WORDS) as [i|] eqn:E; [|done]. intros [= <-]. apply position_lookup in E.
    pose proof (lookup_lt_Some _ _ _ E) as Hi. rewrite length_WORDS in Hi.
    rewrite b2z_z2b, Z.mod_small, Nat2Z.id by lia. by rewrite E.
Qed.
