(* ===== verification/RvCode.v ===== *)
(** * src/rvcode.rs: the human and URL spellings of a rendezvous code *)

From S2P Require Import Prelude Str Libs Words.

Definition TOPIC_CTX : string := "b2p-v2-rendezvous-topic v1".

Inductive Spelling : Type := Human | Url.
(** [secret] is the [PakeSecret]'s bytes. *)
Record RendezvousCode : Type := {
  topic : string; secret : bytes; relay_host : option string; spelling : Spelling;
}.

Section rvcode.
Context `{Blake3} `{Base58}.

Definition topic_from_channel (channel : byte) : string :=
  b58_encode (take 16 (derive_key TOPIC_CTX [channel])).

(** [s.parse::<u8>().ok()]. *)
Definition parse_u8 (s : string) : option byte := z2b <$> parse_uint 255 s.

Definition is_rendezvous_code (s : string) : bool :=
  let s := trim s in
  if starts_with "b2p://" s then true
  else match str_split "-" s with
       | [p0; p1; p2] =>
           bool_decide (is_Some (parse_u8 p0)) && bool_decide (is_Some (index_of p1))
           && bool_decide (is_Some (index_of p2))
       | _ => false
       end.

(** [c.is_ascii_alphanumeric() || ".-:".contains(c)]. *)
Definition host_char (c : ascii) : bool :=
  is_ascii_alphanumeric c || existsb (Ascii.eqb c) ["."; "-"; ":"]%char.
Definition parse_addr (addr : string) : res (option string * string) :=
  match split_once "/" addr with
  | Some (host, topic) =>
      if String.eqb host "" || negb (str_all host_char host)
      then Err (EMsg "b2p code relay host contains invalid characters")
      else Ok (Some host, topic)
  | None => Ok (None, addr)
  end.
Definition parse_url (rest : string) : res RendezvousCode :=
  '(addr, secret_b58) ← ok_or (EMsg "b2p code must look like b2p://[host/]<topic>#<secret>")
                              (split_once "#" rest);
  '(relay_host, topic) ← parse_addr addr;
  if String.eqb topic "" then Err (EMsg "b2p code has an empty topic") else
  topic_bytes ← context "b2p code topic is not valid base58" (ok_or (EExternal "base58") (b58_decode topic));
  if negb (zlen topic_bytes =? 16) then Err (EMsg "b2p code topic must be 16 bytes (base58)") else
  secret ← context "b2p code secret is not valid base58" (ok_or (EExternal "base58") (b58_decode secret_b58));
  if negb (zlen secret =? 16) && negb (zlen secret =? 3)
  then Err (EMsg ("b2p code secret must be 16 bytes (or 3 for a human code) — got " +:+ show (zlen secret)))
  else Ok {| topic := topic; secret := secret; relay_host := relay_host; spelling := Url |}.
Definition parse_human (s : string) : res RendezvousCode :=
  match str_split "-" s with
  | [p0; p1; p2] =>
      channel ← context ("channel '" +:+ p0 +:+ "' must be a number 0-255")
                        (ok_or (EExternal "invalid digit") (parse_u8 p0));
      i1 ← ok_or (EMsg ("'" +:+ p1 +:+ "' is not in the word list")) (index_of p1);
      i2 ← ok_or (EMsg ("'" +:+ p2 +:+ "' is not in the word list")) (index_of p2);
      Ok {| topic := topic_from_channel channel; secret := [channel; i1; i2];
            relay_host := None; spelling := Human |}
  | _ => Err (EMsg "code must look like <channel>-<word>-<word> or b2p://<topic>#<secret>")
  end.
Definition parse (s : string) : res RendezvousCode :=
  let s := trim s in
  match strip_prefix "b2p://" s with
  | Some rest => parse_url rest
  | None => parse_human s
  end.

(** The arguments are what [OsRng.fill_bytes] drew: three bytes, and two
    16-byte arrays. *)
Definition generate_human (e0 e1 e2 : byte) : RendezvousCode :=
  {| topic := topic_from_channel e0; secret := [e0; e1; e2]; relay_host := None; spelling := Human |}.
Definition generate_url (rtopic rsecret : bytes) : RendezvousCode :=
  {| topic := b58_encode rtopic; secret := rsecret; relay_host := None; spelling := Url |}.

Definition url_spelling (c : RendezvousCode) (relay_host : option string) : string :=
  let host := match relay_host with Some h => h +:+ "/" | None => "" end in
  "b2p://" +:+ host +:+ topic c +:+ "#" +:+ b58_encode (secret c).

(** [Display]. *)
Definition to_string (c : RendezvousCode) : res string :=
  match spelling c with
  | Human =>
      match secret c with
      | e0 :: e1 :: e2 :: _ =>
          w1 ← word e1; w2 ← word e2;
          Ok (show (b2z e0) +:+ "-" +:+ w1 +:+ "-" +:+ w2)
      | _ => Panic
      end
  | Url =>
      let host := match relay_host c with Some h => h +:+ "/" | None => "" end in
      Ok ("b2p://" +:+ host +:+ topic c +:+ "#" +:+ b58_encode (secret c))
  end.

(** ** What a code is *)

Definition host_ok (h : string) : Prop := h <> "" /\ str_all host_char h = true.
Definition valid (c : RendezvousCode) : Prop :=
  match spelling c with
  | Human => exists e0 e1 e2, c = generate_human e0 e1 e2
  | Url =>
      (exists b, b58_decode (topic c) = Some b /\ zlen b = 16)
      /\ topic c <> ""
      /\ (zlen (secret c) = 16 \/ zlen (secret c) = 3)
      /\ match relay_host c with Some h => host_ok h | None => True end
  end.
Definition with_host (c : RendezvousCode) (h : option string) : RendezvousCode :=
  {| topic := topic c; secret := secret c; relay_host := h; spelling := Url |}.

Lemma parse_valid s c : parse s = Ok c -> valid c.
Proof.
  unfold parse. destruct (strip_prefix "b2p://" (trim s)) as [rest|].
  - unfold parse_url. destruct (split_once "#" rest) as [[addr sec]|]; [|done]. cbn [ok_or mbind res_bind].
    destruct (parse_addr addr) as [[h t]| |] eqn:Ea; [|done|done]. cbn [mbind res_bind].
    destruct (String.eqb_spec t "") as [|Ht]; [done|].
    destruct (b58_decode t) as [tb|] eqn:Et; [|done]. cbn [ok_or context mbind res_bind].
    destruct (Z.eqb_spec (zlen tb) 16) as [Htb|]; [|done]. cbn [negb].
    destruct (b58_decode sec) as [sb|]; [|done]. cbn [ok_or context mbind res_bind].
    destruct (negb (zlen sb =? 16) && negb (zlen sb =? 3)) eqn:Es; [done|]. intros [= <-].
    unfold valid. cbn. split; [by eauto|]. split; [done|]. split.
    + apply andb_false_iff in Es as [?%negb_false_iff%Z.eqb_eq|?%negb_false_iff%Z.eqb_eq]; auto.
    + unfold parse_addr in Ea. destruct (split_once "/" addr) as [[h' t']|]; [|by injection Ea as <- <-].
      destruct (String.eqb_spec h' ""); [done|]. simpl in Ea.
      destruct (str_all host_char h') eqn:Eh; [|done]. injection Ea as <- <-. done.
  - unfold parse_human. destruct (str_split "-" (trim s)) as [|p0 [|p1 [|p2 [|]]]]; try done.
    destruct (parse_u8 p0) as [e0|]; [|done]. cbn [ok_or context mbind res_bind].
    destruct (index_of p1) as [e1|]; [|done]. cbn [ok_or context mbind res_bind].
    destruct (index_of p2) as [e2|]; [|done]. cbn [ok_or context mbind res_bind].
    intros [= <-]. by exists e0, e1, e2.
Qed.

Lemma valid_url_part c : valid c ->
  (exists b, b58_decode (topic c) = Some b /\ zlen b = 16) /\ topic c <> ""
  /\ (zlen (secret c) = 16 \/ zlen (secret c) = 3).
Proof.
  unfold valid. destruct (spelling c); [|by intros (? & ? & ? & _)]. intros (e0 & e1 & e2 & ->). cbn.
  assert (El : length (take 16 (derive_key TOPIC_CTX [e0])) = 16%nat)
    by (rewrite length_take, derive_key_length; done).
  split; [|split; [|by right]].
  - eexists. split; [apply b58_decode_encode|]. unfold zlen. by rewrite El.
  - apply b58_encode_nonempty. intros E. by rewrite E in El.
Qed.
Lemma lacks_impl f c s : (forall a, f a = true -> Ascii.eqb a c = false) -> str_all f s = true -> lacks c s = true.
Proof. intros Hf. apply str_all_impl. intros a Ha. by rewrite (Hf a Ha). Qed.
Lemma base58_facts a : is_base58 a = true ->
  graphic a = true /\ Ascii.eqb a "#" = false /\ Ascii.eqb a "/" = false.
Proof. destruct a as [[] [] [] [] [] [] [] []]; by vm_compute. Qed.
Lemma host_facts a : host_char a = true ->
  graphic a = true /\ Ascii.eqb a "#" = false /\ Ascii.eqb a "/" = false.
Proof. destruct a as [[] [] [] [] [] [] [] []]; by vm_compute. Qed.
Lemma digit_facts a : is_digit a = true ->
  graphic a = true /\ Ascii.eqb a "-" = false /\ Ascii.eqb "b" a = false.
Proof. destruct a as [[] [] [] [] [] [] [] []]; by vm_compute. Qed.
Lemma lower_facts a : is_lower a = true -> graphic a = true /\ Ascii.eqb a "-" = false.
Proof. destruct a as [[] [] [] [] [] [] [] []]; by vm_compute. Qed.

(** The address part of a URL spelling, split back. *)
Lemma parse_addr_app h t :
  match h with Some h => host_ok h | None => True end -> str_all is_base58 t = true ->
  parse_addr (match h with Some h => h +:+ "/" | None => "" end +:+ t) = Ok (h, t)
  /\ lacks "#" (match h with Some h => h +:+ "/" | None => "" end +:+ t) = true.
Proof.
  intros Hh Ht. unfold parse_addr.
  assert (Ht' : lacks "#" t = true) by (eapply lacks_impl, Ht; apply base58_facts).
  destruct h as [h|].
  - destruct Hh as [Hne Hall]. rewrite <- str_app_assoc.
    change ("/" +:+ t) with (String "/" t). rewrite (split_once_app "/" h t) by (eapply lacks_impl, Hall; apply host_facts).
    apply String.eqb_neq in Hne. rewrite Hne, Hall. split; [done|].
    unfold lacks in *. rewrite str_all_app. cbn [str_all String.append]. rewrite Ht', andb_true_r.
    eapply (lacks_impl _ "#"), Hall. apply host_facts.
  - cbn [String.append]. rewrite split_once_lacks; [done|]. eapply lacks_impl, Ht; apply base58_facts.
Qed.
Lemma parse_url_spelling c h :
  (exists b, b58_decode (topic c) = Some b /\ zlen b = 16) -> topic c <> "" ->
  zlen (secret c) = 16 \/ zlen (secret c) = 3 ->
  match h with Some h => host_ok h | None => True end ->
  parse (url_spelling c h) = Ok (with_host c h) /\ is_rendezvous_code (url_spelling c h) = true.
Proof.
  intros (tb & Htb & Hlen) Hne Hs Hh.
  pose proof (b58_decode_chars _ _ Htb) as Hc. pose proof (b58_encode_chars (secret c)) as Hsc.
  set (host := match h with Some h => h +:+ "/" | None => "" end).
  assert (Htrim : trim (url_spelling c h) = "b2p://" +:+ ((host +:+ topic c) +:+ String "#" (b58_encode (secret c)))).
  { unfold url_spelling. fold host. rewrite trim_all_graphic.
    - rewrite <- (str_app_assoc host (topic c)). reflexivity.
    - discriminate.
    - rewrite !str_all_app. assert (Hg : forall s, str_all is_base58 s = true -> str_all graphic s = true).
      { intros s. apply str_all_impl, base58_facts. }
      rewrite (Hg _ Hc), (Hg _ Hsc). subst host. destruct h as [h|]; [|done]. destruct Hh as [_ Hh].
      rewrite str_all_app, (str_all_impl _ graphic _ (fun a Ha => proj1 (host_facts a Ha)) Hh). done. }
  destruct (parse_addr_app h (topic c) Hh Hc) as [Ha Hl]. fold host in Ha, Hl.
  split.
  - unfold parse. rewrite Htrim, strip_prefix_app. unfold parse_url.
    rewrite split_once_app by exact Hl. cbn [ok_or mbind res_bind]. rewrite Ha. cbn [mbind res_bind].
    apply String.eqb_neq in Hne. rewrite Hne, Htb. cbn [ok_or context mbind res_bind]. rewrite Hlen. cbn [negb Z.eqb Pos.eqb].
    rewrite b58_decode_encode. cbn [ok_or context mbind res_bind].
    by destruct Hs as [-> | ->].
  - unfold is_rendezvous_code. rewrite Htrim, starts_with_app. done.
Qed.

Lemma word_lower b : exists w, word b = Ok w /\ str_all is_lower w = true /\ w <> "".
Proof. destruct b; (eexists; split; [reflexivity|split; [reflexivity|discriminate]]). Qed.
Lemma parse_human_spelling e0 e1 e2 :
  exists t, to_string (generate_human e0 e1 e2) = Ok t /\ parse t = Ok (generate_human e0 e1 e2)
    /\ is_rendezvous_code t = true.
Proof.
  destruct (word_lower e1) as (w1 & Hw1 & Hl1 & _). destruct (word_lower e2) as (w2 & Hw2 & Hl2 & Hn2).
  pose proof (b2z_range e0) as He0. destruct (show_digits _ (proj1 He0)) as [Hd Hdn].
  set (n := show (b2z e0)) in *.
  eexists. split; [unfold to_string; cbn; rewrite Hw1, Hw2; reflexivity|]. fold n.
  assert (Htrim : trim (n +:+ String "-" (w1 +:+ String "-" w2)) = n +:+ String "-" (w1 +:+ String "-" w2)).
  { apply trim_all_graphic; [by destruct n|]. rewrite !str_all_app.
    rewrite (str_all_impl _ graphic _ (fun a Ha => proj1 (digit_facts a Ha)) Hd).
    change (str_all graphic (w1 +:+ String "-" w2) = true). rewrite str_all_app.
    rewrite (str_all_impl _ graphic _ (fun a Ha => proj1 (lower_facts a Ha)) Hl1).
    exact (str_all_impl _ graphic _ (fun a Ha => proj1 (lower_facts a Ha)) Hl2). }
  assert (Hsplit : str_split "-" (n +:+ String "-" (w1 +:+ String "-" w2)) = [n; w1; w2]).
  { rewrite str_split_app by (eapply lacks_impl, Hd; apply digit_facts).
    rewrite str_split_app by (eapply lacks_impl, Hl1; apply lower_facts).
    rewrite str_split_lacks by (eapply lacks_impl, Hl2; apply lower_facts). done. }
  assert (Hpre : strip_prefix "b2p://" (n +:+ String "-" (w1 +:+ String "-" w2)) = None).
  { destruct n as [|a n']; [done|]. cbn [str_all] in Hd. apply andb_true_iff in Hd as [Ha _].
    cbn [strip_prefix String.append]. by rewrite (proj2 (proj2 (digit_facts a Ha))). }
  assert (Hu8 : parse_u8 n = Some e0).
  { unfold parse_u8, n. rewrite (parse_show 255) by lia. cbn. by rewrite z2b_b2z. }
  apply word_index_of in Hw1, Hw2.
  unfold parse, parse_human, is_rendezvous_code, starts_with. rewrite Htrim, Hpre, Hsplit, Hu8, Hw1, Hw2.
  done.
Qed.

Lemma valid_display c : valid c ->
  exists t, to_string c = Ok t /\ parse t = Ok c /\ is_rendezvous_code t = true.
Proof.
  unfold valid. destruct (spelling c) eqn:E.
  - intros (e0 & e1 & e2 & ->). apply parse_human_spelling.
  - intros (Ht & Hn & Hs & Hh). exists (url_spelling c (relay_host c)).
    destruct (parse_url_spelling c (relay_host c) Ht Hn Hs Hh) as [Hp Hr].
    unfold to_string. rewrite E. split; [done|]. split; [|done]. rewrite Hp. destruct c; simpl in *. by subst.
Qed.
End rvcode.

(** ** Properties *)

(** C32: Whatever [parse] accepts, its display parses to the same code, topic,
    secret, relay host and spelling alike; so does the display of every
    generated code. *)
Theorem code_roundtrip `{Blake3} `{Base58} :
  (forall s c, parse s = Ok c -> exists t, to_string c = Ok t /\ parse t = Ok c)
  /\ (forall e0 e1 e2, exists t,
        to_string (generate_human e0 e1 e2) = Ok t /\ parse t = Ok (generate_human e0 e1 e2))
  /\ (forall rt rs, zlen rt = 16 -> zlen rs = 16 -> exists t,
        to_string (generate_url rt rs) = Ok t /\ parse t = Ok (generate_url rt rs)).
Proof.
  split; [|split].
  - intros s c Hs. destruct (valid_display c (parse_valid s c Hs)) as (t & ? & ? & _). eauto.
  - intros e0 e1 e2. destruct (parse_human_spelling e0 e1 e2) as (t & ? & ? & _). eauto.
  - intros rt rs Ht Hs. destruct (valid_display (generate_url rt rs)) as (t & ? & ? & _); [|eauto].
    split; [exists rt; split; [apply b58_decode_encode|done]|].
    split; [apply b58_encode_nonempty; by intros ->|]. split; [by left|done].
Qed.

(** The pasteable URL of any parsed code, naming any well-formed relay host or
    none, carries the same topic and secret and that host; a sender with no
    relay of its own learns where to meet. *)
Theorem url_spelling_carries_host `{Blake3} `{Base58} s c h :
  parse s = Ok c ->
  match h with Some h => host_ok h | None => True end ->
  exists c', parse (url_spelling c h) = Ok c'
    /\ topic c' = topic c /\ secret c' = secret c /\ relay_host c' = h
    /\ is_rendezvous_code (url_spelling c h) = true.
Proof.
  intros Hp Hh. exists (with_host c h). destruct (valid_url_part c (parse_valid s c Hp)) as (Ht & Hn & Hs).
  destruct (parse_url_spelling c h Ht Hn Hs Hh). done.
Qed.
Lemma url_spelling_carries_host_witness :
  let c := generate_human (H := Toy.blake3) (H0 := Toy.base58) Byte.x07 Byte.x85 Byte.xff in
  exists c', parse (H := Toy.blake3) (H0 := Toy.base58)
               (url_spelling (H0 := Toy.base58) c (Some "relay.example:8443")) = Ok c'
    /\ topic c' = topic c /\ secret c' = secret c /\ relay_host c' = Some "relay.example:8443"
    /\ is_rendezvous_code (url_spelling (H0 := Toy.base58) c (Some "relay.example:8443")) = true.
Proof.
  intros c. apply (url_spelling_carries_host (H := Toy.blake3) (H0 := Toy.base58) "7-nutmeg-zombie" c).
  - vm_compute. reflexivity.
  - split; [discriminate|vm_compute; reflexivity].
Defined.

(** The classifier and the parser agree: text is taken for a rendezvous code
    when it starts with [b2p://] or is a human code [parse] accepts. *)
Theorem classifier_agrees `{Blake3} `{Base58} s :
  is_rendezvous_code s = starts_with "b2p://" (trim s) || is_ok (parse s).
Proof.
  unfold is_rendezvous_code, parse, starts_with.
  destruct (strip_prefix "b2p://" (trim s)); [done|]. cbn [orb]. unfold parse_human.
  destruct (str_split "-" (trim s)) as [|p0 [|p1 [|p2 [|]]]]; try done.
  destruct (parse_u8 p0), (index_of p1), (index_of p2); done.
Qed.

(** The published topic of a human code is a function of its channel byte
    alone: the two word bytes of the password never reach it. *)
Theorem topic_channel_only `{Blake3} `{Base58} s s' c c' :
  parse s = Ok c -> parse s' = Ok c' -> spelling c = Human -> spelling c' = Human ->
  zlen (secret c) = 3 /\ (head (secret c) = head (secret c') -> topic c = topic c').
Proof.
  intros Hc%parse_valid Hc'%parse_valid E E'. unfold valid in *. rewrite E in Hc. rewrite E' in Hc'.
  destruct Hc as (a & b & d & ->), Hc' as (a' & b' & d' & ->). split; [done|]. cbn. by intros [= ->].
Qed.
Lemma topic_channel_only_witness :
  let c := generate_human (H := Toy.blake3) (H0 := Toy.base58) Byte.x07 Byte.x00 Byte.xff in
  let c' := generate_human (H := Toy.blake3) (H0 := Toy.base58) Byte.x07 Byte.x85 Byte.x01 in
  zlen (secret c) = 3 /\ topic c = topic c'.
Proof.
  intros c c'.
  destruct (topic_channel_only (H := Toy.blake3) (H0 := Toy.base58) "7-acorn-zombie" "7-nutmeg-actor" c c') as [H1 H2];
    [vm_compute; reflexivity|vm_compute; reflexivity|reflexivity|reflexivity|].
  split; [exact H1|]. apply H2. reflexivity.
Defined.

(** The channel number is Rust's [u8] syntax, which also takes a leading [+]
    and leading zeros. *)
Example loose_channel `{Blake3} `{Base58} :
  parse "+7-acorn-zombie" = parse "7-acorn-zombie" /\ parse "007-acorn-zombie" = parse "7-acorn-zombie"
  /\ is_ok (parse "7-acorn-zombie") = true.
Proof. split; [|split]; vm_compute; reflexivity. Qed.
