(* ===== verification/Code.v ===== *)
(** * src/code.rs: the tunnel code, [<url>#<secret>] *)

From S2P Require Import Prelude Str Libs Crypto.

(** [url::Url]: parsing, the serialization, its parts. A serialization is
    printable ASCII and parses to the URL it came from; it holds a [#] exactly
    where the URL has a fragment. *)
Class UrlCrate := {
  Url : Type;
  url_parse : string -> option Url;
  as_str : Url -> string;
  scheme : Url -> string;
  has_fragment : Url -> bool;
  host_str : Url -> option string;
  url_path : Url -> string;
  url_parse_as_str u : url_parse (as_str u) = Some u;
  as_str_graphic u : as_str u <> "" /\ str_all graphic (as_str u) = true;
  as_str_fragment u : lacks "#" (as_str u) = negb (has_fragment u);
}.

Section code.
Context `{UrlCrate} `{Base58}.

Record Code : Type := { base_url : Url; code_secret : Secret }.

Definition Code_parse (s : string) : res Code :=
  '(url_part, frag) ← ok_or (EMsg "code must look like <url>#<secret>") (split_once "#" (trim s));
  base_url ← context "invalid URL in code" (ok_or (EExternal "url") (url_parse url_part));
  if negb (String.eqb (scheme base_url) "https") && negb (String.eqb (scheme base_url) "http")
  then Err (EMsg ("code URL must be http(s), got " +:+ scheme base_url))
  else secret ← from_base58 frag;
       Ok {| base_url := base_url; code_secret := secret |}.

(** [Display]. *)
Definition Code_to_string (c : Code) : string :=
  trim_end_char "/" (as_str (base_url c)) +:+ "#" +:+ to_base58 (code_secret c).

(** ** Lemmas *)

Lemma trim_end_all f s : str_all f s = true -> str_all f (trim_end_char "/" s) = true.
Proof.
  induction s as [|a s IH]; simpl; [done|]. intros [Ha Hs%IH]%andb_true_iff.
  destruct (trim_end_char "/" s) as [|b t] eqn:E.
  - destruct (Ascii.eqb a "/"); [done|]. simpl. by rewrite Ha.
  - simpl. by rewrite Ha.
Qed.
Lemma graphic_display c : str_all graphic (Code_to_string c) = true /\ Code_to_string c <> "".
Proof.
  unfold Code_to_string. split.
  - rewrite str_all_app. rewrite trim_end_all by apply as_str_graphic.
    change (str_all graphic (to_base58 (code_secret c)) = true).
    eapply str_all_impl, b58_encode_chars. intros a. destruct a as [[] [] [] [] [] [] [] []]; by vm_compute.
  - by destruct (trim_end_char "/" (as_str (base_url c))).
Qed.
Lemma code_parses c :
  scheme (base_url c) = "https" \/ scheme (base_url c) = "http" -> has_fragment (base_url c) = false ->
  url_parse (trim_end_char "/" (as_str (base_url c))) = Some (base_url c) ->
  zlen (secret_bytes (code_secret c)) = SECRET_LEN -> Code_parse (Code_to_string c) = Ok c.
Proof.
  intros Hsch Hfr Hu Hs. destruct (graphic_display c) as [Hg Hn]. unfold Code_parse. rewrite trim_all_graphic by done.
  unfold Code_to_string.
  change ("#" +:+ to_base58 (code_secret c)) with (String "#" (to_base58 (code_secret c))).
  rewrite split_once_app by (pose proof (as_str_fragment (base_url c)) as E; rewrite Hfr in E; by apply trim_end_all).
  cbn [ok_or mbind res_bind]. rewrite Hu. cbn [ok_or context mbind res_bind].
  destruct c as [u [b]]. cbn in *. unfold from_base58, to_base58. cbn.
  rewrite b58_decode_encode. cbn. apply Z.eqb_eq in Hs as ->.
  destruct Hsch as [-> | ->]; reflexivity.
Qed.
End code.

(** ** Properties *)

(** A code's display parses to the code, when its URL is http(s) without a
    fragment and is what its serialization without trailing slashes parses to
    (an origin, as the receiver's tunnel and direct addresses are); and a
    parsed code is always an http(s) URL with a 16-byte secret. *)
Theorem tunnel_code_roundtrip `{UrlCrate} `{Base58} c :
  scheme (base_url c) = "https" \/ scheme (base_url c) = "http" ->
  has_fragment (base_url c) = false ->
  url_parse (trim_end_char "/" (as_str (base_url c))) = Some (base_url c) ->
  zlen (secret_bytes (code_secret c)) = SECRET_LEN ->
  Code_parse (Code_to_string c) = Ok c
  /\ forall s c', Code_parse s = Ok c' ->
       (scheme (base_url c') = "https" \/ scheme (base_url c') = "http")
       /\ zlen (secret_bytes (code_secret c')) = SECRET_LEN.
Proof.
  intros Hsch Hfr Hu Hs. split.
  - by apply code_parses.
  - intros s c'. unfold Code_parse. destruct (split_once "#" (trim s)) as [[u f]|]; [|done]. cbn [ok_or mbind res_bind].
    destruct (url_parse u) as [b|]; [|done]. cbn [ok_or context mbind res_bind].
    destruct (String.eqb_spec (scheme b) "https") as [E|]; destruct (String.eqb_spec (scheme b) "http") as [E'|];
      cbn [negb andb]; try done; unfold from_base58; destruct (b58_decode f) as [x|]; try done;
      cbn [ok_or mbind res_bind]; destruct (Z.eqb_spec (zlen x) SECRET_LEN); try done; intros [= <-]; cbn; auto.
Qed.

(** A concrete [url]: the serializations are the printable texts; the host
    is what follows [://] up to a slash or a colon. *)
Definition toy_host (s : string) : option string :=
  match find_from "://" s with
  | Some r => Some (take_until (fun a => existsb (Ascii.eqb a) ["/"; ":"; "#"]%char) (String.substring 3 (String.length r) r))
  | None => None
  end.
Definition toy_url_ok (s : string) : bool := negb (String.eqb s "") && str_all graphic s.
#[refine] Definition toy_url : UrlCrate :=
  {| Url := {s : string | toy_url_ok s = true};
     url_parse s := match decide (toy_url_ok s = true) with left p => Some (exist _ s p) | right _ => None end;
     as_str u := proj1_sig u;
     scheme u := take_until (Ascii.eqb ":"%char) (proj1_sig u);
     has_fragment u := negb (lacks "#" (proj1_sig u));
     host_str u := toy_host (proj1_sig u);
     url_path u := "/" |}.
Proof.
  - intros [s p]. simpl. destruct (decide _) as [q|]; [|done]. do 2 f_equal. apply Eqdep_dec.UIP_dec, Bool.bool_dec.
  - intros [s p]. simpl. unfold toy_url_ok in p. apply andb_true_iff in p as [p1 p2]. split; [|done].
    by apply negb_true_iff, String.eqb_neq in p1.
  - intros [s p]. simpl. by rewrite negb_involutive.
Defined.
Lemma tunnel_code_roundtrip_witness :
  let c := {| base_url := exist (fun s => toy_url_ok s = true) "https://foo.trycloudflare.com" eq_refl : @Url toy_url;
              code_secret := {| secret_bytes := replicate 16 Byte.x07 |} |} in
  Code_parse (H := toy_url) (H0 := Toy.base58) (Code_to_string (H := toy_url) (H0 := Toy.base58) c) = Ok c.
Proof.
  intros c. destruct (tunnel_code_roundtrip (H := toy_url) (H0 := Toy.base58) c) as [H _];
    [left; reflexivity|reflexivity|reflexivity|reflexivity|exact H].
Defined.
