(* ===== verification/Server.v ===== *)
(** * src/server.rs: the HTTP receiver of the tunnel path

    Four routes under one authentication layer, over the state [App]: the
    transfer being received (under its mutex, which each handler holds for as
    long as it uses it), the count of failed authentications, the events sent
    to the terminal and the shutdown signal. Requests are handled one at a
    time here; a handler that panics gets [Panic]. Interleave takes the same
    handlers apart, call by call, for requests that overlap. *)

From S2P Require Import Prelude Str Libs Fs Crypto Protocol Store Archive Stream.

Definition MAX_AUTH_FAILURES : Z := 10.

Record ServerCfg : Type := {
  cfg_secret : Secret; out_dir : path; auto_accept : bool; overwrite : bool;
}.
Inductive Event : Type :=
| Accepted (name : string) (total_size : Z) | Progress (bytes : Z)
| TextEvent (t : string) | DoneEvent (desc : string) | Failed (why : string).
Record ActiveTransfer : Type := { manifest : Manifest; store : Store }.

(** [cancelled] is the token, as the requests themselves set it (the lockout);
    [cancel_later] says a task is spawned that cancels it 200 ms on, as a
    finished transfer does: when that task runs is not of this file, and
    [cancelled] does not record it. *)
Record App : Type := {
  cfg : ServerCfg;
  key : bytes;
  token_hash : bytes;
  auth_failures : Z;
  transfer : option ActiveTransfer;
  events : list Event;
  cancelled : bool;
  cancel_later : bool;
}.

Inductive Response : Type :=
| Status (code : Z) | StatusText (code : Z) (t : string)
| JsonManifestAck (a : ManifestAck) | JsonStatusResp (r : StatusResp) | JsonCommitAck (a : CommitAck).

(** The routes of [start]; [{index}] is the path segment. *)
Inductive route : Type :=
| PostManifest (body : bytes) | PutChunk (index : string) (body : bytes)
| GetStatus | PostCommit (body : bytes) | OtherRoute.
(** [authorization] is the header, if it is one [to_str] accepts. *)
Record request : Type := { authorization : option string; rt : route }.

(** ** The handlers' monad: the state and the disk *)

Definition srv (A : Type) : Type := App * fs -> res A * (App * fs).
#[export] Instance srv_ret : MRet srv := fun A a w => (Ok a, w).
#[export] Instance srv_bind : MBind srv := fun A B f m w =>
  match m w with
  | (Ok a, w') => f a w'
  | (Err e, w') => (Err e, w')
  | (Panic, w') => (Panic, w')
  end.
Definition get : srv App := fun w => (Ok w.1, w).
Definition modify (f : App -> App) : srv unit := fun w => (Ok tt, (f w.1, w.2)).
(** A call on the disk whose [Result] the handler inspects. *)
Definition srv_try {A} (m : io A) : srv (res A) := fun w =>
  match m w.2 with
  | (Panic, s') => (Panic, (w.1, s'))
  | (r, s') => (Ok r, (w.1, s'))
  end.
Definition look {A} (f : fs -> A) : srv A := fun w => (Ok (f w.2), w).

Definition set_transfer (t : option ActiveTransfer) (a : App) : App :=
  {| cfg := cfg a; key := key a; token_hash := token_hash a; auth_failures := auth_failures a;
     transfer := t; events := events a; cancelled := cancelled a; cancel_later := cancel_later a |}.
Definition send_event (e : Event) (a : App) : App :=
  {| cfg := cfg a; key := key a; token_hash := token_hash a; auth_failures := auth_failures a;
     transfer := transfer a; events := events a ++ [e]; cancelled := cancelled a; cancel_later := cancel_later a |}.
Definition set_failures (n : Z) (a : App) : App :=
  {| cfg := cfg a; key := key a; token_hash := token_hash a; auth_failures := n;
     transfer := transfer a; events := events a; cancelled := cancelled a; cancel_later := cancel_later a |}.
Definition cancel (a : App) : App :=
  {| cfg := cfg a; key := key a; token_hash := token_hash a; auth_failures := auth_failures a;
     transfer := transfer a; events := events a; cancelled := true; cancel_later := cancel_later a |}.
Definition cancel_soon (a : App) : App :=
  {| cfg := cfg a; key := key a; token_hash := token_hash a; auth_failures := auth_failures a;
     transfer := transfer a; events := events a; cancelled := cancelled a; cancel_later := true |}.

Definition refused : Response :=
  JsonManifestAck {| ma_accepted := false; ma_complete := false; ma_have := [] |}.

Section server.
Context `{Aead} `{Blake3} `{Base58} `{!Serde Manifest} `{!Serde Commit} `{!Serde State}.
Variable tar_unpack : bytes -> path -> io unit.
(** What the other end of [accept_tx] does with a summary: [None] when it is
    closed, [Some None] when it drops the reply. *)
Variable ask : string -> option (option bool).

(** [start]'s state. *)
Definition start (c : ServerCfg) : App :=
  {| cfg := c; key := data_key (cfg_secret c);
     token_hash := blake3_hash (as_bytes (auth_token (cfg_secret c)));
     auth_failures := 0; transfer := None; events := []; cancelled := false; cancel_later := false |}.

(** The bearer token of a request; none is the empty one. *)
Definition provided (authorization : option string) : string :=
  default "" (v ← authorization; strip_prefix "Bearer " v).
Definition authorized (a : App) (authorization : option string) : bool :=
  bool_decide (blake3_hash (as_bytes (provided authorization)) = token_hash a).
Definition auth_mw (req : request) (next : srv Response) : srv Response :=
  a ← get;
  if negb (authorized a (authorization req)) then
    let fails := (auth_failures a + 1) mod 2 ^ 32 in
    _ ← modify (set_failures fails);
    _ ← (if MAX_AUTH_FAILURES <=? fails
         then _ ← modify (send_event (Failed "too many bad auth attempts — shutting down"));
              modify cancel
         else mret tt);
    mret (Status 401)
  else next.

Fixpoint join_lines (l : list string) : string :=
  match l with
  | [] => ""
  | [x] => x
  | x :: l' => x +:+ String "010" (join_lines l')
  end.
Definition summary (m : Manifest) (dest_exists : bool) : string :=
  (match kind m with
   | KText => "Incoming text snippet"
   | _ => "Incoming: " +:+ show (zlen (entries m)) +:+ " file(s), " +:+ show (mf_total_size m)
          +:+ " bytes total" +:+ String "010"
          (join_lines (map (fun e => "  " +:+ e_path e +:+ " (" +:+ show (e_size e) +:+ " bytes)")
                           (take 10 (entries m))))
   end)
  +:+ (if dest_exists && bool_decide (kind m = KFile)
       then String "010" "  WARNING: destination file exists and will be overwritten" else "").

(** The decision: [None] is the closed channel. *)
Definition decide_accept (c : ServerCfg) (m : Manifest) (dest_exists : bool) : option bool :=
  if auto_accept c then Some (negb (dest_exists && bool_decide (kind m = KFile) && negb (overwrite c)))
  else default false <$> ask (summary m dest_exists).

Definition handle_manifest (body : bytes) : srv Response :=
  a ← get;
  match open_json (T := Manifest) (key a) DManifest [] body with
  | Ok m =>
      if negb (version m =? PROTOCOL_VERSION) then mret refused else
      let nm := safe_name (name m) in
      dest_exists ← look (fun s => path_exists s (join (out_dir (cfg a)) nm));
      match decide_accept (cfg a) m dest_exists with
      | None => mret (Status 503)
      | Some false => mret refused
      | Some true =>
          if bool_decide (kind m = KText) then
            _ ← modify (send_event (TextEvent (default "" (text m))));
            _ ← modify (send_event (DoneEvent "text received"));
            _ ← modify cancel_soon;
            mret (JsonManifestAck {| ma_accepted := true; ma_complete := true; ma_have := [] |})
          else
            r ← srv_try (open_or_create (out_dir (cfg a)) nm (mf_transfer_id m)
                           (mf_total_size m) (mf_chunk_size m));
            match r with
            | Ok st =>
                _ ← modify (send_event (Accepted nm (mf_total_size m)));
                _ ← modify (set_transfer (Some {| manifest := m; store := st |}));
                mret (JsonManifestAck {| ma_accepted := true; ma_complete := false; ma_have := have st |})
            | Err e =>
                _ ← modify (send_event (Failed ("cannot open store: " +:+ error_to_string e)));
                mret (Status 500)
            | Panic => mret (Status 500)
            end
      end
  | _ => mret (Status 400)
  end.

(** [active.store.write_chunk(..)], the store mutated where it is. *)
Definition srv_write (active : ActiveTransfer) (index : Z) (plaintext : bytes) : srv (res unit) := fun w =>
  let '((r, st), s') := write_chunk (store active) index plaintext w.2 in
  let a' := set_transfer (Some {| manifest := manifest active; store := st |}) w.1 in
  (match r with Panic => Panic | _ => Ok r end, (a', s')).
Definition handle_chunk (index : Z) (body : bytes) : srv Response :=
  a ← get;
  match transfer a with
  | None => mret (Status 409)
  | Some active =>
      let aad := mf_transfer_id (manifest active) in
      match open (key a) DData index (as_bytes aad) body with
      | Ok plaintext =>
          r ← srv_write active index plaintext;
          match r with
          | Err e => mret (StatusText 400 (error_to_string e))
          | _ => _ ← modify (send_event (Progress (zlen plaintext))); mret (Status 200)
          end
      | _ => mret (Status 400)
      end
  end.

Definition handle_status : srv Response :=
  a ← get;
  mret (match transfer a with
        | Some active => JsonStatusResp {| sr_have := have (store active) |}
        | None => Status 409
        end).

Definition finalize (c : ServerCfg) (active : ActiveTransfer) (commit : Commit) : io string :=
  d ← io_lift (is_complete (store active));
  if negb d then
    n ← io_lift (total_chunks (store active));
    io_lift (Err (EMsg ("transfer incomplete: " +:+ show (zlen (have (store active))) +:+ "/" +:+ show n +:+ " chunks")))
  else
    actual ← file_hash (store active);
    if negb (String.eqb actual (blake3_hex commit))
    then io_lift (Err (EMsg "integrity check failed: hash mismatch"))
    else
      let nm := safe_name (name (manifest active)) in
      match kind (manifest active) with
      | KFile =>
          let dest := join (out_dir c) nm in
          _ ← finalize_file (store active) dest;
          mret ("saved " +:+ display dest)
      | KTar =>
          _ ← unpack_tar tar_unpack (data_path (store active)) (out_dir c);
          _ ← cleanup (store active);
          mret ("unpacked archive into " +:+ display (out_dir c))
      | KText => io_lift Panic
      end.

Definition handle_commit (body : bytes) : srv Response :=
  a ← get;
  match transfer a with
  | None => mret (Status 409)
  | Some active =>
      _ ← modify (set_transfer None);
      let aad := mf_transfer_id (manifest active) in
      match open_json (T := Commit) (key a) DCommit (as_bytes aad) body with
      | Ok commit =>
          result ← srv_try (finalize (cfg a) active commit);
          match result with
          | Err e =>
              _ ← modify (send_event (Failed (error_to_string e)));
              mret (JsonCommitAck {| ca_ok := false; ca_error := Some (error_to_string e) |})
          | Ok desc =>
              _ ← modify (send_event (DoneEvent desc));
              _ ← modify cancel_soon;
              mret (JsonCommitAck {| ca_ok := true; ca_error := None |})
          | Panic => mret (Status 500)
          end
      | _ =>
          _ ← modify (set_transfer (Some active));
          mret (Status 400)
      end
  end.

(** [DefaultBodyLimit::max] at the [Bytes] extractor. *)
Definition BODY_LIMIT : Z := CHUNK_SIZE + 4096.
Definition limited (body : bytes) (h : srv Response) : srv Response :=
  if BODY_LIMIT <? zlen body then mret (Status 413) else h.
Definition router (r : route) : srv Response :=
  match r with
  | PostManifest body => limited body (handle_manifest body)
  | PutChunk seg body =>
      match parse_uint (U64 - 1) seg with
      | Some index => limited body (handle_chunk index body)
      | None => mret (Status 400)
      end
  | GetStatus => handle_status
  | PostCommit body => limited body (handle_commit body)
  | OtherRoute => mret (Status 404)
  end.
Definition serve (req : request) : srv Response := auth_mw req (router (rt req)).

(** A sequence of requests, each with what the system makes of its calls; a
    handler's panic ends its request only. *)
Definition serve_on (r : request * list fault) (w : App * gmap path node) : res Response * (App * gmap path node) :=
  let '(x, (a, s)) := serve r.1 (w.1, Fs w.2 r.2) in (x, (a, nodes s)).
Fixpoint serve_all (reqs : list (request * list fault)) (w : App * gmap path node) : App * gmap path node :=
  match reqs with
  | [] => w
  | r :: reqs' => serve_all reqs' (serve_on r w).2
  end.

(** ** What a request can change *)

(** All but the transfer, the events and the delayed shutdown. *)
Definition conf (a : App) : ServerCfg * bytes * bytes * Z * bool :=
  (cfg a, key a, token_hash a, auth_failures a, cancelled a).
Definition keeps_conf {A} (m : srv A) : Prop := forall w, conf (m w).2.1 = conf w.1.
Lemma keeps_ret {A} (x : A) : keeps_conf (mret x).
Proof. done. Qed.
Lemma keeps_bind {A B} (m : srv A) (f : A -> srv B) :
  keeps_conf m -> (forall x, keeps_conf (f x)) -> keeps_conf (m ≫= f).
Proof.
  intros Hm Hf w. unfold mbind, srv_bind. specialize (Hm w).
  destruct (m w) as [[x|e|] w']; simpl in *; [by rewrite Hf|done|done].
Qed.
Lemma keeps_modify f : (forall a, conf (f a) = conf a) -> keeps_conf (modify f).
Proof. intros Hf w. apply Hf. Qed.
Lemma keeps_get : keeps_conf get.
Proof. done. Qed.
Lemma keeps_look {A} (f : fs -> A) : keeps_conf (look f).
Proof. done. Qed.
Lemma keeps_try {A} (m : io A) : keeps_conf (srv_try m).
Proof. intros w. unfold srv_try. by destruct (m w.2) as [[]]. Qed.
Lemma keeps_write act i p : keeps_conf (srv_write act i p).
Proof. intros w. unfold srv_write. by destruct (write_chunk _ _ _ _) as [[r st] s']. Qed.
Hint Resolve keeps_ret keeps_bind keeps_modify keeps_get keeps_look keeps_try keeps_write : b2p.
Ltac keeps :=
  repeat first
    [ apply keeps_ret | apply keeps_get | apply keeps_look | apply keeps_try | apply keeps_write
    | apply keeps_modify; done | apply keeps_bind; [|intros ?] | case_match ].
Lemma keeps_router r : keeps_conf (router r).
Proof.
  unfold router, limited, handle_manifest, handle_chunk, handle_status, handle_commit. destruct r; keeps.
Qed.

Lemma serve_unauthorized req a s : authorized a (authorization req) = false ->
  exists a', serve req (a, s) = (Ok (Status 401), (a', s))
    /\ transfer a' = transfer a /\ cancel_later a' = cancel_later a
    /\ conf a' = (cfg a, key a, token_hash a, (auth_failures a + 1) mod 2 ^ 32,
                  cancelled a || (MAX_AUTH_FAILURES <=? (auth_failures a + 1) mod 2 ^ 32)).
Proof.
  intros E. unfold serve, auth_mw, get, mbind, srv_bind. simpl. rewrite E. simpl.
  destruct (MAX_AUTH_FAILURES <=? _); eexists; (split; [reflexivity|]); simpl;
    by rewrite ?orb_true_r, ?orb_false_r.
Qed.
Lemma serve_authorized req a s : authorized a (authorization req) = true ->
  serve req (a, s) = router (rt req) (a, s).
Proof. intros E. unfold serve, auth_mw, get, mbind, srv_bind. simpl. by rewrite E. Qed.

(** The static part of the state. *)
Definition same_conf (a a' : App) : Prop :=
  cfg a' = cfg a /\ key a' = key a /\ token_hash a' = token_hash a.
Lemma serve_frame req a s :
  let a' := (serve req (a, s)).2.1 in
  same_conf a a'
  /\ auth_failures a' = (if authorized a (authorization req) then auth_failures a
                         else (auth_failures a + 1) mod 2 ^ 32)
  /\ cancelled a' = cancelled a || (negb (authorized a (authorization req))
                                    && (MAX_AUTH_FAILURES <=? (auth_failures a + 1) mod 2 ^ 32)).
Proof.
  destruct (authorized a (authorization req)) eqn:E.
  - rewrite serve_authorized by done. pose proof (keeps_router (rt req) (a, s)) as Hk. simpl in *.
    unfold conf in Hk. injection Hk as K1 K2 K3 K4 K5. rewrite orb_false_r. done.
  - destruct (serve_unauthorized req a s E) as (a' & -> & _ & _ & Hk). simpl.
    unfold conf in Hk. injection Hk as K1 K2 K3 K4 K5. done.
Qed.

(** ** Requests as steps on the transfer and the disk *)

Definition ack_ok (r : res Response) : Prop := exists c, r = Ok (JsonCommitAck c) /\ ca_ok c = true.

(** What a request does to the transfer and the disk: nothing; or the store
    is opened, a chunk written, or the transfer finalized. *)
Inductive served (rq : route) (a : App) (s : fs) : res Response -> option ActiveTransfer -> fs -> Prop :=
| served_inert r : r <> Panic -> ~ ack_ok r -> served rq a s r (transfer a) s
| served_manifest body m x s' r :
    rq = PostManifest body -> open_json (T := Manifest) (key a) DManifest [] body = Ok m ->
    kind m <> KText ->
    open_or_create (out_dir (cfg a)) (safe_name (name m)) (mf_transfer_id m) (mf_total_size m) (mf_chunk_size m) s
      = (x, s') ->
    (r = Panic -> x = Panic) -> ~ ack_ok r ->
    served rq a s r (match x with Ok st => Some {| manifest := m; store := st |} | _ => transfer a end) s'
| served_chunk seg i body act p x st s' r :
    rq = PutChunk seg body -> parse_uint (U64 - 1) seg = Some i -> transfer a = Some act ->
    open (key a) DData i (as_bytes (mf_transfer_id (manifest act))) body = Ok p ->
    write_chunk (store act) i p s = ((x, st), s') ->
    (r = Panic -> x = Panic) -> ~ ack_ok r -> (x = Ok tt -> r = Ok (Status 200)) ->
    served rq a s r (Some {| manifest := manifest act; store := st |}) s'
| served_commit body act commit x s' r :
    rq = PostCommit body -> transfer a = Some act ->
    open_json (T := Commit) (key a) DCommit (as_bytes (mf_transfer_id (manifest act))) body = Ok commit ->
    finalize (cfg a) act commit s = (x, s') ->
    (r = Panic -> x = Panic) -> (ack_ok r <-> exists d, x = Ok d) ->
    served rq a s r None s'.

Lemma not_ack (r : Response) : (forall c, r = JsonCommitAck c -> ca_ok c = false) -> ~ ack_ok (Ok r).
Proof. intros Hr (c & [= ->] & E). rewrite (Hr c eq_refl) in E. done. Qed.
Lemma panic_not_ack : ~ ack_ok Panic.
Proof. by intros (c & ? & _). Qed.
Hint Resolve not_ack panic_not_ack : b2p.
Lemma served_same rq a s r t : t = transfer a -> r <> Panic -> ~ ack_ok r -> served rq a s r t s.
Proof. intros ->. apply served_inert. Qed.
Ltac inert := apply served_same; [simpl; congruence|done|apply not_ack; done].

Lemma served_handle_manifest body a s :
  let o := handle_manifest body (a, s) in served (PostManifest body) a s o.1 (transfer o.2.1) o.2.2.
Proof.
  unfold handle_manifest, get, mbind, srv_bind. cbn [fst snd].
  destruct (open_json (key a) DManifest [] body) as [m|e|] eqn:Em; cbn [fst snd]; [|inert|inert].
  destruct (negb (version m =? PROTOCOL_VERSION)); cbn [fst snd]; [inert|]. unfold look. cbn [fst snd].
  destruct (decide_accept _ _ _) as [[]|]; cbn [fst snd]; [|inert|inert].
  case_bool_decide as Ek; cbn [fst snd modify transfer send_event cancel_soon]; [inert|].
  unfold srv_try. cbn [fst snd].
  destruct (open_or_create _ _ _ _ _ s) as [x s'] eqn:Eo.
  destruct x as [st|e|]; simpl.
  - apply (served_manifest _ a s body m (Ok st) s'); try done. by apply not_ack.
  - apply (served_manifest _ a s body m (Err e) s'); try done. by apply not_ack.
  - apply (served_manifest _ a s body m Panic s'); try done. apply panic_not_ack.
Qed.
Lemma served_handle_chunk seg i body a s : parse_uint (U64 - 1) seg = Some i ->
  let o := handle_chunk i body (a, s) in served (PutChunk seg body) a s o.1 (transfer o.2.1) o.2.2.
Proof.
  intros Hi. unfold handle_chunk, get, mbind, srv_bind. cbn [fst snd].
  destruct (transfer a) as [act|] eqn:Ea; cbn [fst snd]; [|inert].
  destruct (open _ _ _ _ _) as [p|e|] eqn:Ep; cbn [fst snd]; [|inert|inert].
  unfold srv_write. cbn [fst snd]. destruct (write_chunk (store act) i p s) as [[x st] s'] eqn:Ew.
  destruct x as [[]|e|]; simpl.
  - apply (served_chunk _ a s seg i body act p (Ok tt)); try done. by apply not_ack.
  - apply (served_chunk _ a s seg i body act p (Err e)); try done. by apply not_ack.
  - apply (served_chunk _ a s seg i body act p Panic); try done. apply panic_not_ack.
Qed.
Lemma served_handle_commit body a s :
  let o := handle_commit body (a, s) in served (PostCommit body) a s o.1 (transfer o.2.1) o.2.2.
Proof.
  unfold handle_commit, get, mbind, srv_bind. cbn [fst snd].
  destruct (transfer a) as [act|] eqn:Ea; cbn [fst snd]; [|inert].
  cbn [modify fst snd].
  destruct (open_json _ _ _ _) as [c|e|] eqn:Ec; cbn [fst snd]; [|inert|inert].
  unfold srv_try. cbn [fst snd]. destruct (finalize (cfg a) act c s) as [x s'] eqn:Ef.
  destruct x as [d|e|]; simpl; (eapply (served_commit _ a s body act c); [done..| |]; [done|]).
  - split; [eauto|]. intros _. eexists. split; [reflexivity|done].
  - split; [by intros (c' & [= <-] & ?)|by intros (? & ?)].
  - split; [by intros (c' & ? & ?)|by intros (? & ?)].
Qed.
Lemma serve_served req a s :
  let o := serve req (a, s) in
  served (rt req) a s o.1 (transfer o.2.1) o.2.2
  /\ (authorized a (authorization req) = false -> transfer o.2.1 = transfer a /\ o.2.2 = s).
Proof.
  destruct (authorized a (authorization req)) eqn:E.
  - split; [|done]. rewrite serve_authorized by done. unfold router, limited.
    destruct (rt req) as [body|seg body| |body|].
    + destruct (BODY_LIMIT <? zlen body); [inert|apply served_handle_manifest].
    + destruct (parse_uint _ seg) as [i|] eqn:Ei; [|inert].
      destruct (BODY_LIMIT <? zlen body); [inert|by apply served_handle_chunk].
    + unfold handle_status, get, mbind, srv_bind. cbn [fst snd]. destruct (transfer a) eqn:Ea; inert.
    + destruct (BODY_LIMIT <? zlen body); [inert|apply served_handle_commit].
    + inert.
  - destruct (serve_unauthorized req a s E) as (a' & -> & Ht & _). simpl. split; [inert|done].
Qed.
End server.
