(* ===== verification/ServerSpec.v ===== *)
(** * What the HTTP receiver promises

    Authentication and lockout, panics, what an acknowledged commit means,
    and resumption, over any sequence of requests. *)

From S2P Require Import Prelude Str Libs Fs Crypto Protocol Store Archive Stream Transfer Safety Server.

Section server.
Context `{Aead} `{Blake3} `{Base58} `{!Serde Manifest} `{!Serde Commit} `{!Serde State}.
Variable tar : bytes -> path -> io unit.
Variable ask : string -> option (option bool).
Local Abbreviation run := (serve_all tar ask).

(** ** Authentication *)

Lemma same_conf_authorized a a' h : same_conf a a' -> authorized a' h = authorized a h.
Proof. unfold authorized. by intros (_ & _ & ->). Qed.
Lemma same_conf_trans a b c : same_conf a b -> same_conf b c -> same_conf a c.
Proof. intros (? & ? & ?) (? & ? & ?). split; [|split]; congruence. Qed.

Lemma serve_on_frame r w :
  let a' := (serve_on tar ask r w).2.1 in
  same_conf w.1 a'
  /\ auth_failures a' = (if authorized w.1 (authorization r.1) then auth_failures w.1
                         else (auth_failures w.1 + 1) mod 2 ^ 32)
  /\ cancelled a' = cancelled w.1 || (negb (authorized w.1 (authorization r.1))
                                      && (MAX_AUTH_FAILURES <=? (auth_failures w.1 + 1) mod 2 ^ 32)).
Proof.
  unfold serve_on. pose proof (serve_frame tar ask r.1 w.1 (Fs w.2 r.2)) as Hf.
  by destruct (serve tar ask r.1 (w.1, Fs w.2 r.2)) as [x [a' s']].
Qed.
Lemma run_conf reqs w : same_conf w.1 (run reqs w).1.
Proof.
  revert w. induction reqs as [|r reqs IH]; intros w; [done|]. cbn [serve_all].
  eapply same_conf_trans; [apply (serve_on_frame r w)|apply IH].
Qed.

(** The requests without the right token. *)
Definition bad_auths (a : App) (reqs : list (request * list fault)) : list (request * list fault) :=
  filter (fun r => authorized a (authorization r.1) = false) reqs.
Lemma bad_auths_same a a' reqs : same_conf a a' -> bad_auths a' reqs = bad_auths a reqs.
Proof.
  intros Hs. unfold bad_auths. induction reqs as [|r reqs IH]; [done|].
  rewrite !filter_cons, IH. by rewrite (same_conf_authorized a a').
Qed.
Lemma run_lockout reqs w :
  0 <= auth_failures w.1 -> auth_failures w.1 + zlen (bad_auths w.1 reqs) < 2 ^ 32 ->
  cancelled w.1 = (MAX_AUTH_FAILURES <=? auth_failures w.1) ->
  cancelled (run reqs w).1 = (MAX_AUTH_FAILURES <=? auth_failures w.1 + zlen (bad_auths w.1 reqs)).
Proof.
  revert w. induction reqs as [|r reqs IH]; intros w Hge Hb Hc; [by rewrite Z.add_0_r|]. cbn [serve_all].
  destruct (serve_on_frame r w) as (Hs & Hf & Hc'). set (w' := (serve_on tar ask r w).2) in *.
  assert (Hbad : bad_auths w.1 (r :: reqs) = if authorized w.1 (authorization r.1)
    then bad_auths w'.1 reqs else r :: bad_auths w'.1 reqs).
  { rewrite (bad_auths_same w.1 w'.1) by done. unfold bad_auths. rewrite filter_cons.
    destruct (authorized w.1 (authorization r.1)) eqn:E; by case_decide. }
  rewrite Hbad in *. pose proof (zlen_nonneg (bad_auths w'.1 reqs)).
  destruct (authorized w.1 (authorization r.1)).
  - rewrite orb_false_r in Hc'. rewrite IH; rewrite Hf; [done|done|done|congruence].
  - rewrite zlen_cons in *. rewrite Z.mod_small in Hf, Hc' by lia. rewrite IH; rewrite Hf; [f_equal; lia|lia|lia|].
    rewrite Hc', Hc. unfold MAX_AUTH_FAILURES.
    destruct (Z.leb_spec 10 (auth_failures w.1)), (Z.leb_spec 10 (auth_failures w.1 + 1)); simpl; lia || done.
Qed.

(** ** The transfer being received *)

(** An active transfer is not a text, and its store is the one its manifest
    names. *)
Definition store_dir (c : ServerCfg) (m : Manifest) : path := partial_dir (out_dir c) (safe_name (name m)).
Definition active_ok (c : ServerCfg) (act : ActiveTransfer) : Prop :=
  kind (manifest act) <> KText
  /\ store_at (store_dir c (manifest act)) (mf_total_size (manifest act)) (mf_chunk_size (manifest act)) (store act).
Definition transfer_ok (a : App) : Prop := forall act, transfer a = Some act -> active_ok (cfg a) act.

Lemma zero_chunk_write st d size i b f : store_at d size 0 st -> write_chunk st i b f = ((Panic, st), f).
Proof. intros (_ & _ & _ & E1 & E2). unfold write_chunk, total_chunks. by rewrite E1, E2. Qed.
Lemma served_ok rq a s r t s' : served tar rq a s r t s' -> transfer_ok a ->
  forall act, t = Some act -> active_ok (cfg a) act.
Proof.
  intros Hs Ha act Ht. destruct Hs as [r|body m x s' r _ _ Hk Ho _ _|seg i body act0 p x st s' r _ _ Ha0 _ Hw _ _ _|]; [by apply Ha| | |done].
  - pose proof (open_or_create_at (out_dir (cfg a)) (safe_name (name m)) (mf_transfer_id m)
      (mf_total_size m) (mf_chunk_size m) s) as Hat. rewrite Ho in Hat.
    destruct x as [st|e|]; [injection Ht as <-; done|by apply Ha|done].
  - destruct (Ha act0 Ha0) as [Hk Hat]. injection Ht as <-. split; [done|]. simpl.
    destruct (decide (mf_chunk_size (manifest act0) = 0)) as [E|E].
    + rewrite E in Hat |- *. rewrite (zero_chunk_write _ _ _ _ _ _ Hat) in Hw. by injection Hw as _ <- _.
    + pose proof (write_chunk_at _ _ _ E (store act0) i p s Hat) as [_ Hat']. by rewrite Hw in Hat'.
Qed.
Lemma serve_on_ok r w : transfer_ok w.1 -> transfer_ok (serve_on tar ask r w).2.1.
Proof.
  intros Hok act Ht. destruct (serve_on_frame r w) as ((Hc & _) & _). rewrite Hc.
  unfold serve_on in Ht. pose proof (serve_served tar ask r.1 w.1 (Fs w.2 r.2)) as [Hs _].
  destruct (serve tar ask r.1 (w.1, Fs w.2 r.2)) as [x [a' s']]. eapply served_ok; done.
Qed.
Lemma run_ok reqs w : transfer_ok w.1 -> transfer_ok (run reqs w).1.
Proof. revert w. induction reqs as [|r reqs IH]; intros w Hw; [done|]. cbn [serve_all]. apply IH, serve_on_ok, Hw. Qed.
Lemma start_ok c : transfer_ok (start c).
Proof. by intros act. Qed.

(** The server's [finalize] is the stream's, once the chunks are all there. *)
Lemma finalize_stream c act commit s : is_complete (store act) = Ok true ->
  Server.finalize tar c act commit s
  = Stream.finalize tar (store act) (manifest act) commit (out_dir c) (safe_name (name (manifest act))) s.
Proof. intros E. unfold Server.finalize, Stream.finalize. by rewrite E. Qed.
Lemma finalize_early c act commit s : active_ok c act -> is_complete (store act) <> Ok true ->
  exists e, Server.finalize tar c act commit s = (e, s)
    /\ ~ is_ok e = true /\ (e = Panic -> mf_chunk_size (manifest act) = 0).
Proof.
  intros [_ (_ & _ & _ & E1 & E2)] Hc.
  destruct (is_complete (store act)) as [[]|e|] eqn:Ei; [done| | |].
  - unfold Server.finalize. rewrite Ei. unfold is_complete in Ei. destruct (total_chunks (store act)) as [n| |] eqn:En; [|done|done].
    eexists. split; [reflexivity|]. done.
  - unfold is_complete, total_chunks, div_ceil in Ei. rewrite E1, E2 in Ei. by destruct (_ =? 0).
  - exists Panic. unfold Server.finalize. rewrite Ei. split; [done|split; [done|]]. intros _.
    unfold is_complete, total_chunks, div_ceil in Ei. rewrite E1, E2 in Ei.
    by destruct (Z.eqb_spec (mf_chunk_size (manifest act)) 0).
Qed.
Lemma complete_or_not st : is_complete st = Ok true \/ is_complete st <> Ok true.
Proof. destruct (is_complete st) as [[]| |]; [by left|by right..]. Qed.
Lemma dest_not_staged c m : ~ store_dir c m `prefix_of` (out_dir c ++ [safe_name (name m)]).
Proof. unfold store_dir. rewrite partial_dir_plain by apply safe_name_plain. apply dest_not_under. Qed.
Lemma finalize_file_ends c act commit s : active_ok c act -> kind (manifest act) = KFile ->
  let dest := out_dir c ++ [safe_name (name (manifest act))] in
  let landed := fun s' => exists data, file_at (nodes s) (data_path (store act)) = Some data
    /\ is_complete (store act) = Ok true /\ moved (store_dir c (manifest act)) dest data (nodes s) (nodes s')
    /\ hex_encode (blake3_hash data) = blake3_hex commit in
  match Server.finalize tar c act commit s with
  | (Ok _, s') => landed s'
  | (Err _, s') => nodes s' = nodes s \/ exists data, file_at (nodes s) (data_path (store act)) = Some data
      /\ is_complete (store act) = Ok true /\ moved (store_dir c (manifest act)) dest data (nodes s) (nodes s')
  | (Panic, _) => mf_chunk_size (manifest act) = 0
  end.
Proof.
  intros Hok Hk dest landed. destruct (complete_or_not (store act)) as [E|E].
  - rewrite finalize_stream by done. destruct Hok as [_ (Hd & Hdp & _)].
    pose proof (finalize_any tar (store act) (manifest act) commit (out_dir c) (safe_name (name (manifest act)))
      (nodes s) Hk (safe_name_plain _)) as Hf. rewrite E, Hd in Hf.
    ospecialize (Hf _ _ _ s eq_refl); [done|rewrite Hdp; by apply prefix_app_r|apply dest_not_staged|].
    destruct (Stream.finalize _ _ _ _ _ _ s) as [[d|e|] s']; [| |done].
    + destruct Hf as (data & F1 & _ & F2 & F3). by exists data.
    + destruct Hf as [->|(data & F1 & _ & F2)]; [by left|right; by exists data].
  - destruct (finalize_early c act commit s Hok E) as (e & -> & He & Hp). destruct e; [done|by left|by apply Hp].
Qed.

(** Induction over a run. *)
Lemma run_ind (I : App * gmap path node -> Prop) reqs w :
  (forall r w, r ∈ reqs -> I w -> I (serve_on tar ask r w).2) -> I w -> I (run reqs w).
Proof.
  revert w. induction reqs as [|r reqs IH]; intros w Hstep Hw; [done|]. cbn [serve_all].
  apply IH; [intros r' w' Hr'; apply Hstep; by right|]. apply Hstep; [by left|done].
Qed.
Lemma run_app reqs reqs' w : run (reqs ++ reqs') w = run reqs' (run reqs w).
Proof. revert w. induction reqs as [|r reqs IH]; intros w; [done|apply IH]. Qed.
(** One request, as a step with the faults it meets. *)
Lemma serve_on_served r w :
  exists s', served tar (rt r.1) w.1 (Fs w.2 r.2) (serve_on tar ask r w).1 (transfer (serve_on tar ask r w).2.1) s'
    /\ nodes s' = (serve_on tar ask r w).2.2.
Proof.
  unfold serve_on. pose proof (serve_served tar ask r.1 w.1 (Fs w.2 r.2)) as [Hs _].
  destruct (serve tar ask r.1 (w.1, Fs w.2 r.2)) as [x [a' s']]. by exists s'.
Qed.

(** ** Panics *)

Definition calm {A} (m : io A) : Prop := forall s, (m s).1 <> Panic.
Lemma calm_bind {A B} (m : io A) (f : A -> io B) : calm m -> (forall a, calm (f a)) -> calm (m ≫= f).
Proof.
  intros Hm Hf s. unfold mbind, io_bind. specialize (Hm s). destruct (m s) as [[a|e|] s']; [apply Hf|done|done].
Qed.
Lemma calm_sys {A} (go : gmap path node -> res A * gmap path node) part :
  (forall n, (go n).1 <> Panic) -> calm (sys go part).
Proof.
  intros Hg s. unfold sys. specialize (Hg (nodes s)).
  destruct (faults s) as [|[] fl]; [|  |done|done]; by destruct (go (nodes s)) as [r n].
Qed.
Lemma calm_read p : calm (fs_read p).
Proof. apply calm_sys. intros n. by destruct (n !! p) as [[]|]. Qed.
Lemma finalize_no_panic c act commit s :
  (forall b p s, (tar b p s).1 <> Panic) -> active_ok c act -> mf_chunk_size (manifest act) <> 0 ->
  (Server.finalize tar c act commit s).1 <> Panic.
Proof.
  intros Htar Hok Hcs. destruct (kind (manifest act)) eqn:Hk; [| |by destruct Hok].
  - pose proof (finalize_file_ends c act commit s Hok Hk) as Hf. simpl in Hf.
    by destruct (Server.finalize tar c act commit s) as [[d|e|] s'].
  - destruct (complete_or_not (store act)) as [E|E].
    + rewrite finalize_stream by done.
      assert (Hc : calm (Stream.finalize tar (store act) (manifest act) commit (out_dir c)
        (safe_name (name (manifest act))))); [|apply Hc].
      unfold Stream.finalize, file_hash, unpack_tar, cleanup, remove_dir_all. rewrite E, Hk.
      apply calm_bind; [by intros f|]. intros b. destruct (negb b); [by intros f|].
      apply calm_bind; [apply calm_bind; [apply calm_read|by intros x f]|].
      intros h. destruct (negb _); [by intros f|].
      apply calm_bind; [apply calm_bind; [apply calm_read|]|].
      { intros b' f. unfold io_context. specialize (Htar b' (out_dir c) f). by destruct (tar b' (out_dir c) f) as [[]]. }
      intros []. apply calm_bind; [|by intros x f]. apply calm_sys. intros n. unfold rm_tree.
      by repeat case_match.
    + destruct (finalize_early c act commit s Hok E) as (e & -> & He & Hp). intros Hx. by apply Hcs, Hp.
Qed.
Lemma served_no_panic rq a s r t s' : served tar rq a s r t s' ->
  (forall b p s, (tar b p s).1 <> Panic) -> transfer_ok a ->
  (forall act, transfer a = Some act -> mf_chunk_size (manifest act) <> 0) -> r <> Panic.
Proof.
  intros Hs Htar Hok Hcs Hr. destruct Hs as [r Hn _|body m x s' r _ _ _ Ho Hp _|seg i body act p x st s' r _ _ Ha _ Hw Hp _ _|body act commit x s' r _ Ha _ Hf Hp _].
  - done.
  - pose proof (open_or_create_at (out_dir (cfg a)) (safe_name (name m)) (mf_transfer_id m)
      (mf_total_size m) (mf_chunk_size m) s) as Hat. rewrite Ho, (Hp Hr) in Hat. done.
  - destruct (Hok act Ha) as [_ Hat].
    pose proof (write_chunk_at _ _ _ (Hcs act Ha) (store act) i p s Hat) as [Hn _]. rewrite Hw in Hn. by apply Hn, Hp.
  - pose proof (finalize_no_panic (cfg a) act commit s Htar (Hok act Ha) (Hcs act Ha)) as Hn.
    rewrite Hf in Hn. by apply Hn, Hp.
Qed.

(** ** One file, uploaded again and again *)

Section upload.
Variables (c : ServerCfg) (m0 : Manifest) (content : bytes).
Hypothesis Hkind : kind m0 = KFile.
Hypothesis Hsize : mf_total_size m0 = zlen content.
Hypothesis Hcs : 0 < mf_chunk_size m0 < U64.
Hypothesis Hlen : zlen content < U64.
Local Abbreviation k := (data_key (cfg_secret c)).
Local Abbreviation nm := (safe_name (name m0)).
Local Abbreviation tid := (mf_transfer_id m0).
Local Abbreviation cs := (mf_chunk_size m0).
Local Abbreviation pd := (partial_dir (out_dir c) nm).
Local Abbreviation dest := (out_dir c ++ [nm]).
Local Abbreviation total := (n_chunks cs content).

(** A request of a sender of [content], or junk, to a server in this state:
    what opens under the key is the manifest, or a chunk of the content at its
    index. Any call may fail, but the read of the state file, and, while a
    transfer is active of which nothing is listed on disk, those of a manifest
    request. *)
Definition honest_request (r : request * list fault) (w : App * gmap path node) : Prop :=
  match rt r.1 with
  | PostManifest body =>
      (r.2 = [] \/ read_ok r.2 /\ (transfer w.1 = None \/ listed (out_dir c) nm tid cs content w.2 <> ∅))
      /\ forall m, open_json (T := Manifest) k DManifest [] body = Ok m -> m = m0
  | PutChunk seg body =>
      forall i p, parse_uint (U64 - 1) seg = Some i -> i < total ->
        open k DData i (as_bytes tid) body = Ok p -> p = chunk cs i content
  | _ => True
  end.
(** Each in the state the ones before have left. *)
Fixpoint honest_run (reqs : list (request * list fault)) (w : App * gmap path node) : Prop :=
  match reqs with
  | [] => True
  | r :: reqs' => honest_request r w /\ honest_run reqs' (serve_on tar ask r w).2
  end.
Lemma honest_run_app reqs r w : honest_run (reqs ++ [r]) w -> honest_run reqs w /\ honest_request r (run reqs w).
Proof. revert w. induction reqs as [|x reqs IH]; intros w; [by intros []|]. intros [H1' H2']. destruct (IH _ H2'). done. Qed.
Local Abbreviation Idle := (resumable (out_dir c) nm tid cs content).
Definition uploading (st : Store) (n : gmap path node) : Prop :=
  shape (out_dir c) nm n /\ store_inv pd tid cs content st n.
Definition landed (n : gmap path node) : Prop := file_at n dest = Some content.
Definition upload_inv (w : App * gmap path node) : Prop :=
  cfg w.1 = c /\ key w.1 = k
  /\ match transfer w.1 with
     | None => Idle w.2
     | Some act => manifest act = m0 /\ uploading (store act) w.2
     end.

Lemma uploading_idle st n : uploading st n -> Idle n.
Proof. intros ([H2 H3] & _ & H4 & _). done. Qed.
Lemma open_again n : Idle n ->
  exists st n', open_or_create (out_dir c) nm tid (zlen content) cs (Fs n []) = (Ok st, Fs n' [])
    /\ uploading st n' /\ usable pd n' /\ keeps pd n n'.
Proof.
  intros Hi. destruct (reopen (out_dir c) nm tid cs content Hcs Hlen (safe_name_plain _) n Hi)
    as (st & n' & ? & ? & ? & ? & ? & _). by exists st, n'.
Qed.
Lemma open_at_any w : 
  match transfer w.1 with None => Idle w.2 | Some act => manifest act = m0 /\ uploading (store act) w.2 end -> Idle w.2 ->
  forall fl, fl = [] \/ read_ok fl /\ (transfer w.1 = None \/ listed (out_dir c) nm tid cs content w.2 <> ∅) ->
  match open_or_create (out_dir c) nm tid (zlen content) cs (Fs w.2 fl) with
  | (Ok st, s') => uploading st (nodes s')
  | (Err _, s') => match transfer w.1 with None => Idle (nodes s') | Some act => manifest act = m0 /\ uploading (store act) (nodes s') end
  | (Panic, _) => False
  end.
Proof.
  intros Hw Hi fl [->|[Hr Hact]].
  { destruct (open_again w.2 Hi) as (st & n' & -> & Hu & _). done. }
  pose proof Hi as (Hst & Hd & Hdir).
  pose proof (open_or_create_shape (out_dir c) nm (safe_name_plain _) tid (zlen content) cs (Fs w.2 fl) (conj Hst Hdir)) as Hs.
  pose proof (open_or_create_inv (out_dir c) nm tid cs content Hcs Hlen (Fs w.2 fl) Hr Hd) as Ho.
  pose proof (fun g => open_or_create_same (out_dir c) nm tid cs content g (Fs w.2 fl) Hr Hd) as Hsame.
  destruct (open_or_create _ _ _ _ _ (Fs w.2 fl)) as [[st|e|] s']; [done| |done]. cbn [snd] in Hsame.
  destruct (transfer w.1) as [act|]; [|by destruct Hs].
  destruct Hact as [|Hne]; [done|]. destruct Hw as (E & _ & Hok & _ & Hg). split; [done|]. split; [done|]. split; [done|].
  split; [done|]. exact (Hsame _ Hne Hg).
Qed.
Lemma write_again st i n fl : 0 <= i < total -> uploading st n ->
  match write_chunk st i (chunk cs i content) (Fs n fl) with
  | ((_, st'), s') => uploading st' (nodes s')
  end.
Proof.
  intros Hi [Hsh Hst]. pose proof (write_chunk_inv pd tid cs content Hcs Hlen st i (Fs n fl) Hi Hst) as Hw.
  pose proof Hst as ((Hd & Hdp & Hsp & _) & _).
  pose proof (write_chunk_shape (out_dir c) nm (safe_name_plain _) st i (chunk cs i content) (Fs n fl) Hd Hdp Hsp Hsh) as Hs'.
  destruct (write_chunk st i _ _) as [[r st'] s']. split; [done|]. by destruct Hw as (_ & ? & _).
Qed.
Lemma refuse_late st n i p f : uploading st n -> total <= i ->
  exists e, write_chunk st i p f = ((Err e, st), f).
Proof.
  intros [_ (Hok & _)] Hi. unfold write_chunk. rewrite (total_chunks_ok pd tid cs content Hcs) by done.
  apply Z.leb_le in Hi as ->. by eexists.
Qed.
Lemma uploading_store st n act : manifest act = m0 -> store act = st -> uploading st n -> active_ok c act.
Proof.
  intros E <- (_ & (Hd & Hdp & Hsp & Hm & _) & _). unfold state_matches in Hm. rewrite !andb_true_iff, !Z.eqb_eq in Hm. destruct Hm as [[_ E1] E2].
  split; [rewrite E; congruence|]. unfold store_dir, store_at. rewrite E, Hsize. done.
Qed.

Lemma upload_step r w : honest_request r w -> upload_inv w ->
  upload_inv (serve_on tar ask r w).2 \/ landed (serve_on tar ask r w).2.2.
Proof.
  intros Hr (Hc & Hk & Hw). destruct (serve_on_frame r w) as ((Fc & Fk & _) & _).
  destruct (serve_on_served r w) as (s' & Hs & Hn). unfold upload_inv. rewrite Fc, Fk, Hc, Hk, <- Hn.
  assert (Hi : Idle w.2).
  { destruct (transfer w.1) as [act|]; [|done]. by eapply uploading_idle, Hw. }
  revert Hs. generalize (serve_on tar ask r w).1. generalize (transfer (serve_on tar ask r w).2.1). intros t x Hs. unfold honest_request in Hr.
  destruct Hs as [x Hx _|body m y s' x Erq Em _ Ho _ _|seg i body act p y st s' x Erq Ei Ha Hp Hwr _ _ _|body act commit y s' x Erq Ha _ Hf _ _].
  - left. done.
  - rewrite Erq in Hr. destruct Hr as [Hfl Hm]. rewrite Hk in Em. rewrite (Hm m Em), Hsize, Hc in Ho.
    left. split; [done|]. split; [done|]. pose proof (open_at_any w Hw Hi r.2 Hfl) as Hu. rewrite Ho in Hu.
    destruct y as [st|e|]; [|done..]. split; [by apply Hm|done].
  - rewrite Erq in Hr. rewrite Ha in Hw. destruct Hw as [E Hu]. rewrite Hk, E in Hp.
    left. split; [done|]. split; [done|]. split; [done|]. simpl.
    destruct (Z.leb_spec total i) as [Hge|Hlt].
    + destruct (refuse_late (store act) w.2 i p (Fs w.2 r.2) Hu Hge) as [e He]. rewrite He in Hwr. by injection Hwr as _ <- <-.
    + pose proof (parse_uint_range (U64 - 1) _ _ ltac:(done) Ei) as Hr0. rewrite (Hr i p Ei Hlt Hp) in Hwr.
      pose proof (write_again (store act) i w.2 r.2 ltac:(lia) Hu) as Hw'. by rewrite Hwr in Hw'.
  - rewrite Ha in Hw. destruct Hw as [E Hu].
    pose proof (finalize_file_ends c act commit (Fs w.2 r.2) (uploading_store _ _ act E eq_refl Hu) ltac:(by rewrite E)) as He.
    rewrite Hc in Hf. simpl in He. rewrite Hf in He.
    assert (Hl : forall data, file_at w.2 (data_path (store act)) = Some data -> is_complete (store act) = Ok true ->
      moved (store_dir c (manifest act)) (out_dir c ++ [safe_name (name (manifest act))]) data w.2 (nodes s') -> landed (nodes s')).
    { intros data Hd Hcm [Hm _]. unfold landed. rewrite E in Hm. rewrite Hm. f_equal.
      destruct Hu as [_ Hst]. pose proof (complete_content (out_dir c) nm tid cs content Hcs _ _ Hst Hcm) as Hcc.
      destruct Hst as ((_ & Hdp & _) & _). congruence. }
    destruct y as [d|e|].
    + right. destruct He as (data & ? & ? & ? & _). by eapply Hl.
    + destruct He as [->|(data & ? & ? & ?)]; [left; done|right; by eapply Hl].
    + rewrite E in He. lia.
Qed.

(** *** The sender's own requests *)

Definition with_token (x : route) : request * list fault :=
  ({| authorization := Some ("Bearer " +:+ auth_token (cfg_secret c)); rt := x |}, []).
Definition manifest_request : request * list fault := with_token (PostManifest (seal_json k DManifest [] m0)).
(** Chunk [i], its index spelled [seg]. *)
Definition chunk_request (x : string * Z) : request * list fault :=
  with_token (PutChunk x.1 (seal k DData x.2 (as_bytes tid) (chunk cs x.2 content))).
Definition commit_request : request * list fault :=
  with_token (PostCommit (seal_json k DCommit (as_bytes tid) {| blake3_hex := hex_encode (blake3_hash content) |})).
Definition fits (r : request * list fault) : Prop :=
  match rt r.1 with
  | PostManifest b | PutChunk _ b | PostCommit b => zlen b <= BODY_LIMIT
  | _ => True
  end.

Lemma with_token_served a n x : same_conf (start c) a ->
  serve_on tar ask (with_token x) (a, n)
  = let '(y, (a', s')) := router tar ask x (a, Fs n []) in (y, (a', nodes s')).
Proof.
  intros (_ & _ & Ht). unfold serve_on. simpl. rewrite serve_authorized; [done|].
  unfold authorized. apply bool_decide_eq_true. rewrite Ht. cbn [authorization start token_hash].
  apply (f_equal (fun t => blake3_hash (as_bytes t))). exact (f_equal (default "") (strip_prefix_app "Bearer " (auth_token (cfg_secret c)))).
Qed.
Lemma limited_fits body (h : srv Response) : zlen body <= BODY_LIMIT -> limited body h = h.
Proof. intros Hb. unfold limited. by apply Z.ltb_ge in Hb as ->. Qed.

(** Mid-upload, on a disk that differs from [n0] only in the staging
    directory. *)
Definition mid (n0 : gmap path node) (st : Store) (w : App * gmap path node) : Prop :=
  same_conf (start c) w.1 /\ transfer w.1 = Some {| manifest := m0; store := st |}
  /\ receiving (out_dir c) nm tid cs content n0 st w.2.

Lemma manifest_request_mid n : Idle n -> wire_ok m0 -> version m0 = PROTOCOL_VERSION -> fits manifest_request ->
  decide_accept ask c m0 (path_exists (Fs n []) (join (out_dir c) nm)) = Some true ->
  exists st w, serve_on tar ask manifest_request (start c, n)
      = (Ok (JsonManifestAck {| ma_accepted := true; ma_complete := false; ma_have := have st |}), w)
    /\ mid n st w.
Proof.
  intros Hi Hw Hv Hf Hacc. destruct (open_again n Hi) as (st & n' & Ho & [_ Hst] & Hu & Hk).
  exists st. unfold manifest_request in *. rewrite with_token_served by done. cbn [router].
  rewrite limited_fits by exact Hf. unfold handle_manifest, get, mbind, srv_bind. cbn [fst snd key cfg start].
  unfold open_json, seal_json. rewrite open_seal. cbn [mbind res_bind]. rewrite from_to_vec by done. cbn [ok_or fst snd].
  rewrite Hv, Z.eqb_refl. cbn [negb look fst snd]. rewrite Hacc. rewrite Hkind. cbn [bool_decide]. 
  rewrite bool_decide_false by done. unfold srv_try. cbn [fst snd]. rewrite Hsize, Ho. simpl.
  eexists. split; [reflexivity|]. split; [done|]. split; done.
Qed.
Lemma chunk_request_mid n0 st w x : mid n0 st w -> 0 <= x.2 < total -> parse_uint (U64 - 1) x.1 = Some x.2 ->
  fits (chunk_request x) ->
  exists w', serve_on tar ask (chunk_request x) w = (Ok (Status 200), w') /\ mid n0 (insert_have x.2 st) w'.
Proof.
  destruct w as [a n]. intros (Hs & Ht & Hst & Hu & Hk) Hx Hp Hf. simpl in *.
  destruct (write_chunk_runs pd tid cs content Hcs Hlen st x.2 (Fs n []) Hx Hst eq_refl Hu)
    as ([n' fl] & Hw & Hfl & Hu'). simpl in Hfl. subst fl.
  pose proof (write_chunk_inv pd tid cs content Hcs Hlen st x.2 (Fs n []) Hx Hst) as Hinv.
  rewrite Hw in Hinv. destruct Hinv as (_ & Hst' & _).
  pose proof Hst as ((Hd & Hdp & Hsp & _) & _).
  pose proof (write_chunk_keeps pd n0 st x.2 (chunk cs x.2 content) (Fs n []) Hd Hdp Hsp Hk) as Hk'.
  rewrite Hw in Hk'. unfold chunk_request in *. rewrite with_token_served by done. cbn [router]. rewrite Hp.
  rewrite limited_fits by exact Hf. unfold handle_chunk, get, mbind, srv_bind. cbn [fst snd]. rewrite Ht. cbn [manifest store].
  destruct Hs as (Hc & Hkey & Htok). rewrite Hkey. change (key (start c)) with k. rewrite open_seal.
  unfold srv_write. cbn [fst snd store manifest]. rewrite Hw. simpl.
  eexists. split; [reflexivity|]. split; [done|]. done.
Qed.
Lemma chunks_mid n0 l : forall st w, mid n0 st w ->
  (forall x, x ∈ l -> 0 <= x.2 < total /\ parse_uint (U64 - 1) x.1 = Some x.2 /\ fits (chunk_request x)) ->
  exists st', mid n0 st' (run (map chunk_request l) w)
    /\ forall i, i ∈ st_have (state st) \/ i ∈ map snd l -> i ∈ st_have (state st').
Proof.
  induction l as [|x l IH]; intros st w Hm Hl.
  - exists st. split; [done|]. intros i [?|?%elem_of_nil]; done.
  - destruct (Hl x ltac:(by left)) as (H1' & H2' & H3'). cbn [map serve_all].
    destruct (chunk_request_mid n0 st w x Hm H1' H2' H3') as (w' & -> & Hm').
    destruct (IH _ w' Hm') as (st' & Hm2 & Hh); [intros y Hy; apply Hl; by right|].
    exists st'. split; [done|]. intros i Hi. apply Hh. rewrite elem_of_cons in Hi.
    destruct Hi as [Hi|[->|Hi]]; [left; apply elem_of_union; by right|left; apply elem_of_union; left; by apply elem_of_singleton|by right].
Qed.
Lemma commit_request_lands n0 st w : mid n0 st w -> (forall i, 0 <= i < total -> i ∈ st_have (state st)) ->
  dir_path n0 (out_dir c) -> n0 !! dest <> Some Dir -> fits commit_request ->
  exists a n', serve_on tar ask commit_request w
      = (Ok (JsonCommitAck {| ca_ok := true; ca_error := None |}), (a, n'))
    /\ cancel_later a = true /\ landed n' /\ (forall q, pd `prefix_of` q -> n' !! q = None)
    /\ (forall q, ~ pd `prefix_of` q -> q <> dest -> n' !! q = n0 !! q).
Proof.
  destruct w as [a n]. intros (Hs & Ht & Hr) Hall Hout Hdest Hf. simpl in *.
  destruct (finalize_exec (out_dir c) nm tid cs content Hcs (safe_name_plain _) tar n0 st n m0
    {| blake3_hex := hex_encode (blake3_hash content) |} Hr Hall Hkind eq_refl Hout Hdest) as (n' & He & Hl & Hg & Hk).
  unfold commit_request in *. rewrite with_token_served by done. cbn [router]. rewrite limited_fits by exact Hf.
  unfold handle_commit, get, mbind, srv_bind. cbn [fst snd modify]. rewrite Ht. cbn [fst snd manifest].
  destruct Hs as (Hc & Hkey & Htok). rewrite Hkey. change (key (start c)) with k.
  unfold open_json, seal_json. rewrite open_seal. cbn [mbind res_bind]. rewrite from_to_vec by done. cbn [ok_or].
  unfold srv_try. cbn [fst snd]. rewrite finalize_stream.
  - cbn [store manifest]. rewrite Hc. change (cfg (start c)) with c. rewrite He. simpl.
    eexists _, n'. split; [reflexivity|]. done.
  - cbn [store]. destruct Hr as [Hst _]. by apply (all_complete (out_dir c) nm tid cs content Hcs st n).
Qed.
End upload.
End server.

(** ** Properties *)

(** C24: Ten requests without the right token, whatever else is sent between them,
    cancel the server, and no fewer do ([cancelled] is the cancellation by bad
    tokens; that a completed transfer brings about, after its delay, is
    [cancel_later]); such a request is answered 401,
    and the transfer and the disk stay as they are. *)
Theorem auth_lockout `{Aead} `{Blake3} `{Base58} `{!Serde Manifest} `{!Serde Commit} `{!Serde State}
    tar ask c reqs n :
  zlen (bad_auths (start c) reqs) < 2 ^ 32 ->
  cancelled (serve_all tar ask reqs (start c, n)).1
    = (MAX_AUTH_FAILURES <=? zlen (bad_auths (start c) reqs))
  /\ forall r w, authorized w.1 (authorization r.1) = false ->
       let o := serve_on tar ask r w in
       o.1 = Ok (Status 401) /\ transfer o.2.1 = transfer w.1 /\ o.2.2 = w.2.
Proof.
  intros Hb. split; [by apply (run_lockout tar ask reqs (start c, n))|].
  intros r w Hr. unfold serve_on.
  destruct (serve_unauthorized tar ask r.1 w.1 (Fs w.2 r.2) Hr) as (a' & -> & Ht & _). done.
Qed.

(** C23: No request makes a handler panic, its [unreachable!] included, as long as
    no manifest under the key has chunk size zero and the tar library does
    not panic. *)
Theorem server_never_panics `{Aead} `{Blake3} `{Base58} `{!Serde Manifest} `{!Serde Commit} `{!Serde State}
    tar ask c reqs r n :
  (forall b p s, (tar b p s).1 <> Panic) ->
  (forall body m, PostManifest body ∈ map (fun r : request * list fault => rt r.1) reqs ->
     open_json (T := Manifest) (data_key (cfg_secret c)) DManifest [] body = Ok m -> mf_chunk_size m <> 0) ->
  (serve_on tar ask r (serve_all tar ask reqs (start c, n))).1 <> Panic.
Proof.
  intros Htar Hm. set (I := fun w : App * gmap path node => key w.1 = data_key (cfg_secret c) /\ transfer_ok w.1
    /\ forall act, transfer w.1 = Some act -> mf_chunk_size (manifest act) <> 0).
  assert (HI : I (serve_all tar ask reqs (start c, n))).
  { apply run_ind; [|split; [done|split; [apply start_ok|done]]].
    intros r' w Hr' (Hk & Hok & Hcs). destruct (serve_on_frame tar ask r' w) as ((_ & Fk & _) & _).
    split; [congruence|]. split; [by apply serve_on_ok|].
    destruct (serve_on_served tar ask r' w) as (s' & Hs & _). intros act Hact.
    revert Hs. rewrite Hact. inversion 1 as [x Hx Hna Ea|body m y s'' x Erq Em _ _ _ _ Ey|seg i body act0 p y st s'' x _ _ Ha0 _ _ _ _ _ Ey|]; simplify_eq/=.
    - apply Hcs. congruence.
    - destruct y as [st|e|]; simplify_eq/=; [|by apply Hcs..].
      apply (Hm body); [|by rewrite <- Hk]. rewrite <- Erq. apply list_elem_of_fmap. by exists r'.
    - by apply Hcs in Ha0. }
  destruct HI as (Hk & Hok & Hcs). destruct (serve_on_served tar ask r (serve_all tar ask reqs (start c, n))) as (s' & Hs & _).
  by eapply served_no_panic.
Qed.

(** C18: A commit acknowledged as ok, after any history of requests and faults, served
    one at a time (where a manifest request overlaps the commit, see
    [Concurrent.Example.verified_then_emptied]): the body opened under the key for the active transfer; if that is a file, its
    destination holds data whose hash is the commit's, and outside the
    destination and the staging directory the commit changed nothing. *)
Theorem commit_saves_verified `{Aead} `{Blake3} `{Base58} `{!Serde Manifest} `{!Serde Commit} `{!Serde State}
    tar ask c reqs r n ack w' :
  let w := serve_all tar ask reqs (start c, n) in
  serve_on tar ask r w = (Ok (JsonCommitAck ack), w') -> ca_ok ack = true ->
  exists act body commit, transfer w.1 = Some act /\ rt r.1 = PostCommit body
    /\ open_json (T := Commit) (data_key (cfg_secret c)) DCommit (as_bytes (mf_transfer_id (manifest act))) body = Ok commit
    /\ transfer w'.1 = None
    /\ (kind (manifest act) = KFile ->
        let dest := out_dir c ++ [safe_name (name (manifest act))] in
        exists data, file_at w'.2 dest = Some data /\ hex_encode (blake3_hash data) = blake3_hex commit
        /\ forall q, ~ store_dir c (manifest act) `prefix_of` q -> q <> dest -> w'.2 !! q = w.2 !! q).
Proof.
  intros w Hs Ha. destruct (run_conf tar ask reqs (start c, n)) as (Hc & Hk & _).
  pose proof (run_ok tar ask reqs (start c, n) (start_ok c)) as Hok.
  fold w in Hc, Hk, Hok. destruct (serve_on_served tar ask r w) as (s' & Hsv & Hn). rewrite Hs in Hsv, Hn. simpl in *.
  assert (Hack : ack_ok (Ok (JsonCommitAck ack))) by (eexists; done).
  inversion Hsv as [x _ Hna|body m y s'' x _ _ _ _ _ Hna|seg i body act0 p y st s'' x _ _ _ _ _ _ Hna _|body act commit y s'' x Erq Hact Hop Hf _ Hiff]; simplify_eq/=; [done..|].
  exists act, body, commit. split; [done|]. split; [done|]. split; [by rewrite <- Hk|]. split; [done|].
  intros Hkind. pose proof (Hok act Hact) as Hao. rewrite Hc in Hao, Hf. simpl in Hao, Hf.
  pose proof (finalize_file_ends tar c act commit (Fs w.2 r.2) Hao Hkind) as He. simpl in He. rewrite Hf in He.
  destruct (proj1 Hiff Hack) as [d ->]. destruct He as (data & _ & _ & [Hm Ho] & Hh). rewrite <- Hn. by exists data.
Qed.

(** C16: Until the file has landed, what is on disk can be resumed from: after any
    requests, served one after the other, authorized or not, whose sealed
    contents are an honest sender's, whatever calls fail, either the staging
    area still is one a new server process resumes from, or some request so
    far has put the whole content in place. Excluded are a failing read of the
    state file, and failing calls of a manifest request while a transfer is
    active of which nothing is listed on disk yet:
    [Example.failed_reopen_forgets] shows what the latter can do. *)
Theorem server_resumable `{Aead} `{Blake3} `{Base58} `{!Serde Manifest} `{!Serde Commit} `{!Serde State}
    tar ask c m content reqs n :
  kind m = KFile -> mf_total_size m = zlen content -> 0 < mf_chunk_size m < U64 -> zlen content < U64 ->
  honest_run tar ask c m content reqs (start c, n) ->
  resumable (out_dir c) (safe_name (name m)) (mf_transfer_id m) (mf_chunk_size m) content n ->
  resumable (out_dir c) (safe_name (name m)) (mf_transfer_id m) (mf_chunk_size m) content
    (serve_all tar ask reqs (start c, n)).2
  \/ exists pre r post, reqs = pre ++ r :: post
     /\ file_at (serve_all tar ask (pre ++ [r]) (start c, n)).2 (out_dir c ++ [safe_name (name m)]) = Some content.
Proof.
  intros Hk Hs Hcs Hl Hh Hr.
  assert (HI : upload_inv c m content (serve_all tar ask reqs (start c, n))
    \/ exists pre r post, reqs = pre ++ r :: post
       /\ landed c m content (serve_all tar ask (pre ++ [r]) (start c, n)).2).
  { clear -Hk Hs Hcs Hl Hh Hr. induction reqs as [|r reqs IH] using rev_ind; [left; done|].
    apply honest_run_app in Hh as [Hh Hlast].
    destruct (IH Hh) as [Hi|(pre & r' & post & -> & Hd)].
    - destruct (upload_step tar ask c m content Hk Hs Hcs Hl r _ Hlast Hi) as [?|?];
        [left; by rewrite run_app|right; exists reqs, r, []; split; [done|by rewrite run_app]].
    - right. exists pre, r', (post ++ [r]). split; [|done]. by rewrite <- app_assoc. }
  destruct HI as [(_ & _ & Hi)|?]; [left|by right].
  destruct (transfer _) as [act|]; [|done]. destruct Hi as [_ Hi]. by eapply uploading_idle.
Qed.

(** An accepted upload lands: on any resumable disk the manifest is answered
    with the chunks already there, and once every other chunk has been put, in
    any order and any number of times, the commit is acknowledged, the file is
    in place, the staging directory is gone, nothing else has changed, and
    the server is about to shut down. *)
Theorem server_delivers `{Aead} `{Blake3} `{Base58} `{!Serde Manifest} `{!Serde Commit} `{!Serde State}
    tar ask c m content n :
  kind m = KFile -> mf_total_size m = zlen content -> 0 < mf_chunk_size m < U64 -> zlen content < U64 ->
  wire_ok m -> version m = PROTOCOL_VERSION -> fits (manifest_request c m) -> fits (commit_request c m content) ->
  decide_accept ask c m (path_exists (Fs n []) (join (out_dir c) (safe_name (name m)))) = Some true ->
  resumable (out_dir c) (safe_name (name m)) (mf_transfer_id m) (mf_chunk_size m) content n ->
  exists hv w, serve_on tar ask (manifest_request c m) (start c, n)
      = (Ok (JsonManifestAck {| ma_accepted := true; ma_complete := false; ma_have := hv |}), w)
  /\ forall l : list (string * Z),
    (forall x, x ∈ l -> 0 <= x.2 < n_chunks (mf_chunk_size m) content
       /\ parse_uint (U64 - 1) x.1 = Some x.2 /\ fits (chunk_request c m content x)) ->
    (forall i, 0 <= i < n_chunks (mf_chunk_size m) content -> i ∈ hv \/ i ∈ map snd l) ->
    exists a n', serve_on tar ask (commit_request c m content) (serve_all tar ask (map (chunk_request c m content) l) w)
        = (Ok (JsonCommitAck {| ca_ok := true; ca_error := None |}), (a, n'))
    /\ cancel_later a = true
    /\ file_at n' (out_dir c ++ [safe_name (name m)]) = Some content
    /\ (forall q, store_dir c m `prefix_of` q -> n' !! q = None)
    /\ (forall q, ~ store_dir c m `prefix_of` q -> q <> out_dir c ++ [safe_name (name m)] -> n' !! q = n !! q).
Proof.
  intros Hk Hs Hcs Hl Hw Hv Hf1 Hf2 Hacc Hr.
  destruct (manifest_request_mid tar ask c m content Hk Hs Hcs Hl n Hr Hw Hv Hf1 Hacc) as (st & w & Ho & Hm).
  exists (have st), w. split; [done|]. intros l Hl1 Hl2.
  destruct (chunks_mid tar ask c m content Hcs Hl n l st w Hm Hl1) as (st' & Hm' & Hh).
  apply (commit_request_lands tar ask c m content Hk Hcs n st' _ Hm'); [|by destruct Hr as ((? & _) & _)|by destruct Hr as (_ & _ & ?)|done].
  intros i Hi. apply Hh. destruct (Hl2 i Hi) as [Hin|Hin]; [left|by right].
  unfold have in Hin. by rewrite elem_of_bt_iter in Hin.
Qed.

Module Example.
#[local] Existing Instances Toy.aead Toy.blake3 Toy.base58.
#[local] Instance toy_manifest : Serde Manifest := Toy.serde.
#[local] Instance toy_commit : Serde Commit := Toy.serde.
#[local] Instance toy_state : Serde State := Toy.serde.

Definition tar0 : bytes -> path -> io unit := fun _ _ => mret tt.
Definition ask0 : string -> option (option bool) := fun _ => None.
Definition cfg0 : ServerCfg :=
  {| cfg_secret := {| secret_bytes := replicate 16 Byte.x07 |}; out_dir := ["out"];
     auto_accept := true; overwrite := false |}.
Definition manifest0 (cs : Z) : Manifest :=
  {| version := 1; mf_transfer_id := "t"; kind := KFile; name := "../f"; entries := [];
     mf_total_size := 1; mf_chunk_size := cs; text := None |}.
Definition content0 : bytes := [Byte.x41].
Definition disk : gmap path node := {[ ["out"] := Dir ]}.
Lemma disk0_resumable cs : resumable ["out"] "f" "t" cs content0 disk.
Proof.
  split; [split; [|repeat split; by vm_compute]|split; [|by vm_compute]].
  - intros p Hp. assert (E : prefixes ["out"] = [["out"]]) by reflexivity. rewrite E in Hp.
    apply list_elem_of_singleton in Hp as ->. reflexivity.
  - intros b s Hb. by vm_compute in Hb.
Qed.
Definition stranger : request * list fault := ({| authorization := Some "Bearer nope"; rt := GetStatus |}, []).

Lemma auth_lockout_witness :
  cancelled (serve_all tar0 ask0 (replicate 10 stranger) (start cfg0, disk)).1 = true.
Proof.
  destruct (auth_lockout tar0 ask0 cfg0 (replicate 10 stranger) disk) as [E _]; [vm_compute; reflexivity|].
  rewrite E. vm_compute. reflexivity.
Defined.
Lemma honest_body m : wire_ok m -> forall m', open_json (T := Manifest) (data_key (cfg_secret cfg0)) DManifest []
  (seal_json (data_key (cfg_secret cfg0)) DManifest [] m) = Ok m' -> m' = m.
Proof.
  intros Hm m'. unfold open_json, seal_json. rewrite open_seal. cbn [mbind res_bind]. rewrite from_to_vec by done.
  by intros [= <-].
Qed.
Lemma manifest0_ok : wire_ok (manifest0 4).
Proof. apply (bool_decide_unpack _). vm_compute. exact I. Qed.
Lemma chunk0_ok : 0 < mf_chunk_size (manifest0 4) < U64.
Proof. done. Qed.
Lemma len0_ok : zlen content0 < U64.
Proof. done. Qed.
Lemma server_never_panics_witness :
  (serve_on tar0 ask0 (commit_request cfg0 (manifest0 4) content0)
    (serve_all tar0 ask0 [manifest_request cfg0 (manifest0 4)] (start cfg0, disk))).1 <> Panic.
Proof.
  apply (server_never_panics tar0 ask0 cfg0 [manifest_request cfg0 (manifest0 4)]); [done|].
  intros body m Hin%list_elem_of_singleton Hm. injection Hin as ->.
  rewrite (honest_body _ manifest0_ok m Hm). discriminate.
Defined.
Lemma server_resumable_witness :
  let w := serve_all tar0 ask0 [manifest_request cfg0 (manifest0 4)] (start cfg0, disk) in
  resumable ["out"] "f" "t" 4 content0 w.2 \/ file_at w.2 ["out"; "f"] = Some content0.
Proof.
  intros w.
  destruct (server_resumable tar0 ask0 cfg0 (manifest0 4) content0 [manifest_request cfg0 (manifest0 4)] disk)
    as [Hr|(pre & r & post & E & Hd)]; try done.
  - split; [|exact I]. split; [by left|]. intros m Hm. apply (honest_body _ manifest0_ok m Hm).
  - apply disk0_resumable.
  - by left.
  - right. destruct pre as [|? [|]]; [|done..]. injection E as <- <-. exact Hd.
Defined.
Lemma server_delivers_witness :
  exists w a n', serve_on tar0 ask0 (commit_request cfg0 (manifest0 4) content0)
      (serve_all tar0 ask0 [chunk_request cfg0 (manifest0 4) content0 ("0", 0)] w)
      = (Ok (JsonCommitAck {| ca_ok := true; ca_error := None |}), (a, n'))
    /\ file_at n' ["out"; "f"] = Some content0.
Proof.
  destruct (server_delivers tar0 ask0 cfg0 (manifest0 4) content0 disk) as (hv & w & _ & Hrun);
    [done|done|done|done|apply manifest0_ok|done|vm_compute; discriminate|vm_compute; discriminate|vm_compute; reflexivity|apply disk0_resumable|].
  exists w. destruct (Hrun [("0", 0)]) as (a & n' & Hc & _ & Hf & _).
  - intros x ->%list_elem_of_singleton. split; [done|]. split; [vm_compute; reflexivity|vm_compute; discriminate].
  - intros i Hi. right. apply list_elem_of_singleton. change (n_chunks (mf_chunk_size (manifest0 4)) content0) with 1 in Hi. cbn. lia.
  - by exists a, n'.
Defined.
Lemma commit_saves_verified_witness :
  exists reqs w', serve_on tar0 ask0 (commit_request cfg0 (manifest0 4) content0) (serve_all tar0 ask0 reqs (start cfg0, disk))
      = (Ok (JsonCommitAck {| ca_ok := true; ca_error := None |}), w')
    /\ exists data, file_at w'.2 ["out"; "f"] = Some data.
Proof.
  destruct (manifest_request_mid tar0 ask0 cfg0 (manifest0 4) content0 eq_refl eq_refl chunk0_ok len0_ok disk
    (disk0_resumable 4) manifest0_ok eq_refl) as (st & w & Ho & Hm);
    [vm_compute; discriminate|vm_compute; reflexivity|].
  destruct (chunks_mid tar0 ask0 cfg0 (manifest0 4) content0 chunk0_ok len0_ok disk [("0", 0)] st w Hm) as (st' & Hm' & Hh).
  { clear. intros x ->%list_elem_of_singleton. split; [done|]. split; [vm_compute; reflexivity|vm_compute; discriminate]. }
  destruct (commit_request_lands tar0 ask0 cfg0 (manifest0 4) content0 eq_refl chunk0_ok disk st' _ Hm')
    as (a & n' & Hc & _); [|by destruct (disk0_resumable 4) as ((? & _) & _)|done|vm_compute; discriminate|].
  { intros i Hi. apply Hh. right. apply list_elem_of_singleton.
    change (n_chunks (mf_chunk_size (manifest0 4)) content0) with 1 in Hi. cbn. lia. }
  exists [manifest_request cfg0 (manifest0 4); chunk_request cfg0 (manifest0 4) content0 ("0", 0)], (a, n').
  cbn [serve_all map] in Hc |- *. rewrite Ho. split; [exact Hc|].
  destruct (commit_saves_verified tar0 ask0 cfg0
    [manifest_request cfg0 (manifest0 4); chunk_request cfg0 (manifest0 4) content0 ("0", 0)]
    (commit_request cfg0 (manifest0 4) content0) disk {| ca_ok := true; ca_error := None |} (a, n'))
    as (act & body & commit & Hact & _ & _ & _ & Hfile); [cbn [serve_all map]; rewrite Ho; exact Hc|reflexivity|].
  cbn [serve_all map] in Hact. rewrite Ho in Hact. cbn [snd] in Hact. destruct Hm' as (_ & Hact' & _). cbn [serve_all map] in Hact'.
  rewrite Hact' in Hact. injection Hact as <-. destruct (Hfile eq_refl) as (data & Hd & _). by exists data.
Defined.

(** A chunk is written but its state file is not saved; a second manifest
    request empties the data and then fails, and the first transfer stays
    active; the next chunk is written and the state file saved. Both chunks
    are listed, and the first is not there. *)
Definition content2 : bytes := [Byte.x41; Byte.x42].
Definition manifest2 : Manifest :=
  {| version := 1; mf_transfer_id := "t"; kind := KFile; name := "f"; entries := [];
     mf_total_size := 2; mf_chunk_size := 1; text := None |}.
Definition forgetful : list (request * list fault) :=
  [manifest_request cfg0 manifest2;
   ((chunk_request cfg0 manifest2 content2 ("0", 0)).1, [NoFault; FailBefore]);
   ((manifest_request cfg0 manifest2).1, [NoFault; NoFault; NoFault; FailBefore]);
   chunk_request cfg0 manifest2 content2 ("1", 1)].
Theorem failed_reopen_forgets :
  let n := (serve_all tar0 ask0 forgetful (start cfg0, disk)).2 in
  listed ["out"] "f" "t" 1 content2 n = {[0; 1]}
  /\ file_at n ["out"; "f.b2p-partial"; "data"] = Some [Byte.x00; Byte.x42]
  /\ (serve_on tar0 ask0 (commit_request cfg0 manifest2 content2) (serve_all tar0 ask0 forgetful (start cfg0, disk))).1
     = Ok (JsonCommitAck {| ca_ok := false; ca_error := Some "integrity check failed: hash mismatch" |}).
Proof.
  intros n. split; [apply (bool_decide_unpack _); vm_compute; exact I|]. split; vm_compute; reflexivity.
Qed.

(** A manifest with chunk size zero is accepted; the commit's completeness
    test then divides by zero. *)
Lemma zero_chunk_panics :
  (serve_on tar0 ask0 (commit_request cfg0 (manifest0 0) content0)
    (serve_all tar0 ask0 [manifest_request cfg0 (manifest0 0)] (start cfg0, disk))).1 = Panic.
Proof. vm_compute. reflexivity. Qed.
End Example.
