(* ===== verification/Upload.v ===== *)
(** * src/send.rs, continued: the tunnel upload

    The sender's HTTP exchange with the receiver: the manifest, the missing
    chunks over at most [PARALLEL_UPLOADS] connections with retries, the
    commit; and its runs against the server of [Server] over a network that
    may lose requests and responses. *)

From S2P Require Import Prelude Str Libs Fs Crypto Protocol Store Archive Send Stream Transfer.
From S2P Require Import Safety Server ServerSpec.

(** What the HTTP client makes of an answer: its status, and its body decoded
    as one message type or the other. *)
Record reply : Type := { status : Z; json_ack : option ManifestAck; json_commit : option CommitAck }.
(** [StatusCode::is_success]. *)
Definition is_success (r : reply) : bool := (200 <=? status r) && (status r <? 300).

(** A task of the client: it sends a request and goes on with the reply, or
    the text of the connection's error; sleeps some milliseconds; is done. *)
Inductive task : Type :=
| Finished (r : res unit)
| Request (q : route) (k : string + reply -> task)
| Sleep (ms : Z) (k : task).

(** The loop of [upload_with_retry], [n] attempts from [attempt] on. *)
Fixpoint upload_loop (n : nat) (attempt delay : Z) (index : Z) (body : bytes) : task :=
  match n with
  | O => Finished Panic
  | S n' =>
      Request (PutChunk (show index) body) (fun result =>
        match result with
        | inr r =>
            if is_success r then Finished (Ok tt)
            else if status r =? 401 then Finished (Err (EMsg "auth rejected (HTTP 401) mid-transfer"))
            else if attempt =? CHUNK_ATTEMPTS
            then Finished (Err (EMsg ("chunk " +:+ show index +:+ ": HTTP " +:+ show (status r)
                                      +:+ " after " +:+ show CHUNK_ATTEMPTS +:+ " attempts")))
            else Sleep delay (upload_loop n' (attempt + 1) (delay * 2) index body)
        | inl e =>
            if attempt =? CHUNK_ATTEMPTS
            then Finished (Err (EContext ("chunk " +:+ show index +:+ " failed after "
                                          +:+ show CHUNK_ATTEMPTS +:+ " attempts") (EExternal e)))
            else Sleep delay (upload_loop n' (attempt + 1) (delay * 2) index body)
        end)
  end.
Definition upload_with_retry (index : Z) (body : bytes) : task :=
  upload_loop (Z.to_nat CHUNK_ATTEMPTS) 1 500 index body.

Section send.
Context `{Aead} `{Blake3} `{Base58} `{!Serde Manifest} `{!Serde Commit} `{!Serde State}.
(** The code's secret and host, the source, and the sender's disk, which does
    not change meanwhile. *)
Variables (secret : Secret) (host : option string) (source : Source) (disk : fs).
Local Abbreviation key := (data_key secret).

(** The task of one chunk. *)
Definition chunk_task (tid : string) (p : path) (total_size index : Z) : task :=
  match fst (read_chunk p index CHUNK_SIZE total_size disk) with
  | Ok plain => upload_with_retry index (seal key DData index (as_bytes tid) plain)
  | Err e => Finished (Err e)
  | Panic => Finished Panic
  end.

(** Where the upload is: before the manifest, uploading (the chunks not begun
    and the tasks under way), before the commit, over. *)
Inductive phase : Type :=
| AtManifest
| Uploading (missing : list Z) (active : list task)
| AtCommit
| Over (r : res string).

Definition manifest_body : bytes := seal_json key DManifest [] (build_manifest source).
(** What [send] does with the manifest's response. *)
Definition after_manifest (result : string + reply) : phase :=
  match result with
  | inl chain => Over (Err (connect_failure host chain))
  | inr r =>
      if status r =? 401 then Over (Err (EMsg "auth rejected (HTTP 401) — the code is wrong or expired"))
      else if negb (is_success r) then Over (Err (EMsg ("manifest rejected: HTTP " +:+ show (status r))))
      else match json_ack r with
           | None => Over (Err (EContext "invalid manifest response" EJson))
           | Some ack =>
               if negb (ma_accepted ack)
               then Over (Err (EMsg "receiver declined the transfer (or protocol version mismatch)"))
               else if ma_complete ack then Over (Ok "text delivered")
               else match source with
                    | Text _ _ => Over Panic
                    | Blob _ _ _ _ _ _ _ =>
                        match Manifest_total_chunks (build_manifest source) with
                        | Ok total_chunks =>
                            Uploading (filter (fun i => i ∉ ma_have ack) (zrange 0 total_chunks)) []
                        | Err e => Over (Err e)
                        | Panic => Over Panic
                        end
                    end
           end
  end.
Definition upload_failed : string :=
  "upload failed after retries — re-run the same command to resume, or run `b2p doctor` if it keeps failing".
Definition commit_body (tid hash : string) : bytes :=
  seal_json key DCommit (as_bytes tid) {| blake3_hex := hash |}.
(** What [send] does with the commit's response. *)
Definition after_commit (result : string + reply) : res string :=
  match result with
  | inl e => Err (EExternal e)
  | inr r =>
      match json_commit r with
      | None => Err EJson
      | Some ack =>
          if negb (ca_ok ack) then Err (EMsg ("receiver failed to finalize: " +:+ default "" (ca_error ack)))
          else Ok "transfer complete"
      end
  end.

(** ** Runs against a server *)

Variables (tar : bytes -> path -> io unit) (ask : string -> option (option bool)).
(** [lossy]: the network may lose requests and responses. *)
Variable lossy : bool.

Definition reply_of (r : Response) : reply :=
  match r with
  | Status c | StatusText c _ => {| status := c; json_ack := None; json_commit := None |}
  | JsonManifestAck a => {| status := 200; json_ack := Some a; json_commit := None |}
  | JsonStatusResp _ => {| status := 200; json_ack := None; json_commit := None |}
  | JsonCommitAck a => {| status := 200; json_ack := None; json_commit := Some a |}
  end.
(** [bearer_auth(token)] on every request. *)
Definition bearing (q : route) : request * list fault :=
  ({| authorization := Some ("Bearer " +:+ auth_token secret); rt := q |}, []).
Inductive net : App * gmap path node -> route -> string + reply -> App * gmap path node -> Prop :=
| net_answer w q r w' : serve_on tar ask (bearing q) w = (Ok r, w') -> net w q (inr (reply_of r)) w'
| net_panic w q e w' : serve_on tar ask (bearing q) w = (Panic, w') -> net w q (inl e) w'
| net_lost w q e : lossy = true -> net w q (inl e) w
| net_cut w q r e w' : lossy = true -> serve_on tar ask (bearing q) w = (r, w') -> net w q (inl e) w'.

Inductive send_step : phase * (App * gmap path node) -> phase * (App * gmap path node) -> Prop :=
| step_manifest w rep w' :
    net w (PostManifest manifest_body) rep w' ->
    send_step (AtManifest, w) (after_manifest rep, w')
| step_begin i missing active w tid p size k n es sp :
    source = Blob k n es size tid p sp -> zlen active < PARALLEL_UPLOADS ->
    send_step (Uploading (i :: missing) active, w) (Uploading missing (active ++ [chunk_task tid p size i]), w)
| step_request missing l q k r w rep w' :
    net w q rep w' ->
    send_step (Uploading missing (l ++ Request q k :: r), w) (Uploading missing (l ++ k rep :: r), w')
| step_sleep missing l ms k r w :
    send_step (Uploading missing (l ++ Sleep ms k :: r), w) (Uploading missing (l ++ k :: r), w)
| step_done missing l r w :
    send_step (Uploading missing (l ++ Finished (Ok tt) :: r), w) (Uploading missing (l ++ r), w)
| step_fail missing l e r w :
    send_step (Uploading missing (l ++ Finished (Err e) :: r), w) (Over (Err (EContext upload_failed e)), w)
| step_panic missing l r w :
    send_step (Uploading missing (l ++ Finished Panic :: r), w) (Over Panic, w)
| step_uploaded w : send_step (Uploading [] [], w) (AtCommit, w)
| step_commit w hash tid p size k n es sp rep w' :
    source = Blob k n es size tid p sp -> fst (blake3_file p disk) = Ok hash ->
    net w (PostCommit (commit_body tid hash)) rep w' ->
    send_step (AtCommit, w) (Over (after_commit rep), w')
| step_hash_fails w e tid p size k n es sp :
    source = Blob k n es size tid p sp -> fst (blake3_file p disk) = Err e ->
    send_step (AtCommit, w) (Over (Err e), w).
End send.

(** ** Every run ends *)

(** [t] finishes within [m] steps whatever the replies. *)
Inductive sized : nat -> task -> Prop :=
| sized_finished m r : sized m (Finished r)
| sized_sleep m ms k : sized m k -> sized (S m) (Sleep ms k)
| sized_request m q k : (forall rep, sized m (k rep)) -> sized (S m) (Request q k).
Lemma sized_loop n a d i body : sized (2 * n) (upload_loop n a d i body).
Proof.
  revert a d. induction n as [|n IH]; intros a d; [constructor|].
  replace (2 * S n)%nat with (S (S (2 * n))) by lia. cbn [upload_loop]. constructor. intros [e|r].
  - case_match; [constructor|]. constructor. apply IH.
  - do 3 (case_match; [constructor|]). constructor. apply IH.
Qed.

Section runs.
Context `{Aead} `{Blake3} `{Base58} `{!Serde Manifest} `{!Serde Commit} `{!Serde State}.
Variables (secret : Secret) (host : option string) (source : Source) (disk : fs).
Variables (tar : bytes -> path -> io unit) (ask : string -> option (option bool)).
Variable lossy : bool.
Local Abbreviation step := (send_step secret host source disk tar ask lossy).

(** A bound on the steps left. *)
Definition weight (ms : list nat) : nat := sum_list_with S ms.
Inductive phase_sized : nat -> phase -> Prop :=
| over_sized m r : phase_sized m (Over r)
| commit_sized m : phase_sized (S m) AtCommit
| uploading_sized m missing active ms :
    Forall2 sized ms active -> (12 * length missing + weight ms + 2 <= m)%nat ->
    phase_sized m (Uploading missing active).
Lemma weight_app l k : weight (l ++ k) = (weight l + weight k)%nat.
Proof. unfold weight. apply sum_list_with_app. Qed.
Lemma chunk_task_sized tid p size i : sized 10 (chunk_task secret disk tid p size i).
Proof. unfold chunk_task. case_match; [apply (sized_loop 5)|constructor..]. Qed.
Lemma step_sized m ph w ph' w' : phase_sized m ph -> step (ph, w) (ph', w') -> ph <> AtManifest ->
  exists m', (m' < m)%nat /\ phase_sized m' ph'.
Proof.
  intros Hm Hs Hne. inversion Hs; subst; [done|..]; inversion Hm as [| |? ? ? szs Hall Hle]; subst.
  - exists (m - 1)%nat. split; [simpl in Hle; lia|]. apply (uploading_sized _ _ _ (szs ++ [10%nat])).
    + apply Forall2_app; [done|]. constructor; [apply chunk_task_sized|constructor].
    + rewrite weight_app. simpl in *. lia.
  - apply Forall2_app_inv_r in Hall as (ms1 & ms2 & H1' & H2' & ->).
    apply Forall2_cons_inv_r in H2' as (x & ms3 & Hx & H3' & ->). inversion Hx; subst.
    exists (m - 1)%nat. rewrite weight_app in Hle. simpl in Hle. split; [lia|].
    apply (uploading_sized _ _ _ (ms1 ++ m0 :: ms3)); [by apply Forall2_app, Forall2_cons|].
    rewrite weight_app. simpl. lia.
  - apply Forall2_app_inv_r in Hall as (ms1 & ms2 & H1' & H2' & ->).
    apply Forall2_cons_inv_r in H2' as (x & ms3 & Hx & H3' & ->). inversion Hx; subst.
    exists (m - 1)%nat. rewrite weight_app in Hle. simpl in Hle. split; [lia|].
    apply (uploading_sized _ _ _ (ms1 ++ m0 :: ms3)); [by apply Forall2_app, Forall2_cons|].
    rewrite weight_app. simpl. lia.
  - apply Forall2_app_inv_r in Hall as (ms1 & ms2 & H1' & H2' & ->).
    apply Forall2_cons_inv_r in H2' as (x & ms3 & Hx & H3' & ->).
    exists (m - 1)%nat. rewrite weight_app in Hle. simpl in Hle. split; [lia|].
    apply (uploading_sized _ _ _ (ms1 ++ ms3)); [by apply Forall2_app|]. rewrite weight_app. lia.
  - exists 0%nat. split; [lia|constructor].
  - exists 0%nat. split; [lia|constructor].
  - exists 1%nat. split; [lia|constructor].
  - exists 0%nat. split; [lia|constructor].
  - exists 0%nat. split; [lia|constructor].
Qed.
Lemma nsteps_sized j m s s' : nsteps step j s s' -> phase_sized m s.1 -> s.1 <> AtManifest -> (j <= m)%nat.
Proof.
  intros Hj. revert m. induction Hj as [s|j [ph w] [ph' w'] s' Hs Hj IH]; intros m Hm Hne; [lia|].
  destruct (step_sized m ph w ph' w' Hm Hs Hne) as (m' & Hlt & Hm'). specialize (IH m' Hm').
  assert (Hph : ph' <> AtManifest) by (intros ->; inversion Hm'). specialize (IH Hph). lia.
Qed.
End runs.

(** ** What a run delivers *)

Section delivery.
Context `{Aead} `{Blake3} `{Base58} `{!Serde Manifest} `{!Serde Commit} `{!Serde State}.
Variables (c : ServerCfg) (host : option string) (nm tid : string) (es : list Entry) (p : path) (sp : option path).
Variables (content : bytes) (disk : fs) (tar : bytes -> path -> io unit) (ask : string -> option (option bool)).
Variables (lossy : bool) (n0 : gmap path node).
Hypothesis Hlen : zlen content < U64.
Local Abbreviation secret := (cfg_secret c).
Local Abbreviation source := (Blob KFile nm es (zlen content) tid p sp).
Local Abbreviation m := (build_manifest (Blob KFile nm es (zlen content) tid p sp)).
Local Abbreviation total := (n_chunks CHUNK_SIZE content).
Local Abbreviation name := (safe_name nm).
Local Abbreviation step := (send_step secret host source disk tar ask lossy).
Hypothesis Hfile : file_at (nodes disk) p = Some content.
Hypothesis Hdisk : faults disk = [].
Hypothesis Hfits : fits (manifest_request c m) /\ fits (commit_request c m content)
  /\ forall i, 0 <= i < total -> fits (chunk_request c m content (show i, i)).
Hypothesis Hwire : wire_ok m.
Hypothesis Haccept : decide_accept ask c m (path_exists (Fs n0 []) (join (out_dir c) name)) = Some true.
Hypothesis Hres : resumable (out_dir c) name tid CHUNK_SIZE content n0.

Lemma chunk_size_ok : 0 < mf_chunk_size m < U64.
Proof. done. Qed.
Lemma chunk_index_ok i : 0 <= i < total -> 0 <= i < U64.
Proof. intros Hi. pose proof (n_chunks_range CHUNK_SIZE content chunk_size_ok). unfold U64 in *. lia. Qed.

Local Abbreviation chunk_body i := (seal (data_key secret) DData i (as_bytes tid) (chunk CHUNK_SIZE i content)).
(** A task of chunk [i], once its index is in [hv] if it is done. *)
Inductive task_ok (hv : gset Z) (i : Z) : task -> Prop :=
| loop_ok n a d : Z.of_nat n + a = 6 -> 1 <= a <= 5 -> task_ok hv i (upload_loop n a d i (chunk_body i))
| sleep_ok n a d ms : Z.of_nat n + a = 6 -> 1 <= a <= 5 ->
    task_ok hv i (Sleep ms (upload_loop n a d i (chunk_body i)))
| done_ok : i ∈ hv -> task_ok hv i (Finished (Ok tt))
| failed_ok e : lossy = true -> task_ok hv i (Finished (Err e)).
Lemma task_ok_mono hv hv' i t : hv ⊆ hv' -> task_ok hv i t -> task_ok hv' i t.
Proof. intros Hs []; econstructor; eauto. Qed.

Definition send_inv (s : phase * (App * gmap path node)) : Prop :=
  match s.1 with
  | AtManifest => s.2 = (start c, n0)
  | Uploading missing active =>
      exists st idx, mid c m content n0 st s.2
      /\ Forall2 (task_ok (st_have (state st))) idx active
      /\ (forall i, i ∈ missing \/ i ∈ idx -> 0 <= i < total)
      /\ forall i, 0 <= i < total -> i ∈ st_have (state st) \/ i ∈ missing \/ i ∈ idx
  | AtCommit =>
      exists st, mid c m content n0 st s.2 /\ forall i, 0 <= i < total -> i ∈ st_have (state st)
  | Over (Ok d) => d = "transfer complete" /\ file_at s.2.2 (out_dir c ++ [name]) = Some content
  | Over (Err _) => lossy = true
  | Over Panic => False
  end.

Lemma chunk_task_ok hv i : 0 <= i < total -> task_ok hv i (chunk_task secret disk tid p (zlen content) i).
Proof.
  intros Hi. unfold chunk_task. destruct disk as [ns fl]. simpl in Hdisk, Hfile. subst fl.
  rewrite (read_chunk_ok p CHUNK_SIZE content i ns []) by done. cbn [fst].
  apply (loop_ok hv i 5 1 500); lia.
Qed.
(** One chunk request over the network. *)
Lemma net_chunk i rep st w w' : 0 <= i < total -> mid c m content n0 st w ->
  net secret tar ask lossy w (PutChunk (show i) (chunk_body i)) rep w' ->
  exists st', mid c m content n0 st' w' /\ st_have (state st) ⊆ st_have (state st')
    /\ match rep with
       | inr r => r = reply_of (Status 200) /\ i ∈ st_have (state st')
       | inl _ => lossy = true
       end.
Proof.
  intros Hi Hm Hn. destruct Hfits as (_ & _ & Hf).
  destruct (chunk_request_mid tar ask c m content chunk_size_ok Hlen n0 st w (show i, i) Hm Hi) as (w1 & Hs & Hm1);
    [apply (parse_show (U64 - 1)); pose proof (chunk_index_ok i Hi); simpl; lia|by apply Hf|].
  change (serve_on tar ask (bearing secret (PutChunk (show i) (chunk_body i))) w = (Ok (Status 200), w1)) in Hs.
  assert (Hsub : st_have (state st) ⊆ st_have (state (insert_have i st))) by apply union_subseteq_r.
  assert (Hin : i ∈ st_have (state (insert_have i st))) by (apply elem_of_union; left; by apply elem_of_singleton).
  inversion Hn as [? ? r ? Hr|? ? e ? Hr|? ? e Hlo|? ? r e ? Hlo Hr]; subst.
  - rewrite Hs in Hr. injection Hr as <- <-. exists (insert_have i st). done.
  - rewrite Hs in Hr. done.
  - exists st. done.
  - rewrite Hs in Hr. injection Hr as <- <-. exists (insert_have i st). done.
Qed.
(** A reply to a chunk's attempt. *)
Lemma task_step hv i q k rep : task_ok hv i (Request q k) ->
  match rep with
  | inr r => r = reply_of (Status 200) /\ i ∈ hv
  | inl _ => lossy = true
  end -> q = PutChunk (show i) (chunk_body i) /\ task_ok hv i (k rep).
Proof.
  intros Ht Hrep. inversion Ht as [n a d Hn Ha Heq| | |]. destruct n as [|n]; [done|]. cbn [upload_loop] in Heq.
  injection Heq as <- <-. split; [done|]. destruct rep as [e|r].
  - destruct (Z.eqb_spec a CHUNK_ATTEMPTS); [by constructor|].
    unfold CHUNK_ATTEMPTS in *. constructor; lia.
  - destruct Hrep as [-> Hin]. by constructor.
Qed.

Lemma task_not_panic hv i : ~ task_ok hv i (Finished Panic).
Proof. inversion 1 as [n a d Hn Ha Heq| | |]. destruct n; [lia|done]. Qed.
Lemma task_done hv i : task_ok hv i (Finished (Ok tt)) -> i ∈ hv.
Proof. inversion 1 as [n a d Hn Ha Heq| | |]; [by destruct n|done]. Qed.
Lemma task_failed hv i e : task_ok hv i (Finished (Err e)) -> lossy = true.
Proof. inversion 1 as [n a d Hn Ha Heq| | |]; [by destruct n|done]. Qed.
Lemma task_slept hv i ms k : task_ok hv i (Sleep ms k) -> task_ok hv i k.
Proof. inversion 1 as [n a d Hn Ha Heq|n a d ms' Hn Ha| |]; [by destruct n|by constructor]. Qed.
Lemma task_asks hv i q k : task_ok hv i (Request q k) -> q = PutChunk (show i) (chunk_body i).
Proof. inversion 1 as [n a d Hn Ha Heq| | |]. destruct n as [|n]; [done|]. by injection Heq as <- _. Qed.

Lemma hash_known : fst (blake3_file p disk) = Ok (hex_encode (blake3_hash content)).
Proof. destruct disk as [ns fl]. simpl in *. subst fl. by rewrite (blake3_file_ok p content ns). Qed.

Lemma manifest_step rep w' : net secret tar ask lossy (start c, n0) (PostManifest (manifest_body secret source)) rep w' ->
  send_inv (after_manifest host source rep, w').
Proof.
  intros Hn. destruct Hfits as (Hf & _ & _).
  destruct (manifest_request_mid tar ask c m content eq_refl eq_refl chunk_size_ok Hlen n0 Hres Hwire eq_refl Hf Haccept)
    as (st & w1 & Hs & Hm).
  change (serve_on tar ask (bearing secret (PostManifest (manifest_body secret source))) (start c, n0)
    = (Ok (JsonManifestAck {| ma_accepted := true; ma_complete := false; ma_have := have st |}), w1)) in Hs.
  inversion Hn as [? ? r ? Hr|? ? e ? Hr|? ? e Hlo|? ? r e ? Hlo Hr]; subst; [|by rewrite Hs in Hr|done|done].
  rewrite Hs in Hr. injection Hr as <- <-. unfold after_manifest. cbn [reply_of status json_ack is_success].
  change (Manifest_total_chunks m) with (div_ceil (zlen content) CHUNK_SIZE). rewrite div_ceil_ok by done. cbn.
  exists st, []. split; [done|]. split; [constructor|].
  split; [intros i [Hi|Hi%elem_of_nil]; [|done]; apply list_elem_of_filter in Hi as [_ Hi]; by apply elem_of_zrange in Hi|].
  intros i Hi. destruct (decide (i ∈ have st)) as [Hin|Hout].
  - left. unfold have in Hin. by rewrite elem_of_bt_iter in Hin.
  - right. left. apply list_elem_of_filter. split; [done|by apply elem_of_zrange].
Qed.
Lemma commit_step w st rep w' : mid c m content n0 st w -> (forall i, 0 <= i < total -> i ∈ st_have (state st)) ->
  net secret tar ask lossy w (PostCommit (commit_body secret tid (hex_encode (blake3_hash content)))) rep w' ->
  send_inv (Over (after_commit rep), w').
Proof.
  intros Hm Hall Hn. destruct Hfits as (_ & Hf & _). destruct Hres as ((Hout & _) & _ & Hdest).
  destruct (commit_request_lands tar ask c m content eq_refl chunk_size_ok n0 st w Hm Hall Hout Hdest Hf)
    as (a & n' & Hs & _ & Hl & _).
  change (serve_on tar ask (bearing secret (PostCommit (commit_body secret tid (hex_encode (blake3_hash content))))) w
    = (Ok (JsonCommitAck {| ca_ok := true; ca_error := None |}), (a, n'))) in Hs.
  inversion Hn as [? ? r ? Hr|? ? e ? Hr|? ? e Hlo|? ? r e ? Hlo Hr]; subst; [|by rewrite Hs in Hr|done|done].
  rewrite Hs in Hr. injection Hr as <- <-. done.
Qed.

Lemma send_step_inv s s' : send_inv s -> step s s' -> send_inv s'.
Proof.
  intros Hi Hs. destruct Hs as [w rep w' Hn|i missing active w tid' p' size' k' n' es' sp' E Hact|missing l q k r w rep w' Hn
    |missing l ms k r w|missing l r w|missing l e r w|missing l r w|w|w hash tid' p' size' k' n' es' sp' rep w' E Hh Hn
    |w e tid' p' size' k' n' es' sp' E Hh].
  - unfold send_inv in Hi. simpl in Hi. subst w. by apply manifest_step.
  - injection E as <- <- <- <- <- <- <-. destruct Hi as (st & idx & Hm & Hf & Hr & Hc). exists st, (idx ++ [i]).
    split; [done|]. split; [|split].
    + apply Forall2_app; [done|]. constructor; [|constructor]. apply chunk_task_ok, Hr. left. by left.
    + intros j Hj. apply Hr. rewrite elem_of_app, list_elem_of_singleton in Hj. rewrite elem_of_cons. tauto.
    + intros j Hj. rewrite elem_of_app, list_elem_of_singleton. specialize (Hc j Hj). rewrite elem_of_cons in Hc. tauto.
  - destruct Hi as (st & idx & Hm & Hf & Hr & Hc).
    apply Forall2_app_inv_r in Hf as (i1 & i2 & Hf1 & Hf2 & ->).
    apply Forall2_cons_inv_r in Hf2 as (i & i3 & Ht & Hf3 & ->).
    assert (Hir : 0 <= i < total) by (apply Hr; right; apply elem_of_app; right; by left).
    rewrite (task_asks _ _ _ _ Ht) in Hn. destruct (net_chunk i rep st w w' Hir Hm Hn) as (st' & Hm' & Hsub & Hrep).
    exists st', (i1 ++ i :: i3). split; [done|]. split; [|split; [done|]].
    + apply Forall2_app; [by eapply Forall2_impl; [exact Hf1|intros; eapply task_ok_mono]|].
      constructor; [|by eapply Forall2_impl; [exact Hf3|intros; eapply task_ok_mono]].
      by apply (task_step _ i q k rep (task_ok_mono _ _ _ _ Hsub Ht)).
    + intros j Hj. destruct (Hc j Hj) as [?|?]; [left; by apply Hsub|by right].
  - destruct Hi as (st & idx & Hm & Hf & Hr & Hc). exists st, idx. split; [done|]. split; [|done].
    apply Forall2_app_inv_r in Hf as (i1 & i2 & Hf1 & Hf2 & ->).
    apply Forall2_cons_inv_r in Hf2 as (i & i3 & Ht & Hf3 & ->).
    apply Forall2_app; [done|]. constructor; [by eapply task_slept|done].
  - destruct Hi as (st & idx & Hm & Hf & Hr & Hc).
    apply Forall2_app_inv_r in Hf as (i1 & i2 & Hf1 & Hf2 & ->).
    apply Forall2_cons_inv_r in Hf2 as (i & i3 & Ht & Hf3 & ->).
    exists st, (i1 ++ i3). split; [done|]. split; [by apply Forall2_app|].
    setoid_rewrite elem_of_app in Hr. setoid_rewrite elem_of_app in Hc. setoid_rewrite elem_of_cons in Hr. setoid_rewrite elem_of_cons in Hc.
    split; [intros j Hj; apply Hr; rewrite elem_of_app in Hj; tauto|].
    intros j Hj. rewrite elem_of_app. destruct (Hc j Hj) as [?|[?|[?|[->|?]]]]; auto. left. by apply task_done in Ht.
  - destruct Hi as (st & idx & Hm & Hf & _). apply Forall2_app_inv_r in Hf as (i1 & i2 & Hf1 & Hf2 & ->).
    apply Forall2_cons_inv_r in Hf2 as (i & i3 & Ht & _). by apply task_failed in Ht.
  - destruct Hi as (st & idx & Hm & Hf & _). apply Forall2_app_inv_r in Hf as (i1 & i2 & Hf1 & Hf2 & ->).
    apply Forall2_cons_inv_r in Hf2 as (i & i3 & Ht & _). by apply task_not_panic in Ht.
  - destruct Hi as (st & idx & Hm & Hf & Hr & Hc). exists st. split; [done|]. apply Forall2_nil_inv_r in Hf as ->.
    intros i Hi. destruct (Hc i Hi) as [?|[?%elem_of_nil|?%elem_of_nil]]; done.
  - injection E as <- <- <- <- <- <- <-. rewrite hash_known in Hh. injection Hh as <-.
    destruct Hi as (st & Hm & Hall). by eapply commit_step.
  - injection E as <- <- <- <- <- <- <-. by rewrite hash_known in Hh.
Qed.
Lemma send_steps_inv s s' : rtc step s s' -> send_inv s -> send_inv s'.
Proof. induction 1; eauto using send_step_inv. Qed.

(** A run that is not over goes on. *)
Lemma send_progress s : send_inv s -> (forall r, s.1 <> Over r) -> exists s', step s s'.
Proof.
  destruct s as [[|missing active| |r] w]; intros Hi Hr; [| | |by destruct (Hr r)].
  - unfold send_inv in Hi. simpl in Hi. subst w. destruct Hfits as (Hf & _ & _).
    destruct (manifest_request_mid tar ask c m content eq_refl eq_refl chunk_size_ok Hlen n0 Hres Hwire eq_refl Hf Haccept)
      as (st & w1 & Hs & _). eexists. eapply step_manifest, net_answer. exact Hs.
  - destruct Hi as (st & idx & Hm & Hf & Hx & _). destruct active as [|t active].
    + destruct missing as [|i missing]; eexists; [apply step_uploaded|by eapply step_begin].
    + apply Forall2_cons_inv_r in Hf as (i & i3 & Ht & _ & ->).
      destruct t as [[[]|e|]|q k|ms k]; try (eexists; eapply (step_done _ _ _ _ _ _ _ missing []) || eapply (step_fail _ _ _ _ _ _ _ missing []) || eapply (step_sleep _ _ _ _ _ _ _ missing [])); [by apply task_not_panic in Ht|].
      assert (Hir : 0 <= i < total) by (apply Hx; right; by left). destruct Hfits as (_ & _ & Hfc).
      destruct (chunk_request_mid tar ask c m content chunk_size_ok Hlen n0 st w (show i, i) Hm Hir) as (w1 & Hs & _);
        [apply (parse_show (U64 - 1)); pose proof (chunk_index_ok i Hir); simpl; lia|by apply Hfc|].
      rewrite (task_asks _ _ _ _ Ht). eexists. eapply (step_request _ _ _ _ _ _ _ missing []), net_answer. exact Hs.
  - destruct Hi as (st & Hm & Hall). destruct Hfits as (_ & Hf & _). destruct Hres as ((Hout & _) & _ & Hdest).
    destruct (commit_request_lands tar ask c m content eq_refl chunk_size_ok n0 st w Hm Hall Hout Hdest Hf)
      as (a & n' & Hs & _). eexists. eapply step_commit; [done|apply hash_known|]. eapply net_answer. exact Hs.
Qed.
Lemma after_manifest_sized rep : phase_sized (12 * Z.to_nat total + 2) (after_manifest host source rep).
Proof.
  unfold after_manifest. change (Manifest_total_chunks m) with (div_ceil (zlen content) CHUNK_SIZE).
  rewrite div_ceil_ok by done. destruct rep as [e|r]; [constructor|].
  repeat (case_match; [constructor|]). destruct (json_ack r) as [ack|]; [|constructor].
  repeat (case_match; try constructor). apply (uploading_sized _ _ _ []); [constructor|].
  pose proof (length_filter (fun i => i ∉ ma_have ack) (zrange 0 total)) as Hl. unfold zrange in Hl at 2.
  rewrite length_seqZ in Hl. fold total in *. unfold n_chunks in *. simpl weight. lia.
Qed.
Lemma sends_bounded j s : nsteps step j (AtManifest, (start c, n0)) s -> (j <= 12 * Z.to_nat total + 3)%nat.
Proof.
  intros Hj. inversion Hj as [|? ? s1 ? Hs1 Hj1]; subst; [lia|].
  inversion Hs1; subst. apply (nsteps_sized secret host source disk tar ask lossy _ (12 * Z.to_nat total + 2)) in Hj1; [lia| |].
  - apply after_manifest_sized.
  - simpl. intros E. pose proof (after_manifest_sized rep) as Hp. rewrite E in Hp. inversion Hp.
Qed.
End delivery.

(** ** Property *)

(** C13: The tunnel upload against the server, over a network that may lose any
    request or response and with any interleaving of its four uploads, to a
    receiver that accepts the manifest, on a disk without faults from which the
    transfer can be resumed: every run ends within a bounded number of steps; it never gets stuck; if it ends
    in success the file is in place on the receiver, byte for byte; it never
    panics; and it fails only on a network that loses messages. *)
Theorem tunnel_delivers `{Aead} `{Blake3} `{Base58} `{!Serde Manifest} `{!Serde Commit} `{!Serde State}
    c host nm tid es p sp content disk tar ask lossy n0 :
  let source := Blob KFile nm es (zlen content) tid p sp in
  let m := build_manifest source in
  let step := send_step (cfg_secret c) host source disk tar ask lossy in
  zlen content < U64 -> file_at (nodes disk) p = Some content -> faults disk = [] ->
  (fits (manifest_request c m) /\ fits (commit_request c m content)
   /\ forall i, 0 <= i < n_chunks CHUNK_SIZE content -> fits (chunk_request c m content (show i, i))) ->
  wire_ok m ->
  decide_accept ask c m (path_exists (Fs n0 []) (join (out_dir c) (safe_name nm))) = Some true ->
  resumable (out_dir c) (safe_name nm) tid CHUNK_SIZE content n0 ->
  (forall j s, nsteps step j (AtManifest, (start c, n0)) s ->
     (j <= 12 * Z.to_nat (n_chunks CHUNK_SIZE content) + 3)%nat)
  /\ forall s, rtc step (AtManifest, (start c, n0)) s ->
     match s.1 with
     | Over (Ok d) => d = "transfer complete" /\ file_at s.2.2 (out_dir c ++ [safe_name nm]) = Some content
     | Over (Err _) => lossy = true
     | Over Panic => False
     | _ => exists s', step s s'
     end.
Proof.
  intros source m step Hlen Hfile Hdisk Hfits Hwire Hacc Hres. split.
  - intros j s. apply sends_bounded.
  - intros s Hs. assert (Hi : send_inv c nm tid es p sp content lossy n0 s).
    { eapply (send_steps_inv c host nm tid es p sp content disk tar ask lossy n0); done. }
    assert (Hp : (forall r, s.1 <> Over r) -> exists s', step s s')
      by by apply (send_progress c host nm tid es p sp content disk tar ask lossy n0).
    destruct s as [[| | |[d|e|]] w]; simpl in *; try (by apply Hp); exact Hi.
Qed.
Module Example.
Import ServerSpec.Example.
#[local] Existing Instances Toy.aead Toy.blake3 Toy.base58 ServerSpec.Example.toy_manifest
  ServerSpec.Example.toy_commit ServerSpec.Example.toy_state.
Definition source0 : Source := Blob KFile "../f" [] 1 "t" ["s"] None.
Definition disk_s : fs := Fs {[ ["s"] := File content0 ]} [].
Lemma tunnel_delivers_witness :
  let step := send_step (cfg_secret cfg0) None source0 disk_s tar0 ask0 true in
  zlen content0 = 1 /\ forall j s, nsteps step j (AtManifest, (start cfg0, disk)) s -> (j <= 15)%nat.
Proof.
  split; [reflexivity|].
  destruct (tunnel_delivers cfg0 None "../f" "t" [] ["s"] None content0 disk_s tar0 ask0 true disk) as [Hb _];
    [done|done|done| |apply (bool_decide_unpack _); vm_compute; exact I|vm_compute; reflexivity|apply disk0_resumable|exact Hb].
  split; [vm_compute; discriminate|]. split; [vm_compute; discriminate|]. intros i Hi.
  change (n_chunks CHUNK_SIZE content0) with 1 in Hi. replace i with 0 by lia. vm_compute. discriminate.
Defined.
End Example.
