(* ===== verification/Stun.v ===== *)
(** * src/stun.rs: the STUN probe and the NAT classification *)

From S2P Require Import Prelude.

Definition MAGIC_COOKIE : bytes := [Byte.x21; Byte.x12; Byte.xa4; Byte.x42].
(** [std::net::SocketAddr]: an address of 4 or 16 bytes, and a port. *)
Inductive SocketAddr : Type := V4 (a : bytes) (port : Z) | V6 (a : bytes) (port : Z).
#[export] Instance SocketAddr_eq_dec : EqDecision SocketAddr.
Proof. solve_decision. Defined.

Definition encode_binding_request (txn_id : bytes) : bytes :=
  [Byte.x00; Byte.x01; Byte.x00; Byte.x00] ++ MAGIC_COOKIE ++ txn_id.

Definition is_binding_response (resp txn_id : bytes) : bool :=
  (20 <=? zlen resp) && bool_decide (slice 4 4 resp = MAGIC_COOKIE) && bool_decide (slice 8 12 resp = txn_id).

(** [resp[i]]: panics out of range. *)
Definition at_index (resp : bytes) (i : Z) : res byte :=
  match resp !! Z.to_nat i with Some b => if i <? 0 then Panic else Ok b | None => Panic end.
(** [u16::from_be_bytes([resp[i], resp[i + 1]])]. *)
Definition be16 (resp : bytes) (i : Z) : res Z :=
  hi ← at_index resp i; lo ← at_index resp (i + 1); Ok (256 * b2z hi + b2z lo).
Definition xor_byte (a b : byte) : byte := z2b (Z.lxor (b2z a) (b2z b)).
(** The first [n] bytes of [resp[i..]], each exclusive-ored with the key's. *)
Fixpoint xor_at (resp : bytes) (i : Z) (key : bytes) : res bytes :=
  match key with
  | [] => Ok []
  | k :: key' => b ← at_index resp i; r ← xor_at resp (i + 1) key'; Ok (xor_byte b k :: r)
  end.

(** The attribute at [val], of length [len], as an XOR-MAPPED-ADDRESS. *)
Definition mapped_at (resp txn_id : bytes) (val len : Z) : res (option SocketAddr) :=
  p ← be16 resp (val + 2);
  let port := Z.lxor p 0x2112 in
  family ← at_index resp (val + 1);
  if (b2z family =? 1) && (8 <=? len) then
    a ← xor_at resp (val + 4) MAGIC_COOKIE; Ok (Some (V4 a port))
  else if (b2z family =? 2) && (20 <=? len) then
    a ← xor_at resp (val + 4) (MAGIC_COOKIE ++ txn_id); Ok (Some (V6 a port))
  else Ok None.
(** The attribute loop; every turn moves [i] by 4 or more, so the length of
    the response is fuel enough. *)
Fixpoint attr_loop (fuel : nat) (resp txn_id : bytes) (i : Z) : res (option SocketAddr) :=
  match fuel with
  | O => Ok None
  | S fuel' =>
      if i + 4 <=? zlen resp then
        attr_type ← be16 resp i;
        len ← be16 resp (i + 2);
        let val := i + 4 in
        let e := val + len in
        if zlen resp <? e then Ok None
        else if (attr_type =? 0x20) && (4 <=? len) then mapped_at resp txn_id val len
        else attr_loop fuel' resp txn_id (e + (4 - len mod 4) mod 4)
      else Ok None
  end.
Definition parse_xor_mapped_address (resp txn_id : bytes) : res (option SocketAddr) :=
  if negb (is_binding_response resp txn_id) then Ok None
  else attr_loop (S (length resp)) resp txn_id 20.

Inductive NatMapping : Type :=
| EndpointIndependent (a : SocketAddr) | Symmetric (l : list SocketAddr)
| OneResponse (a : SocketAddr) | NoResponse.
Definition classify_mapping (mapped : list SocketAddr) : NatMapping :=
  match mapped with
  | [] => NoResponse
  | [one] => OneResponse one
  | first :: _ =>
      if forallb (fun a => bool_decide (a = first)) mapped then EndpointIndependent first
      else Symmetric mapped
  end.

(** What the socket brings before the deadline: datagrams, then [None] for the
    deadline or an error. [target]: the server's IPv4 address was found and
    the request sent. *)
Fixpoint recv_mapped (datagrams : list bytes) (txn_id : bytes) : res (option SocketAddr) :=
  match datagrams with
  | [] => Ok None
  | d :: ds =>
      r ← parse_xor_mapped_address (take 256 d) txn_id;
      match r with Some a => Ok (Some a) | None => recv_mapped ds txn_id end
  end.
Definition query_mapped (target : bool) (txn_id : bytes) (datagrams : list bytes) : res (option SocketAddr) :=
  if target then recv_mapped datagrams txn_id else Ok None.
(** The servers in turn, on one socket. *)
Fixpoint observe (answers : list (bool * bytes * list bytes)) (mapped : list SocketAddr) : res (list SocketAddr) :=
  match answers with
  | [] => Ok mapped
  | (target, txn_id, ds) :: rest =>
      r ← query_mapped target txn_id ds;
      observe rest (match r with Some a => mapped ++ [a] | None => mapped end)
  end.
Definition nat_mapping (bound : bool) (answers : list (bool * bytes * list bytes)) : res NatMapping :=
  if negb bound then Ok NoResponse
  else mapped ← observe answers []; Ok (classify_mapping mapped).

(** [probe]: one server, one datagram; [None] is the deadline. *)
Definition probe (server : string) (txn_id : bytes) (bind sent : res unit) (datagram : option (res bytes)) : res unit :=
  _ ← bind;
  _ ← context ("sending STUN request to " +:+ server) sent;
  d ← match datagram with
      | None => Err (EContext "no STUN response (UDP may be blocked)" EElapsed)
      | Some r => r
      end;
  if is_binding_response (take 256 d) txn_id then Ok tt
  else Err (EMsg "response was not a STUN answer to our request").

(** ** Lemmas *)

Lemma at_index_ok resp i : 0 <= i < zlen resp -> exists b, at_index resp i = Ok b /\ resp !! Z.to_nat i = Some b.
Proof.
  intros Hi. unfold at_index, zlen in *. destruct (lookup_lt_is_Some_2 resp (Z.to_nat i)) as [b Hb]; [lia|].
  exists b. rewrite Hb. by destruct (Z.ltb_spec i 0); [lia|].
Qed.
Lemma be16_ok resp i : 0 <= i -> i + 1 < zlen resp -> exists z, be16 resp i = Ok z /\ 0 <= z < 65536.
Proof.
  intros Hi Hl. unfold be16. destruct (at_index_ok resp i) as (a & -> & _); [lia|].
  destruct (at_index_ok resp (i + 1)) as (b & -> & _); [lia|]. eexists. split; [reflexivity|].
  pose proof (b2z_range a). pose proof (b2z_range b). lia.
Qed.
Lemma xor_at_ok resp i key : 0 <= i -> i + zlen key <= zlen resp -> exists l, xor_at resp i key = Ok l.
Proof.
  revert i. induction key as [|k key IH]; intros i Hi Hl; [by eexists|]. rewrite zlen_cons in Hl.
  pose proof (zlen_nonneg key). cbn [xor_at]. destruct (at_index_ok resp i) as (b & -> & _); [lia|].
  destruct (IH (i + 1)) as [l ->]; [lia|lia|]. by eexists.
Qed.
Lemma mapped_at_ok resp txn val len : zlen txn = 12 -> 0 <= val -> 4 <= len -> val + len <= zlen resp ->
  mapped_at resp txn val len <> Panic.
Proof.
  intros Ht Hv Hl Hr. unfold mapped_at. destruct (be16_ok resp (val + 2)) as (p & -> & _); [lia|lia|].
  destruct (at_index_ok resp (val + 1)) as (f & -> & _); [lia|]. cbn [mbind res_bind].
  destruct ((b2z f =? 1) && (8 <=? len)) eqn:E1.
  - apply andb_true_iff in E1 as [_ E1%Z.leb_le]. destruct (xor_at_ok resp (val + 4) MAGIC_COOKIE) as [l ->]; [lia|change (zlen MAGIC_COOKIE) with 4; lia|done].
  - destruct ((b2z f =? 2) && (20 <=? len)) eqn:E2; [|done].
    apply andb_true_iff in E2 as [_ E2%Z.leb_le].
    destruct (xor_at_ok resp (val + 4) (MAGIC_COOKIE ++ txn)) as [l ->]; [lia|rewrite zlen_app; change (zlen MAGIC_COOKIE) with 4; lia|done].
Qed.
Lemma attr_loop_ok fuel resp txn i : zlen txn = 12 -> 0 <= i -> attr_loop fuel resp txn i <> Panic.
Proof.
  intros Ht. revert i. induction fuel as [|fuel IH]; intros i Hi; [done|]. cbn [attr_loop].
  destruct (Z.leb_spec (i + 4) (zlen resp)); [|done].
  destruct (be16_ok resp i) as (ty & -> & _); [lia|lia|]. destruct (be16_ok resp (i + 2)) as (len & -> & Hlen); [lia|lia|].
  cbn [mbind res_bind]. destruct (Z.ltb_spec (zlen resp) (i + 4 + len)); [done|].
  destruct ((ty =? 0x20) && (4 <=? len)) eqn:E.
  - apply andb_true_iff in E as [_ E%Z.leb_le]. apply mapped_at_ok; lia.
  - apply IH. pose proof (Z.mod_pos_bound (4 - len mod 4) 4). lia.
Qed.

(** ** A server's answer *)

Definition to_be16 (z : Z) : bytes := [z2b (z / 256); z2b z].
Fixpoint xor_bytes (a key : bytes) : bytes :=
  match a, key with x :: a', k :: key' => xor_byte x k :: xor_bytes a' key' | _, _ => [] end.
(** An attribute, padded to four bytes. *)
Definition attribute (ty : Z) (v : bytes) : bytes :=
  to_be16 ty ++ to_be16 (zlen v) ++ v ++ replicate (Z.to_nat ((4 - zlen v mod 4) mod 4)) Byte.x00.
Definition mapped_value (a : SocketAddr) (txn : bytes) : bytes :=
  match a with
  | V4 ip port => [Byte.x00; Byte.x01] ++ to_be16 (Z.lxor port 0x2112) ++ xor_bytes ip MAGIC_COOKIE
  | V6 ip port => [Byte.x00; Byte.x02] ++ to_be16 (Z.lxor port 0x2112) ++ xor_bytes ip (MAGIC_COOKIE ++ txn)
  end.
Definition addr_ok (a : SocketAddr) : Prop :=
  match a with
  | V4 ip port => length ip = 4%nat /\ 0 <= port < 65536
  | V6 ip port => length ip = 16%nat /\ 0 <= port < 65536
  end.

Lemma at_index_app pre b rest : at_index (pre ++ b :: rest) (zlen pre) = Ok b.
Proof.
  unfold at_index, zlen. rewrite Nat2Z.id, lookup_app_r, Nat.sub_diag by lia. simpl.
  by destruct (Z.ltb_spec (Z.of_nat (length pre)) 0); [lia|].
Qed.
Lemma be16_app pre z rest : 0 <= z < 65536 -> be16 (pre ++ to_be16 z ++ rest) (zlen pre) = Ok z.
Proof.
  intros Hz. unfold be16, to_be16. cbn [app]. rewrite at_index_app.
  assert (E : at_index (pre ++ z2b (z / 256) :: z2b z :: rest) (zlen pre + 1) = Ok (z2b z)).
  { replace (pre ++ z2b (z / 256) :: z2b z :: rest) with ((pre ++ [z2b (z / 256)]) ++ z2b z :: rest) by by rewrite <- app_assoc.
    replace (zlen pre + 1) with (zlen (pre ++ [z2b (z / 256)])) by by rewrite zlen_app. apply at_index_app. }
  rewrite E. cbn [mbind res_bind]. f_equal. rewrite !b2z_z2b.
  pose proof (Z.div_mod z 256 ltac:(lia)). rewrite (Z.mod_small (z / 256)); [lia|].
  split; [apply Z.div_pos; lia|apply Z.div_lt_upper_bound; lia].
Qed.
Lemma lxor_bound n a b : 0 <= n -> 0 <= a < 2 ^ n -> 0 <= b < 2 ^ n -> 0 <= Z.lxor a b < 2 ^ n.
Proof.
  intros Hn Ha Hb. assert (H0 : 0 <= Z.lxor a b) by (apply Z.lxor_nonneg; lia). split; [done|].
  destruct (Z.eq_dec (Z.lxor a b) 0) as [->|Hne]; [by apply Z.pow_pos_nonneg; lia|].
  apply Z.log2_lt_pow2; [lia|].
  assert (Hlog : forall x, 0 <= x < 2 ^ n -> x = 0 \/ Z.log2 x < n).
  { intros x Hx. destruct (Z.eq_dec x 0); [by left|right]. apply Z.log2_lt_pow2; lia. }
  pose proof (Z.log2_lxor a b ltac:(lia) ltac:(lia)) as Hl.
  destruct (Hlog a Ha) as [->|], (Hlog b Hb) as [->|]; rewrite ?Z.lxor_0_l, ?Z.lxor_0_r in *; try lia; done.
Qed.
Lemma xor_byte_twice a k : xor_byte (xor_byte a k) k = a.
Proof.
  unfold xor_byte. pose proof (b2z_range a). pose proof (b2z_range k).
  pose proof (lxor_bound 8 (b2z a) (b2z k) ltac:(lia) ltac:(simpl; lia) ltac:(simpl; lia)).
  rewrite b2z_z2b, (Z.mod_small (Z.lxor (b2z a) (b2z k))) by (simpl in *; lia).
  rewrite Z.lxor_assoc, Z.lxor_nilpotent, Z.lxor_0_r. apply z2b_b2z.
Qed.
Lemma length_xor_bytes a key : length a = length key -> length (xor_bytes a key) = length a.
Proof. revert key. induction a as [|x a IH]; intros [|k key]; simpl; try done. intros [= E]. by rewrite IH. Qed.
Lemma xor_at_app pre a key rest : length a = length key ->
  xor_at (pre ++ xor_bytes a key ++ rest) (zlen pre) key = Ok a.
Proof.
  revert pre a. induction key as [|k key IH]; intros pre [|x a]; try done. cbn [length]. intros [= E].
  cbn [xor_bytes xor_at app]. rewrite at_index_app. cbn [mbind res_bind].
  replace (pre ++ xor_byte x k :: xor_bytes a key ++ rest)
    with ((pre ++ [xor_byte x k]) ++ xor_bytes a key ++ rest) by by rewrite <- app_assoc.
  replace (zlen pre + 1) with (zlen (pre ++ [xor_byte x k])) by by rewrite zlen_app.
  rewrite IH by done. cbn [mbind res_bind]. by rewrite xor_byte_twice.
Qed.
Lemma zlen_attribute ty v : zlen (attribute ty v) = 4 + zlen v + (4 - zlen v mod 4) mod 4.
Proof.
  unfold attribute, to_be16. rewrite !zlen_app, !zlen_cons. change (zlen (@nil byte)) with 0. unfold zlen at 2.
  rewrite length_replicate. pose proof (Z.mod_pos_bound (4 - zlen v mod 4) 4). lia.
Qed.
Lemma attr_loop_at fuel pre ty v rest txn : 0 <= ty < 65536 -> zlen v < 65536 ->
  let resp := pre ++ attribute ty v ++ rest in
  attr_loop (S fuel) resp txn (zlen pre)
  = if (ty =? 0x20) && (4 <=? zlen v) then mapped_at resp txn (zlen pre + 4) (zlen v)
    else attr_loop fuel resp txn (zlen (pre ++ attribute ty v)).
Proof.
  intros Ht Hv resp. cbn [attr_loop]. pose proof (zlen_nonneg v). pose proof (zlen_nonneg rest).
  pose proof (Z.mod_pos_bound (4 - zlen v mod 4) 4 ltac:(lia)). pose proof (zlen_attribute ty v) as Ha.
  assert (Hr : zlen resp = zlen pre + zlen (attribute ty v) + zlen rest) by (unfold resp; rewrite !zlen_app; lia).
  destruct (Z.leb_spec (zlen pre + 4) (zlen resp)); [|lia].
  assert (E1 : be16 resp (zlen pre) = Ok ty).
  { unfold resp, attribute. rewrite <- !app_assoc. by apply be16_app. }
  assert (E2 : be16 resp (zlen pre + 2) = Ok (zlen v)).
  { unfold resp, attribute. rewrite <- !app_assoc. rewrite (app_assoc pre (to_be16 ty)).
    replace (zlen pre + 2) with (zlen (pre ++ to_be16 ty)) by by rewrite zlen_app. by apply be16_app. }
  rewrite E1, E2. cbn [mbind res_bind]. destruct (Z.ltb_spec (zlen resp) (zlen pre + 4 + zlen v)); [lia|].
  case_match; [done|]. f_equal. rewrite zlen_app. lia.
Qed.

Lemma mapped_at_value pre a txn rest : zlen txn = 12 -> addr_ok a ->
  mapped_at (pre ++ mapped_value a txn ++ rest) txn (zlen pre) (zlen (mapped_value a txn)) = Ok (Some a).
Proof.
  intros Ht Ha.
  assert (Hgen : forall ip port fam key, 0 <= port < 65536 -> length ip = length key ->
    let v := [Byte.x00; fam] ++ to_be16 (Z.lxor port 0x2112) ++ xor_bytes ip key in
    let resp := pre ++ v ++ rest in
    be16 resp (zlen pre + 2) = Ok (Z.lxor port 0x2112) /\ at_index resp (zlen pre + 1) = Ok fam
    /\ xor_at resp (zlen pre + 4) key = Ok ip /\ zlen v = 4 + zlen ip).
  { intros ip port fam key Hp Hl v resp. subst v resp.
    set (pt := to_be16 (Z.lxor port 0x2112)). split; [|split; [|split]].
    - replace (pre ++ ([Byte.x00; fam] ++ pt ++ xor_bytes ip key) ++ rest)
        with ((pre ++ [Byte.x00; fam]) ++ pt ++ xor_bytes ip key ++ rest) by by rewrite <- !app_assoc.
      replace (zlen pre + 2) with (zlen (pre ++ [Byte.x00; fam])) by by rewrite zlen_app.
      apply be16_app. apply (lxor_bound 16); simpl; lia.
    - replace (pre ++ ([Byte.x00; fam] ++ pt ++ xor_bytes ip key) ++ rest)
        with ((pre ++ [Byte.x00]) ++ fam :: pt ++ xor_bytes ip key ++ rest) by by rewrite <- !app_assoc.
      replace (zlen pre + 1) with (zlen (pre ++ [Byte.x00])) by by rewrite zlen_app. apply at_index_app.
    - replace (pre ++ ([Byte.x00; fam] ++ pt ++ xor_bytes ip key) ++ rest)
        with ((pre ++ [Byte.x00; fam] ++ pt) ++ xor_bytes ip key ++ rest) by by rewrite <- !app_assoc.
      replace (zlen pre + 4) with (zlen (pre ++ [Byte.x00; fam] ++ pt)) by by rewrite zlen_app. by apply xor_at_app.
    - rewrite !zlen_app. unfold zlen. rewrite length_xor_bytes by done. simpl. lia. }
  unfold mapped_at. destruct a as [ip port|ip port]; destruct Ha as [Hl Hp]; cbn [mapped_value].
  - destruct (Hgen ip port Byte.x01 MAGIC_COOKIE Hp ltac:(by rewrite Hl)) as (-> & -> & -> & ->).
    cbn [mbind res_bind]. unfold zlen. rewrite Hl. cbn. by rewrite Z.lxor_assoc, Z.lxor_nilpotent, Z.lxor_0_r.
  - destruct (Hgen ip port Byte.x02 (MAGIC_COOKIE ++ txn) Hp) as (-> & -> & -> & ->).
    { rewrite length_app, Hl. unfold zlen in Ht. simpl. lia. }
    cbn [mbind res_bind]. unfold zlen. rewrite Hl. cbn. by rewrite Z.lxor_assoc, Z.lxor_nilpotent, Z.lxor_0_r.
Qed.
Lemma zlen_mapped_value a txn : zlen txn = 12 -> addr_ok a -> 8 <= zlen (mapped_value a txn) <= 20.
Proof.
  intros Ht Ha. destruct a as [ip port|ip port]; destruct Ha as [Hl _]; cbn [mapped_value];
    rewrite !zlen_app; unfold zlen in *; rewrite length_xor_bytes, Hl by (rewrite Hl; rewrite ?length_app; simpl; lia);
    simpl; lia.
Qed.

Definition other_attribute (x : Z * bytes) : Prop := 0 <= x.1 < 65536 /\ x.1 <> 0x20 /\ zlen x.2 < 65536.
Definition attributes (l : list (Z * bytes)) : bytes := concat (map (fun x => attribute x.1 x.2) l).
(** A response: type and length, cookie, transaction, attributes. *)
Definition response (head txn : bytes) (l : list (Z * bytes)) (a : SocketAddr) (rest : bytes) : bytes :=
  head ++ MAGIC_COOKIE ++ txn ++ attributes l ++ attribute 0x20 (mapped_value a txn) ++ rest.

Lemma attr_loop_skips l pre a txn rest fuel : zlen txn = 12 -> addr_ok a -> Forall other_attribute l ->
  (length l < fuel)%nat ->
  attr_loop fuel (pre ++ attributes l ++ attribute 0x20 (mapped_value a txn) ++ rest) txn (zlen pre) = Ok (Some a).
Proof.
  intros Ht Ha Hl. revert pre fuel. induction Hl as [|[ty v] l [Hty [Hne Hv]] Hl IH]; intros pre [|fuel] Hf; simpl in Hf; try lia.
  - pose proof (zlen_mapped_value a txn Ht Ha) as Hm. cbn [attributes map concat app].
    rewrite attr_loop_at by lia. destruct (Z.leb_spec 4 (zlen (mapped_value a txn))); [|lia]. cbn [Z.eqb Pos.eqb andb].
    unfold attribute at 1. set (v := mapped_value a txn) in *.
    replace (pre ++ (to_be16 0x20 ++ to_be16 (zlen v) ++ v ++ replicate (Z.to_nat ((4 - zlen v mod 4) mod 4)) Byte.x00) ++ rest)
      with ((pre ++ to_be16 0x20 ++ to_be16 (zlen v)) ++ v ++ replicate (Z.to_nat ((4 - zlen v mod 4) mod 4)) Byte.x00 ++ rest)
      by by rewrite <- !app_assoc.
    replace (zlen pre + 4) with (zlen (pre ++ to_be16 0x20 ++ to_be16 (zlen v))) by by rewrite !zlen_app.
    by apply mapped_at_value.
  - unfold attributes. cbn [map concat]. fold (attributes l). simpl in Hty, Hne, Hv. rewrite <- app_assoc.
    rewrite attr_loop_at by done. apply Z.eqb_neq in Hne. cbn [fst snd]. rewrite Hne. cbn [andb].
    rewrite (app_assoc pre). apply IH. lia.
Qed.
Lemma attributes_length l : (length l <= length (attributes l))%nat.
Proof.
  induction l as [|[ty v] l IH]; [done|]. unfold attributes in *. cbn [map concat length fst snd].
  rewrite length_app. pose proof (zlen_attribute ty v) as Hz. pose proof (zlen_nonneg v).
  pose proof (Z.mod_pos_bound (4 - zlen v mod 4) 4 ltac:(lia)). unfold zlen at 1 in Hz. lia.
Qed.

(** ** Properties *)

(** The mapped address a server puts in its answer is the one parsed out of
    it, behind any other attributes of any length and before anything at all,
    for IPv4 and IPv6; and no datagram makes the parser index out of range. *)
Theorem mapped_address_parsed txn head l a rest :
  zlen txn = 12 -> zlen head = 4 -> addr_ok a -> Forall other_attribute l ->
  parse_xor_mapped_address (response head txn l a rest) txn = Ok (Some a)
  /\ forall d, parse_xor_mapped_address d txn <> Panic.
Proof.
  intros Ht Hh Ha Hl. split.
  - unfold parse_xor_mapped_address.
    assert (Er : is_binding_response (response head txn l a rest) txn = true).
    { unfold is_binding_response, response, slice. pose proof (zlen_nonneg (attributes l ++ attribute 32 (mapped_value a txn) ++ rest)).
      rewrite !zlen_app, <- !zlen_app. rewrite (zlen_app head), (zlen_app MAGIC_COOKIE), (zlen_app txn), Hh, Ht.
      change (zlen MAGIC_COOKIE) with 4. destruct (Z.leb_spec 20 (4 + (4 + (12 + zlen (attributes l ++ attribute 32 (mapped_value a txn) ++ rest))))); [|lia].
      unfold zlen in Hh, Ht. rewrite drop_app_length' by lia. rewrite (app_assoc head), drop_app_length' by (rewrite length_app; simpl; lia).
      rewrite !take_app_length' by (simpl; lia). by rewrite !bool_decide_true. }
    rewrite Er. cbn [negb]. unfold response. rewrite (app_assoc head), (app_assoc (head ++ MAGIC_COOKIE)).
    replace 20 with (zlen ((head ++ MAGIC_COOKIE) ++ txn)) by (rewrite !zlen_app, Hh, Ht; done).
    apply attr_loop_skips; [done..|]. pose proof (attributes_length l). rewrite !length_app. lia.
  - intros d. unfold parse_xor_mapped_address. case_match; [done|]. by apply attr_loop_ok.
Qed.
Lemma mapped_address_parsed_witness :
  let txn := replicate 12 Byte.x07 in
  parse_xor_mapped_address (response [Byte.x01; Byte.x01; Byte.x00; Byte.x00] txn
    [(0x8022, [Byte.x61])] (V4 [Byte.xc0; Byte.x00; Byte.x02; Byte.x01] 54321) []) txn
  = Ok (Some (V4 [Byte.xc0; Byte.x00; Byte.x02; Byte.x01] 54321)).
Proof.
  intros txn. apply (mapped_address_parsed txn [Byte.x01; Byte.x01; Byte.x00; Byte.x00]
    [(0x8022, [Byte.x61])] (V4 [Byte.xc0; Byte.x00; Byte.x02; Byte.x01] 54321) []).
  - reflexivity.
  - reflexivity.
  - split; [reflexivity|lia].
  - constructor; [|constructor]. split; [simpl; lia|]. split; [discriminate|reflexivity].
Defined.

(** The NAT is called endpoint independent exactly when two servers or more
    answered and all saw the same address and port, symmetric when two
    answers differ. *)
Theorem classify_mapping_spec mapped :
  match classify_mapping mapped with
  | NoResponse => mapped = []
  | OneResponse a => mapped = [a]
  | EndpointIndependent a => (2 <= length mapped)%nat /\ Forall (fun x => x = a) mapped
  | Symmetric l => l = mapped /\ exists a b, a ∈ mapped /\ b ∈ mapped /\ a <> b
  end.
Proof.
  unfold classify_mapping. destruct mapped as [|a [|b l]]; [done..|].
  destruct (forallb _ (a :: b :: l)) eqn:E.
  - split; [simpl; lia|]. apply Forall_forall. intros x Hx. rewrite forallb_forall in E.
    specialize (E x ltac:(by apply list_elem_of_In)). by apply bool_decide_eq_true in E.
  - split; [done|]. assert (Hn : ~ Forall (fun x => x = a) (a :: b :: l)).
    { rewrite Forall_forall. intros Hall. enough (forallb (fun x => bool_decide (x = a)) (a :: b :: l) = true) by congruence.
      apply forallb_forall. intros x Hx. apply bool_decide_eq_true, Hall. by apply list_elem_of_In. }
    apply not_Forall_Exists in Hn; [|apply _]. apply Exists_exists in Hn as (x & Hx & Hne).
    exists x, a. split; [done|]. split; [by left|exact Hne].
Qed.
