(* ===== verification/Turn.v ===== *)
(** * src/turn.rs: the TURN flags of the WebRTC transport *)

From S2P Require Import Prelude Str.

Record IceServer : Type := { urls : list string; username : string; credential : string }.
Definition EPHEMERAL_TTL_SECS : Z := 12 * 60 * 60.

(** [hmac] with [sha1], [base64]'s standard engine and
    [url::form_urlencoded::parse], as functions. *)
Class TurnCrates := {
  hmac_sha1 : bytes -> bytes -> bytes;
  base64_encode : bytes -> string;
  form_urlencoded : string -> list (string * string);
}.

Section turn.
Context `{TurnCrates}.

Definition ephemeral_credential (secret nonce : string) (expiry_unix : Z) : string * string :=
  let username := show expiry_unix +:+ ":" +:+ nonce in
  (username, base64_encode (hmac_sha1 (as_bytes secret) (as_bytes username))).

Definition asks_tcp (kv : string * string) : bool :=
  eq_ignore_ascii_case kv.1 "transport" && eq_ignore_ascii_case kv.2 "tcp".
Definition validate_turn_url (url : string) : res unit :=
  let '(scheme, rest) := default (url, "") (split_once ":" url) in
  let scheme := to_ascii_lowercase scheme in
  if String.eqb scheme "turns" then
    Err (EMsg ("TURN over TLS (" +:+ url +:+ ") is not supported by the current WebRTC engine (webrtc-ice is UDP-only). For a UDP-blocked network, use the HTTPS relay instead."))
  else if negb (String.eqb scheme "turn") then
    Err (EMsg ("--turn expects a turn: (UDP) URL, got: " +:+ url))
  else match split_once "?" rest with
       | Some (_, query) =>
           if existsb asks_tcp (form_urlencoded query) then
             Err (EMsg ("TURN over TCP (" +:+ url +:+ ") is not supported by the current WebRTC engine (webrtc-ice is UDP-only). Use a udp turn: URL, or the HTTPS relay for UDP-blocked networks."))
           else Ok tt
       | None => Ok tt
       end.

Fixpoint validate_all (l : list string) : res unit :=
  match l with [] => Ok tt | u :: l' => _ ← validate_turn_url u; validate_all l' end.
(** [now] is [now_unix()]. *)
Definition resolve (now : Z) (turn_urls : list string) (secret user pass : option string) (nonce : string)
    : res (list IceServer) :=
  match turn_urls with
  | [] =>
      match secret, user, pass with
      | None, None, None => Ok []
      | _, _, _ => Err (EMsg "TURN credentials were given but no --turn URL — add --turn turn:HOST:PORT")
      end
  | _ =>
      _ ← validate_all turn_urls;
      '(username, credential) ←
        (match secret, user, pass with
         | Some s, None, None => Ok (ephemeral_credential s nonce (now + EPHEMERAL_TTL_SECS)%u64)
         | None, Some u, Some p => Ok (u, p)
         | _, _, _ => Err (EMsg "--turn requires credentials: either --turn-secret, or both --turn-user and --turn-pass")
         end);
      Ok [{| urls := turn_urls; username := username; credential := credential |}]
  end.

(** A URL WebRTC can use: [turn:], and no parameter asks for TCP. *)
Definition usable_url (url : string) : Prop :=
  exists scheme rest, default (url, "") (split_once ":" url) = (scheme, rest)
  /\ to_ascii_lowercase scheme = "turn"
  /\ forall path query kv, split_once "?" rest = Some (path, query) -> kv ∈ form_urlencoded query -> asks_tcp kv = false.
(** The credential modes. *)
Definition credentials (now : Z) (secret user pass : option string) (nonce : string) : option (string * string) :=
  match secret, user, pass with
  | Some s, None, None => Some (ephemeral_credential s nonce (now + EPHEMERAL_TTL_SECS)%u64)
  | None, Some u, Some p => Some (u, p)
  | _, _, _ => None
  end.

Lemma validate_usable url : validate_turn_url url = Ok tt <-> usable_url url.
Proof.
  unfold validate_turn_url, usable_url. destruct (default (url, "") (split_once ":" url)) as [scheme rest].
  split.
  - destruct (String.eqb_spec (to_ascii_lowercase scheme) "turns"); [done|].
    destruct (String.eqb_spec (to_ascii_lowercase scheme) "turn") as [E|]; [|done]. cbn [negb]. intros Hq.
    exists scheme, rest. split; [done|]. split; [done|]. intros path query kv Es Hin. rewrite Es in Hq.
    destruct (asks_tcp kv) eqn:Ea; [|done]. destruct (existsb asks_tcp (form_urlencoded query)) eqn:Ex; [done|].
    rewrite <- not_true_iff_false, existsb_exists in Ex. destruct Ex. exists kv. split; [by apply list_elem_of_In|done].
  - intros (s & r & [= <- <-] & E & Hq). rewrite E. cbn [String.eqb]. cbn.
    destruct (split_once "?" rest) as [[path query]|]; [|done].
    destruct (existsb asks_tcp (form_urlencoded query)) eqn:Ex; [|done].
    apply existsb_exists in Ex as (kv & Hin%list_elem_of_In & Ea). by rewrite (Hq path query kv eq_refl Hin) in Ea.
Qed.
Lemma validate_all_usable l : validate_all l = Ok tt <-> Forall usable_url l.
Proof.
  induction l as [|u l IH]; [done|]. cbn [validate_all]. rewrite Forall_cons, <- IH, <- validate_usable.
  destruct (validate_turn_url u) as [[]|e|]; cbn; [tauto|by split; [|intros []]..].
Qed.
End turn.

(** ** Property *)

(** The TURN flags resolve exactly when there are none at all (no server), or
    every URL is UDP [turn:] and the credentials are a secret alone or a user
    with a password (one server with all the URLs); credentials without a URL
    are refused. *)
Theorem turn_resolve_spec `{TurnCrates} now turn_urls secret user pass nonce l :
  resolve now turn_urls secret user pass nonce = Ok l
  <-> (turn_urls = [] /\ secret = None /\ user = None /\ pass = None /\ l = [])
      \/ (turn_urls <> [] /\ Forall usable_url turn_urls
          /\ exists u c, credentials now secret user pass nonce = Some (u, c)
             /\ l = [{| urls := turn_urls; username := u; credential := c |}]).
Proof.
  unfold resolve, credentials. destruct turn_urls as [|url us].
  - destruct secret, user, pass; (split; [try done|]); try (by intros [= <-]; left);
      intros [(_ & ? & ? & ? & E)|(Hn & _)]; try done; by rewrite E.
  - split.
    + destruct (validate_all (url :: us)) as [[]|e|] eqn:Ev; [|done|done]. apply validate_all_usable in Ev.
      cbn [mbind res_bind]. intros Hl. right. split; [done|]. split; [done|].
      destruct secret, user, pass; cbn [mbind res_bind] in Hl; try done; injection Hl as <-; eauto.
    + intros [(? & _)|(_ & Hv & u & c & Hc & ->)]; [done|]. apply validate_all_usable in Hv. rewrite Hv.
      cbn [mbind res_bind]. destruct secret, user, pass; try done; cbn [mbind res_bind]; by injection Hc as <- <-.
Qed.
