(* ===== verification/Tunnel.v ===== *)
(** * src/tunnel.rs: the Cloudflare quick tunnel *)

From S2P Require Import Prelude Str Libs Fs Crypto Code.

Definition CLOUDFLARED_VERSION : string := "2026.7.2".
Definition PINS : list (string * string * string) :=
  [("linux-amd64", "cloudflared-linux-amd64", "ec905ea7b7e327ff8abdde8cb64697a2152de74dbcdbf6aec9db8364eb3886cd");
   ("linux-arm64", "cloudflared-linux-arm64", "405df476437e027fc6d18729a5a77155c0a33a6082aeee60a799a688f3052e66");
   ("darwin-amd64", "cloudflared-darwin-amd64.tgz", "4ee0d3b48a990a2f9b5faec5838f73ec1f400aa8e0a4864be576adfafec406cb");
   ("darwin-arm64", "cloudflared-darwin-arm64.tgz", "2086e51c61d6565781d84117a5007d0c826d03ffdc74acb91c08c167f9f8cd7c");
   ("windows-amd64", "cloudflared-windows-amd64.exe", "cdb5d4432f6ae1595654a692a51308b69d2bf7af961f5578d9391837cf072df9")].

(** [std::env::consts] and the [cfg] flags of the build. *)
Record Platform : Type := { os : string; arch : string; is_windows : bool; is_unix : bool }.

Definition platform_key (pf : Platform) : option string :=
  if String.eqb (os pf) "linux" && String.eqb (arch pf) "x86_64" then Some "linux-amd64"
  else if String.eqb (os pf) "linux" && String.eqb (arch pf) "aarch64" then Some "linux-arm64"
  else if String.eqb (os pf) "macos" && String.eqb (arch pf) "x86_64" then Some "darwin-amd64"
  else if String.eqb (os pf) "macos" && String.eqb (arch pf) "aarch64" then Some "darwin-arm64"
  else if String.eqb (os pf) "windows" && String.eqb (arch pf) "x86_64" then Some "windows-amd64"
  else None.

(** The entries of a [.tgz], as [flate2] and [tar] give them. *)
Record TarEntry : Type := { te_name : res (option string); te_content : res bytes }.
Class TunnelCrates := {
  sha256 : bytes -> bytes;
  tgz_entries : bytes -> res (list (res TarEntry));
}.

Section binary.
Context `{TunnelCrates}.
Variable pf : Platform.
(** The OS data directory, if there is one; what the download gives. *)
Variables (data_dir : option path) (download : string -> res bytes).

Definition binary_path : io path :=
  d ← io_lift (ok_or (EMsg "cannot determine data directory") data_dir);
  let bin_dir := d ++ ["bin"] in
  _ ← create_dir_all bin_dir;
  let name := if is_windows pf then "cloudflared.exe" else "cloudflared" in
  mret (join bin_dir (name +:+ "-" +:+ CLOUDFLARED_VERSION)).

(** The first entry named [cloudflared]. *)
Fixpoint find_entry (l : list (res TarEntry)) : res bytes :=
  match l with
  | [] => Ok []
  | e :: l' =>
      e ← e;
      n ← te_name e;
      if match n with Some n => String.eqb n "cloudflared" | None => false end
      then te_content e else find_entry l'
  end.
Definition extract (file : string) (b : bytes) : res bytes :=
  if ends_with ".tgz" file then
    es ← tgz_entries b;
    out ← find_entry es;
    match out with [] => Err (EMsg "cloudflared binary not found inside archive") | _ => Ok out end
  else Ok b.
(** The pin of a platform. *)
Fixpoint find_pin (k : string) (l : list (string * string * string)) : option (string * string) :=
  match l with
  | [] => None
  | (key, file, sha) :: l' => if String.eqb key k then Some (file, sha) else find_pin k l'
  end.
Definition pinned : res (string * string) :=
  key ← ok_or (EMsg "no cloudflared build pinned for this platform") (platform_key pf);
  ok_or (EMsg "platform missing from pin table") (find_pin key PINS).
(** What the download must be, and the binary in it. *)
Definition fetch : res bytes :=
  '(file, expected_sha) ← pinned;
  b ← download ("https://github.com/cloudflare/cloudflared/releases/download/" +:+ CLOUDFLARED_VERSION +:+ "/" +:+ file);
  if negb (String.eqb (hex_encode (sha256 b)) expected_sha)
  then Err (EMsg "cloudflared download checksum mismatch — refusing to run it")
  else extract file b.
Definition chmod (p : path) : io unit :=
  sys (fun n => match n !! p with Some _ => (Ok tt, n) | None => (Err (EIo "No such file or directory"), n) end)
      (fun _ n => n).
Definition ensure_binary : io path :=
  p ← binary_path;
  exists_ ← (fun s => (Ok (path_exists s p), s));
  if exists_ : bool then mret p
  else
    binary ← io_lift fetch;
    _ ← fs_write p binary;
    _ ← (if is_unix pf then chmod p else mret tt);
    mret p.
End binary.

Section tunnel.
Context `{UrlCrate}.

Definition parse_tunnel_url (line : string) : option Url :=
  rest ← find_from "https://" line;
  url ← url_parse (take_word rest);
  host ← host_str url;
  if ends_with ".trycloudflare.com" host && negb (String.eqb host "api.trycloudflare.com")
     && (String.eqb (url_path url) "" || String.eqb (url_path url) "/")
  then Some url else None.

(** The child's standard error: its lines up to the deadline or the end, and
    whether the deadline came first. *)
Fixpoint watch (lines : list string) : option (Url + string) :=
  match lines with
  | [] => None
  | line :: rest =>
      match parse_tunnel_url line with
      | Some url => Some (inl url)
      | None => if contains "failed to request quick Tunnel" line then Some (inr (trim line)) else watch rest
      end
  end.
Definition start_outcome (lines : list string) (deadline : bool) : res Url :=
  match watch lines with
  | Some (inl url) => Ok url
  | Some (inr reason) =>
      Err (EMsg ("cloudflared could not create the quick tunnel: " +:+ reason +:+ " — this network may be DNS-filtering trycloudflare.com (run `b2p doctor`); try --direct on a LAN, or run the receiver on a less restricted network"))
  | None =>
      if deadline then
        Err (EMsg "tunnel did not come up within 30s — this network may block cloudflared (run `b2p doctor` to check); try --direct on a LAN, or run the receiver on a less restricted network")
      else
        Err (EMsg "cloudflared exited before announcing a tunnel URL (run `b2p doctor`); try --direct on a LAN, or run the receiver on a less restricted network")
  end.
(** [lan_ip] is the address the routing picks; [format!("http://{ip}:{port}").parse()]. *)
Definition direct (lan_ip : option string) (port : Z) : res Url :=
  let ip := default "127.0.0.1" lan_ip in
  ok_or (EExternal "url") (url_parse ("http://" +:+ ip +:+ ":" +:+ show port)).

Lemma watch_spec lines :
  match watch lines with
  | Some (inl url) => exists pre line post, lines = pre ++ line :: post /\ parse_tunnel_url line = Some url
      /\ Forall (fun l => parse_tunnel_url l = None /\ contains "failed to request quick Tunnel" l = false) pre
  | Some (inr reason) => exists pre line post, lines = pre ++ line :: post /\ reason = trim line
      /\ contains "failed to request quick Tunnel" line = true
      /\ Forall (fun l => parse_tunnel_url l = None) (pre ++ [line])
  | None => Forall (fun l => parse_tunnel_url l = None) lines
  end.
Proof.
  induction lines as [|line lines IH]; [by constructor|]. cbn [watch].
  destruct (parse_tunnel_url line) as [url|] eqn:E; [by exists [], line, lines|].
  destruct (contains "failed to request quick Tunnel" line) eqn:Ec.
  - exists [], line, lines. split; [done|]. split; [done|]. split; [done|]. by constructor.
  - destruct (watch lines) as [[url|reason]|].
    + destruct IH as (pre & l & post & -> & ? & ?). exists (line :: pre), l, post. by repeat constructor.
    + destruct IH as (pre & l & post & -> & ? & ? & ?). exists (line :: pre), l, post. by repeat constructor.
    + by constructor.
Qed.
End tunnel.

(** ** The binary *)

Section binary_spec.
Context `{TunnelCrates}.
Variables (pf : Platform) (d : path) (download : string -> res bytes).

Definition binary_at : path :=
  (d ++ ["bin"]) ++ [(if is_windows pf then "cloudflared.exe" else "cloudflared") +:+ "-" +:+ CLOUDFLARED_VERSION].
(** [bin] is what the pinned archive holds: the download has the pin's hash. *)
Definition verified (bin : bytes) : Prop :=
  exists file sha b, pinned pf = Ok (file, sha)
    /\ download ("https://github.com/cloudflare/cloudflared/releases/download/" +:+ CLOUDFLARED_VERSION +:+ "/" +:+ file) = Ok b
    /\ hex_encode (sha256 b) = sha /\ extract file b = Ok bin.

Lemma fetch_verified bin : fetch pf download = Ok bin <-> verified bin.
Proof.
  unfold fetch, verified. split.
  - destruct (pinned pf) as [[file sha]| |]; [|done|done]. cbn [mbind res_bind].
    destruct (download _) as [b| |] eqn:Eb; [|done|done]. cbn [mbind res_bind].
    destruct (String.eqb_spec (hex_encode (sha256 b)) sha); [|done]. cbn [negb]. intros He. by exists file, sha, b.
  - intros (file & sha & b & -> & Eb & <- & He). cbn [mbind res_bind]. rewrite Eb. cbn [mbind res_bind].
    by rewrite String.eqb_refl.
Qed.
Lemma name_plain : plain_name ((if is_windows pf then "cloudflared.exe" else "cloudflared") +:+ "-" +:+ CLOUDFLARED_VERSION).
Proof. destruct (is_windows pf); by vm_compute. Qed.
Lemma binary_path_eq s :
  binary_path pf (Some d) s = (match (create_dir_all (d ++ ["bin"]) s).1 with Ok _ => Ok binary_at | Err e => Err e | Panic => Panic end,
                               (create_dir_all (d ++ ["bin"]) s).2).
Proof.
  unfold binary_path, mbind, io_bind, io_lift, ok_or. destruct (create_dir_all _ s) as [[[]|e|] s']; [|done|done].
  cbn [fst snd]. unfold mret, io_ret. by rewrite join_plain by apply name_plain.
Qed.
Lemma exists_binary s : path_exists s binary_at = bool_decide (is_Some (nodes s !! binary_at)).
Proof. unfold path_exists. destruct binary_at eqn:E; [|done]. unfold binary_at in E. by apply app_eq_nil in E as [_ ?]. Qed.
Lemma create_dirs_absent s : nodes s !! binary_at = None ->
  forall r s', create_dir_all (d ++ ["bin"]) s = (r, s') ->
  nodes s' !! binary_at = None /\ forall q, file_at (nodes s') q = file_at (nodes s) q.
Proof.
  intros Hp.
  assert (Hn : forall ps n, Forall (fun q => q `prefix_of` d ++ ["bin"]) ps -> n !! binary_at = None ->
    snd (mkdirs ps n) !! binary_at = None).
  { intros ps. induction ps as [|q ps IH]; intros n Hps Hn; [done|]. apply Forall_cons in Hps as [Hq Hps].
    simpl. destruct (n !! q) as [[|b]|]; [by apply IH|done|]. apply IH; [done|].
    rewrite lookup_insert_ne; [done|]. intros ->. apply prefix_length in Hq. unfold binary_at in Hq.
    rewrite !length_app in Hq. simpl in Hq. lia. }
  assert (Hpre : Forall (fun q => q `prefix_of` d ++ ["bin"]) (prefixes (d ++ ["bin"]))).
  { apply Forall_forall. intros q Hq. unfold prefixes in Hq. apply list_elem_of_fmap in Hq as (k & -> & _).
    exists (drop k (d ++ ["bin"])). by rewrite take_drop. }
  intros r s' E. unfold create_dir_all, sys in E.
  pose proof (Hn _ _ Hpre Hp) as H1. pose proof (mkdirs_file_at (prefixes (d ++ ["bin"])) (nodes s)) as H2.
  destruct (faults s) as [|[| |k] fl].
  1,2: destruct (mkdirs _ _) as [r' n'] eqn:Em; injection E as <- <-; done.
  - injection E as <- <-. done.
  - injection E as <- <-. cbn [nodes]. split; [|intros q; apply mkdirs_file_at].
    apply Hn; [|done]. by apply Forall_take.
Qed.
Lemma chmod_nodes p s r s' : chmod p s = (r, s') -> nodes s' = nodes s.
Proof.
  unfold chmod, sys. destruct (faults s) as [|[| |k] fl]; [destruct (nodes s !! p)..| |]; by intros [= <- <-].
Qed.
Lemma write_fresh p b s r s' : nodes s !! p = None -> fs_write p b s = (r, s') ->
  r = Ok tt -> file_at (nodes s') p = Some b.
Proof.
  intros Hp. unfold fs_write, sys, put_file. rewrite Hp. destruct (faults s) as [|[| |k] fl]; [| |by intros [= <- <-]..];
    (destruct (is_dir _ _); intros [= <- <-]; [|done]); intros _; apply file_at_insert.
Qed.
End binary_spec.

(** ** Properties *)

(** What is announced as the tunnel is the first line of the child's output
    that names one, no line before it being its failure report: the URL's host
    is a generated subdomain of [trycloudflare.com], never the registration
    endpoint [api.trycloudflare.com], and its path is empty. *)
Theorem quick_tunnel_only `{UrlCrate} lines deadline url :
  start_outcome lines deadline = Ok url ->
  (exists host, host_str url = Some host /\ ends_with ".trycloudflare.com" host = true
     /\ host <> "api.trycloudflare.com" /\ (url_path url = "" \/ url_path url = "/"))
  /\ exists pre line post, lines = pre ++ line :: post /\ parse_tunnel_url line = Some url
     /\ Forall (fun l => parse_tunnel_url l = None /\ contains "failed to request quick Tunnel" l = false) pre.
Proof.
  unfold start_outcome. pose proof (watch_spec lines) as Hw. intros Ho.
  destruct (watch lines) as [[u|reason]|]; [|done|by destruct deadline]. injection Ho as ->.
  split; [|done]. destruct Hw as (pre & line & post & _ & Hu & _). unfold parse_tunnel_url in Hu.
  destruct (find_from "https://" line) as [rest|]; [|done]. cbn in Hu.
  destruct (url_parse (take_word rest)) as [u|]; [|done]. cbn in Hu.
  destruct (host_str u) as [host|] eqn:Eh; [|done]. cbn in Hu.
  destruct (ends_with ".trycloudflare.com" host) eqn:Ee; [|done].
  destruct (String.eqb_spec host "api.trycloudflare.com"); [done|]. cbn [negb andb] in Hu.
  destruct (String.eqb_spec (url_path u) "") as [Hp|Hp]; [|destruct (String.eqb_spec (url_path u) "/") as [Hp'|]; [|done]];
    injection Hu as ->; exists host; auto.
Qed.
Lemma quick_tunnel_only_witness :
  exists host, host_str (UrlCrate := toy_url) (exist (fun s => toy_url_ok s = true) "https://a-b.trycloudflare.com" eq_refl) = Some host
    /\ host <> "api.trycloudflare.com".
Proof.
  destruct (quick_tunnel_only (H := toy_url)
    ["INF Requesting new quick Tunnel on trycloudflare.com..."; "INF |  https://a-b.trycloudflare.com  |"] false
    (exist (fun s => toy_url_ok s = true) "https://a-b.trycloudflare.com" eq_refl)) as [(h & ? & _ & ? & _) _];
    [vm_compute; reflexivity|]. by exists h.
Defined.

(** C37: Whatever fails on the way, a first run that reports the binary installed
    has installed exactly what the pinned archive holds, the download having
    the pin's checksum; and where no download has it, no file is touched. *)
Theorem binary_is_verified `{TunnelCrates} pf d download s r s' :
  nodes s !! binary_at pf d = None -> ensure_binary pf (Some d) download s = (r, s') ->
  (forall p, r = Ok p -> p = binary_at pf d
     /\ exists bin, verified pf download bin /\ file_at (nodes s') p = Some bin)
  /\ ((forall bin, ~ verified pf download bin) -> forall q, file_at (nodes s') q = file_at (nodes s) q).
Proof.
  intros Hp. unfold ensure_binary, mbind, io_bind. rewrite binary_path_eq.
  destruct (create_dir_all (d ++ ["bin"]) s) as [[[]|e|] s1] eqn:Ec;
    destruct (create_dirs_absent pf d s Hp _ _ Ec) as [Hp1 Hf1]; cbn [fst snd]; [|by intros [= <- <-]..].
  rewrite exists_binary, bool_decide_eq_false_2 by (rewrite Hp1; by apply is_Some_None).
  unfold io_lift. pose proof (fetch_verified pf download) as Hv.
  destruct (fetch pf download) as [bin|e|]; [|by intros [= <- <-]..].
  destruct (fs_write (binary_at pf d) bin s1) as [rw s2] eqn:Ew.
  pose proof (write_fresh _ _ _ _ _ Hp1 Ew) as Hw. intros Hr.
  assert (Hbin : verified pf download bin) by (by apply Hv). split; [|intros Hno; by destruct (Hno bin)].
  intros p ->. destruct rw as [[]|e|]; [|done|done].
  destruct ((if is_unix pf then chmod (binary_at pf d) else mret tt) s2) as [rc s3] eqn:Em.
  assert (Hn : nodes s3 = nodes s2).
  { destruct (is_unix pf); [by apply chmod_nodes in Em|by injection Em as <- <-]. }
  destruct rc as [[]|e|]; [|done|done]. injection Hr as <- <-. split; [done|]. exists bin. split; [done|].
  rewrite Hn. by apply Hw.
Qed.

(** A write that fails midway leaves a file that the next run takes for the
    binary, unverified: the check is only on the download. *)
Theorem partial_binary_trusted `{TunnelCrates} pf d download download' bin k n :
  (forall q, q ∈ prefixes (d ++ ["bin"]) -> file_at n q = None) ->
  n !! binary_at pf d = None -> verified pf download bin ->
  exists e s1 s2, ensure_binary pf (Some d) download (Fs n [NoFault; FailPartial k]) = (Err e, s1)
    /\ ensure_binary pf (Some d) download' s1 = (Ok (binary_at pf d), s2)
    /\ file_at (nodes s2) (binary_at pf d) = Some (take k bin).
Proof.
  intros Hd Hp Hv%fetch_verified. destruct (mkdirs_runs _ _ Hd) as (n1 & Hm & Hdir & _).
  assert (Hparent : is_dir n1 (parent (binary_at pf d)) = true).
  { assert (E : parent (binary_at pf d) = d ++ ["bin"]) by apply removelast_last.
    rewrite E. unfold is_dir. destruct (d ++ ["bin"]) as [|x l] eqn:El; [done|].
    apply bool_decide_eq_true, Hdir. unfold prefixes. apply list_elem_of_fmap.
    exists (length (x :: l)). split; [by rewrite firstn_all|]. apply elem_of_seq. simpl. lia. }
  assert (Hc : create_dir_all (d ++ ["bin"]) (Fs n [NoFault; FailPartial k]) = (Ok tt, Fs n1 [FailPartial k])).
  { unfold create_dir_all, sys. cbn [faults nodes]. by rewrite Hm. }
  assert (Hp1 : n1 !! binary_at pf d = None) by apply (create_dirs_absent pf d (Fs n [NoFault; FailPartial k]) Hp _ _ Hc).
  assert (Hdir' : forall q, q ∈ prefixes (d ++ ["bin"]) -> n1 !! q = Some Dir) by exact Hdir.
  set (n2 := <[binary_at pf d := File (take k bin)]> n1).
  assert (Hfs : fs_write (binary_at pf d) bin (Fs n1 [FailPartial k]) = (Err io_error, Fs n2 [])).
  { unfold fs_write, sys. cbn [faults nodes]. unfold put_file. by rewrite Hp1, Hparent. }
  exists io_error, (Fs n2 []).
  destruct (create_dir_all (d ++ ["bin"]) (Fs n2 [])) as [r2 s2] eqn:Ec2. exists s2.
  assert (Hr2 : r2 = Ok tt /\ file_at (nodes s2) (binary_at pf d) = Some (take k bin)).
  { unfold create_dir_all, sys in Ec2. cbn [faults nodes] in Ec2.
    pose proof (mkdirs_file_at (prefixes (d ++ ["bin"])) n2 (binary_at pf d)) as Hf.
    destruct (mkdirs_runs (prefixes (d ++ ["bin"])) n2) as (n3 & Hm3 & _).
    - intros q Hq. unfold n2. rewrite file_at_insert_ne; [|intros Eq; rewrite <- Eq in Hq; apply Hdir' in Hq; congruence].
      unfold file_at. by rewrite (Hdir' q Hq).
    - rewrite Hm3 in Hf, Ec2. injection Ec2 as <- <-. split; [done|]. cbn [nodes]. cbn [snd] in Hf. rewrite Hf. apply file_at_insert. }
  destruct Hr2 as [-> Hf]. split; [|split; [|done]].
  - unfold ensure_binary, mbind, io_bind. rewrite binary_path_eq, Hc. cbn [fst snd].
    rewrite exists_binary. cbn [nodes]. rewrite bool_decide_eq_false_2 by (rewrite Hp1; by apply is_Some_None).
    unfold io_lift. by rewrite Hv, Hfs.
  - unfold ensure_binary, mbind, io_bind. rewrite binary_path_eq, Ec2. cbn [fst snd].
    rewrite exists_binary, bool_decide_eq_true_2; [done|]. apply file_at_Some in Hf. rewrite Hf. by eexists.
Qed.

(** ** At concrete inputs *)

Module Example.

Definition linux : Platform := {| os := "linux"; arch := "x86_64"; is_windows := false; is_unix := true |}.
Definition digit (a : ascii) : Z := let n := Z.of_N (N_of_ascii a) in if n <? 58 then n - 48 else n - 87.
Fixpoint unhex (s : string) : bytes :=
  match s with
  | String a (String b s') => z2b (digit a * 16 + digit b) :: unhex s'
  | _ => []
  end.
(** A hash that sends the one-byte download [A] to the pin. *)
Definition crates : TunnelCrates :=
  {| sha256 b := if bool_decide (b = [Byte.x41])
                 then unhex "ec905ea7b7e327ff8abdde8cb64697a2152de74dbcdbf6aec9db8364eb3886cd" else Toy.pad32 b;
     tgz_entries _ := Ok [] |}.
Definition get (_ : string) : res bytes := Ok [Byte.x41].

Lemma get_verified : verified (H := crates) linux get [Byte.x41].
Proof. eexists _, _, [Byte.x41]. split; [reflexivity|]. split; [reflexivity|]. split; reflexivity. Qed.

Lemma binary_is_verified_witness :
  exists bin, verified (H := crates) linux get bin
    /\ file_at (nodes (ensure_binary (H := crates) linux (Some ["d"]) get (Fs ∅ [])).2) (binary_at linux ["d"]) = Some bin.
Proof.
  destruct (ensure_binary (H := crates) linux (Some ["d"]) get (Fs ∅ [])) as [r s'] eqn:E.
  destruct (binary_is_verified (H := crates) linux ["d"] get (Fs ∅ []) r s') as [Hok _];
    [vm_compute; reflexivity|exact E|].
  assert (Hr : r = Ok (binary_at linux ["d"])) by (vm_compute in E; injection E as <- _; reflexivity).
  destruct (Hok _ Hr) as [_ Hb]. exact Hb.
Defined.
Lemma partial_binary_trusted_witness :
  exists s1 s2, ensure_binary (H := crates) linux (Some ["d"]) (fun _ => Err io_error) s1 = (Ok (binary_at linux ["d"]), s2)
    /\ file_at (nodes s2) (binary_at linux ["d"]) = Some [].
Proof.
  destruct (partial_binary_trusted (H := crates) linux ["d"] get (fun _ => Err io_error) [Byte.x41] 0 ∅)
    as (e & s1 & s2 & _ & H1 & H2); [|vm_compute; reflexivity|exact get_verified|by exists s1, s2].
  intros q _. reflexivity.
Defined.
End Example.
