(* ===== verification/Cloudflared.v ===== *)
(** * The child process of src/tunnel.rs

    [start_cloudflared] runs a program and the handle it returns owns it: the
    child is killed when whoever owns it lets go. Ownership is a combinator
    that drops what it holds on every way out but success. *)

From S2P Require Import Prelude Str Libs Fs Crypto Code Tunnel.

(** ** A machine: its disk, and the children that run *)

Record host : Type := Host { disk : fs; running : gset nat }.
Definition hio (A : Type) : Type := host -> res A * host.
#[export] Instance hio_ret : MRet hio := fun A a h => (Ok a, h).
#[export] Instance hio_bind : MBind hio := fun A B f m h =>
  match m h with
  | (Ok a, h') => f a h'
  | (Err e, h') => (Err e, h')
  | (Panic, h') => (Panic, h')
  end.
Definition on_disk {A} (m : io A) : hio A := fun h => let '(r, s) := m (disk h) in (r, Host s (running h)).
Definition hio_res {A} (r : res A) : hio A := fun h => (r, h).

(** [kill_on_drop(true)]. *)
Definition drop_child (pid : nat) : hio unit := fun h => (Ok tt, Host (disk h) (running h ∖ {[pid]})).
(** A scope that owns the child [pid], unless it ends well and passes it on. *)
Definition owning {A} (pid : nat) (body : hio A) : hio A := fun h =>
  match body h with
  | (Ok a, h') => (Ok a, h')
  | (r, h') => (r, (drop_child pid h').2)
  end.

(** What a program started writes to its piped standard error: the lines up to
    the deadline or the end, and whether the deadline came first. *)
Definition output : Type := list string * bool.
Record Child : Type := { pid : nat; stderr : option output }.

Section cloudflared.
Context `{UrlCrate} `{TunnelCrates}.
Variables (pf : Platform) (data_dir : option path) (download : string -> res bytes).
(** The operating system's [spawn]: an error, or a child; [Stdio::piped()] gives
    the child its standard error. *)
Variable exec : path -> list string -> res (option output).

Record TunnelHandle : Type := { tunnel_url : Url; child : option nat }.

Definition spawn (bin : path) (args : list string) : hio Child := fun h =>
  match exec bin args with
  | Ok o => let p := fresh (running h) in (Ok {| pid := p; stderr := o |}, Host (disk h) (running h ∪ {[p]}))
  | Err e => (Err (EContext "failed to start cloudflared" e), h)
  | Panic => (Panic, h)
  end.
(** The arguments of the child. *)
Definition cloudflared_args (port : Z) : list string :=
  ["tunnel"; "--url"; "http://127.0.0.1:" +:+ show port; "--no-autoupdate"].
Definition start_cloudflared (port : Z) : hio TunnelHandle :=
  bin ← on_disk (ensure_binary pf data_dir download);
  c ← spawn bin (cloudflared_args port);
  owning (pid c) (
    out ← hio_res (ok_or (EMsg "no stderr from cloudflared") (stderr c));
    url ← hio_res (start_outcome out.1 out.2);
    mret {| tunnel_url := url; child := Some (pid c) |}).

(** [impl Drop for TunnelHandle]. *)
Definition drop_handle (t : TunnelHandle) : hio unit :=
  match child t with Some p => drop_child p | None => mret tt end.
(** [direct] with its handle. *)
Definition direct_handle (lan_ip : option string) (port : Z) : hio TunnelHandle :=
  url ← hio_res (direct lan_ip port); mret {| tunnel_url := url; child := None |}.

(** ** Lemmas *)

(** A start either fails, and leaves no child of its own, or returns the handle
    of the one child it started, whose output announced the URL. *)
Lemma start_cloudflared_spec port h :
  let '(r, h') := start_cloudflared port h in
  match r with
  | Ok t => child t = Some (fresh (running h)) /\ running h' = running h ∪ {[fresh (running h)]}
            /\ exists bin lines deadline, (ensure_binary pf data_dir download (disk h)).1 = Ok bin
                 /\ exec bin (cloudflared_args port) = Ok (Some (lines, deadline))
                 /\ start_outcome lines deadline = Ok (tunnel_url t)
  | _ => running h' = running h
  end.
Proof.
  unfold start_cloudflared, on_disk, mbind at 1, hio_bind.
  destruct (ensure_binary _ _ _ (disk h)) as [[bin|e|] s]; [|done|done].
  unfold mbind at 1, hio_bind, spawn. destruct (exec bin (cloudflared_args port)) as [o|e|] eqn:Eo; [|done|done].
  cbn [running disk pid stderr]. unfold owning, mbind, hio_bind, hio_res, mret, hio_ret.
  destruct o as [[lines dl]|]; cbn [ok_or]; [|apply drop_fresh].
  cbn [fst snd]. destruct (start_outcome lines dl) as [url|e|] eqn:Es; [|apply drop_fresh..].
  split; [done|]. split; [done|]. by exists bin, lines, dl.
Qed.
Lemma drop_handle_running t h s : child t = Some (fresh s) -> running h = s ∪ {[fresh s]} ->
  running (drop_handle t h).2 = s.
Proof. intros E Hr. unfold drop_handle. rewrite E. cbn. rewrite Hr. apply drop_fresh. Qed.
End cloudflared.
