(* ===== verification/Main.v ===== *)
(** * src/main.rs: the commands *)

From S2P Require Import Prelude Str Libs Fs Crypto Protocol Store Archive Pake Channel.
From S2P Require Import Send Stream Transfer Safety Handshake Session Config RvCode Code Turn.

Definition STUN_SERVERS : list string := ["stun:stun.l.google.com:19302"; "stun:stun.cloudflare.com:3478"].
Definition DEFAULT_RENDEZVOUS : string := "https://ntfy.sh".

(** What a peer's screen shows of a code, by the receiver's relay. *)
Definition relay_host_of (relay_url : string) : string :=
  trim_start_str "ws://" (trim_start_str "wss://" relay_url).

Section codes.
Context `{Blake3} `{Base58}.
(** The two [println!] of [receive_relay_cli], without the command around the
    code. *)
Definition instructions (relay_url : string) (code : RendezvousCode) : res (string * string) :=
  human ← RvCode.to_string code;
  mret (human, url_spelling code (Some (relay_host_of relay_url))).
End codes.

(** ** Accepting *)

(** [stdin]: the line [read_line] gives, if it gives one. *)
Definition accept_decision (stdin : option string) (out_dir : path) (yes overwrite : bool)
    (n : gmap path node) (m : Manifest) : bool :=
  let clobber := bool_decide (kind m = KFile)
                 && path_exists (Fs n []) (join out_dir (default "" (file_name (name m)))) in
  if yes then negb (clobber && negb overwrite)
  else match stdin with
       | None => false
       | Some line => eq_ignore_ascii_case (trim line) "y"
       end.

(** ** The waiting receiver *)

(** What the loop of [receive_relay_cli] does with an attempt's outcome: it
    returns, or tries again after a pause in seconds with this many busy
    retries spent. *)
Inductive verdict : Type := Return (r : res unit) | Again (busy pause : Z).

Definition no_connection : error := EMsg "could not establish a connection (see diagnostics above)".
Definition is_establish_busy (e : error) : bool :=
  match e with EEstablish e' => downcast is_room_busy e' | _ => false end.
Definition on_attempt (busy_retries : Z) (attempt : res string) : verdict :=
  match attempt with
  | Ok _ => Return (Ok tt)
  | Err e =>
      if downcast is_wait_closed e then Again 0 0
      else if downcast is_transport_lost e then Again 0 0
      else if downcast is_code_mismatch e then Again 0 2
      else if (busy_retries <? 8) && downcast is_establish_busy e then
        Again (busy_retries + 1) (Z.min (Z.shiftl 2 busy_retries) 20)
      else if downcast is_establish e then Return (Err no_connection)
      else Return (Err e)
  | Panic => Return Panic
  end.

(** The loop over the outcomes of the attempts, in order: the pauses it makes
    and what it returns, unless it is still trying. *)
Fixpoint follow (busy_retries : Z) (attempts : list (res string)) : list Z * option (res unit) :=
  match attempts with
  | [] => ([], None)
  | a :: attempts' =>
      match on_attempt busy_retries a with
      | Return r => ([], Some r)
      | Again b d => let '(ds, r) := follow b attempts' in (d :: ds, r)
      end
  end.

(** [connect_failed] and [connect_failed_relay]: the doctor reports and the
    error is replaced; other errors pass. *)
Definition doctor_reports (e : error) : error := if downcast is_establish e then no_connection else e.

(** The flags of TURN. *)
Record TurnArgs : Type := {
  turn : list string; turn_secret : option string; turn_user : option string; turn_pass : option string;
}.
Definition no_turn : TurnArgs := {| turn := []; turn_secret := None; turn_user := None; turn_pass := None |}.

Section cli.
Context `{UrlCrate} `{TurnCrates} `{Spake2} `{Aead} `{Blake3} `{Base58} `{Toml}.
Context `{!Serde Manifest} `{!Serde StreamManifestAck} `{!Serde Commit} `{!Serde CommitAck} `{!Serde State}.

(** [do_send]'s destination. *)
Inductive Dest : Type := DRendezvous (rc : RendezvousCode) | DTunnel (c : Code.Code).

(** Environment variables and the configuration file's path. *)
Variables (env_url env_token : option string) (config_path : path).
(** [tar]'s [unpack]; what connecting comes to, by role, attempt, URL, token
    and room over the relay, by role, servers and topic over WebRTC;
    [NtfyRendezvous::new]; the fuel of the handshake's read loops; the
    randomness of each attempt. *)
Variables (tar : bytes -> path -> io unit)
  (relay_connect : Role -> nat -> string -> option string -> string -> prog unit)
  (webrtc_connect : Role -> list IceServer -> string -> prog unit)
  (ntfy_new : string -> res unit) (fuel : nat) (rnd : nat -> bytes).
(** The clock, the nonce of a TURN user name. *)
Variables (now : Z) (nonce : string).

Definition default_ice_servers : list IceServer :=
  [{| urls := STUN_SERVERS; username := ""; credential := "" |}].
Definition ice_servers (t : TurnArgs) : res (list IceServer) :=
  l ← Turn.resolve now (turn t) (turn_secret t) (turn_user t) (turn_pass t) nonce;
  mret (default_ice_servers ++ l).

(** The loop of [receive_relay_cli]; [None] when [n] attempts are over and it
    would make another. *)
Fixpoint receive_loop (n : nat) (i : nat) (attempt : nat -> prog string) (busy_retries : Z) : prog (option unit) :=
  match n with
  | O => mret None
  | S n' => fun s =>
      proc_bind (attempt i s) (fun '(r, s') =>
        match on_attempt busy_retries r with
        | Return r => Done (Some <$> r, s')
        | Again b _ => receive_loop n' (S i) attempt b s'
        end)
  end.

(** [e0 e1 e2]: the bytes of [generate_human]; [stdin i]: the line that
    [read_line] gives if attempt [i] asks, which it does at most once. *)
Definition receive_relay_cli (n : nat) (e0 e1 e2 : byte) (out : path) (yes overwrite : bool)
    (relay_flag : option string) (stdin : nat -> option string) : prog (option unit) :=
  _ ← prog_io (create_dir_all out);
  cfg ← prog_io (load config_path);
  relay ← prog_res (resolve_relay relay_flag None env_url env_token cfg);
  let code := generate_human e0 e1 e2 in
  _ ← prog_res (instructions (Config.url relay) code);
  receive_loop n 0
    (fun i => receive_relay tar (relay_connect Receiver i (Config.url relay) (Config.token relay) (RvCode.topic code))
                fuel (rnd i) (RvCode.topic code) (RvCode.secret code) out
                (accept_decision (stdin i) out yes overwrite)) 0.

Definition receive_p1_cli (e0 e1 e2 : byte) (out : path) (yes overwrite : bool)
    (rendezvous : option string) (t : TurnArgs) (stdin : option string) : prog unit :=
  _ ← prog_io (create_dir_all out);
  ice ← prog_res (ice_servers t);
  let code := generate_human e0 e1 e2 in
  _ ← prog_res (RvCode.to_string code);
  _ ← prog_res (ntfy_new (default DEFAULT_RENDEZVOUS rendezvous));
  _ ← prog_map_err doctor_reports
        (receive_p1 tar (webrtc_connect Receiver ice (RvCode.topic code)) fuel (rnd 0)
           (RvCode.topic code) (RvCode.secret code) out (accept_decision stdin out yes overwrite));
  mret tt.

(** ** Sending *)

(** The archive's environment: see [prepare]; and [send::send]. *)
Variables (metadata : string -> res Metadata) (cwd spool : path)
  (tar_append : path -> string -> io unit) (tar_finish : io unit)
  (tunnel_send : Code.Code -> Source -> prog string).

Definition parse_dest (code : string) : res Dest :=
  if is_rendezvous_code code then
    rc ← context "invalid code" (RvCode.parse code); mret (DRendezvous rc)
  else
    c ← context "invalid code — paste it exactly as printed" (Code_parse code); mret (DTunnel c).

Definition do_send (code : string) (paths : list string) (text : option string)
    (relay_flag : option string) (p2p : bool) (rendezvous : option string) (t : TurnArgs) : prog unit :=
  dest ← prog_res (parse_dest code);
  ice ← prog_res (ice_servers t);
  source ← match text with
           | Some t => mret (prepare_text t)
           | None => prog_io (prepare metadata cwd spool tar_append tar_finish paths)
           end;
  match dest with
  | DRendezvous rc =>
      if negb p2p then
        cfg ← prog_io (load config_path);
        relay ← prog_res (resolve_relay relay_flag (RvCode.relay_host rc) env_url env_token cfg);
        _ ← prog_map_err doctor_reports
              (send_relay (relay_connect Sender 0 (Config.url relay) (Config.token relay) (RvCode.topic rc))
                 fuel (rnd 0) (RvCode.topic rc) (RvCode.secret rc) source);
        mret tt
      else
        _ ← prog_res (ntfy_new (default DEFAULT_RENDEZVOUS rendezvous));
        _ ← prog_map_err doctor_reports
              (send_p1 (webrtc_connect Sender ice (RvCode.topic rc)) fuel (rnd 0)
                 (RvCode.topic rc) (RvCode.secret rc) source);
        mret tt
  | DTunnel c => _ ← tunnel_send c source; mret tt
  end.

(** ** The relay and doctor commands *)

Definition relay_set (url : string) (token : option string) : io string :=
  url ← io_lift (normalize_relay_url url);
  cfg ← load config_path;
  let cfg := {| Config.relay := Some url;
                relay_token := match token with Some t => Some t | None => relay_token cfg end |} in
  p ← save config_path cfg;
  mret ("relay set to " +:+ url +:+ " (" +:+ display p +:+ ")").
Definition relay_show : io string :=
  cfg ← load config_path;
  mret match Config.relay cfg with
       | Some u => u +:+ match relay_token cfg with Some _ => " (token set)" | None => "" end
       | None => "(none configured)"
       end.

Definition parse_target (s : string) : res string :=
  if contains "#" s then
    c ← Code_parse s; ok_or (EMsg "code URL has no host") (host_str (base_url c))
  else if contains "://" s then
    u ← context "invalid URL" (ok_or (EExternal "url") (url_parse s));
    ok_or (EMsg "URL has no host") (host_str u)
  else mret s.
(** The host and the relay the doctor is asked about; what fails on the way to
    a relay means none. *)
Definition doctor_args (target : option string) : io (option string * option RelayCfg) :=
  host ← io_lift (match target with Some t => Some <$> parse_target t | None => Ok None end);
  cfg ← io_try (load config_path);
  mret (host, match cfg with
              | Ok cfg => ok (resolve_relay None None env_url env_token cfg)
              | _ => None
              end).
End cli.

(** ** The printed codes *)

Lemma trim_start_none p s : strip_prefix p s = None -> trim_start_str p s = s.
Proof. unfold trim_start_str. intros E. destruct (String.length s); [done|]. cbn [trim_start_str_fuel]. by rewrite E. Qed.
Lemma trim_start_one a p s : strip_prefix (String a p) s = None ->
  trim_start_str (String a p) (String a p +:+ s) = s.
Proof.
  unfold trim_start_str. intros E. cbn [String.append String.length].
  change (String a (p +:+ s)) with (String a p +:+ s). cbn [trim_start_str_fuel]. rewrite strip_prefix_app.
  destruct (String.length (p +:+ s)); [done|]. cbn [trim_start_str_fuel]. by rewrite E.
Qed.
Lemma host_lacks h : host_ok h -> lacks "/" h = true /\ lacks "#" h = true /\ str_all graphic h = true.
Proof.
  intros [_ Hh]. split; [|split].
  - eapply lacks_impl, Hh. apply host_facts.
  - eapply lacks_impl, Hh. apply host_facts.
  - eapply str_all_impl, Hh. apply host_facts.
Qed.
Lemma trim_end_lacks a s : lacks a s = true -> trim_end_char a s = s.
Proof.
  induction s as [|b s IH]; [done|]. intros [Hb Hs]%andb_true_iff. apply negb_true_iff in Hb.
  cbn [trim_end_char]. rewrite IH by done. rewrite Hb. by destruct s.
Qed.
Lemma trim_end_app a p s : s <> "" -> lacks a s = true -> trim_end_char a (p +:+ s) = p +:+ s.
Proof.
  intros Hs Hl. induction p as [|b p IH]; [by apply trim_end_lacks|].
  change (String b p +:+ s) with (String b (p +:+ s)). cbn [trim_end_char]. rewrite IH.
  destruct (p +:+ s) eqn:E; [|done]. destruct p; [done|discriminate].
Qed.
Lemma contains_lacks a p s : lacks a s = true -> lacks a p = false -> contains p s = false.
Proof.
  intros Hs Hp. destruct (contains p s) eqn:E; [|done]. exfalso. revert Hs E.
  assert (Hst : forall t, lacks a t = true -> starts_with p t = false).
  { intros t Ht. unfold starts_with. destruct (strip_prefix p t) eqn:E; [|done].
    apply strip_prefix_Some in E as ->. unfold lacks in *. rewrite str_all_app, Hp in Ht. done. }
  induction s as [|b s IH]; intros Hs E; cbn in E; rewrite (Hst _ Hs) in E; [done|].
  apply IH; [|done]. by apply andb_true_iff in Hs as [_ ?].
Qed.
Lemma strip_lacks a p s : lacks a s = true -> lacks a p = false -> strip_prefix p s = None.
Proof.
  intros Hs Hp. destruct (strip_prefix p s) eqn:E; [|done].
  apply strip_prefix_Some in E as ->. unfold lacks in *. by rewrite str_all_app, Hp in Hs.
Qed.
Lemma host_of_wss h : host_ok h -> relay_host_of ("wss://" +:+ h) = h /\ relay_host_of ("ws://" +:+ h) = h.
Proof.
  intros (Hh & _)%host_lacks. unfold relay_host_of. split.
  - rewrite (trim_start_one "w") by (by apply (strip_lacks "/")). apply trim_start_none. by apply (strip_lacks "/").
  - rewrite (trim_start_none "wss://") by reflexivity. apply (trim_start_one "w"). by apply (strip_lacks "/").
Qed.
Lemma normalize_wss h : host_ok h -> normalize_relay_url ("wss://" +:+ h) = Ok ("wss://" +:+ h).
Proof.
  intros Hh. pose proof (host_lacks h Hh) as (Hl & _ & Hg). unfold normalize_relay_url.
  rewrite trim_all_graphic; [|discriminate|by rewrite str_all_app, Hg].
  rewrite trim_end_app by (done || apply Hh). reflexivity.
Qed.
(** A sender without a configuration resolves a code's host so. *)
Lemma resolve_host h : host_ok h ->
  resolve_relay None (Some h) None None default_config = Ok {| Config.url := "wss://" +:+ h; Config.token := None |}.
Proof.
  intros Hh. pose proof (host_lacks h Hh) as (Hl & _). unfold resolve_relay. cbn [normalize_opt mbind res_bind].
  change (normalize_opt (Config.relay default_config)) with (Ok (A := option string) None). cbn [mbind res_bind].
  rewrite (contains_lacks "/") by done. rewrite normalize_wss by done. reflexivity.
Qed.

Section printed.
Context `{UrlCrate} `{Blake3} `{Base58}.

(** What a sender may type of a receiver's code: its human form, or the
    pasteable one, which carries the relay's host. *)
Inductive printed (code : RendezvousCode) (host : string) : string -> option string -> Prop :=
| printed_human s : RvCode.to_string code = Ok s -> printed code host s None
| printed_pasted : host_ok host -> printed code host (url_spelling code (Some host)) (Some host).

Lemma generated_parts e0 e1 e2 :
  (exists b, b58_decode (RvCode.topic (generate_human e0 e1 e2)) = Some b /\ zlen b = 16)
  /\ RvCode.topic (generate_human e0 e1 e2) <> ""
  /\ (zlen (RvCode.secret (generate_human e0 e1 e2)) = 16 \/ zlen (RvCode.secret (generate_human e0 e1 e2)) = 3).
Proof. apply valid_url_part. unfold valid. cbn. by exists e0, e1, e2. Qed.
Lemma printed_dest e0 e1 e2 host s h : printed (generate_human e0 e1 e2) host s h ->
  exists rc, parse_dest s = Ok (DRendezvous rc)
    /\ RvCode.topic rc = RvCode.topic (generate_human e0 e1 e2)
    /\ RvCode.secret rc = RvCode.secret (generate_human e0 e1 e2) /\ RvCode.relay_host rc = h.
Proof.
  unfold parse_dest. inversion 1 as [t Ht|Hh]; subst.
  - destruct (parse_human_spelling e0 e1 e2) as (t' & Ht' & Hp & Hr). rewrite Ht in Ht'. injection Ht' as <-.
    rewrite Hr, Hp. cbn [context mbind res_bind]. by exists (generate_human e0 e1 e2).
  - destruct (generated_parts e0 e1 e2) as (Ht & Hn & Hs).
    destruct (parse_url_spelling (generate_human e0 e1 e2) (Some host) Ht Hn Hs Hh) as [Hp Hr].
    rewrite Hr, Hp. cbn [context mbind res_bind]. by eexists.
Qed.
Lemma instructions_printed e0 e1 e2 url : exists human,
  instructions url (generate_human e0 e1 e2) = Ok (human, url_spelling (generate_human e0 e1 e2) (Some (relay_host_of url)))
  /\ RvCode.to_string (generate_human e0 e1 e2) = Ok human.
Proof.
  destruct (parse_human_spelling e0 e1 e2) as (t & Ht & _). exists t. unfold instructions. by rewrite Ht.
Qed.
Lemma to_dest s rc : RvCode.parse s = Ok rc -> is_rendezvous_code s = true -> parse_dest s = Ok (DRendezvous rc).
Proof. unfold parse_dest. by intros -> ->. Qed.
End printed.

(** ** Properties *)

(** Both codes a receiver on a [wss://] relay prints lead a sender to it: each
    is a rendezvous code with the receiver's topic and secret, and the
    pasteable one makes a sender without any configuration resolve the very
    relay URL the receiver dialed, without a token. *)
Theorem printed_codes_meet `{UrlCrate} `{Blake3} `{Base58} e0 e1 e2 host :
  host_ok host ->
  let code := generate_human e0 e1 e2 in
  exists human pasted rc rc', instructions ("wss://" +:+ host) code = Ok (human, pasted)
    /\ parse_dest human = Ok (DRendezvous rc) /\ parse_dest pasted = Ok (DRendezvous rc')
    /\ RvCode.topic rc = RvCode.topic code /\ RvCode.secret rc = RvCode.secret code
    /\ RvCode.topic rc' = RvCode.topic code /\ RvCode.secret rc' = RvCode.secret code
    /\ resolve_relay None (RvCode.relay_host rc') None None default_config
       = Ok {| Config.url := "wss://" +:+ host; Config.token := None |}.
Proof.
  intros Hh code. destruct (instructions_printed e0 e1 e2 ("wss://" +:+ host)) as (human & Hi & Hs).
  rewrite (proj1 (host_of_wss host Hh)) in Hi.
  destruct (printed_dest e0 e1 e2 host human None (printed_human _ _ _ Hs)) as (rc & ? & ? & ? & _).
  destruct (printed_dest e0 e1 e2 host _ _ (printed_pasted _ _ Hh)) as (rc' & ? & ? & ? & Hr).
  exists human, (url_spelling code (Some host)), rc, rc'. rewrite Hr, resolve_host by done. done.
Qed.
Lemma printed_codes_meet_witness :
  exists rc, parse_dest (H := toy_url) (H3 := Toy.blake3) (H4 := Toy.base58)
      (url_spelling (H0 := Toy.base58) (generate_human (H := Toy.blake3) (H0 := Toy.base58) Byte.x07 Byte.x00 Byte.x01) (Some "r.example:8443"))
    = Ok (DRendezvous rc)
  /\ (Config.url <$> resolve_relay None (RvCode.relay_host rc) None None default_config) = Ok "wss://r.example:8443".
Proof.
  destruct (printed_codes_meet (H := toy_url) (H0 := Toy.blake3) (H1 := Toy.base58) Byte.x07 Byte.x00 Byte.x01 "r.example:8443")
    as (human & pasted & rc & rc' & Hi & _ & Hp & _ & _ & _ & _ & Hr); [split; [discriminate|reflexivity]|].
  exists rc'. rewrite Hr. split; [|reflexivity]. rewrite <- Hp. f_equal.
  assert (E : snd <$> Ok (human, pasted) = Ok pasted) by reflexivity. rewrite <- Hi in E.
  assert (E' : Ok pasted = Ok (url_spelling (H0 := Toy.base58) (generate_human (H := Toy.blake3) (H0 := Toy.base58) Byte.x07 Byte.x00 Byte.x01) (Some "r.example:8443")))
    by (rewrite <- E; vm_compute; reflexivity). by injection E' as ->.
Defined.

(** Where the pasteable code does not lead: the scheme is dropped from it, so a
    receiver on a plain [ws://] relay sends an unconfigured sender to the
    [wss://] one; and on a relay whose URL has a path it does not parse at
    all. *)
Theorem pasted_code_limits `{UrlCrate} `{Blake3} `{Base58} e0 e1 e2 host p :
  host_ok host -> str_all graphic p = true -> lacks "#" p = true -> starts_with "/" p = false ->
  let code := generate_human e0 e1 e2 in
  (exists human pasted rc, instructions ("ws://" +:+ host) code = Ok (human, pasted)
     /\ RvCode.parse pasted = Ok rc
     /\ (Config.url <$> resolve_relay None (RvCode.relay_host rc) None None default_config) = Ok ("wss://" +:+ host))
  /\ exists human pasted, instructions ("wss://" +:+ (host +:+ String "/" p)) code = Ok (human, pasted)
     /\ is_err (RvCode.parse pasted) = true.
Proof.
  intros Hh Hg Hp Hs code. pose proof (host_lacks host Hh) as (Hl & Hl' & Hgh). split.
  - destruct (instructions_printed e0 e1 e2 ("ws://" +:+ host)) as (human & Hi & _).
    rewrite (proj2 (host_of_wss host Hh)) in Hi. destruct (generated_parts e0 e1 e2) as (Ht & Hn & Hsec).
    destruct (parse_url_spelling code (Some host) Ht Hn Hsec Hh) as [Hpa _].
    eexists human, _, _. split; [exact Hi|]. split; [exact Hpa|]. unfold with_host. cbn [RvCode.relay_host].
    by rewrite resolve_host.
  - destruct (instructions_printed e0 e1 e2 ("wss://" +:+ (host +:+ String "/" p))) as (human & Hi & _).
    assert (E : relay_host_of ("wss://" +:+ (host +:+ String "/" p)) = host +:+ String "/" p).
    { unfold relay_host_of.
      assert (Hno : forall q, lacks "/" q = true -> lacks ":" q = false -> strip_prefix (q +:+ "//") (host +:+ String "/" p) = None).
      { intros q Hq _. destruct (strip_prefix _ _) as [r|] eqn:E; [|done]. apply strip_prefix_Some in E.
        apply (f_equal (split_once "/")) in E. rewrite split_once_app in E by done.
        rewrite <- str_app_assoc in E. change ("//" +:+ r) with (String "/" (String "/" r)) in E.
        rewrite split_once_app in E by done. injection E as _ E. subst p. cbn in Hs. discriminate. }
      rewrite (trim_start_one "w") by (by apply (Hno "wss:")). apply trim_start_none. by apply (Hno "ws:"). }
    rewrite E in Hi. fold code in Hi. eexists human, _. split; [exact Hi|].
    destruct (generated_parts e0 e1 e2) as ((tb & Htb & _) & Hn & _). fold code in Htb, Hn.
    pose proof (b58_decode_chars _ _ Htb) as Hc. pose proof (b58_encode_chars (RvCode.secret code)) as Hsc.
    assert (Hb : forall s, str_all is_base58 s = true -> str_all graphic s = true)
      by (intros s; apply str_all_impl, base58_facts).
    assert (Hsp : url_spelling code (Some (host +:+ String "/" p))
      = "b2p://" +:+ ((host +:+ String "/" (p +:+ String "/" (RvCode.topic code))) +:+ String "#" (b58_encode (RvCode.secret code)))).
    { unfold url_spelling. rewrite <- !str_app_assoc. cbn [String.append]. rewrite <- !str_app_assoc. reflexivity. }
    rewrite Hsp. unfold RvCode.parse. rewrite trim_all_graphic; [|discriminate|].
    + rewrite strip_prefix_app. unfold parse_url. rewrite split_once_app.
      * cbn [ok_or mbind res_bind]. unfold parse_addr. rewrite split_once_app by done.
        destruct Hh as [Hne Hch]. apply String.eqb_neq in Hne. rewrite Hne, Hch. cbn [negb orb mbind res_bind].
        destruct (String.eqb_spec (p +:+ String "/" (RvCode.topic code)) ""); [done|].
        destruct (b58_decode (p +:+ _)) as [b|] eqn:Eb; [|done]. apply b58_decode_chars in Eb.
        rewrite str_all_app in Eb. cbn [str_all] in Eb. rewrite andb_comm in Eb. discriminate.
      * unfold lacks in *. rewrite str_all_app, Hl'. cbn [str_all]. rewrite str_all_app, Hp. cbn [str_all].
        eapply (lacks_impl _ "#"), Hc. apply base58_facts.
    + rewrite !str_all_app. cbn [str_all]. rewrite str_all_app. cbn [str_all].
      by rewrite Hgh, Hg, (Hb _ Hc), (Hb _ Hsc).
Qed.
Lemma pasted_code_limits_witness :
  exists human pasted, instructions (H0 := Toy.base58) ("wss://" +:+ ("r.example" +:+ String "/" "b2p"))
      (generate_human (H := Toy.blake3) (H0 := Toy.base58) Byte.x07 Byte.x00 Byte.x01) = Ok (human, pasted)
    /\ is_err (RvCode.parse (H := Toy.blake3) (H0 := Toy.base58) pasted) = true.
Proof.
  apply (pasted_code_limits (H := toy_url) (H0 := Toy.blake3) (H1 := Toy.base58) Byte.x07 Byte.x00 Byte.x01 "r.example" "b2p");
    [split; [discriminate|reflexivity]|reflexivity..].
Defined.

(** ** The waiting receiver, on every outcome *)

(** The relay refused the join (409); an outcome that re-arms the code. *)
Definition busy (a : res string) : Prop := exists e, a = Err (EEstablish e) /\ downcast is_room_busy e = true.
Definition rearms (a : res string) : Prop :=
  exists e, a = Err e /\ (downcast is_wait_closed e || downcast is_transport_lost e || downcast is_code_mismatch e) = true.

Lemma on_rearms b a : rearms a -> exists d, on_attempt b a = Again 0 d /\ 0 <= d <= 2.
Proof.
  intros (e & -> & He). unfold on_attempt.
  destruct (downcast is_wait_closed e); [exists 0; split; [done|lia]|].
  destruct (downcast is_transport_lost e); [exists 0; split; [done|lia]|].
  destruct (downcast is_code_mismatch e); [exists 2; split; [done|lia]|done].
Qed.
Lemma on_busy b a : busy a ->
  on_attempt b a = if b <? 8 then Again (b + 1) (Z.min (Z.shiftl 2 b) 20) else Return (Err no_connection).
Proof. intros (e & -> & He). unfold on_attempt. cbn. rewrite He. by destruct (b <? 8). Qed.
Lemma busy_not_rearms a : busy a -> rearms a -> False.
Proof. intros (e & -> & _) (e' & [= <-] & He). done. Qed.

(** Nine refusals in a row, or what is left of nine with [b] behind. *)
Definition nine_ahead (b : Z) (l : list (res string)) : Prop :=
  (exists mid post, l = mid ++ post /\ Forall busy mid /\ zlen mid = 9 - b)
  \/ exists pre mid post, l = pre ++ mid ++ post /\ Forall busy mid /\ zlen mid = 9.
Lemma nine_cons_busy b a l : 0 <= b < 8 -> busy a -> nine_ahead b (a :: l) <-> nine_ahead (b + 1) l.
Proof.
  unfold nine_ahead, zlen. intros Hb Ha. split.
  - intros [(mid & post & E & Hm & Hl)|(pre & mid & post & E & Hm & Hl)].
    + destruct mid as [|x mid]; [simpl in Hl; lia|]. injection E as -> ->. apply Forall_cons in Hm as [_ Hm].
      left. exists mid, post. split; [done|]. split; [done|]. simpl in Hl. lia.
    + destruct pre as [|x pre].
      * left. destruct mid as [|x mid]; [done|]. injection E as -> ->. apply Forall_cons in Hm as [_ Hm].
        exists (take (Z.to_nat (8 - b)) mid), (drop (Z.to_nat (8 - b)) mid ++ post).
        rewrite app_assoc, take_drop. split; [done|]. split; [by apply Forall_take|].
        simpl in Hl. rewrite length_take. lia.
      * injection E as -> ->. right. by exists pre, mid, post.
  - intros [(mid & post & -> & Hm & Hl)|(pre & mid & post & -> & Hm & Hl)].
    + left. exists (a :: mid), post. split; [done|]. split; [by constructor|]. simpl. lia.
    + right. by exists (a :: pre), mid, post.
Qed.
Lemma nine_cons_rearms b a l : 0 <= b <= 8 -> rearms a -> nine_ahead b (a :: l) <-> nine_ahead 0 l.
Proof.
  unfold nine_ahead, zlen. intros Hb Ha. split.
  - intros [(mid & post & E & Hm & Hl)|(pre & mid & post & E & Hm & Hl)].
    + destruct mid as [|x mid]; [simpl in Hl; lia|]. injection E as <- _. apply Forall_cons in Hm as [Hx _].
      by destruct (busy_not_rearms a).
    + destruct pre as [|x pre].
      * destruct mid as [|x mid]; [done|]. injection E as <- _. apply Forall_cons in Hm as [Hx _].
        by destruct (busy_not_rearms a).
      * injection E as -> ->. right. by exists pre, mid, post.
  - intros [(mid & post & -> & Hm & Hl)|(pre & mid & post & -> & Hm & Hl)].
    + right. by exists [a], mid, post.
    + right. by exists (a :: pre), mid, post.
Qed.
Lemma follow_nine b l : 0 <= b <= 8 -> Forall (fun a => busy a \/ rearms a) l ->
  (nine_ahead b l -> snd (follow b l) = Some (Err no_connection))
  /\ (~ nine_ahead b l -> snd (follow b l) = None).
Proof.
  revert b. induction l as [|a l IH]; intros b Hb Hl.
  - split; [|done]. intros [(mid & post & E & _ & Hn)|(pre & mid & post & E & _ & Hn)].
    + destruct mid; [|done]. unfold zlen in Hn. simpl in Hn. lia.
    + destruct pre, mid; done.
  - apply Forall_cons in Hl as [[Ha|Ha] Hl]; cbn [follow].
    + rewrite on_busy by done. destruct (Z.ltb_spec b 8) as [Hlt|Hge].
      * rewrite nine_cons_busy by (done || lia). specialize (IH (b + 1) ltac:(lia) Hl).
        by destruct (follow (b + 1) l) as [ds r].
      * split; [done|]. intros Hn. destruct Hn. left. exists [a], l. split; [done|]. split; [by repeat constructor|].
        unfold zlen. simpl. lia.
    + destruct (on_rearms b a Ha) as (d & -> & _). rewrite nine_cons_rearms by done.
      specialize (IH 0 ltac:(lia) Hl). by destruct (follow 0 l) as [ds r].
Qed.

(** Attempts that re-arm the code or find its room busy end the wait exactly
    when nine in a row found it busy; the eight pauses before that are 2, 4,
    8, 16 and four times 20 seconds, and any other outcome starts the count
    anew. *)
Theorem busy_retry_budget l :
  Forall (fun a => busy a \/ rearms a) l ->
  ((exists pre mid post, l = pre ++ mid ++ post /\ Forall busy mid /\ zlen mid = 9) ->
     snd (follow 0 l) = Some (Err no_connection))
  /\ (~ (exists pre mid post, l = pre ++ mid ++ post /\ Forall busy mid /\ zlen mid = 9) ->
     snd (follow 0 l) = None)
  /\ forall a, busy a -> fst (follow 0 (replicate 8 a)) = [2; 4; 8; 16; 20; 20; 20; 20].
Proof.
  intros Hl. destruct (follow_nine 0 l ltac:(lia) Hl) as [H1 H2].
  assert (Hn : nine_ahead 0 l <-> exists pre mid post, l = pre ++ mid ++ post /\ Forall busy mid /\ zlen mid = 9).
  { split; [|by right]. intros [(mid & post & ?)|?]; [by exists [], mid, post|done]. }
  rewrite <- Hn. split; [done|]. split; [done|]. intros a (e & -> & He). cbn. rewrite He. reflexivity.
Qed.
Lemma busy_retry_budget_witness :
  snd (follow 0 (Err ECodeMismatch :: replicate 9 (Err (EEstablish ERoomBusy)))) = Some (Err no_connection).
Proof.
  apply (busy_retry_budget (Err ECodeMismatch :: replicate 9 (Err (EEstablish ERoomBusy)))).
  - constructor; [by right; eexists|]. apply Forall_replicate. left. by eexists.
  - exists [Err ECodeMismatch], (replicate 9 (Err (EEstablish ERoomBusy))), []. split; [reflexivity|].
    split; [|reflexivity]. apply Forall_replicate. by eexists.
Defined.

(** C19: Whoever connects without the code cannot end a receiver's wait: as long as
    the relay can be reached, after any number of attempts, whatever was sent
    on each, the receiver is waiting still or has, in some attempt, seen its
    peer prove the key the code leads to. *)
Theorem strangers_cannot_end_wait `{Spake2} `{Aead} `{Blake3} `{!Serde Manifest} `{!Serde StreamManifestAck}
    `{!Serde Commit} `{!Serde CommitAck} `{!Serde State} tar connect fuel rnd topic secret out accept
    (P : bytes -> Prop) n i busy_retries (s : fs) :
  (forall j s, connect j s = Done (Ok tt, s)
     \/ exists e, connect j s = Done (Err e, s) /\ downcast is_wait_closed e = true) ->
  may P (receive_loop n i (fun j => receive_relay tar (connect j) fuel (rnd j) topic secret out accept) busy_retries s)
    (fun o => o.1 = Ok None \/ exists j key, authenticated (rnd j) topic secret Receiver P key).
Proof.
  intros Hc. revert i busy_retries s. induction n as [|n IH]; intros i b s; [by left|]. cbn [receive_loop].
  eapply (may_bind _ _ _ (fun o : res string * fs => (exists j key, authenticated (rnd j) topic secret Receiver P key) \/ rearms o.1)).
  - destruct (Hc i s) as [Hi|(e & Hi & He)].
    + rewrite receive_relay_connected by done. eapply may_mono; [apply receive_relay_may|].
      intros o [(key & Ha)|(e & He & Hd)]; [by left; exists i, key|]. right. exists e. split; [done|].
      destruct Hd as [-> | ->]; by rewrite ?orb_true_r.
    + unfold receive_relay. rewrite prog_bind_eq. unfold prog_map_err. rewrite Hi.
      cbn [proc_bind map_err prog_k may]. rewrite He. right. exists e. by rewrite He.
  - intros [r s'] [Hk|Hr]; [by eapply may_mono; [apply may_true|]; right|]. cbn in Hr.
    destruct (on_rearms b r Hr) as (d & -> & _). apply IH.
Qed.
Lemma strangers_cannot_end_wait_witness :
  may (fun m => m = []) (receive_loop 3 0 (fun j => receive_relay (H := Toy.spake2) (H0 := Toy.aead) (H1 := Toy.blake3)
      (Serde0 := Transfer.Example.toy_manifest) (Serde1 := Transfer.Example.toy_ack) (Serde2 := Transfer.Example.toy_commit)
      (Serde3 := Transfer.Example.toy_commit_ack) (Serde4 := Transfer.Example.toy_state)
      (fun _ _ => mret tt) (mret tt) 1 [] "room" [Byte.x07] ["out"] (fun _ _ => true)) 0 (Fs Transfer.Example.disk []))
    (fun o => o.1 = Ok None \/ exists (j : nat) key, authenticated (H := Toy.spake2) (H0 := Toy.blake3) [] "room" [Byte.x07] Receiver (fun m => m = []) key).
Proof.
  apply (strangers_cannot_end_wait (H := Toy.spake2) (H0 := Toy.aead) (H1 := Toy.blake3)
      (Serde0 := Transfer.Example.toy_manifest) (Serde1 := Transfer.Example.toy_ack) (Serde2 := Transfer.Example.toy_commit)
      (Serde3 := Transfer.Example.toy_commit_ack) (Serde4 := Transfer.Example.toy_state)
      (fun _ _ => mret tt) (fun _ => mret tt) 1 (fun _ => []) "room" [Byte.x07] ["out"] (fun _ _ => true)).
  intros j s. by left.
Defined.

(** A bad code or a bad TURN flag ends [b2p send] before anything is read,
    written or dialed, and input that cannot be prepared ends it before
    anything is dialed. *)
Theorem do_send_fails_fast `{UrlCrate} `{TurnCrates} `{Spake2} `{Aead} `{Blake3} `{Base58} `{Toml}
    `{!Serde Manifest} `{!Serde StreamManifestAck} `{!Serde Commit} `{!Serde CommitAck} `{!Serde State}
    env_url env_token config_path relay_connect webrtc_connect ntfy_new fuel rnd now nonce metadata cwd spool
    tar_append tar_finish tunnel_send code paths text flag p2p rendezvous t s :
  let run := do_send env_url env_token config_path relay_connect webrtc_connect ntfy_new fuel rnd now nonce metadata
               cwd spool tar_append tar_finish tunnel_send code paths text flag p2p rendezvous t s in
  (forall e, parse_dest code = Err e -> run = Done (Err e, s))
  /\ (forall d e, parse_dest code = Ok d -> ice_servers now nonce t = Err e -> run = Done (Err e, s))
  /\ (forall d l e s', parse_dest code = Ok d -> ice_servers now nonce t = Ok l -> text = None ->
       prepare metadata cwd spool tar_append tar_finish paths s = (Err e, s') -> run = Done (Err e, s')).
Proof.
  intros run. unfold run, do_send. split; [|split].
  - intros e E. rewrite prog_bind_eq. unfold prog_res. by rewrite E.
  - intros d e E E'. rewrite prog_bind_eq. unfold prog_res at 1. rewrite E. cbn [proc_bind prog_k].
    rewrite prog_bind_eq. unfold prog_res. by rewrite E'.
  - intros d l e s' E E' -> Ep. rewrite prog_bind_eq. unfold prog_res at 1. rewrite E. cbn [proc_bind prog_k].
    rewrite prog_bind_eq. unfold prog_res at 1. rewrite E'. cbn [proc_bind prog_k].
    rewrite prog_bind_eq. unfold prog_io at 1. by rewrite Ep.
Qed.

(** [b2p relay set]: a malformed URL changes nothing; otherwise the
    configuration read from then on has the normalized URL, and the given
    token or, without one, the token it had. *)
Theorem relay_set_spec `{Toml} d f url token cfg n :
  (forall p, p ∈ prefixes d -> file_at n p = None) -> n !! (d ++ [f]) <> Some Dir ->
  load (d ++ [f]) (Fs n []) = (Ok cfg, Fs n []) ->
  match normalize_relay_url url with
  | Ok u => exists msg n', relay_set (d ++ [f]) url token (Fs n []) = (Ok msg, Fs n' [])
      /\ load (d ++ [f]) (Fs n' []) =
           (Ok {| Config.relay := Some u;
                  relay_token := match token with Some t => Some t | None => relay_token cfg end |}, Fs n' [])
  | r => exists e, r = Err e /\ relay_set (d ++ [f]) url token (Fs n []) = (Err e, Fs n [])
  end.
Proof.
  intros Hd Hf Hl. pose proof (normalize_not_panic url) as Hnp. unfold relay_set, mbind, io_bind, io_lift.
  destruct (normalize_relay_url url) as [u|e|]; [|by exists e|done]. rewrite Hl.
  destruct (save_load d f {| Config.relay := Some u;
    relay_token := match token with Some t => Some t | None => relay_token cfg end |} n Hd Hf) as (n' & Hs & Hl').
  rewrite Hs. by eexists _, n'.
Qed.
Lemma relay_set_spec_witness :
  exists msg n', relay_set (H5 := toy_toml) (["b2p"] ++ ["config.toml"]) "https://my.relay/" (Some "t") (Fs ∅ []) = (Ok msg, Fs n' [])
    /\ load (H := toy_toml) (["b2p"] ++ ["config.toml"]) (Fs n' []) = (Ok {| Config.relay := Some "wss://my.relay"; relay_token := Some "t" |}, Fs n' []).
Proof.
  apply (relay_set_spec (H := toy_toml) ["b2p"] "config.toml" "https://my.relay/" (Some "t") default_config ∅).
  - intros p _. reflexivity.
  - discriminate.
  - reflexivity.
Defined.

(** ** From one command line to the other *)

Lemma create_dir_all_noop n out : dir_path n out -> create_dir_all out (Fs n []) = (Ok tt, Fs n []).
Proof.
  intros Hd. unfold create_dir_all, sys. cbn [faults nodes].
  assert (E : forall ps, (forall p, p ∈ ps -> n !! p = Some Dir) -> mkdirs ps n = (Ok tt, n)).
  { induction ps as [|p ps IH]; intros Hps; [done|]. simpl. rewrite Hps by (by left). apply IH. intros q Hq. apply Hps. by right. }
  by rewrite E.
Qed.
Lemma prepare_file `{Blake3} metadata cwd spool tar_append tar_finish p nm m s :
  metadata p = Ok (MFile m) -> file_name p = Some nm ->
  prepare metadata cwd spool tar_append tar_finish [p] s =
    (Ok (Blob KFile nm [{| e_path := nm; e_size := m_len m |}] (m_len m)
           (fingerprint [{| fr_rel := nm; fr_abs := p; fr_size := m_len m; fr_mtime := mtime_secs m |}]) (join cwd p) None), s).
Proof.
  intros Hm Hn. unfold prepare, collect_files, collect_inputs. rewrite Hm, Hn. reflexivity.
Qed.
Lemma no_turn_ok `{TurnCrates} now nonce : ice_servers now nonce no_turn = Ok default_ice_servers.
Proof. reflexivity. Qed.
Lemma prog_io_bind {A B} (m : io A) (f : A -> prog B) s a s' : m s = (Ok a, s') -> (prog_io m ≫= f) s = f a s'.
Proof. intros E. unfold mbind, prog_bind, prog_io. rewrite E. done. Qed.
Lemma prog_res_Ok {A B} (r : res A) (f : A -> prog B) s a : r = Ok a -> (prog_res r ≫= f) s = f a s.
Proof. by intros ->. Qed.

(** One machine's [b2p receive --yes] and another's [b2p send] with either code
    the receiver printed, given what the sender prepares and how the receiver
    ends with it. *)
Lemma cli_runs `{UrlCrate} `{TurnCrates} `{Spake2} `{Aead} `{Blake3} `{Base58} `{Toml}
    `{!Serde Manifest} `{!Serde StreamManifestAck} `{!Serde Commit} `{!Serde CommitAck} `{!Serde State}
    cap fuel n (* limits *) renv rtok rconf rcfg rflag rrelay nr out e0 e1 e2 ow stdin tar rrnd (* receiver *)
    senv stok sconf scfg sflag srelay ns ns' metadata cwd spool tar_append tar_finish tunnel_send now nonce srnd (* sender *)
    relay_connect webrtc_connect ntfy_new code h paths kd nm tid es src sp content desc Post :
  let source := Blob kd nm es (zlen content) tid src sp in
  (1 <= cap)%nat -> (1 <= fuel)%nat -> (1 <= n)%nat -> zlen content < U64 ->
  load rconf (Fs nr []) = (Ok rcfg, Fs nr []) -> resolve_relay rflag None renv rtok rcfg = Ok rrelay ->
  load sconf (Fs ns' []) = (Ok scfg, Fs ns' []) -> resolve_relay sflag h senv stok scfg = Ok srelay ->
  Config.url srelay = Config.url rrelay ->
  printed (generate_human e0 e1 e2) (relay_host_of (Config.url rrelay)) code h ->
  (forall role i tok, relay_connect role i (Config.url rrelay) tok (RvCode.topic (generate_human e0 e1 e2)) = mret tt) ->
  prepare metadata cwd spool tar_append tar_finish paths (Fs ns []) = (Ok source, Fs ns' []) ->
  accept_decision (stdin 0%nat) out true ow nr (stream_manifest source) = true ->
  kd <> KText -> Forall (fun e => u64_ok (e_size e)) es -> file_at ns' src = Some content ->
  stageable out (safe_name nm) nr -> disk_inv (partial_dir out (safe_name nm)) tid STREAM_FRAME_SIZE content nr ->
  finishes src kd out nm tid es sp content tar nr desc Post ->
  exists k nr' wait,
    (let begin := Channel.Config
           (do_send senv stok sconf relay_connect webrtc_connect ntfy_new fuel srnd now nonce metadata cwd spool
              tar_append tar_finish tunnel_send code paths None sflag false None no_turn (Fs ns []))
           (receive_relay_cli renv rtok rconf tar relay_connect fuel rrnd n e0 e1 e2 out true ow rflag stdin (Fs nr []))
           [] [] in
     let fin := Channel.Config (Done (Ok tt, Fs ns' [])) (Recv wait) [] [] in
     forall j c, nsteps (step cap) j begin c -> (j <= k)%nat /\ nsteps (step cap) (k - j) c fin)
    /\ (forall r, wait r = Done (Ok (Some tt), Fs nr' []))
    /\ Post nr'.
Proof.
  intros source Hcap Hfuel Hn Hlen Hlr Hrr Hls Hrs Hurl Hcode Hconn Hprep Hacc Hkd Hes Hfile Hst Hinv Hfin.
  set (rc0 := generate_human e0 e1 e2) in *.
  destruct (printed_dest e0 e1 e2 _ _ _ Hcode) as (rc & Hd & Ht & Hsec & Hh).
  destruct (session_runs cap fuel (RvCode.topic rc0) (RvCode.secret rc0) (srnd 0%nat) (rrnd 0%nat) src ns' kd out nm tid
    es sp content tar (accept_decision (stdin 0%nat) out true ow) nr desc Post) as (nr' & Hrun & HPost); try done.
  assert (Hl : do_send senv stok sconf relay_connect webrtc_connect ntfy_new fuel srnd now nonce metadata cwd spool
      tar_append tar_finish tunnel_send code paths None sflag false None no_turn (Fs ns [])
    = proc_bind (proc_bind (send_relay (mret tt) fuel (srnd 0%nat) (RvCode.topic rc0) (RvCode.secret rc0) source (Fs ns' []))
        (fun '(r, s') => Done (map_err doctor_reports r, s'))) (prog_k (fun _ => mret tt))).
  { unfold do_send. rewrite (prog_res_Ok _ _ _ _ Hd), (prog_res_Ok _ _ _ _ (no_turn_ok now nonce)).
    rewrite (prog_io_bind _ _ _ _ _ Hprep). cbn [negb].
    rewrite (prog_io_bind _ _ _ _ _ Hls), Hh, (prog_res_Ok _ _ _ _ Hrs), prog_bind_eq.
    unfold prog_map_err. rewrite Ht, Hsec, Hurl, Hconn. reflexivity. }
  assert (Hr : exists K, receive_relay_cli renv rtok rconf tar relay_connect fuel rrnd n e0 e1 e2 out true ow rflag stdin (Fs nr [])
      = proc_bind (receive_relay tar (mret tt) fuel (rrnd 0%nat) (RvCode.topic rc0) (RvCode.secret rc0) out
          (accept_decision (stdin 0%nat) out true ow) (Fs nr [])) K
      /\ forall d s, K (Ok d, s) = Done (Ok (Some tt), s)).
  { destruct n as [|n]; [lia|]. destruct (instructions_printed e0 e1 e2 (Config.url rrelay)) as (human & Hi & _).
    eexists. split.
    - unfold receive_relay_cli. rewrite (prog_io_bind _ _ _ _ _ (create_dir_all_noop nr out (proj1 Hst))).
      rewrite (prog_io_bind _ _ _ _ _ Hlr), (prog_res_Ok _ _ _ _ Hrr), (prog_res_Ok _ _ _ _ Hi).
      cbn [receive_loop]. rewrite Hconn. reflexivity.
    - done. }
  destruct Hr as (K & HK & HKok). rewrite Hl, HK.
  pose proof (rtc_bind cap (fun '(r, s') => Done (map_err doctor_reports r, s')) K _ _ _ _ _ _ _ _ Hrun) as Hrun1.
  pose proof (rtc_swap cap _ _ (rtc_bind_r cap (prog_k (fun _ : string => mret tt)) _ _ (rtc_swap cap _ _ Hrun1))) as Hrun2.
  cbn [left_proc right_proc to_left to_right proc_bind map_err prog_k] in Hrun2.
  apply rtc_nsteps in Hrun2 as [k Hk]. exists k, nr'. eexists. split; [|split; [|done]].
  - intros begin fin. apply runs_converge; [|exact Hk]. by inversion 1.
  - intros r. cbn. apply HKok.
Qed.

(** One machine's [b2p receive --yes --overwrite] and another's [b2p send] of
    a file with either code the receiver printed, when the sender's settings
    resolve to the receiver's relay and that relay connects whoever dials the
    code's room: every interleaving can be continued to the same end. There
    the sender is done, the receiver has the file under the output directory,
    and it returns success whatever comes of its last wait. *)
Theorem cli_delivers `{UrlCrate} `{TurnCrates} `{Spake2} `{Aead} `{Blake3} `{Base58} `{Toml}
    `{!Serde Manifest} `{!Serde StreamManifestAck} `{!Serde Commit} `{!Serde CommitAck} `{!Serde State}
    cap fuel n (* limits *) renv rtok rconf rcfg rflag rrelay nr out e0 e1 e2 stdin tar rrnd (* receiver *)
    senv stok sconf scfg sflag srelay ns metadata cwd spool tar_append tar_finish tunnel_send now nonce srnd (* sender *)
    relay_connect webrtc_connect ntfy_new code h p nm m content :
  (1 <= cap)%nat -> (1 <= fuel)%nat -> (1 <= n)%nat -> zlen content < U64 ->
  load rconf (Fs nr []) = (Ok rcfg, Fs nr []) -> resolve_relay rflag None renv rtok rcfg = Ok rrelay ->
  load sconf (Fs ns []) = (Ok scfg, Fs ns []) -> resolve_relay sflag h senv stok scfg = Ok srelay ->
  Config.url srelay = Config.url rrelay ->
  printed (generate_human e0 e1 e2) (relay_host_of (Config.url rrelay)) code h ->
  (forall role i tok, relay_connect role i (Config.url rrelay) tok (RvCode.topic (generate_human e0 e1 e2)) = mret tt) ->
  metadata p = Ok (MFile m) -> m_len m = zlen content -> file_name p = Some nm -> file_at ns (join cwd p) = Some content ->
  resumable out (safe_name nm) (fingerprint [{| fr_rel := nm; fr_abs := p; fr_size := m_len m; fr_mtime := mtime_secs m |}])
    STREAM_FRAME_SIZE content nr ->
  exists k nr' wait,
    (let begin := Channel.Config
           (do_send senv stok sconf relay_connect webrtc_connect ntfy_new fuel srnd now nonce metadata cwd spool
              tar_append tar_finish tunnel_send code [p] None sflag false None no_turn (Fs ns []))
           (receive_relay_cli renv rtok rconf tar relay_connect fuel rrnd n e0 e1 e2 out true true rflag stdin (Fs nr []))
           [] [] in
     let fin := Channel.Config (Done (Ok tt, Fs ns [])) (Recv wait) [] [] in
     forall j c, nsteps (step cap) j begin c -> (j <= k)%nat /\ nsteps (step cap) (k - j) c fin)
    /\ (forall r, wait r = Done (Ok (Some tt), Fs nr' []))
    /\ file_at nr' (out ++ [safe_name nm]) = Some content
    /\ (forall q, partial_dir out (safe_name nm) `prefix_of` q -> nr' !! q = None).
Proof.
  intros Hcap Hfuel Hn Hlen Hlr Hrr Hls Hrs Hurl Hcode Hconn Hm Hsz Hnm Hfile (Hst & Hinv & Hdest).
  pose proof (prepare_file metadata cwd spool tar_append tar_finish p nm m (Fs ns []) Hm Hnm) as Hp.
  set (tid := fingerprint [_]) in *. rewrite Hsz in Hp.
  eapply (cli_runs cap fuel n renv rtok rconf rcfg rflag rrelay nr out e0 e1 e2 true stdin tar rrnd senv stok sconf scfg sflag srelay ns ns);
    try done.
  { unfold accept_decision. by rewrite andb_false_r. }
  { repeat constructor; cbn; [apply zlen_nonneg|done]. }
  intros st n0 Hr Hall.
  destruct (finalize_exec out (safe_name nm) tid STREAM_FRAME_SIZE content frame_size_ok (safe_name_plain nm) tar nr st n0
    (stream_manifest (Blob KFile nm [{| e_path := nm; e_size := zlen content |}] (zlen content) tid (join cwd p) None))
    {| blake3_hex := hex_encode (blake3_hash content) |}) as (nr' & Hf & Hc & Hgone & _); try done; [by destruct Hst|]. by exists nr'.
Qed.

Module Example.
#[local] Existing Instances toy_url Toy.spake2 Toy.aead Toy.blake3 Toy.base58 toy_toml.
#[local] Existing Instances Transfer.Example.toy_manifest Transfer.Example.toy_ack Transfer.Example.toy_commit
  Transfer.Example.toy_commit_ack Transfer.Example.toy_state.
#[local] Instance turn_crates : TurnCrates :=
  {| hmac_sha1 k m := k ++ m; base64_encode _ := ""; form_urlencoded _ := [] |}.

Definition code : RendezvousCode := generate_human Byte.x07 Byte.x00 Byte.x01.
(** The relay that connects everybody; the only file; no tunnel. *)
Definition dial_ok (_ : Role) (_ : nat) (_ : string) (_ : option string) (_ : string) : prog unit := mret tt.
Definition webrtc (_ : Role) (_ : list IceServer) (_ : string) : prog unit := mret tt.
Definition meta (p : string) : res Metadata :=
  if String.eqb p "/data/f" then Ok (MFile {| m_len := 1; m_modified := None |}) else Err (EIo "No such file or directory").
Definition source : gmap path node := {[ ["data"; "f"] := File [Byte.x41] ]}.

Lemma cli_delivers_witness :
  exists nr', file_at nr' ["out"; "f"] = Some [Byte.x41].
Proof.
  destruct (cli_delivers 1 1 1
    (Some "wss://r.example") None ["etc"] default_config None {| Config.url := "wss://r.example"; Config.token := None |}
    Transfer.Example.disk ["out"] Byte.x07 Byte.x00 Byte.x01 (fun _ => None) (fun _ _ => mret tt) (fun _ => [])
    None None ["etc"] default_config None {| Config.url := "wss://r.example"; Config.token := None |}
    source meta [] [] (fun _ _ => mret tt) (mret tt) (fun _ _ => mret "") 0 "" (fun _ => [Byte.x01])
    dial_ok webrtc (fun _ => Ok tt) (url_spelling code (Some "r.example")) (Some "r.example") "/data/f" "f"
    {| m_len := 1; m_modified := None |} [Byte.x41]) as (k & nr' & w & _ & _ & H1 & _).
  - lia.
  - lia.
  - lia.
  - reflexivity.
  - vm_compute. reflexivity.
  - vm_compute. reflexivity.
  - vm_compute. reflexivity.
  - vm_compute. reflexivity.
  - reflexivity.
  - apply (printed_pasted code "r.example"). split; [discriminate|reflexivity].
  - reflexivity.
  - reflexivity.
  - reflexivity.
  - vm_compute. reflexivity.
  - vm_compute. reflexivity.
  - change (safe_name "f") with (safe_name "../f"). apply Transfer.Example.disk_resumable.
  - exists nr'. exact H1.
Defined.
End Example.
