(* ===== verification/Resume.v ===== *)
(** * The code stays valid: a receiver's wait through interrupted transfers

    The loop of [receive_relay_cli] (src/main.rs) re-arms when a connection
    is lost, also in the middle of a transfer, and the sender's next attempt
    takes up the chunks on the disk. *)

From S2P Require Import Prelude Str Libs Fs Crypto Protocol Store Archive Pake Channel Transport.
From S2P Require Import Send Stream Transfer Safety Handshake Session Main.

(** ** A receiver on a disk without faults *)

Section quiet.
Context `{Aead} `{Blake3} `{!Serde Manifest} `{!Serde StreamManifestAck} `{!Serde Commit}
  `{!Serde CommitAck} `{!Serde State}.
Variables (out : path) (nm tid : string) (content : bytes) (tar : bytes -> path -> io unit).
Hypothesis Hlen : zlen content < U64.
Local Abbreviation name := (safe_name nm).
Local Abbreviation pd := (partial_dir out (safe_name nm)).
Local Abbreviation cs := STREAM_FRAME_SIZE.
Local Abbreviation on_disk := (resumable out (safe_name nm) tid STREAM_FRAME_SIZE content).

(** The disk between attempts, and while the store is open. *)
Definition waits (s : fs) : Prop := faults s = [] /\ on_disk (nodes s).
Definition works (st : Store) (s : fs) : Prop :=
  faults s = [] /\ opened out nm tid content st (nodes s) /\ usable pd (nodes s).

Lemma works_waits st s : works st s -> waits s.
Proof. intros (Hf & Ho & _). split; [done|]. by eapply opened_idle. Qed.

Lemma finalize_quiet m commit st s :
  kind m = KFile -> works st s ->
  match finalize tar st m commit out name s with
  | (Ok _, s') => (waits s' /\ delivered out nm content (nodes s')) /\ waits s'
  | (Err _, s') => waits s'
  | (Panic, _) => False
  end.
Proof.
  intros Hk Hw. pose proof (works_waits _ _ Hw) as Hi. destruct s as [n fl], Hw as (Hf & Ho & Hu). cbn [faults nodes] in *. subst fl.
  pose proof Ho as (Hsh & Hst). pose proof (opened_no_panic out nm tid content _ _ Ho) as Hnp.
  destruct (is_complete st) as [[]|e|] eqn:Ec; [| |by unfold finalize; rewrite Ec|done].
  2: { unfold finalize. by rewrite Ec. }
  pose proof (complete_content out name tid cs content frame_size_ok _ _ Hst Ec) as Hc.
  destruct (decide (hex_encode (blake3_hash content) = blake3_hex commit)) as [Hh|Hh].
  - destruct (finalize_complete out name tid cs content frame_size_ok (safe_name_plain nm) tar n st n m commit)
      as (n' & -> & Hd & Hgone & Hsame); try done; [apply Hsh..|].
    assert (waits (Fs n' [])) by (split; [done|]; eapply (placed_resumable out name); [apply safe_name_plain|apply Hi|done..]). done.
  - unfold finalize. rewrite Ec. unfold mbind, io_bind, io_lift. cbn [negb].
    rewrite (file_hash_runs out name st n content) by (by apply Hst || done).
    unfold mret, io_ret. by destruct (String.eqb_spec (hex_encode (blake3_hash content)) (blake3_hex commit)).
Qed.

(** A transfer that ends anyhow leaves the disk ready for the next. *)
Lemma recv_blob_quiet sk m s :
  mf_transfer_id m = tid -> mf_total_size m = zlen content -> mf_chunk_size m = cs -> kind m = KFile -> waits s ->
  may (honest sk content m) (recv_blob tar sk m out name s)
    (ends (fun _ s' => waits s' /\ delivered out nm content (nodes s')) (fun _ => waits)).
Proof.
  intros E1 E2 E3 Hk [Hf Hd].
  apply (recv_blob_may sk tar (honest sk content m) waits works) with (total := n_chunks cs content).
  - apply works_waits.
  - intros st i ct p f (Hf' & [Hsh Hst] & Hu) Hi [_ Hc] Hp. rewrite (Hc i p Hi Hp).
    destruct (write_chunk_runs pd tid cs content frame_size_ok Hlen st i f Hi Hst Hf' Hu) as (f' & Hw & Hf1 & Hu1).
    pose proof (write_chunk_inv pd tid cs content frame_size_ok Hlen st i f Hi Hst) as Hi1.
    pose proof Hst as ((Hdir & Hdp & Hsp & _) & _).
    pose proof (write_chunk_shape out name (safe_name_plain nm) st i (chunk cs i content) f Hdir Hdp Hsp Hsh) as Hsh1.
    rewrite Hw in *. split; [done|]. split; [|done]. split; [done|]. by destruct Hi1 as (_ & ? & _).
  - done.
  - unfold Manifest_total_chunks. rewrite E2, E3. by apply div_ceil_ok.
  - intros st f (_ & Ho & _). by eapply opened_no_panic.
  - intros st commit f ct Hw _ _. by apply finalize_quiet.
  - rewrite E1, E2, E3. destruct s as [n fl]. cbn [faults nodes] in *. subst fl.
    pose proof Hd as (Hst & Hinv & Hdest). pose proof (stageable_creatable out name (safe_name_plain nm) n Hst) as Hcr.
    destruct (open_or_create_runs out name tid cs content frame_size_ok Hlen (Fs n []) eq_refl Hcr) as (st & s' & Ho & Hf' & Hu & _).
    pose proof (open_or_create_inv out name tid cs content frame_size_ok Hlen (Fs n []) ltac:(by left) Hinv) as Hi.
    pose proof (open_or_create_shape out name (safe_name_plain nm) tid (zlen content) cs (Fs n []) (conj Hst Hdest)) as Hsh.
    rewrite Ho in *. done.
Qed.
End quiet.

(** ** One attempt *)

Lemma may_imp {A} (P P' : bytes -> Prop) (p : proc A) (Q : A -> Prop) :
  (forall m, P' m -> P m) -> may P p Q -> may P' p Q.
Proof. intros HP. induction p as [a|m k IH|k IH]; simpl; intros H; [done|auto|]. intros r Hr Hm. apply IH, H; auto. Qed.

Section attempts.
Context `{Spake2} `{Aead} `{Blake3} `{!Serde Manifest} `{!Serde StreamManifestAck} `{!Serde Commit}
  `{!Serde CommitAck} `{!Serde State}.
Variables (tar : bytes -> path -> io unit) (fuel : nat) (topic : string) (secret : bytes).
Variables (out : path) (nm tid : string) (src : path) (es : list Entry) (sp : option path) (content : bytes).
Variables (accept : nat -> gmap path node -> Manifest -> bool) (P : bytes -> Prop).
Hypothesis Hlen : zlen content < U64.
Local Abbreviation source := (Blob KFile nm es (zlen content) tid src sp).
Local Abbreviation waiting_disk := (waits out nm tid content).
Local Abbreviation placed := (delivered out nm content).

(** Whoever proves a key of this code sends, under it, junk and the frames of
    the file. *)
Definition honest_senders (rnd : nat -> bytes) : Prop := forall j key ct,
  authenticated (rnd j) topic secret Receiver P key -> P ct ->
  honest (stream_key key) content (stream_manifest source) ct.

Definition settled (o : res string * fs) : Prop := ends (fun _ s' => waiting_disk s' /\ placed (nodes s')) (fun _ => waiting_disk) o.

Lemma recv_into_quiet key acc s :
  (forall ct, P ct -> honest (stream_key key) content (stream_manifest source) ct) -> waiting_disk s ->
  may P (recv_into tar key out acc s) settled.
Proof.
  intros HP Hs. apply (may_imp _ P _ _ HP). apply recv_into_may; [| |done].
  - intros ct m Hct Hm _ _ _. pose proof (proj1 Hct m Hm) as ->. by apply recv_blob_quiet.
  - intros ct m Hct Hm Hk. by pose proof (proj1 Hct m Hm) as ->.
Qed.

(** A connection that was made, or that the relay closed first. *)
Definition dials (connect : prog unit) : Prop := forall s,
  connect s = Done (Ok tt, s) \/ exists e, connect s = Done (Err e, s) /\ downcast is_wait_closed e = true.

Lemma attempt_settles connect rnd j s :
  dials connect -> honest_senders rnd -> waiting_disk s ->
  may P (receive_relay tar connect fuel (rnd j) topic secret out (accept j) s) settled.
Proof.
  intros Hc Hh Hs. unfold receive_relay. eapply (may_prog_bind _ _ _ _ (fun _ s' => s' = s)).
  { unfold prog_map_err. by destruct (Hc s) as [-> |(e & -> & _)]; cbn [proc_bind map_err may]. }
  intros _ ? ->. eapply (may_prog_bind _ _ _ _ (fun key s' => s' = s /\ authenticated (rnd j) topic secret Receiver P key)).
  { unfold prog_map_err. eapply may_bind; [apply handshake_channel_may|].
    intros [[key|e|] s'] (Hp & Hs' & Hk); cbn [fst snd map_err may] in *; [|by subst|done]. split; [done|by apply Hk]. }
  intros key ? [-> Ha]. eapply (may_prog_bind _ _ _ _ (fun _ s' => waiting_disk s' /\ placed (nodes s'))).
  { eapply may_mono; [apply recv_into_quiet; [by intros ct; apply (Hh j)|done]|]. by intros [[d|e|] s']. }
  intros d s' Hd. eapply (may_prog_bind _ _ _ _ (fun _ s2 => s2 = s')); [by intros r|]. by intros _ ? ->.
Qed.

(** ** The loop *)

Definition rested (o : res (option unit) * fs) : Prop :=
  ends (fun r s' => waiting_disk s' /\ (r = Some tt -> placed (nodes s'))) (fun _ => waiting_disk) o.

Lemma loop_rests n connect rnd i busy_retries s :
  (forall j, dials (connect j)) -> honest_senders rnd -> waiting_disk s ->
  may P (receive_loop n i (fun j => receive_relay tar (connect j) fuel (rnd j) topic secret out (accept j)) busy_retries s) rested.
Proof.
  intros Hc Hh. revert i busy_retries s. induction n as [|n IH]; intros i b s Hs; cbn [receive_loop]; [done|].
  eapply may_bind; [by apply attempt_settles|]. intros [[d|e|] s'] Hd; cbn [settled ends] in Hd; [|..|done].
  - cbn. by destruct Hd.
  - destruct (on_attempt b (Err e)) as [r|b' d] eqn:Eo; [|by apply IH].
    assert (Hr : exists e', r = Err e') by (unfold on_attempt in Eo; repeat case_match; simplify_eq; eauto).
    by destruct Hr as [e' ->].
Qed.

(** The next attempt, when a sender of the file makes it. *)
Lemma next_delivers cap n i connect rnd b rS ns s :
  (1 <= cap)%nat -> (1 <= fuel)%nat -> Forall (fun e => u64_ok (e_size e)) es -> file_at ns src = Some content ->
  (forall n', accept i n' (stream_manifest source) = true) -> (forall s, connect i s = Done (Ok tt, s)) -> waiting_disk s ->
  exists k nr' wait,
    (let begin := Config (send_relay (mret tt) fuel rS topic secret source (Fs ns []))
       (receive_loop (S n) i (fun j => receive_relay tar (connect j) fuel (rnd j) topic secret out (accept j)) b s) [] [] in
     let fin := Config (Done (Ok "transfer complete", Fs ns [])) (Recv wait) [] [] in
     forall j c, nsteps (step cap) j begin c -> (j <= k)%nat /\ nsteps (step cap) (k - j) c fin)
    /\ (forall r, wait r = Done (Ok (Some tt), Fs nr' []))
    /\ placed nr' /\ (forall q, partial_dir out (safe_name nm) `prefix_of` q -> nr' !! q = None).
Proof.
  intros Hcap Hfuel Hes Hsrc Hacc Hc [Hf Hd]. destruct s as [n0 fl]. cbn [faults nodes] in *. subst fl.
  destruct (session_exec cap fuel topic secret rS (rnd i) src ns out nm tid es sp content tar (accept i) n0)
    as (nr' & Hrun & Hfile & Hgone); try done.
  cbn [receive_loop]. rewrite receive_relay_connected by done.
  match goal with |- context [proc_bind _ ?K] => set (K0 := K) end.
  pose proof (rtc_bind_r cap K0 _ _ Hrun) as Hrun'. cbn [left_proc right_proc to_left to_right proc_bind] in Hrun'.
  apply rtc_nsteps in Hrun' as [k Hk]. exists k, nr'. eexists. split; [|split; [|done]].
  - intros begin fin. apply runs_converge; [|exact Hk]. by inversion 1.
  - done.
Qed.
End attempts.

(** ** Property *)

(** C2: The code stays valid through interruptions: a receiver waits, its disk
    without faults, and any number of attempts are lost at any point, made by
    strangers or closed by the relay; those who prove a key of the code send
    nothing under it but the file's frames and junk, in any order. Then the
    receiver does not panic, it reports success only with the file in place,
    its disk can always be resumed from, and while it waits, the next attempt
    the file's sender makes, if its manifest is accepted then, delivers: every interleaving can be continued to
    the sender done, the file in place, the staging directory gone, and the
    receiver successful whatever comes of its last wait. *)
Theorem interrupted_wait_delivers `{Spake2} `{Aead} `{Blake3} `{!Serde Manifest} `{!Serde StreamManifestAck}
    `{!Serde Commit} `{!Serde CommitAck} `{!Serde State}
    tar connect fuel rnd topic secret src out nm tid es sp content accept (P : bytes -> Prop) n i busy_retries nr :
  let source := Blob KFile nm es (zlen content) tid src sp in
  let attempt := fun j => receive_relay tar (connect j) fuel (rnd j) topic secret out (accept j) in
  zlen content < U64 -> (forall j, dials (connect j)) ->
  (forall j key ct, authenticated (rnd j) topic secret Receiver P key -> P ct ->
     honest (stream_key key) content (stream_manifest source) ct) ->
  resumable out (safe_name nm) tid STREAM_FRAME_SIZE content nr ->
  may P (receive_loop n i attempt busy_retries (Fs nr []))
    (fun o => o.1 <> Panic /\ resumable out (safe_name nm) tid STREAM_FRAME_SIZE content (nodes o.2)
     /\ (o.1 = Ok (Some tt) -> file_at (nodes o.2) (out ++ [safe_name nm]) = Some content)
     /\ (o.1 = Ok None -> forall cap n' b rS ns,
          (1 <= cap)%nat -> (1 <= fuel)%nat -> Forall (fun e => u64_ok (e_size e)) es -> file_at ns src = Some content ->
          (forall n', accept (i + n)%nat n' (stream_manifest source) = true) -> (forall s, connect (i + n)%nat s = Done (Ok tt, s)) ->
          exists k nr' wait,
            (let begin := Config (send_relay (mret tt) fuel rS topic secret source (Fs ns []))
               (receive_loop (S n') (i + n) attempt b o.2) [] [] in
             let fin := Config (Done (Ok "transfer complete", Fs ns [])) (Recv wait) [] [] in
             forall j c, nsteps (step cap) j begin c -> (j <= k)%nat /\ nsteps (step cap) (k - j) c fin)
            /\ (forall r, wait r = Done (Ok (Some tt), Fs nr' []))
            /\ file_at nr' (out ++ [safe_name nm]) = Some content
            /\ (forall q, partial_dir out (safe_name nm) `prefix_of` q -> nr' !! q = None))).
Proof.
  intros source attempt Hlen Hc Hh Hr. eapply may_mono; [by apply (loop_rests tar fuel topic secret out nm tid src es sp content)|].
  assert (Hon : forall s, waits out nm tid content s -> resumable out (safe_name nm) tid STREAM_FRAME_SIZE content (nodes s)) by (by intros s []).
  intros [[r|e|] s'] Hs; cbn [rested ends fst snd] in *; [destruct Hs as [Hs Hp]| |done]; (split; [done|]; split; [by apply Hon|]).
  - split; [intros [= ->]; by apply Hp|]. intros _ cap n' b rS ns Hcap Hfuel Hes Hsrc Hacc Hcn.
    by apply (next_delivers tar fuel topic secret out nm tid src es sp content accept Hlen).
  - by split.
Qed.

(** ** A wait that two lost attempts interrupt *)

Module Example.
#[local] Existing Instances Toy.spake2 Toy.aead Toy.blake3 Transfer.Example.toy_manifest Transfer.Example.toy_ack
  Transfer.Example.toy_commit Transfer.Example.toy_commit_ack Transfer.Example.toy_state.
Local Abbreviation one := (Blob KFile "../f" [] 1 "t" ["s"] None).
Definition key : SessionKey := {| session_key := Toy.pad32 ([Byte.x07] ++ identity "room") |}.
(** A whole handshake, the manifest and the first frame; nothing more comes,
    or all of it again, or noise. *)
Definition cut_short : list bytes :=
  [ encode_frame KIND_PAKE Sender (snd (start [] [Byte.x07] "room"));
    encode_frame KIND_CONFIRM Sender (confirmation key Sender);
    seal_val (stream_key key) DStreamToReceiver 0 (stream_manifest one);
    Crypto.seal (stream_key key) DStreamToReceiver 1 [] [Byte.x41]; [Byte.x00] ].

Lemma cut_short_key k : authenticated [] "room" [Byte.x07] Receiver (fun m => m ∈ cut_short) k -> k = key.
Proof.
  intros (f1 & f2 & m & Hf1 & Hd & Hk & _). unfold cut_short in Hf1.
  repeat (apply elem_of_cons in Hf1 as [->|Hf1]; [vm_compute in Hd; try discriminate; injection Hd as <-;
    vm_compute in Hk; by injection Hk as <-|]).
  by apply elem_of_nil in Hf1.
Qed.
Lemma cut_short_honest ct : ct ∈ cut_short -> honest (stream_key key) [Byte.x41] (stream_manifest one) ct.
Proof.
  intros Hct. split.
  - intros m Hm. unfold cut_short in Hct.
    repeat (apply elem_of_cons in Hct as [->|Hct]; [vm_compute in Hm; try discriminate; by injection Hm as <-|]).
    by apply elem_of_nil in Hct.
  - intros i p Hi Hp. assert (i = 0) as ->. { assert (E : n_chunks STREAM_FRAME_SIZE [Byte.x41] = 1) by reflexivity. lia. }
    unfold cut_short in Hct.
    repeat (apply elem_of_cons in Hct as [->|Hct]; [vm_compute in Hp; try discriminate; by injection Hp as <-|]).
    by apply elem_of_nil in Hct.
Qed.
Lemma interrupted_wait_delivers_witness :
  may (fun m => m ∈ cut_short)
    (receive_loop 2 0 (fun j => receive_relay (fun _ _ => mret tt) (mret tt) 1 [] "room" [Byte.x07] ["out"] (fun _ _ => true)) 0
       (Fs Transfer.Example.disk []))
    (fun o => o.1 = Ok None -> exists nr' wait,
       rtc (step 1) (Config (send_relay (mret tt) 1 [] "room" [Byte.x07] one (Fs {[ ["s"] := File [Byte.x41] ]} []))
            (receive_loop 1 2 (fun j => receive_relay (fun _ _ => mret tt) (mret tt) 1 [] "room" [Byte.x07] ["out"] (fun _ _ => true)) 0 o.2) [] [])
          (Config (Done (Ok "transfer complete", Fs {[ ["s"] := File [Byte.x41] ]} [])) (Recv wait) [] [])
       /\ file_at nr' ["out"; "f"] = Some [Byte.x41]).
Proof.
  eapply may_mono; [apply (interrupted_wait_delivers (fun _ _ => mret tt) (fun _ => mret tt) 1 (fun _ => []) "room" [Byte.x07] ["s"] ["out"]
    "../f" "t" [] None [Byte.x41] (fun _ _ _ => true) (fun m => m ∈ cut_short) 2 0 0 Transfer.Example.disk)|].
  - reflexivity.
  - intros j s. by left.
  - intros j k ct Hk%cut_short_key. subst k. apply cut_short_honest.
  - apply Transfer.Example.disk_resumable.
  - intros o (_ & _ & _ & Hn) Ho.
    destruct (Hn Ho 1%nat 0%nat 0 [] {[ ["s"] := File [Byte.x41] ]}) as (k & nr' & w & Hrun & _ & Hfile & _);
      [lia|lia|constructor|reflexivity|reflexivity|reflexivity|].
    exists nr', w. split; [|exact Hfile]. destruct (Hrun 0%nat _ (nsteps_O _ _)) as [_ Hk]. rewrite Nat.sub_0_r in Hk.
    by eapply rtc_nsteps_2.
Defined.
End Example.
