(* ===== verification/AnyPeer.v ===== *)
(** * The receiver's command and the sender's session against anyone

    [b2p receive] over a relay, and [send_relay] (src/main.rs,
    src/session.rs, src/stream.rs), with every message of every attempt, every
    failure of the channel and every fault of the disk left to an adversary. *)

From S2P Require Import Prelude Str Libs Fs Crypto Protocol Store Archive Pake Channel.
From S2P Require Import Send Stream Transfer Safety Nonces Sender Handshake Session Config RvCode Code Main Resume.

(** ** The steps before the wait *)

Lemma resolve_not_panic flag code_host env_url env_token file : resolve_relay flag code_host env_url env_token file <> Panic.
Proof.
  assert (Hn : forall o, normalize_opt o <> Panic).
  { intros [s|]; [|done]. cbn. pose proof (normalize_not_panic s). by destruct (normalize_relay_url s). }
  unfold resolve_relay.
  match goal with |- (?own ≫= _) <> _ => assert (Ho : own <> Panic) by (repeat case_match; apply Hn); destruct own as [o|e|]; [|done|done] end.
  cbn [mbind res_bind].
  destruct flag as [f|]; [pose proof (normalize_not_panic f); by destruct (normalize_relay_url f)|].
  destruct code_host as [h|]; [|by destruct o].
  cbv zeta. match goal with |- context [normalize_relay_url ?h] => pose proof (normalize_not_panic h) end.
  by destruct (normalize_relay_url _).
Qed.
Lemma mkdirs_there ps n : (forall p, p ∈ ps -> n !! p = Some Dir) -> mkdirs ps n = (Ok tt, n).
Proof.
  induction ps as [|p ps IH]; intros Hp; [done|]. cbn [mkdirs]. rewrite (Hp p) by (by left). apply IH. intros q Hq. apply Hp. by right.
Qed.
Lemma create_out_ends out s : dir_path (nodes s) out ->
  ends (fun _ s' => nodes s' = nodes s) (fun _ s' => nodes s' = nodes s) (create_dir_all out s).
Proof.
  intros Hout. unfold create_dir_all, sys.
  assert (Hm : forall k, mkdirs (take k (prefixes out)) (nodes s) = (Ok tt, nodes s)).
  { intros k. apply mkdirs_there. intros p Hp. apply Hout. by eapply elem_of_take in Hp as (i & Hi%list_elem_of_lookup_2 & _). }
  assert (Hall : mkdirs (prefixes out) (nodes s) = (Ok tt, nodes s)) by (by apply mkdirs_there).
  destruct (faults s) as [|[| |k] fl]; cbn; rewrite ?Hall, ?Hm; done.
Qed.
Lemma load_ends `{Toml} p s :
  ends (fun _ s' => nodes s' = nodes s) (fun _ s' => nodes s' = nodes s) (load p s).
Proof.
  unfold load, mbind, io_bind, io_try, fs_read, sys.
  destruct (faults s) as [|[| |k] fl]; cbn; try (destruct (nodes s !! p) as [[|b]|]); cbn; by repeat case_match.
Qed.

(** ** What attempts may touch *)

(** [n] differs from [n0] at most in the destinations and the staging
    directories of [names]. *)
Definition confined (out : path) (names : list string) (n0 n : gmap path node) : Prop :=
  forall q, (forall nm, nm ∈ names -> ~ partial_dir out nm `prefix_of` q /\ q <> out ++ [nm]) -> n !! q = n0 !! q.

Lemma confined_nil out n : confined out [] n n.
Proof. by intros q _. Qed.
Lemma confined_cons out nm names n0 n1 n : outside out nm n0 n1 -> confined out names n1 n -> confined out (nm :: names) n0 n.
Proof.
  intros H1 H2 q Hq. rewrite (H2 q) by (intros nm' Hn; apply Hq; by right).
  destruct (Hq nm ltac:(by left)) as [Hp Hd]. by apply H1.
Qed.
(** What [n0] has, staging directories apart, [n] has still. *)
Definition spared (out : path) (names : list string) (n0 n : gmap path node) : Prop :=
  forall q x, n0 !! q = Some x -> (forall nm, nm ∈ names -> ~ partial_dir out nm `prefix_of` q) -> n !! q = Some x.
Lemma spared_refl out names n : spared out names n n.
Proof. by intros q x Hq _. Qed.
Lemma spared_cons out nm names n0 n1 n : spared out [nm] n0 n1 -> spared out names n1 n -> spared out (nm :: names) n0 n.
Proof.
  intros H1 H2 q x Hq Hn. apply H2; [|intros nm' Hm; apply Hn; by right]. apply H1; [done|].
  intros nm' Hm%list_elem_of_singleton. subst nm'. apply Hn. by left.
Qed.
Lemma outside_spared out nm n0 n : outside out nm n0 n -> n0 !! (out ++ [nm]) = None -> spared out [nm] n0 n.
Proof.
  intros Ho Hd q x Hq Hn. rewrite (Ho q); [done|apply Hn; by left|]. intros ->. by rewrite Hd in Hq.
Qed.

(** Files are accepted only where there is nothing. *)
Definition careful (out : path) (accept : gmap path node -> Manifest -> bool) : Prop := forall n m,
  dir_path n out -> accept n m = true -> kind m = KFile -> n !! (out ++ [safe_name (name m)]) = None.
Lemma accept_careful stdin out : careful out (accept_decision stdin out true false).
Proof.
  intros n m Hout Ha Hk. unfold accept_decision in Ha. cbn [negb] in Ha. rewrite bool_decide_true, andb_true_r in Ha by done. cbn [andb] in Ha.
  apply negb_true_iff in Ha. unfold safe_name. destruct (file_name (name m)) as [fn|] eqn:Ef; cbn [default] in *.
  - rewrite join_plain in Ha by (by eapply file_name_plain). apply eq_None_not_Some. intros Hx. unfold path_exists in Ha.
    change (id fn) with fn in *. destruct (out ++ [fn]) eqn:E; [by destruct out|]. by apply bool_decide_eq_false in Ha.
  - change (join out "") with out in Ha. unfold path_exists in Ha. destruct out as [|d o] eqn:Eo; [done|].
    apply bool_decide_eq_false in Ha. destruct Ha. exists Dir. apply Hout. by apply self_prefix.
Qed.

Lemma outside_dir_path out nm n0 n : plain_name nm -> outside out nm n0 n -> dir_path n0 out -> dir_path n out.
Proof.
  intros Hnm Ho Hout p Hp. rewrite (Ho p); [by apply Hout| |].
  - rewrite partial_dir_plain by done. intros [k E]. apply elem_of_prefixes in Hp.
    apply (f_equal length) in E. rewrite !length_app in E. simpl in E. lia.
  - intros ->. apply elem_of_prefixes in Hp. rewrite length_app in Hp. simpl in Hp. lia.
Qed.

Section attempts.
Context `{Spake2} `{Aead} `{Blake3} `{!Serde Manifest} `{!Serde StreamManifestAck} `{!Serde Commit}
  `{!Serde CommitAck} `{!Serde State}.
Variables (tar : bytes -> path -> io unit) (fuel : nat) (topic : string) (secret : bytes) (rnd : nat -> bytes).
Variables (out : path) (accept : nat -> gmap path node -> Manifest -> bool) (P : bytes -> Prop).

(** Nobody with a key sends an archive. *)
Definition no_archives : Prop := forall j key ct m,
  authenticated (rnd j) topic secret Receiver P key -> P ct ->
  open_val (T := Manifest) (stream_key key) DStreamToReceiver 0 ct = Ok m -> kind m <> KTar.

(** What a success of attempt [j] rests on: a peer proved a key of the code,
    and under that key came a manifest that the user accepted and, for a
    file, the commit of the very bytes at the destination. *)
Definition earned (j : nat) (n : gmap path node) : Prop :=
  exists key ct m before,
    authenticated (rnd j) topic secret Receiver P key /\ P ct
    /\ open_val (T := Manifest) (stream_key key) DStreamToReceiver 0 ct = Ok m
    /\ accept j before m = true /\ (kind m = KText \/ kind m = KFile /\ verified key out P m n).

Definition touched (n0 n : gmap path node) : Prop :=
  exists nm, plain_name nm /\ outside out nm n0 n /\ ((forall j, careful out (accept j)) -> spared out [nm] n0 n).
Definition tried (j : nat) (n0 : gmap path node) (o : res string * fs) : Prop :=
  o.1 <> Panic /\ touched n0 (nodes o.2) /\ forall d, o.1 = Ok d -> earned j (nodes o.2).

Lemma attempt_tried connect j s :
  no_archives -> (forall s, exists r, r <> Panic /\ connect s = Done (r, s)) -> dir_path (nodes s) out ->
  may P (receive_relay tar connect fuel (rnd j) topic secret out (accept j) s) (tried j (nodes s)).
Proof.
  intros Hna Hc Hout. assert (Hsame : forall s', nodes s' = nodes s -> touched (nodes s) (nodes s')).
  { intros s' ->. exists (safe_name ""). split; [apply safe_name_plain|]. split; [by intros q|]. intros _. apply spared_refl. }
  assert (Hplaced : forall m n, kind m = KFile -> accept j (nodes s) m = true -> outside out (safe_name (name m)) (nodes s) n -> touched (nodes s) n).
  { intros m n Hk Hm Ho. exists (safe_name (name m)). split; [apply safe_name_plain|]. split; [done|]. intros Hca.
    apply outside_spared; [done|by eapply (Hca j)]. }
  eapply may_mono with (Q := ends (fun _ s' => touched (nodes s) (nodes s') /\ earned j (nodes s')) (fun _ s' => touched (nodes s) (nodes s'))).
  2: { intros [[d|e|] s'] Ho; cbn [ends] in Ho; [|by split|done]. destruct Ho as [Ho He]. split; [done|]. split; [done|]. by intros d' [= <-]. }
  unfold receive_relay. eapply (may_prog_bind _ _ _ _ (fun _ s' => s' = s)).
  { unfold prog_map_err. destruct (Hc s) as (r & Hr & ->). destruct r as [[]|e|]; cbn [proc_bind map_err may]; [done|by apply Hsame|done]. }
  intros _ ? ->. eapply (may_prog_bind _ _ _ _ (fun key s' => s' = s /\ authenticated (rnd j) topic secret Receiver P key)).
  { unfold prog_map_err. eapply may_bind; [apply handshake_channel_may|].
    intros [[key|e|] s'] (Hp & Hs' & Hk); cbn [fst snd map_err may] in *; [| |done].
    - split; [done|by apply Hk].
    - subst s'. by apply Hsame. }
  intros key ? [-> Ha]. eapply (may_prog_bind _ _ _ _ (fun _ s' => touched (nodes s) (nodes s') /\ earned j (nodes s'))).
  { eapply may_mono; [apply (recv_into_any key out tar (accept j) P); [intros ct m; by apply (Hna j)|done]|].
    intros [[d|e|] s'] Ho; cbn [ends] in *; [|by destruct Ho as (nm & Hnm & Ho & [E|(m & Hk & -> & Hm)]); [apply Hsame|eapply Hplaced]|done].
    destruct Ho as (ct & m & K1 & K2 & K3 & K4). split.
    - destruct K4 as [(_ & _ & K4)|(K4 & _ & K5)]; [by apply Hsame|by eapply Hplaced].
    - exists key, ct, m, (nodes s). destruct K4 as [(K4 & _)|(K4 & K5 & _)]; repeat (split; [done|]); [by left|by right]. }
  intros d s' Hd. eapply (may_prog_bind _ _ _ _ (fun _ s2 => s2 = s')); [by intros r|]. by intros _ ? ->.
Qed.

(** The loop, whoever comes. *)
Definition waited (i n : nat) (n0 : gmap path node) (o : res (option unit) * fs) : Prop :=
  o.1 <> Panic
  /\ (exists names, Forall plain_name names /\ (length names <= n)%nat /\ confined out names n0 (nodes o.2)
       /\ ((forall j, careful out (accept j)) -> spared out names n0 (nodes o.2)))
  /\ (o.1 = Ok (Some tt) -> exists j, (i <= j < i + n)%nat /\ earned j (nodes o.2)).

Lemma loop_waits connect n i b s :
  no_archives -> (forall j s, exists r, r <> Panic /\ connect j s = Done (r, s)) -> dir_path (nodes s) out ->
  may P (receive_loop n i (fun j => receive_relay tar (connect j) fuel (rnd j) topic secret out (accept j)) b s) (waited i n (nodes s)).
Proof.
  intros Hna Hc. revert i b s. induction n as [|n IH]; intros i b s Hout; cbn [receive_loop].
  { split; [done|]. split; [|done]. exists []. split; [done|]. split; [done|]. split; [apply confined_nil|]. intros _. apply spared_refl. }
  eapply may_bind; [by apply attempt_tried|]. intros [r s'] (Hp & (nm & Hnm & Ho & Hsp) & He). cbn [fst snd] in *.
  assert (Hone : exists names, Forall plain_name names /\ (length names <= S n)%nat /\ confined out names (nodes s) (nodes s')
    /\ ((forall j, careful out (accept j)) -> spared out names (nodes s) (nodes s'))).
  { exists [nm]. split; [by constructor|]. split; [simpl; lia|]. split; [|done]. eapply confined_cons; [done|apply confined_nil]. }
  destruct (on_attempt b r) as [v|b' d] eqn:Eo.
  - assert (Hv : v <> Panic /\ (v = Ok tt -> exists d, r = Ok d)).
    { unfold on_attempt in Eo. destruct r as [d|e|]; [injection Eo as <-; by eauto| |done]. repeat case_match; by simplify_eq. }
    destruct Hv as [Hv1 Hv2]. cbn [may]. split; [by destruct v|]. split; [done|]. cbn [fst snd].
    intros E. destruct v as [[]|e|]; [|done..]. destruct (Hv2 eq_refl) as [d ->]. exists i. split; [lia|]. by eapply He.
  - eapply may_mono; [apply IH; by eapply outside_dir_path|]. intros [r2 s2] (K1 & (names & K2 & K3 & K4 & K6) & K5). cbn [fst snd] in *.
    split; [done|]. split.
    + exists (nm :: names). split; [by constructor|]. split; [simpl; lia|]. split; [by eapply confined_cons|].
      intros Hca. eapply spared_cons; [by apply Hsp|by apply K6].
    + intros E. destruct (K5 E) as (j & Hj & Hje). exists j. split; [lia|done].
Qed.
End attempts.

(** What comes before the wait leaves the disk as it was. *)
Lemma command_waits `{UrlCrate} `{Spake2} `{Aead} `{Blake3} `{Base58} `{Toml}
    `{!Serde Manifest} `{!Serde StreamManifestAck} `{!Serde Commit} `{!Serde CommitAck} `{!Serde State}
    env_url env_token config_path tar relay_connect fuel rnd n e0 e1 e2 out yes overwrite relay_flag stdin (P : bytes -> Prop) s :
  let code := generate_human e0 e1 e2 in
  let accept := fun i => accept_decision (stdin i) out yes overwrite in
  (forall i url token s, exists r, r <> Panic /\ relay_connect Receiver i url token (RvCode.topic code) s = Done (r, s)) ->
  no_archives (RvCode.topic code) (RvCode.secret code) rnd P -> dir_path (nodes s) out ->
  may P (receive_relay_cli env_url env_token config_path tar relay_connect fuel rnd n e0 e1 e2 out yes overwrite relay_flag stdin s)
    (waited (RvCode.topic code) (RvCode.secret code) rnd out accept P 0 n (nodes s)).
Proof.
  intros code accept Hc Hna Hout. set (W := waited (RvCode.topic code) (RvCode.secret code) rnd out accept P 0 n (nodes s)).
  eapply may_mono with (Q := ends (fun r s' => W (Ok r, s')) (fun e s' => W (Err e, s'))).
  2: { by intros [[r|e|] s'] Ho. }
  assert (Hsame : forall e s', nodes s' = nodes s -> W (Err e, s')).
  { intros e s' Hs'. split; [done|]. split; [|done]. exists []. cbn [snd]. rewrite Hs'. split; [done|]. split; [simpl; lia|].
    split; [apply confined_nil|]. intros _. apply spared_refl. }
  unfold receive_relay_cli. fold code.
  eapply (may_prog_bind _ _ _ _ (fun _ s' => nodes s' = nodes s)).
  { apply may_io. pose proof (create_out_ends out s Hout) as Ho. destruct (create_dir_all out s) as [[u|e|] s']; cbn [ends] in Ho; [done|by apply Hsame|done]. }
  intros _ s1 E1. eapply (may_prog_bind _ _ _ _ (fun _ s' => nodes s' = nodes s)).
  { apply may_io. pose proof (load_ends config_path s1) as Ho. destruct (load config_path s1) as [[u|e|] s']; cbn [ends] in Ho; [congruence|apply Hsame; congruence|done]. }
  intros cfg s2 E2. eapply (may_prog_bind _ _ _ _ (fun _ s' => nodes s' = nodes s)).
  { apply may_res; [apply resolve_not_panic|done|]. intros e. by apply Hsame. }
  intros relay s3 E3. eapply (may_prog_bind _ _ _ _ (fun _ s' => nodes s' = nodes s)).
  { destruct (instructions_printed e0 e1 e2 (Config.url relay)) as (human & Hi & _). unfold code. rewrite Hi.
    apply may_res; [done|by intros|]. intros e. by apply Hsame. }
  intros _ s4 E4. eapply may_mono.
  - apply (loop_waits tar fuel (RvCode.topic code) (RvCode.secret code) rnd out accept P
      (fun i => relay_connect Receiver i (Config.url relay) (Config.token relay) (RvCode.topic code)) n 0 0 s4 Hna); [|by rewrite E4].
    intros i s'. apply Hc.
  - rewrite E4. intros [[r|e|] s'] Hw; cbn [ends]; [done|done|]. by destruct Hw as [[] _].
Qed.

(** ** Property *)

(** C6: Against anyone: whatever the relay and its clients send on up to [n]
    attempts of a receiving command, wherever the channel and the disk fail,
    and whatever flags the user gives and line (or end of input) stdin has
    for the prompt on each attempt, it does not panic; on its disk, where the
    output directory exists (the command has made it), it changes, for at most [n] plain names, the entry of the output
    directory with that name and its staging directory, and nothing else, and
    with --yes and without --overwrite nothing that was there before but in
    those staging directories; and it returns success only if, in some
    attempt, a peer proved a key of the code it printed, the user accepted a
    manifest authenticated under that key, and, for a file, the data at the
    destination has the hash that a commit authenticated under that key
    names. (Unpacking an archive is the [tar] crate's; manifests of archives
    are excluded.) *)
Theorem receive_safe_from_anyone `{UrlCrate} `{Spake2} `{Aead} `{Blake3} `{Base58} `{Toml}
    `{!Serde Manifest} `{!Serde StreamManifestAck} `{!Serde Commit} `{!Serde CommitAck} `{!Serde State}
    env_url env_token config_path tar relay_connect fuel rnd n e0 e1 e2 out yes overwrite relay_flag stdin (P : bytes -> Prop) s :
  let code := generate_human e0 e1 e2 in
  let accept := fun i => accept_decision (stdin i) out yes overwrite in
  (forall i url token s, exists r, r <> Panic /\ relay_connect Receiver i url token (RvCode.topic code) s = Done (r, s)) ->
  no_archives (RvCode.topic code) (RvCode.secret code) rnd P -> dir_path (nodes s) out ->
  may P (receive_relay_cli env_url env_token config_path tar relay_connect fuel rnd n e0 e1 e2 out yes overwrite relay_flag stdin s)
    (fun o => o.1 <> Panic
      /\ (exists names, Forall plain_name names /\ (length names <= n)%nat /\ confined out names (nodes s) (nodes o.2)
            /\ (yes = true -> overwrite = false -> spared out names (nodes s) (nodes o.2)))
      /\ (o.1 = Ok (Some tt) -> exists j, (j < n)%nat
            /\ earned (RvCode.topic code) (RvCode.secret code) rnd out accept P j (nodes o.2))).
Proof.
  intros code accept Hc Hna Hout. eapply may_mono; [by apply command_waits|].
  intros o (Hp & (names & Hn & Hl & Hco & Hs) & He). split_and!; [done| |].
  - exists names. split_and!; [done..|]. intros Hy Ho. apply Hs. intros i. unfold accept. rewrite Hy, Ho. apply accept_careful.
  - intros E. destruct (He E) as (j & Hj & Hje). exists j. split; [lia|done].
Qed.

(** ** The sender's session *)

Lemma recv_kind_sends_only P F fuel kind from (s : fs) : sends_only P F (recv_kind fuel kind from s).
Proof.
  revert s. induction fuel as [|fuel IH]; intros s; cbn [recv_kind]; [apply sends_only_done|].
  apply sends_only_prog; [apply sends_only_recv|]. intros frame s1.
  destruct (decode_frame frame) as [[[k r] payload]|]; [|apply IH]. case_match; [apply sends_only_done|apply IH].
Qed.
Lemma says_map_err {A} P F (m : prog A) s f Q (E : fpred) :
  says P F (m s) Q (fun _ => E) -> says P F (prog_map_err f m s) Q (fun _ => E).
Proof.
  intros Hm l o Ht. unfold prog_map_err in Ht. apply trace_bind in Ht as [(l1 & [r s1] & l2 & T1 & T2 & ->)|[T1 ->]].
  - destruct (Hm _ _ T1) as [Hl Ho]. specialize (Ho _ eq_refl).
    assert (Hr : ends Q (fun _ => E) (map_err f r, s1)) by (by destruct r).
    inversion T2; subst; rewrite app_nil_r; (split; [done|]); [done|by intros ? [= <-]].
  - destruct (Hm _ _ T1) as [Hl _]. by split.
Qed.

Section sender.
Context `{Spake2} `{Aead} `{Blake3} `{!Serde Manifest} `{!Serde StreamManifestAck} `{!Serde Commit}
  `{!Serde CommitAck} `{!Serde State}.
Variables (fuel : nat) (rnd : bytes) (topic : string) (secret : bytes) (source : Source) (P : bytes -> Prop).
Hypothesis Hsize : u64_ok (source_size source).

(** The sender's side of the key exchange: its message, and its tag of the key
    that whatever it received leads to. *)
Definition greeting (f : bytes) : Prop :=
  f = encode_frame KIND_PAKE Sender (snd (start rnd secret topic))
  \/ exists m key, finish (fst (start rnd secret topic)) m = Ok key
       /\ f = encode_frame KIND_CONFIRM Sender (confirmation key Sender).

Lemma handshake_sends_only s : sends_only P greeting (handshake_over_channel fuel rnd topic secret Sender s).
Proof.
  unfold handshake_over_channel, with_timeout. apply sends_only_bind; [|intros [r s1]; apply sends_only_done].
  unfold handshake_channel_inner. destruct (start rnd secret topic) as [pake my] eqn:Es.
  apply sends_only_prog; [apply sends_only_send; left; by rewrite Es|]. intros _ s1.
  apply sends_only_prog; [apply recv_kind_sends_only|]. intros m s2.
  destruct (finish pake m) as [key|e|] eqn:Ek; [|apply sends_only_done..]. rewrite prog_res_bind.
  apply sends_only_prog; [apply sends_only_send; right; exists m, key; by rewrite Es|]. intros _ s3.
  apply sends_only_prog; [apply recv_kind_sends_only|]. intros c s4. case_match; apply sends_only_done.
Qed.
Lemma handshake_says s :
  says P greeting (handshake_over_channel fuel rnd topic secret Sender s)
    (fun key s' => s' = s /\ authenticated rnd topic secret Sender P key) (fun _ s' => s' = s).
Proof.
  intros l o Ht. split; [by eapply handshake_sends_only|]. intros [r s'] ->.
  destruct (may_trace _ _ _ _ _ (handshake_channel_may fuel rnd topic secret Sender P s) Ht) as (Hp & Hs & Hk).
  destruct r as [key|e|]; cbn [ends fst snd] in *; [by split; [|apply Hk]|done|done].
Qed.

(** The file's frames, for a peer that proved the code. *)
Definition entrusted (n : gmap path node) (f : bytes) : Prop :=
  exists key, authenticated rnd topic secret Sender P key /\ disclosed key source P n f.

Lemma send_relay_says connect s : (forall s, exists r, r <> Panic /\ connect s = Done (r, s)) ->
  says P (fun f => greeting f \/ entrusted (nodes s) f) (send_relay connect fuel rnd topic secret source s)
    (fun _ s' => nodes s' = nodes s /\ exists key, authenticated rnd topic secret Sender P key /\ agreed key P
       /\ (kind (stream_manifest source) <> KText -> confirmed key P))
    (fun _ s' => nodes s' = nodes s).
Proof.
  intros Hc. unfold send_relay. eapply (says_bind _ _ _ _ _ (fun _ s' => s' = s)).
  { apply (says_map_err _ _ _ _ _ _ (fun s' => nodes s' = nodes s)). destruct (Hc s) as (r & Hr & ->). apply says_done. by destruct r. }
  intros _ ? ->. eapply (says_bind _ _ _ _ _ (fun key s' => s' = s /\ authenticated rnd topic secret Sender P key)).
  { apply (says_map_err _ _ _ _ _ _ (fun s' => nodes s' = nodes s)).
    eapply says_mono; [| | |apply handshake_says]; cbn; [by left|done|by intros ? ? ->]. }
  intros key ? [-> Ha]. eapply says_mono; [| | |by apply send_source_says].
  - intros f Hf. right. by exists key.
  - intros d s' (Hn & Hag & Hk). split; [done|]. by exists key.
  - done.
Qed.
End sender.

(** C12: What leaves the sender's machine: whatever the relay and its clients
    send, wherever the channel and the disk fail, and wherever the run stops,
    every frame of a sender's session over the relay is one of its two
    frames of the key exchange; or, once a peer has proved a key of the code,
    the manifest sealed under that key; or, once that peer has sealed an
    acceptance, a sealed chunk or the sealed hash of the one file the sender
    was given. The session does not panic, changes nothing on the disk, and
    reports success only if such a peer has accepted and, where there is a
    file, has reported it complete. *)
Theorem send_safe_from_anyone `{Spake2} `{Aead} `{Blake3} `{!Serde Manifest} `{!Serde StreamManifestAck}
    `{!Serde Commit} `{!Serde CommitAck} `{!Serde State} connect fuel rnd topic secret source (P : bytes -> Prop) s l o :
  u64_ok (source_size source) -> (forall s, exists r, r <> Panic /\ connect s = Done (r, s)) ->
  trace P (send_relay connect fuel rnd topic secret source s) l o ->
  Forall (fun f => greeting rnd topic secret f
    \/ exists key, authenticated rnd topic secret Sender P key /\ disclosed key source P (nodes s) f) l
  /\ forall r s', o = Some (r, s') -> r <> Panic /\ nodes s' = nodes s
       /\ forall d, r = Ok d -> exists key, authenticated rnd topic secret Sender P key /\ agreed key P
            /\ (kind (stream_manifest source) <> KText -> confirmed key P).
Proof.
  intros Hsize Hc Ht. destruct (send_relay_says fuel rnd topic secret source P Hsize connect s Hc l o Ht) as [HF Ho].
  split; [done|]. intros r s' Er. specialize (Ho _ Er). destruct r as [d|e|]; cbn [ends] in Ho; [|done..].
  destruct Ho as [Hn Hd]. split; [done|]. split; [done|]. by intros d' _.
Qed.

(** ** A one-byte file, cut short and in noise *)

Module Example.
#[local] Existing Instances toy_url Toy.spake2 Toy.aead Toy.blake3 Toy.base58 toy_toml.
#[local] Existing Instances Transfer.Example.toy_manifest Transfer.Example.toy_ack Transfer.Example.toy_commit
  Transfer.Example.toy_commit_ack Transfer.Example.toy_state.
Local Abbreviation code := (generate_human Byte.x07 Byte.x00 Byte.x01).
Local Abbreviation one := (Blob KFile "../f" [] 1 "t" ["s"] None).
Definition key : SessionKey :=
  Eval vm_compute in {| session_key := Toy.pad32 (RvCode.secret code ++ identity (RvCode.topic code)) |}.
(** What a sender with the code sends, and noise. *)
Definition sent : list bytes :=
  [ encode_frame KIND_PAKE Sender (snd (start [] (RvCode.secret code) (RvCode.topic code)));
    encode_frame KIND_CONFIRM Sender (confirmation key Sender);
    seal_val (stream_key key) DStreamToReceiver 0 (stream_manifest one);
    Crypto.seal (stream_key key) DStreamToReceiver 1 [] [Byte.x41]; [Byte.x00] ].

Lemma sent_no_archives : no_archives (RvCode.topic code) (RvCode.secret code) (fun _ => []) (fun m => m ∈ sent).
Proof.
  intros j k ct m (f1 & f2 & x & Hf1 & Hd & Hk & _) Hct Hm. assert (k = key) as ->.
  { unfold sent in Hf1.
    repeat (apply elem_of_cons in Hf1 as [->|Hf1]; [vm_compute in Hd; try discriminate; injection Hd as <-;
      vm_compute in Hk; by injection Hk as <-|]).
    by apply elem_of_nil in Hf1. }
  unfold sent in Hct.
  repeat (apply elem_of_cons in Hct as [->|Hct]; [vm_compute in Hm; try discriminate; by injection Hm as <-|]).
  by apply elem_of_nil in Hct.
Qed.
Lemma receive_safe_from_anyone_witness :
  may (fun m => m ∈ sent)
    (receive_relay_cli (Some "wss://r.example") None ["etc"] (fun _ _ => mret tt) Main.Example.dial_ok 1 (fun _ => []) 2
       Byte.x07 Byte.x00 Byte.x01 ["out"] true false None (fun _ => None) (Fs Transfer.Example.disk [NoFault; FailBefore]))
    (fun o => o.1 <> Panic /\ exists names, Forall plain_name names /\ (length names <= 2)%nat
       /\ confined ["out"] names Transfer.Example.disk (nodes o.2) /\ spared ["out"] names Transfer.Example.disk (nodes o.2)).
Proof.
  eapply may_mono; [apply (receive_safe_from_anyone (Some "wss://r.example") None ["etc"] (fun _ _ => mret tt) Main.Example.dial_ok 1
    (fun _ => []) 2 Byte.x07 Byte.x00 Byte.x01 ["out"] true false None (fun _ => None) (fun m => m ∈ sent)
    (Fs Transfer.Example.disk [NoFault; FailBefore]))|].
  - intros i u t s. exists (Ok tt). by split.
  - apply sent_no_archives.
  - apply Safety.Example.out_dir.
  - intros o (H1 & (names & H2 & H3 & H4 & H5) & _). split; [exact H1|]. exists names. split_and!; [done..|]. by apply H5.
Defined.

(** And the sender's side of a whole session. *)
Local Abbreviation topic := (RvCode.topic code).
Local Abbreviation secret := (RvCode.secret code).
Local Abbreviation yes := (seal_val (stream_key key) DStreamToSender 0 {| accepted := true; complete := false; have_runs := [] |}).
Local Abbreviation fine := (seal_val (stream_key key) DStreamToSender 1 (commit_ack (Ok ""))).
Definition replies : list bytes :=
  [ encode_frame KIND_PAKE Receiver (snd (start [] secret topic)); encode_frame KIND_CONFIRM Receiver (confirmation key Receiver); yes; fine ].
Local Abbreviation mine := (Fs {[ ["s"] := File [Byte.x41] ]} []).
Local Abbreviation session := (send_relay (mret tt) 1 [] topic secret one mine).
Lemma session_trace : exists l, length l = 5%nat /\ trace (fun m => m ∈ replies) session l (Some (Ok "transfer complete", mine)).
Proof.
  eexists [_; _; _; _; _]. split; [reflexivity|].
  apply (trace_send _ _ _ (Ok tt)); [done|]. apply (trace_recv _ _ (Ok (encode_frame KIND_PAKE Receiver (snd (start [] secret topic))))); [done|intros m [= <-]; by left|].
  eapply (trace_send _ _ _ (Ok tt)); [done|]. apply (trace_recv _ _ (Ok (encode_frame KIND_CONFIRM Receiver (confirmation key Receiver)))); [done|intros m [= <-]; by right; left|].
  eapply (trace_send _ _ _ (Ok tt)); [done|]. apply (trace_recv _ _ (Ok yes)); [done|intros m [= <-]; by right; right; left|].
  eapply (trace_send _ _ _ (Ok tt)); [done|]. eapply (trace_send _ _ _ (Ok tt)); [done|].
  apply (trace_recv _ _ (Ok fine)); [done|intros m [= <-]; by right; right; right; left|]. apply trace_done.
Qed.
Lemma send_safe_from_anyone_witness :
  exists l, length l = 5%nat /\ trace (fun m => m ∈ replies) session l (Some (Ok "transfer complete", mine))
    /\ Forall (fun f => greeting [] topic secret f
         \/ exists key, authenticated [] topic secret Sender (fun m => m ∈ replies) key
              /\ disclosed key one (fun m => m ∈ replies) (nodes mine) f) l.
Proof.
  destruct session_trace as (l & Hl & Ht). exists l. split; [exact Hl|]. split; [exact Ht|].
  apply (send_safe_from_anyone (mret tt : prog unit) 1 [] topic secret one (fun m => m ∈ replies) mine l _ ltac:(by split)
    (fun s => ex_intro _ (Ok tt) (conj (ltac:(discriminate) : (Ok tt : res unit) <> Panic) eq_refl)) Ht).
Defined.
End Example.
