(* ===== verification/Bundle.v ===== *)
(** * Folders and several files at once

    What is not a single file travels as a tar archive: [prepare] of
    src/archive.rs spools it, the transfer treats it like any file, and
    [finalize] of src/stream.rs unpacks it into the output directory. The [tar]
    crate is an interface: the archive is its entries one after the other and a
    trailer, and unpacking writes the entries in order. *)

From S2P Require Import Prelude Str Libs Fs Crypto Protocol Store Archive Pake Channel Transport.
From S2P Require Import Send Stream Transfer Safety Handshake Session Config RvCode Code Turn Main.

(** ** The crate *)

(** The names of a relative path; it has no other components. *)
Definition entry_names (rel : string) : path :=
  omap (fun c => match c with Normal n => Some n | _ => None end) (components rel).
Definition plain_rel (rel : string) : Prop :=
  components rel = map Normal (entry_names rel) /\ entry_names rel <> [].

Class Tar := {
  tar_entry : string -> bytes -> bytes;
  tar_trailer : bytes;
  tar_parse : bytes -> option (list (path * bytes));
  tar_parse_archive l : Forall (fun e => plain_rel e.1) l ->
    tar_parse (concat (map (fun e => tar_entry e.1 e.2) l) ++ tar_trailer)
    = Some (map (fun e => (entry_names e.1, e.2)) l);
}.

Section crate.
Context `{Tar}.
Definition archive_of (l : list (string * bytes)) : bytes :=
  concat (map (fun e => tar_entry e.1 e.2) l) ++ tar_trailer.

(** [Builder::append_path_with_name] and [Builder::finish] on the open spool:
    the file is read and its entry appended. *)
Definition builds (spool : path) (tar_append : path -> string -> io unit) (tar_finish : io unit) : Prop :=
  (forall abs rel c b n, abs <> spool -> file_at n abs = Some c -> file_at n spool = Some b ->
     tar_append abs rel (Fs n []) = (Ok tt, Fs (upd n spool (b ++ tar_entry rel c)) []))
  /\ forall b n, file_at n spool = Some b -> tar_finish (Fs n []) = (Ok tt, Fs (upd n spool (b ++ tar_trailer)) []).
(** [Archive::unpack]: the entries in order, their directories made, files
    that are there replaced. *)
Definition unpack_entry (out : path) (e : path * bytes) : io unit :=
  _ ← create_dir_all (parent (out ++ e.1)); fs_write (out ++ e.1) e.2.
Fixpoint unpack_all (out : path) (l : list (path * bytes)) : io unit :=
  match l with [] => mret tt | e :: l' => _ ← unpack_entry out e; unpack_all out l' end.
Definition unpacks (tar_unpack : bytes -> path -> io unit) : Prop :=
  forall b l out n, tar_parse b = Some l -> tar_unpack b out (Fs n []) = unpack_all out l (Fs n []).
End crate.

(** ** Unpacking *)

(** What an archive puts at [q]: the last entry of that name counts. *)
Fixpoint put_at (out : path) (l : list (path * bytes)) (q : path) : option bytes :=
  match l with
  | [] => None
  | e :: l' => match put_at out l' q with Some c => Some c | None => if decide (out ++ e.1 = q) then Some e.2 else None end
  end.
(** There is room for the entries: where one goes there is no directory, and
    above it no file, on the disk or in the archive. *)
Definition roomy (out : path) (ps : list path) (n : gmap path node) : Prop :=
  dir_path n out /\ forall p, p ∈ ps -> p <> [] /\ n !! (out ++ p) <> Some Dir
    /\ forall q, q ∈ prefixes (parent (out ++ p)) -> file_at n q = None /\ forall p', p' ∈ ps -> out ++ p' <> q.

Lemma prefixes_in q p : q ∈ prefixes p <-> q `prefix_of` p /\ q <> [].
Proof.
  unfold prefixes. rewrite list_elem_of_In, in_map_iff. split.
  - intros (k & <- & Hk%in_seq). split; [apply prefix_take|]. destruct p; [simpl in Hk; lia|]. by destruct k; [lia|].
  - intros [[k ->] Hq]. exists (length q). rewrite take_app_length. split; [done|].
    apply in_seq. rewrite length_app. destruct q; [done|simpl; lia].
Qed.
(** One entry. *)
Lemma unpack_entry_runs out e l n : roomy out (e.1 :: l) n ->
  exists n', unpack_entry out e (Fs n []) = (Ok tt, Fs n' []) /\ roomy out l n'
    /\ file_at n' (out ++ e.1) = Some e.2 /\ (forall q, q <> out ++ e.1 -> file_at n' q = file_at n q)
    /\ forall q, n !! q = Some Dir -> n' !! q = Some Dir.
Proof.
  intros (Hout & Hall). destruct (Hall e.1 ltac:(by left)) as (Hne & Hnd & Hpre).
  destruct (mkdirs_runs (prefixes (parent (out ++ e.1))) n) as (n1 & He & Hd & Hsame & Hdirs).
  { intros q Hq. by apply Hpre. }
  assert (Hp : out ++ e.1 ∉ prefixes (parent (out ++ e.1))).
  { rewrite prefixes_in. intros [[k E] _]. apply (f_equal length) in E. unfold parent in E.
    rewrite length_app, removelast_firstn_len, length_take in E.
    destruct (out ++ e.1) as [|x y] eqn:Ey; [by apply app_eq_nil in Ey as [_ ?]|]. simpl in E. lia. }
  assert (Hnd1 : n1 !! (out ++ e.1) <> Some Dir) by (by rewrite Hsame).
  assert (Hpar : is_dir n1 (parent (out ++ e.1)) = true).
  { unfold is_dir. destruct (parent (out ++ e.1)) as [|x y] eqn:Ey; [done|]. rewrite <- Ey in *.
    apply bool_decide_eq_true, Hd, self_prefix. by rewrite Ey. }
  exists (upd n1 (out ++ e.1) e.2). split.
  { assert (E1 : create_dir_all (parent (out ++ e.1)) (Fs n []) = (Ok tt, Fs n1 [])).
    { unfold create_dir_all, sys. cbn [faults nodes]. by rewrite He. }
    unfold unpack_entry, mbind, io_bind. rewrite E1. unfold fs_write, sys, put_file. cbn [faults nodes]. rewrite Hpar.
    by destruct (n1 !! (out ++ e.1)) as [[|b]|]. }
  assert (Hf : forall q, q <> out ++ e.1 -> file_at (upd n1 (out ++ e.1) e.2) q = file_at n q).
  { intros q Hq. rewrite file_at_insert_ne by done. pose proof (mkdirs_file_at (prefixes (parent (out ++ e.1))) n q) as Hm.
    by rewrite He in Hm. }
  assert (Hdir : forall q, n !! q = Some Dir -> upd n1 (out ++ e.1) e.2 !! q = Some Dir).
  { intros q Hq. rewrite lookup_insert_ne; [by apply Hdirs|]. by intros <-. }
  split; [|split; [apply file_at_insert|split; [done|done]]]. split.
  - intros q Hq. by apply Hdir, Hout.
  - intros p Hp'. destruct (Hall p ltac:(by right)) as (Hn1 & Hn2 & Hn3). split; [done|]. split.
    + destruct (decide (out ++ p = out ++ e.1)) as [->|Hne']; [by rewrite lookup_insert_eq|].
      rewrite lookup_insert_ne by done. destruct (decide (out ++ p ∈ prefixes (parent (out ++ e.1)))) as [Hin|Hin].
      * destruct (Hpre _ Hin) as [_ Hno]. by destruct (Hno p); [right|].
      * by rewrite Hsame.
    + intros q Hq. destruct (Hn3 q Hq) as [Hq1 Hq2]. split; [|intros p' ?; apply Hq2; by right].
      rewrite Hf; [done|]. intros ->. by destruct (Hq2 e.1); [left|].
Qed.
Lemma unpack_all_runs out l n : roomy out (map fst l) n ->
  exists n', unpack_all out l (Fs n []) = (Ok tt, Fs n' [])
    /\ (forall q, file_at n' q = match put_at out l q with Some c => Some c | None => file_at n q end)
    /\ forall q, n !! q = Some Dir -> n' !! q = Some Dir.
Proof.
  revert n. induction l as [|e l IH]; intros n Hr; [by exists n|]. cbn [map] in Hr.
  destruct (unpack_entry_runs out e _ n Hr) as (n1 & E1 & Hr1 & Hf1 & Hk1 & Hd1).
  destruct (IH n1 Hr1) as (n' & E2 & Hf2 & Hd2). exists n'. split_and!; [| |auto].
  - cbn [unpack_all]. unfold mbind, io_bind. rewrite E1. exact E2.
  - intros q. rewrite Hf2. cbn [put_at]. destruct (put_at out l q); [done|].
    case_decide as Hq; [by subst q|by rewrite Hk1].
Qed.

(** ** Spooling *)

Section spool.
Context `{Tar} `{Blake3}.
Variables (metadata : string -> res Metadata) (cwd spool : path) (tar_append : path -> string -> io unit) (tar_finish : io unit).
Hypothesis Hbuild : builds spool tar_append tar_finish.
(** What the files hold. *)
Variables (ns : gmap path node) (content : FileRec -> bytes).
Definition holds (f : FileRec) : Prop :=
  join cwd (fr_abs f) <> spool /\ file_at ns (join cwd (fr_abs f)) = Some (content f).
Definition bundle (files : list FileRec) : list (string * bytes) := map (fun f => (fr_rel f, content f)) files.
(** Not one path that is a file. *)
Definition several (paths : list string) (files : list FileRec) : Prop :=
  match paths, files with
  | [p], [_] => match metadata p with Ok (MFile _) => False | _ => True end
  | _, _ => True
  end.

Lemma append_runs files b : Forall holds files ->
  foldr (fun fr k => _ ← tar_append (join cwd (fr_abs fr)) (fr_rel fr); k) (mret tt : io unit) files (Fs (upd ns spool b) [])
  = (Ok tt, Fs (upd ns spool (b ++ concat (map (fun e => tar_entry e.1 e.2) (bundle files)))) []).
Proof.
  intros Hf. revert b. induction Hf as [|f files [Hne Hc] _ IH]; intros b; [cbn; by rewrite app_nil_r|].
  cbn [foldr bundle map concat]. unfold mbind at 1, io_bind.
  rewrite (proj1 Hbuild _ _ (content f) b); [|done|by rewrite file_at_insert_ne|apply file_at_insert].
  rewrite insert_insert_eq. etrans; [apply IH|]. cbn [fst snd]. by rewrite <- app_assoc.
Qed.
Lemma prepare_bundle paths files :
  collect_files metadata paths = Ok files -> paths <> [] -> files <> [] -> several paths files -> Forall holds files ->
  ns !! spool <> Some Dir -> is_dir ns (parent spool) = true ->
  let a := archive_of (bundle files) in
  prepare metadata cwd spool tar_append tar_finish paths (Fs ns [])
  = (Ok (Blob KTar "b2p-bundle.tar" (map (fun f => {| e_path := fr_rel f; e_size := fr_size f |}) files) (zlen a)
           (fingerprint files) spool (Some spool)), Fs (upd ns spool a) []).
Proof.
  intros Hc Hp Hf Hsev Hh Hsp Hpar a. unfold prepare. destruct paths as [|p0 rest]; [done|].
  unfold mbind at 1, io_bind, io_lift. rewrite Hc. destruct files as [|f0 more]; [done|].
  replace (match rest, more with [], [] => match metadata p0 with Ok (MFile _) => true | _ => false end | _, _ => false end)
    with false.
  2: { destruct rest, more; try done. cbn in Hsev. by destruct (metadata p0) as [[]|e|]. }
  assert (Eo : open_rw spool true (Fs ns []) = (Ok tt, Fs (upd ns spool []) [])).
  { unfold open_rw, sys, put_file. cbn [faults nodes]. rewrite Hpar. by destruct (ns !! spool) as [[|b]|]. }
  unfold mbind, io_bind, io_context. rewrite Eo. cbn [context].
  pose proof (append_runs (f0 :: more) [] Hh) as Ha. unfold mbind, io_bind in Ha. rewrite Ha. clear Ha.
  rewrite (proj2 Hbuild _ _ (file_at_insert _ _ _)), insert_insert_eq. cbn [app].
  unfold file_len, sys. cbn [faults nodes]. by rewrite lookup_insert_eq.
Qed.
End spool.

(** ** Finalizing *)

Section finish.
Context `{Tar} `{Blake3} `{!Serde State}.
Variables (out : path) (name tid : string) (cs : Z) (content : bytes) (tar : bytes -> path -> io unit).
Hypothesis Hcs : 0 < cs < U64.
Hypothesis Hname : plain_name name.
Hypothesis Htar : unpacks tar.
Local Abbreviation pd := (partial_dir out name).

(** Room left in a disk is left when only the staging directory changes. *)
Lemma roomy_keeps ps n0 n : roomy out ps n0 -> keeps pd n0 n ->
  (forall p, p ∈ ps -> ~ pd `prefix_of` (out ++ p)) -> roomy out ps n.
Proof.
  intros [Hout Hr] Hk Haway. split.
  - intros q Hq. rewrite Hk; [by apply Hout|]. intros Hp. apply prefixes_in in Hq as [Hq _].
    apply prefix_length in Hp, Hq. rewrite partial_dir_plain, length_app in Hp by done. simpl in Hp. lia.
  - intros p Hp. destruct (Hr p Hp) as (H1 & H2 & H3). split; [done|]. split; [by rewrite Hk by auto|].
    intros q Hq. destruct (H3 q Hq) as [Hf Hno]. split; [|done]. unfold file_at in *. rewrite Hk; [done|].
    intros Hu. apply (Haway p Hp). etrans; [exact Hu|]. apply prefixes_in in Hq as [Hq _]. etrans; [exact Hq|].
    unfold parent. rewrite removelast_firstn_len. apply prefix_take.
Qed.
Lemma finalize_bundle n0 st n m h l :
  receiving out name tid cs content n0 st n -> (forall i, 0 <= i < n_chunks cs content -> i ∈ st_have (state st)) ->
  kind m = KTar -> blake3_hex h = hex_encode (blake3_hash content) -> tar_parse content = Some l ->
  roomy out (map fst l) n0 -> (forall p, p ∈ map fst l -> ~ pd `prefix_of` (out ++ p)) ->
  exists n', finalize tar st m h out name (Fs n []) = (Ok ("unpacked archive into " +:+ display out), Fs n' [])
    /\ (forall q, pd `prefix_of` q -> n' !! q = None)
    /\ forall q, ~ pd `prefix_of` q -> file_at n' q = match put_at out l q with Some c => Some c | None => file_at n0 q end.
Proof.
  intros (Hst & Hu & Hk) Hall Hkind Hh Hparse Hroom Haway.
  pose proof (all_complete out name tid cs content Hcs st n Hst Hall) as Hc.
  pose proof Hst as ((Hd & Hdp & _) & _ & _).
  pose proof (complete_content out name tid cs content Hcs st n Hst Hc) as Hf.
  destruct (unpack_all_runs out l n (roomy_keeps _ _ _ Hroom Hk Haway)) as (n1 & Hun & Hput & Hdirs).
  destruct (remove_dir_all_runs pd n1 (Hdirs _ (proj1 Hu))) as (n' & Hrm & Hgone & Hsame).
  exists n'. split; [|split; [done|]].
  - unfold finalize. rewrite Hc. unfold mbind, io_bind, io_lift. cbn [negb].
    rewrite (file_hash_runs out name st n content) by done. rewrite Hh, String.eqb_refl. cbn [negb]. rewrite Hkind.
    assert (Er : fs_read (data_path st) (Fs n []) = (Ok content, Fs n [])).
    { apply file_at_Some in Hf. unfold fs_read, sys. cbn [faults nodes]. by rewrite Hdp, Hf. }
    unfold unpack_tar, io_context, mbind, io_bind. rewrite Er, (Htar _ _ _ _ Hparse), Hun. cbn [context].
    unfold cleanup. rewrite Hd. by rewrite Hrm.
  - intros q Hq. assert (Hs1 : file_at n' q = file_at n1 q) by (unfold file_at; by rewrite Hsame).
    rewrite Hs1, Hput. destruct (put_at out l q); [done|]. unfold file_at. by rewrite Hk.
Qed.
End finish.

(** ** From one command line to the other *)

(** The paths the files go to, under the output directory. *)
Definition places (files : list FileRec) : list path := map (fun f => entry_names (fr_rel f)) files.
(** There is room for the files there, none of it in the staging directory. *)
Definition fits (out : path) (files : list FileRec) (nr : gmap path node) : Prop :=
  roomy out (places files) nr
  /\ forall p, p ∈ places files -> ~ partial_dir out "b2p-bundle.tar" `prefix_of` (out ++ p).

Lemma put_at_app out l1 l2 q :
  put_at out (l1 ++ l2) q = match put_at out l2 q with Some c => Some c | None => put_at out l1 q end.
Proof.
  induction l1 as [|e l1 IH]; cbn [app put_at]; [by destruct (put_at out l2 q)|].
  rewrite IH. by destruct (put_at out l2 q).
Qed.
Lemma put_at_none out l q : (forall p, p ∈ map fst l -> q <> out ++ p) -> put_at out l q = None.
Proof.
  induction l as [|e l IH]; intros Hq; [done|]. cbn [put_at]. rewrite IH by (intros p Hp; apply Hq; by right).
  rewrite decide_False; [done|]. intros E. by destruct (Hq e.1); [left|].
Qed.
Lemma put_at_unique out l e : NoDup (map fst l) -> e ∈ l -> put_at out l (out ++ e.1) = Some e.2.
Proof.
  induction l as [|x l IH]; intros Hn He; [by apply elem_of_nil in He|]. cbn [map] in Hn.
  apply NoDup_cons in Hn as [Hx Hn]. cbn [put_at]. apply elem_of_cons in He as [->|He].
  - rewrite put_at_none, decide_True by done || (intros p Hp E%app_inv_head; by subst p). done.
  - by rewrite IH.
Qed.

Section cli.
Context `{Tar} `{UrlCrate} `{TurnCrates} `{Spake2} `{Aead} `{Blake3} `{Base58} `{Toml}
  `{!Serde Manifest} `{!Serde StreamManifestAck} `{!Serde Commit} `{!Serde CommitAck} `{!Serde State}.
Variables (fuel n : nat).
(** The receiver. *)
Variables (renv rtok : option string) (rconf : path) (rcfg : Config.Config) (rflag : option string) (rrelay : RelayCfg)
  (nr : gmap path node) (out : path) (e0 e1 e2 : byte) (ow : bool) (stdin : nat -> option string) (tar : bytes -> path -> io unit)
  (rrnd : nat -> bytes).
(** The sender. *)
Variables (senv stok : option string) (sconf : path) (scfg : Config.Config) (sflag : option string) (srelay : RelayCfg)
  (ns : gmap path node) (metadata : string -> res Metadata) (cwd spool : path)
  (tar_append : path -> string -> io unit) (tar_finish : io unit) (tunnel_send : Code.Code -> Source -> prog string)
  (now : Z) (nonce : string) (srnd : nat -> bytes).
(** Between them. *)
Variables (relay_connect : Role -> nat -> string -> option string -> string -> prog unit)
  (webrtc_connect : Role -> list IceServer -> string -> prog unit) (ntfy_new : string -> res unit)
  (code : string) (h : option string).
Definition both_succeed (paths : list string) (ns' nr' : gmap path node) : Prop :=
  exists (k : nat) (wait : res bytes -> proc (res (option unit) * fs)),
  comes_to
    (do_send senv stok sconf relay_connect webrtc_connect ntfy_new fuel srnd now nonce metadata cwd spool
       tar_append tar_finish tunnel_send code paths None sflag false None no_turn (Fs ns []))
    (receive_relay_cli renv rtok rconf tar relay_connect fuel rrnd n e0 e1 e2 out true ow rflag stdin (Fs nr []))
    k (Channel.Config (Done (Ok tt, Fs ns' [])) (Recv wait) [] [])
  /\ forall r, wait r = Done (Ok (Some tt), Fs nr' []).

Hypothesis Hfuel : (1 <= fuel)%nat.
Hypothesis Hn : (1 <= n)%nat.
Hypothesis Hbuild : builds spool tar_append tar_finish.
Hypothesis Htar : unpacks tar.
(** The settings name one relay, which connects whoever dials the room. *)
Hypothesis Hlr : load rconf (Fs nr []) = (Ok rcfg, Fs nr []).
Hypothesis Hrr : resolve_relay rflag None renv rtok rcfg = Ok rrelay.
Hypothesis Hls : forall b, load sconf (Fs (upd ns spool b) []) = (Ok scfg, Fs (upd ns spool b) []).
Hypothesis Hrs : resolve_relay sflag h senv stok scfg = Ok srelay.
Hypothesis Hurl : Config.url srelay = Config.url rrelay.
Hypothesis Hcode : printed (generate_human e0 e1 e2) (relay_host_of (Config.url rrelay)) code h.
Hypothesis Hconn : forall role i tok,
  relay_connect role i (Config.url rrelay) tok (RvCode.topic (generate_human e0 e1 e2)) = mret tt.
(** The sender can spool; the receiver can stage. *)
Hypothesis Hspool : ns !! spool <> Some Dir /\ is_dir ns (parent spool) = true.
Hypothesis Hst : stageable out "b2p-bundle.tar" nr.

Lemma bundle_runs paths files content :
  let a := archive_of (bundle content files) in
  collect_files metadata paths = Ok files -> paths <> [] -> files <> [] -> several metadata paths files ->
  Forall (holds cwd spool ns content) files -> Forall (fun f => plain_rel (fr_rel f) /\ u64_ok (fr_size f)) files ->
  zlen a < U64 -> disk_inv (partial_dir out "b2p-bundle.tar") (fingerprint files) STREAM_FRAME_SIZE a nr ->
  fits out files nr ->
  exists nr', both_succeed paths (upd ns spool a) nr'
    /\ (forall q, partial_dir out "b2p-bundle.tar" `prefix_of` q -> nr' !! q = None)
    /\ forall q, ~ partial_dir out "b2p-bundle.tar" `prefix_of` q -> file_at nr' q =
         match put_at out (map (fun f => (entry_names (fr_rel f), content f)) files) q with
         | Some c => Some c | None => file_at nr q end.
Proof.
  intros a Hc Hp Hf Hsev Hh Hok Hlen Hinv [Hroom Haway].
  assert (Hparse : tar_parse a = Some (map (fun f => (entry_names (fr_rel f), content f)) files)).
  { unfold a, archive_of, bundle. rewrite tar_parse_archive, map_map; [done|]. apply Forall_map.
    eapply Forall_impl; [exact Hok|]. by intros f [? _]. }
  pose proof (prepare_bundle metadata cwd spool tar_append tar_finish Hbuild ns content paths files Hc Hp Hf Hsev Hh
    (proj1 Hspool) (proj2 Hspool)) as Hprep. cbn zeta in Hprep. fold a in Hprep.
  assert (Hplain : plain_name "b2p-bundle.tar") by (repeat split; vm_compute; congruence).
  destruct (cli_runs 1 fuel n renv rtok rconf rcfg rflag rrelay nr out e0 e1 e2 ow stdin tar rrnd senv stok sconf scfg
    sflag srelay ns (upd ns spool a) metadata cwd spool tar_append tar_finish tunnel_send now nonce srnd relay_connect
    webrtc_connect ntfy_new code h paths KTar "b2p-bundle.tar" (fingerprint files) _ spool (Some spool) a
    ("unpacked archive into " +:+ display out)
    (fun nr' => (forall q, partial_dir out "b2p-bundle.tar" `prefix_of` q -> nr' !! q = None)
      /\ forall q, ~ partial_dir out "b2p-bundle.tar" `prefix_of` q -> file_at nr' q =
         match put_at out (map (fun f => (entry_names (fr_rel f), content f)) files) q with
         | Some c => Some c | None => file_at nr q end)
    ltac:(lia) Hfuel Hn Hlen Hlr Hrr (Hls a) Hrs Hurl Hcode Hconn Hprep eq_refl) as (k & nr' & wait & Hrun & Hw & HP); try done.
  - apply Forall_map. eapply Forall_impl; [exact Hok|]. by intros f [_ ?].
  - apply file_at_insert.
  - intros st n0 Hr Hall. by eapply (finalize_bundle out "b2p-bundle.tar" (fingerprint files) STREAM_FRAME_SIZE a tar
      frame_size_ok Hplain Htar nr); try done; rewrite map_map.
  - exists nr'. split; [|done]. exists k, wait. split; [|done]. apply comes_to_one; [intros cap d; by inversion 1|].
    destruct (Hrun 0%nat _ (nsteps_O _ _)) as [_ Hk]. by rewrite Nat.sub_0_r in Hk.
Qed.

(** C3: Folders and several files, from one command line to the other: when the
    files found have different places and the output directory has room for
    them, every run of [b2p receive --yes], with [--overwrite] ([ow]) or
    without, against [b2p send] of the paths, over the channel or over any
    transport that carries what they send, can be continued to an end where
    both have succeeded, every file is under the output directory at its
    relative path with its content, the staging directory is gone, and no other
    file's content has changed. *)
Theorem bundle_delivers paths files content :
  let a := archive_of (bundle content files) in
  collect_files metadata paths = Ok files -> paths <> [] -> files <> [] -> several metadata paths files ->
  Forall (holds cwd spool ns content) files -> Forall (fun f => plain_rel (fr_rel f) /\ u64_ok (fr_size f)) files ->
  NoDup (places files) ->
  zlen a < U64 -> disk_inv (partial_dir out "b2p-bundle.tar") (fingerprint files) STREAM_FRAME_SIZE a nr ->
  fits out files nr ->
  exists nr', both_succeed paths (upd ns spool a) nr'
    /\ (forall f, f ∈ files -> file_at nr' (out ++ entry_names (fr_rel f)) = Some (content f))
    /\ (forall q, partial_dir out "b2p-bundle.tar" `prefix_of` q -> nr' !! q = None)
    /\ forall q, ~ partial_dir out "b2p-bundle.tar" `prefix_of` q -> (forall p, p ∈ places files -> q <> out ++ p) ->
         file_at nr' q = file_at nr q.
Proof.
  intros a Hc Hp Hf Hsev Hh Hok Hnd Hlen Hinv Hfits. pose proof Hfits as [_ Haway].
  destruct (bundle_runs paths files content Hc Hp Hf Hsev Hh Hok Hlen Hinv Hfits) as (nr' & Hrun & Hgone & Hput).
  exists nr'. split; [done|]. set (l := map (fun f => (entry_names (fr_rel f), content f)) files) in *.
  assert (Hl : map fst l = places files) by (unfold l; by rewrite map_map). split; [|split; [done|]].
  - intros f Hin. rewrite Hput.
    + assert (He : (entry_names (fr_rel f), content f) ∈ l).
      { unfold l. apply list_elem_of_fmap. by exists f. }
      by rewrite (put_at_unique out l _ ltac:(by rewrite Hl) He : put_at out l (out ++ entry_names (fr_rel f)) = _).
    + apply Haway. unfold places. apply list_elem_of_fmap. by exists f.
  - intros q Hq Hno. by rewrite Hput, put_at_none by (done || by rewrite Hl).
Qed.

(** C36: Two files of one name given together: the second replaces the first in
    the output directory, whose content is nowhere, and both programs report
    success. *)
Theorem same_name_lost p1 p2 nm m1 m2 c1 c2 :
  let f1 := {| fr_rel := nm; fr_abs := p1; fr_size := m_len m1; fr_mtime := mtime_secs m1 |} in
  let f2 := {| fr_rel := nm; fr_abs := p2; fr_size := m_len m2; fr_mtime := mtime_secs m2 |} in
  let a := archive_of [(nm, c1); (nm, c2)] in
  p1 <> p2 -> metadata p1 = Ok (MFile m1) -> metadata p2 = Ok (MFile m2) ->
  file_name p1 = Some nm -> file_name p2 = Some nm -> u64_ok (m_len m1) -> u64_ok (m_len m2) ->
  join cwd p1 <> spool -> join cwd p2 <> spool ->
  file_at ns (join cwd p1) = Some c1 -> file_at ns (join cwd p2) = Some c2 ->
  zlen a < U64 -> disk_inv (partial_dir out "b2p-bundle.tar") (fingerprint [f1; f2]) STREAM_FRAME_SIZE a nr ->
  nr !! (out ++ [nm]) <> Some Dir -> nm <> "b2p-bundle.tar.b2p-partial" ->
  exists nr', both_succeed [p1; p2] (upd ns spool a) nr'
    /\ (forall q, partial_dir out "b2p-bundle.tar" `prefix_of` q -> nr' !! q = None)
    /\ forall q, ~ partial_dir out "b2p-bundle.tar" `prefix_of` q ->
         file_at nr' q = if decide (q = out ++ [nm]) then Some c2 else file_at nr q.
Proof.
  intros f1 f2 a Hne Hm1 Hm2 Hn1 Hn2 Hs1 Hs2 Hp1 Hp2 Hc1 Hc2 Hlen Hinv Hnd Hnm.
  pose proof (components_plain nm (file_name_plain _ _ Hn1)) as Hcomp.
  assert (Hnames : entry_names nm = [nm]) by (unfold entry_names; by rewrite Hcomp).
  set (content := fun f => if String.eqb (fr_abs f) p1 then c1 else c2).
  assert (E1 : content f1 = c1) by (unfold content; cbn; by rewrite String.eqb_refl).
  assert (E2 : content f2 = c2).
  { unfold content. cbn. destruct (String.eqb_spec p2 p1); congruence. }
  assert (Ea : archive_of (bundle content [f1; f2]) = a) by (unfold bundle; cbn [map]; by rewrite E1, E2).
  assert (Hcol : collect_files metadata [p1; p2] = Ok [f1; f2]).
  { unfold collect_files. cbn [collect_inputs]. rewrite Hm1, Hm2, Hn1, Hn2. cbn.
    by assert (String.leb nm nm = true) as -> by (destruct (String.leb_total nm nm); done). }
  destruct (bundle_runs [p1; p2] [f1; f2] content) as (nr' & Hrun & Hgone & Hput); rewrite ?Ea; try done.
  - apply Forall_cons. split; [split; [done|by rewrite E1]|]. apply Forall_singleton. split; [done|by rewrite E2].
  - assert (Hpr : plain_rel nm) by (unfold plain_rel; by rewrite Hnames, Hcomp).
    apply Forall_cons. split; [done|by apply Forall_singleton].
  - assert (Hpl : forall p, p ∈ places [f1; f2] -> p = [nm]).
    { unfold places. cbn. rewrite Hnames. by intros p [->|[->|[]%elem_of_nil]%elem_of_cons]%elem_of_cons. }
    split; [split; [exact (proj1 Hst)|]|].
    + intros p ->%Hpl. split; [done|]. split; [done|]. intros q Hq. unfold parent in Hq. rewrite removelast_last in Hq.
      split; [unfold file_at; by rewrite (proj1 Hst q Hq)|]. intros p' ->%Hpl <-.
      apply prefixes_in in Hq as [Hq%prefix_length _]. rewrite length_app in Hq. simpl in Hq. lia.
    + intros p ->%Hpl. rewrite partial_dir_plain by (repeat split; vm_compute; congruence).
      intros [k E]. rewrite <- app_assoc in E. apply app_inv_head in E. by injection E as E _.
  - exists nr'. rewrite <- Ea at 1. split; [done|]. split; [done|]. intros q Hq. rewrite Hput by done.
    cbn [map put_at]. rewrite E1, E2. cbn [fst snd fr_rel f1 f2]. rewrite Hnames.
    destruct (decide (q = out ++ [nm])) as [->|Hq']; [by rewrite decide_True|by rewrite !decide_False by done].
Qed.
End cli.

(** ** A folder, and two files of one name *)

Module Example.
(** An archive that spells each byte after a [1] and ends each part with a
    [0]. *)
Definition enc (b : bytes) : bytes := concat (map (fun x => [Byte.x01; x]) b) ++ [Byte.x00].
Fixpoint dec (s : bytes) : option (bytes * bytes) :=
  match s with
  | Byte.x00 :: r => Some ([], r)
  | Byte.x01 :: x :: r => match dec r with Some (b, r') => Some (x :: b, r') | None => None end
  | _ => None
  end.
Lemma dec_enc b r : dec (enc b ++ r) = Some (b, r).
Proof. induction b as [|x b IH]; [done|]. unfold enc in *. cbn. by rewrite IH. Qed.
Fixpoint parse (fuel : nat) (s : bytes) : option (list (path * bytes)) :=
  match fuel, s with
  | S fuel', Byte.x01 :: r =>
      match dec r with
      | Some (name, r1) =>
          match dec r1 with
          | Some (c, r2) => option_map (cons (entry_names (String.string_of_list_byte name), c)) (parse fuel' r2)
          | None => None
          end
      | None => None
      end
  | _, _ => Some []
  end.
Lemma parse_archive l fuel : (length l < fuel)%nat ->
  parse fuel (concat (map (fun e => (Byte.x01 :: enc (as_bytes e.1) ++ enc e.2)) l) ++ [Byte.x00])
  = Some (map (fun e => (entry_names e.1, e.2)) l).
Proof.
  revert fuel. induction l as [|e l IH]; intros [|fuel] Hf; [lia|done|simpl in Hf; lia|]. simpl in Hf.
  cbn [map concat app parse]. rewrite <- !app_assoc, !dec_enc, IH by lia.
  unfold as_bytes. by rewrite String.string_of_list_byte_of_string.
Qed.
#[local] Instance toy_tar : Tar.
Proof.
  refine {| tar_entry rel c := Byte.x01 :: enc (as_bytes rel) ++ enc c; tar_trailer := [Byte.x00];
            tar_parse s := parse (length s) s |}.
  intros l _. apply parse_archive. rewrite length_app. induction l as [|e l IH]; [simpl; lia|].
  cbn [map concat]. rewrite !length_app. simpl in *. lia.
Defined.

Definition spool : path := ["tmp"].
Definition append (abs : path) (rel : string) : io unit :=
  c ← fs_read abs; b ← fs_read spool; fs_write spool (b ++ tar_entry rel c).
Definition finish_archive : io unit := b ← fs_read spool; fs_write spool (b ++ tar_trailer).
Definition unpack (b : bytes) (out : path) : io unit :=
  match tar_parse b with Some l => unpack_all out l | None => io_lift (Err (EIo "failed to read entire block")) end.
Lemma toy_builds : builds spool append finish_archive.
Proof.
  split.
  - intros abs rel c b n _ Hc%file_at_Some Hb%file_at_Some.
    unfold append, mbind, io_bind, fs_read, fs_write, sys, put_file. cbn [faults nodes]. rewrite Hc. cbn [faults nodes]. rewrite Hb. cbn [faults nodes]. by rewrite Hb.
  - intros b n Hb%file_at_Some.
    unfold finish_archive, mbind, io_bind, fs_read, fs_write, sys, put_file. cbn [faults nodes]. rewrite Hb. cbn [faults nodes]. by rewrite Hb.
Qed.
Lemma toy_unpacks : unpacks unpack.
Proof. intros b l out n Hl. unfold unpack. by rewrite Hl. Qed.

#[local] Existing Instances toy_url Toy.spake2 Toy.aead Toy.blake3 Toy.base58 toy_toml Main.Example.turn_crates.
#[local] Existing Instances Transfer.Example.toy_manifest Transfer.Example.toy_ack Transfer.Example.toy_commit
  Transfer.Example.toy_commit_ack Transfer.Example.toy_state.

Definition one : Meta := {| m_len := 1; m_modified := None |}.
Definition meta (p : string) : res Metadata :=
  if String.eqb p "/d" then
    Ok (MDir [Ok {| w_path := "/d"; w_is_file := false; w_meta := Err EJson |};
              Ok {| w_path := "/d/x"; w_is_file := true; w_meta := Ok one |};
              Ok {| w_path := "/d/e/y"; w_is_file := true; w_meta := Ok one |}])
  else if String.eqb p "/d/x" then Ok (MFile one)
  else if String.eqb p "/x" then Ok (MFile one)
  else Err (EIo "No such file or directory").
Definition source : gmap path node :=
  {[ ["d"] := Dir; ["d"; "e"] := Dir; ["d"; "x"] := File [Byte.x41]; ["d"; "e"; "y"] := File [Byte.x42]; ["x"] := File [Byte.x43] ]}.
Lemma disk_stageable : stageable ["out"] "b2p-bundle.tar" Transfer.Example.disk.
Proof.
  split; [|repeat split; by vm_compute]. intros p Hp.
  assert (E : prefixes ["out"] = [["out"]]) by reflexivity. rewrite E in Hp.
  by apply list_elem_of_singleton in Hp as ->.
Qed.
Lemma disk_fresh tid a : disk_inv (partial_dir ["out"] "b2p-bundle.tar") tid STREAM_FRAME_SIZE a Transfer.Example.disk.
Proof. intros b st Hb. by vm_compute in Hb. Qed.
Definition rec (rel abs : string) : FileRec := {| fr_rel := rel; fr_abs := abs; fr_size := 1; fr_mtime := 0 |}.
Definition folder : list FileRec := [rec "d/e/y" "/d/e/y"; rec "d/x" "/d/x"].
Definition content (f : FileRec) : bytes := default [] (file_at source (join [] (fr_abs f))).
Lemma folder_fits : fits ["out"] folder Transfer.Example.disk.
Proof.
  split; [split; [exact (proj1 disk_stageable)|]|].
  - assert (Hb : forallb (fun p => negb (bool_decide (p = [])) && negb (bool_decide (Transfer.Example.disk !! (["out"] ++ p) = Some Dir))
      && forallb (fun q => bool_decide (file_at Transfer.Example.disk q = None)
           && forallb (fun p' => negb (bool_decide (["out"] ++ p' = q))) (places folder))
         (prefixes (parent (["out"] ++ p)))) (places folder) = true) by (vm_compute; reflexivity).
    rewrite forallb_forall in Hb. intros p Hp%list_elem_of_In%Hb.
    rewrite !andb_true_iff, !negb_true_iff, !bool_decide_eq_false, forallb_forall in Hp.
    destruct Hp as [[H1 H2] H3]. split; [done|]. split; [done|]. intros q Hq%list_elem_of_In%H3.
    rewrite andb_true_iff, bool_decide_eq_true, forallb_forall in Hq. destruct Hq as [Hq1 Hq2]. split; [done|].
    intros p' Hp'%list_elem_of_In%Hq2. by rewrite negb_true_iff, bool_decide_eq_false in Hp'.
  - assert (Hb : forallb (fun p => negb (bool_decide (partial_dir ["out"] "b2p-bundle.tar" `prefix_of` (["out"] ++ p))))
      (places folder) = true) by (vm_compute; reflexivity).
    rewrite forallb_forall in Hb. intros p Hp%list_elem_of_In%Hb. by rewrite negb_true_iff, bool_decide_eq_false in Hp.
Qed.
Local Abbreviation cfg := {| Config.url := "wss://r.example"; Config.token := None |}.

Lemma bundle_delivers_witness :
  exists nr', file_at nr' ["out"; "d"; "x"] = Some [Byte.x41] /\ file_at nr' ["out"; "d"; "e"; "y"] = Some [Byte.x42]
    /\ nr' !! ["out"; "b2p-bundle.tar.b2p-partial"] = None.
Proof.
  destruct (bundle_delivers 1 1
    (Some "wss://r.example") None ["etc"] default_config None cfg
    Transfer.Example.disk ["out"] Byte.x07 Byte.x00 Byte.x01 false (fun _ => None) unpack (fun _ => [])
    None None ["etc"] default_config None cfg
    source meta [] spool append finish_archive (fun _ _ => mret "") 0 "" (fun _ => [Byte.x01])
    Main.Example.dial_ok Main.Example.webrtc (fun _ => Ok tt) (url_spelling Main.Example.code (Some "r.example")) (Some "r.example"))
    with (paths := ["/d"]) (files := folder) (content := content) as (nr' & _ & Hall & Hgone & _).
  - lia.
  - lia.
  - exact toy_builds.
  - exact toy_unpacks.
  - reflexivity.
  - vm_compute. reflexivity.
  - intros b. reflexivity.
  - vm_compute. reflexivity.
  - reflexivity.
  - apply (printed_pasted Main.Example.code "r.example"). split; [discriminate|reflexivity].
  - reflexivity.
  - split; [discriminate|reflexivity].
  - exact disk_stageable.
  - vm_compute. reflexivity.
  - discriminate.
  - discriminate.
  - exact I.
  - repeat constructor; discriminate.
  - repeat constructor; discriminate.
  - apply (bool_decide_unpack _). vm_compute. exact I.
  - reflexivity.
  - apply disk_fresh.
  - exact folder_fits.
  - exists nr'. split; [|split].
    + apply (Hall (rec "d/x" "/d/x")). right. left.
    + apply (Hall (rec "d/e/y" "/d/e/y")). left.
    + apply Hgone. by exists [].
Defined.
Lemma same_name_lost_witness :
  exists nr', file_at nr' ["out"; "x"] = Some [Byte.x43] /\ forall q, file_at nr' q <> Some [Byte.x41].
Proof.
  destruct (same_name_lost 1 1
    (Some "wss://r.example") None ["etc"] default_config None cfg
    Transfer.Example.disk ["out"] Byte.x07 Byte.x00 Byte.x01 false (fun _ => None) unpack (fun _ => [])
    None None ["etc"] default_config None cfg
    source meta [] spool append finish_archive (fun _ _ => mret "") 0 "" (fun _ => [Byte.x01])
    Main.Example.dial_ok Main.Example.webrtc (fun _ => Ok tt) (url_spelling Main.Example.code (Some "r.example")) (Some "r.example"))
    with (p1 := "/d/x") (p2 := "/x") (nm := "x") (m1 := one) (m2 := one) (c1 := [Byte.x41]) (c2 := [Byte.x43])
    as (nr' & _ & Hgone & Hall).
  - lia.
  - lia.
  - exact toy_builds.
  - exact toy_unpacks.
  - reflexivity.
  - vm_compute. reflexivity.
  - intros b. reflexivity.
  - vm_compute. reflexivity.
  - reflexivity.
  - apply (printed_pasted Main.Example.code "r.example"). split; [discriminate|reflexivity].
  - reflexivity.
  - split; [discriminate|reflexivity].
  - exact disk_stageable.
  - discriminate.
  - reflexivity.
  - reflexivity.
  - reflexivity.
  - reflexivity.
  - done.
  - done.
  - discriminate.
  - discriminate.
  - reflexivity.
  - reflexivity.
  - reflexivity.
  - apply disk_fresh.
  - by vm_compute.
  - discriminate.
  - exists nr'. split.
    + rewrite Hall; [reflexivity|]. apply (bool_decide_unpack _). vm_compute. exact I.
    + intros q. destruct (decide (partial_dir ["out"] "b2p-bundle.tar" `prefix_of` q)) as [Hp|Hp].
      * unfold file_at. by rewrite (Hgone q Hp).
      * rewrite (Hall q Hp). case_decide; [discriminate|]. unfold file_at, Transfer.Example.disk.
        destruct (decide (q = ["out"])) as [->|]; [discriminate|]. by rewrite lookup_singleton_ne.
Defined.
End Example.
