(* ===== verification/OverRelay.v ===== *)
(** * The relay as a transport, and the commands over it

    The two clients of a room and their relay (RelayRun, RelayWindow), where a
    sender may have to wait for the window and an io task for its application,
    keep what a transport promises (Transport); so the commands of src/main.rs
    run over it as they run over the channel. *)

From S2P Require Import Prelude Str Libs Fs Crypto Protocol Store Archive Pake Channel Transport.
From S2P Require Import Send Stream Transfer Safety Handshake Session Config RvCode Code Turn Main Bundle.
From S2P Require Import RelayWire RelayFlow RelayPipe RelayRoom RelayRun RelayWindow.

(** ** What the relay can carry *)

Definition fits_relay (m : bytes) : Prop := zlen m <= MAX_LOGICAL_FRAME.
(** Each message fits; and each side either sends so little that it never
    waits for an acknowledgement, or is sent so few that its io task never
    waits for its application. *)
Definition relay_carries (ms : label) : Prop :=
  Forall (fun x => fits_relay x.2) ms
  /\ forall r, frames_size (sent_by r ms) < U64
       /\ (frames_size (sent_by r ms) < ACK_EVERY \/ (length (sent_by (peer r) ms) <= IN_CHANNEL)%nat).
Definition relay_carriesb (ms : label) : bool :=
  forallb (fun x => zlen x.2 <=? MAX_LOGICAL_FRAME) ms
  && forallb (fun r => (frames_size (sent_by r ms) <? U64)
       && ((frames_size (sent_by r ms) <? ACK_EVERY) || (length (sent_by (peer r) ms) <=? IN_CHANNEL)%nat)) [Sender; Receiver].

Lemma frames_size_perm a b : a ≡ₚ b -> frames_size a = frames_size b.
Proof. induction 1; unfold frames_size in *; cbn [foldr]; lia. Qed.
Lemma relay_carries_perm a b : a ≡ₚ b -> relay_carries a -> relay_carries b.
Proof.
  intros E [Hf Hr]. split; [by rewrite <- E|]. intros r. specialize (Hr r).
  by rewrite (frames_size_perm _ _ (sent_by_perm r _ _ E)), (Permutation_length (sent_by_perm (peer r) _ _ E)) in Hr.
Qed.
Lemma relay_carries_prefix a b : relay_carries (a ++ b) -> relay_carries a.
Proof.
  intros [[Hf _]%Forall_app Hr]. split; [done|]. intros r. specialize (Hr r). rewrite !sent_by_app, frames_size_app, length_app in Hr.
  pose proof (frames_size_nonneg (sent_by r b)). lia.
Qed.
Lemma relay_carriesb_spec ms : relay_carriesb ms = true -> relay_carries ms.
Proof.
  unfold relay_carriesb. rewrite andb_true_iff, !forallb_forall. intros [Hf Hr]. split.
  - apply Forall_forall. intros x Hx. apply Z.leb_le, Hf. by apply list_elem_of_In.
  - intros r. assert (Hin : In r [Sender; Receiver]) by (destruct r; simpl; auto). specialize (Hr r Hin).
    apply andb_true_iff in Hr as [H1%Z.ltb_lt H2%orb_true_iff]. split; [done|].
    destruct H2 as [H2%Z.ltb_lt|H2%Nat.leb_le]; auto.
Qed.

(** ** The clients and the relay *)

Section relay.
Context `{JsonParser} `{RelayRoom}.
Variable id : Role -> nat.
Hypothesis Hid : id Sender <> id Receiver.
Hypothesis Hreads : reads_texts.
Hypothesis Hack : acks_quietly.
Hypothesis Hread_acks : reads_acks.

(** [ms]: what has been sent. *)
Definition sys_inv (w : system) (ms : label) : Prop :=
  system_inv id w /\ windows_ok w /\ forall r, e_sent (end_of (clients w r)) = sent_by r ms.

Lemma end_step_sent e inc a e' inc' em : end_step e inc a e' inc' em -> e_sent e' = e_sent e ++ sends a.
Proof. destruct 1; cbn [e_sent with_io with_owed sends]; by rewrite ?app_nil_r. Qed.
Lemma step_sys_inv w a w' ms : system_step id w a w' -> sys_inv w ms -> sys_inv w' (ms ++ sent_in a).
Proof.
  intros Hs (Hi & Hw & Hm). split; [by eapply system_step_refines|]. split; [by eapply windows_step|].
  intros r. rewrite sent_by_app, <- Hm.
  destruct Hs as [c r' s' out Ha He|c r' Hp|c r' m rest Hp Hd|c r' e a e' inc em Er He|c r' m rest s' out Hu He]; cbn [clients].
  - rewrite app_nil_r. destruct (role_cases r' r) as [->| ->]; autorewrite with roles; by rewrite ?Ha.
  - by rewrite app_nil_r.
  - rewrite app_nil_r. destruct (role_cases r' r) as [->| ->]; autorewrite with roles; rewrite ?Hp; [|done].
    unfold heard. by destruct (wait_peer _) as [[]|].
  - pose proof (end_step_sent _ _ _ _ _ _ He) as Es. destruct (role_cases r' r) as [->| ->]; autorewrite with roles.
    + rewrite Er. cbn [end_of]. rewrite Es. f_equal. destruct a as [[f|f]|]; [|done..]. cbn. unfold sent_by. cbn. by rewrite decide_True.
    + destruct a as [[f|f]|]; cbn [fmap option_fmap option_map sent_in]; [|by rewrite app_nil_r..]. unfold sent_by. cbn.
      rewrite decide_False; [by rewrite app_nil_r|]. apply not_eq_sym, peer_ne.
  - by rewrite app_nil_r.
Qed.
Lemma sys_inv0 : sys_inv system0 [].
Proof. split; [apply system0_inv|]. split; [apply windows0|]. by intros []. Qed.

(** What an action does to the queues. *)
Lemma sys_queue_step w a w' ms : system_step id w a w' -> sys_inv w ms -> queue_step (waiting w) a (waiting w').
Proof.
  intros Hs (Hi & _). destruct (system_step_refines id Hid Hreads Hack _ _ _ Hs Hi) as [Hi' Hp].
  pose proof (proj2 (run_simulates (ping_quiet Hreads) Hack _ _ _ Hp (proj2 (proj2 Hi)))) as Hq.
  change (fifo (waiting w Sender, waiting w Receiver) (map on_side (option_list a)) = Some (waiting w' Sender, waiting w' Receiver)) in Hq.
  destruct a as [[r [m|m]]|]; cbn [queue_step].
  - destruct r; injection Hq as E1 E2; by split.
  - destruct r; cbn in Hq |- *; [destruct (waiting w Sender) as [|g l]|destruct (waiting w Receiver) as [|g l]]; try done;
      destruct (decide (m = g)); simplify_eq; done.
  - intros r. injection Hq as E1 E2. by destruct r.
Qed.

Lemma settles_rtc w w' : settles id w w' -> rtc (fun w w' => system_step id w None w') w w'.
Proof.
  unfold settles. intros Hr. remember [] as tr eqn:E. induction Hr as [w|w a w1 tr w2 Hs _ IH]; [apply rtc_refl|].
  apply app_nil in E as [Ea ->]. destruct a; [done|]. eapply rtc_l; [exact Hs|by apply IH].
Qed.
(** An action is ready when idle clients come to where it can be done. *)
Definition ready (w : system) (r : Role) (x : action) : Prop :=
  exists w' w'', rtc (fun w w' => system_step id w None w') w w' /\ system_step id w' (Some (r, x)) w''.
Lemma take_ready w ms r m l : sys_inv w ms -> relay_carries ms -> waiting w (peer r) = m :: l -> (length (waiting w r) <= 1)%nat ->
  ready w r (ATake m).
Proof.
  intros (Hi & _) _ Hq Hlen.
  destruct (fills id Hid Hreads Hack r w Hi) as (w' & Hr & Hi' & Ha & (x & y & Ey & Ex & Hin) & _).
  { apply (few_in_room id Hid); [done|]. rewrite peer_peer. unfold IN_CHANNEL. lia. }
  exists w'. eexists. split; [by apply settles_rtc|]. eapply (sys_moves id w' r y (Some (ATake m))); [exact Ey|apply end_takes].
  rewrite <- (idle_waiting _ _ _ Ha) in Hq. unfold waiting in Hq. rewrite peer_peer, Ey, Ex in Hq. cbn [end_of] in Hq.
  assert (Hhead : e_sent x !! length (e_taken y) = Some m).
  { rewrite <- (Nat.add_0_r (length (e_taken y))), <- lookup_drop. by rewrite Hq. }
  destruct Hin as [->|Hfull]; [done|]. unfold in_room, IN_CHANNEL in Hfull.
  pose proof (view_inv r w' (proj2 (proj2 Hi'))) as (_ & _ & _ & Hf & _).
  apply in_prefix in Hf. unfold view in Hf. cbn [p_left p_right] in Hf. rewrite Ey, Ex in Hf. cbn [end_of] in Hf.
  destruct (lookup_lt_is_Some_2 (io_in (e_io y)) (length (e_taken y)) ltac:(lia)) as [f Ef]. rewrite Ef.
  eapply prefix_lookup_Some in Ef; [|exact Hf]. congruence.
Qed.
Lemma send_ready w ms r m : sys_inv w ms -> waiting w r = [] -> relay_carries (ms ++ [(r, m)]) -> ready w r (ASend m).
Proof.
  intros (Hi & Hw & Hm) Hq Hc. pose proof (relay_carries_prefix _ _ Hc) as [_ Hc1]. destruct Hc as [[_ [Hfit _]%Forall_cons]%Forall_app _]. cbn [snd] in Hfit.
  destruct (Hc1 r) as [Hlt Hlittle]. clear Hc1. rewrite <- !Hm in *.
  assert (Hgo : exists w', settles id w w' /\ idle_apps w w' /\ may_send w' r).
  { destruct Hlittle as [Hlittle|Hfew].
    - destruct (both_run id Hid Hreads Hack w Hi) as (w' & Hr & Hi' & He). exists w'. split; [done|].
      split; [intros r'; by rewrite He|]. eapply (little_may_send id Hid); [by eapply windows_run|apply He|done].
    - assert (Hfew' : forall r', (length (waiting w r') <= IN_CHANNEL)%nat).
      { intros r'. destruct (role_cases r r') as [->| ->]; [rewrite Hq; unfold IN_CHANNEL; simpl; lia|].
        unfold waiting. rewrite length_drop. lia. }
      destruct (all_arrives id Hid Hreads Hack w Hi Hfew') as (w1 & R1 & Hi1 & A1 & Hall).
      destruct (window_opens id Hid Hreads Hack Hread_acks r w1 Hi1) as (w2 & R2 & _ & A2 & Hs);
        [by eapply windows_run|intros r'; by rewrite (idle_waiting _ _ _ A1)|destruct (A1 r) as (-> & _); done|done|].
      exists w2. split; [by eapply system_settles_trans|]. split; [intros r'; etrans; [apply A1|apply A2]|done]. }
  destruct Hgo as (w' & Hr & Ha & e & Ee & Hs). destruct (Hs m Hfit) as [n Hn].
  exists w'. eexists. split; [by apply settles_rtc|]. eapply (sys_moves id w' r e (Some (ASend m))); [exact Ee|by apply end_sends].
Qed.

#[local] Instance relay_transport : Transport := {|
  tr_state := system; tr_start := system0; tr_step := system_step id; tr_waiting := waiting; tr_inv := sys_inv;
  tr_carries := relay_carries; tr_start_inv := sys_inv0; tr_start_waiting := fun r => eq_refl;
  tr_step_inv := step_sys_inv; tr_step_queue := sys_queue_step; tr_carries_perm := relay_carries_perm;
  tr_carries_prefix := relay_carries_prefix; tr_take_ready := take_ready; tr_send_ready := send_ready |}.
End relay.

(** ** Property *)

(** C1: From one command line to the other, over the relay itself: the sender
    and the receiver of [Main.cli_delivers] as clients of a room, their frames
    batched, split and acknowledged by their io tasks, held back by the window
    and by the other side's [in_rx], and forwarded by any relay. When the
    relay can carry what they send ([relay_carries]: no frame over the
    limit, and a side that sends more than the acknowledgement interval is sent
    no more than [IN_CHANNEL] frames), nothing deadlocks: every run of
    programs, io tasks and relay can be continued to the same end, the sender
    done, the file under the receiver's output directory, the staging
    directory gone, and the receiver successful whatever comes of its last
    wait. *)
Theorem cli_over_relay `{UrlCrate} `{TurnCrates} `{Spake2} `{Aead} `{Blake3} `{Base58} `{Toml}
    `{!Serde Manifest} `{!Serde StreamManifestAck} `{!Serde Commit} `{!Serde CommitAck} `{!Serde State}
    `{JsonParser} `{RelayRoom} id (Hid : id Sender <> id Receiver)
    (Hreads : reads_texts) (Hquiet : acks_quietly) (Hacks : reads_acks)
    fuel n (* limits *) renv rtok rconf rcfg rflag rrelay nr out e0 e1 e2 stdin tar rrnd (* receiver *)
    senv stok sconf scfg sflag srelay ns metadata cwd spool tar_append tar_finish tunnel_send now nonce srnd (* sender *)
    relay_connect webrtc_connect ntfy_new code h p nm m content :
  let relay := relay_transport id Hid Hreads Hquiet Hacks in
  (1 <= fuel)%nat -> (1 <= n)%nat -> zlen content < U64 ->
  load rconf (Fs nr []) = (Ok rcfg, Fs nr []) -> resolve_relay rflag None renv rtok rcfg = Ok rrelay ->
  load sconf (Fs ns []) = (Ok scfg, Fs ns []) -> resolve_relay sflag h senv stok scfg = Ok srelay ->
  Config.url srelay = Config.url rrelay ->
  printed (generate_human e0 e1 e2) (relay_host_of (Config.url rrelay)) code h ->
  (forall role i tok, relay_connect role i (Config.url rrelay) tok (RvCode.topic (generate_human e0 e1 e2)) = mret tt) ->
  metadata p = Ok (MFile m) -> m_len m = zlen content -> file_name p = Some nm -> file_at ns (join cwd p) = Some content ->
  resumable out (safe_name nm) (fingerprint [{| fr_rel := nm; fr_abs := p; fr_size := m_len m; fr_mtime := mtime_secs m |}])
    STREAM_FRAME_SIZE content nr ->
  let sender := do_send senv stok sconf relay_connect webrtc_connect ntfy_new fuel srnd now nonce metadata cwd spool
                  tar_append tar_finish tunnel_send code [p] None sflag false None no_turn (Fs ns []) in
  let receiver := receive_relay_cli renv rtok rconf tar relay_connect fuel rrnd n e0 e1 e2 out true true rflag stdin (Fs nr []) in
  carried (T := relay) sender receiver ->
  exists nr' wait,
    (forall d, rtc (over_step (T := relay)) (Over sender receiver system0) d ->
       exists d', rtc over_step d d' /\ o_left d' = Done (Ok tt, Fs ns []) /\ o_right d' = Recv wait)
    /\ (forall r, wait r = Done (Ok (Some tt), Fs nr' []))
    /\ file_at nr' (out ++ [safe_name nm]) = Some content
    /\ (forall q, partial_dir out (safe_name nm) `prefix_of` q -> nr' !! q = None).
Proof.
  intros relay Hfuel Hn Hlen Hlr Hrr Hls Hrs Hurl Hcode Hconn Hm Hsz Hnm Hfile Hres sender receiver Hfit.
  destruct (cli_delivers 1 fuel n renv rtok rconf rcfg rflag rrelay nr out e0 e1 e2 stdin tar rrnd senv stok sconf scfg sflag
    srelay ns metadata cwd spool tar_append tar_finish tunnel_send now nonce srnd relay_connect webrtc_connect ntfy_new code h
    p nm m content ltac:(lia) Hfuel Hn Hlen Hlr Hrr Hls Hrs Hurl Hcode Hconn Hm Hsz Hnm Hfile Hres) as (k & nr' & wait & Hrun & Hw & Hpost).
  exists nr', wait. split; [|done].
  destruct (Hrun 0%nat _ (nsteps_O _ _)) as [_ Hk]. rewrite Nat.sub_0_r in Hk. apply rtc_nsteps_2 in Hk.
  intros d Hd. apply (over_delivers sender receiver _ Hfit) with (2 := Hk) (d := d); [|done].
  intros cap c. by inversion 1.
Qed.

(** A one-byte file through the Worker. *)
Module Example.
#[local] Existing Instances toy_url Toy.spake2 Toy.aead Toy.blake3 Toy.base58 toy_toml Main.Example.turn_crates.
#[local] Existing Instances Transfer.Example.toy_manifest Transfer.Example.toy_ack Transfer.Example.toy_commit
  Transfer.Example.toy_commit_ack Transfer.Example.toy_state.
#[local] Existing Instances RelayRun.Example.toy_json RelayRun.Example.worker.
Local Abbreviation cfg := {| Config.url := "wss://r.example"; Config.token := None |}.

Lemma cli_over_relay_witness :
  exists nr', file_at nr' ["out"; "f"] = Some [Byte.x41].
Proof.
  destruct (cli_over_relay RelayRun.Example.ids RelayRun.Example.ids_ne RelayRun.Example.toy_reads RelayRun.Example.toy_acks
    RelayWindow.Example.toy_reads_acks 1 1
    (Some "wss://r.example") None ["etc"] default_config None cfg
    Transfer.Example.disk ["out"] Byte.x07 Byte.x00 Byte.x01 (fun _ => None) (fun _ _ => mret tt) (fun _ => [])
    None None ["etc"] default_config None cfg
    Main.Example.source Main.Example.meta [] [] (fun _ _ => mret tt) (mret tt) (fun _ _ => mret "") 0 "" (fun _ => [Byte.x01])
    Main.Example.dial_ok Main.Example.webrtc (fun _ => Ok tt) (url_spelling Main.Example.code (Some "r.example")) (Some "r.example") "/data/f" "f"
    {| m_len := 1; m_modified := None |} [Byte.x41]) as (nr' & w & _ & _ & H1 & _).
  - lia.
  - lia.
  - reflexivity.
  - vm_compute. reflexivity.
  - vm_compute. reflexivity.
  - vm_compute. reflexivity.
  - vm_compute. reflexivity.
  - reflexivity.
  - apply (printed_pasted Main.Example.code "r.example"). split; [discriminate|reflexivity].
  - reflexivity.
  - reflexivity.
  - reflexivity.
  - vm_compute. reflexivity.
  - vm_compute. reflexivity.
  - change (safe_name "f") with (safe_name "../f"). apply Transfer.Example.disk_resumable.
  - apply (drives_carried relay_carriesb 100); [apply relay_carriesb_spec|vm_compute; reflexivity].
  - exists nr'. exact H1.
Defined.
(** The relay carries the folder of [Bundle] too. *)
#[local] Existing Instance Bundle.Example.toy_tar.
Lemma folder_carried :
  carried (T := relay_transport RelayRun.Example.ids RelayRun.Example.ids_ne RelayRun.Example.toy_reads RelayRun.Example.toy_acks
      RelayWindow.Example.toy_reads_acks)
    (do_send None None ["etc"] Main.Example.dial_ok Main.Example.webrtc (fun _ => Ok tt) 1 (fun _ => [Byte.x01]) 0 ""
       Bundle.Example.meta [] Bundle.Example.spool Bundle.Example.append Bundle.Example.finish_archive (fun _ _ => mret "")
       (url_spelling Main.Example.code (Some "r.example")) ["/d"] None None false None no_turn (Fs Bundle.Example.source []))
    (receive_relay_cli (Some "wss://r.example") None ["etc"] Bundle.Example.unpack Main.Example.dial_ok 1 (fun _ => []) 1
       Byte.x07 Byte.x00 Byte.x01 ["out"] true false None (fun _ => None) (Fs Transfer.Example.disk [])).
Proof. apply (drives_carried relay_carriesb 100); [apply relay_carriesb_spec|vm_compute; reflexivity]. Qed.
End Example.
