(* ===== verification/Cli.v ===== *)
(** * The command line of src/main.rs

    What the clap declarations accept, and what [run] does with it. Clap is an
    interface: the documented meaning of [requires], [conflicts_with] and
    [required_unless_present]; where its documentation lets a conflict override
    a requirement, a command line may be accepted or refused. *)

From S2P Require Import Prelude Str Libs Fs Crypto Protocol Store Archive Pake Channel.
From S2P Require Import Send Stream Transfer Safety Handshake Session Config RvCode Code Turn Main.

(** ** Declarations *)

(** An argument: what it requires, what it conflicts with, and, when it is
    itself required, what makes up for its absence. *)
Record Arg : Type := {
  id : string; requires : list string; conflicts : list string; required : option (list string);
}.
Definition option_arg (i : string) (rs cs : list string) : Arg :=
  {| id := i; requires := rs; conflicts := cs; required := None |}.

Section rules.
Variables (ds : list Arg) (given : string -> bool).
(** [b] cannot be given, for something it conflicts with is. *)
Definition mem (b : string) (l : list string) : bool := existsb (String.eqb b) l.
Definition excused (b : string) : bool :=
  existsb (fun c => given (id c) && mem b (conflicts c)
                    || String.eqb (id c) b && existsb given (conflicts c)) ds.
Definition obeys (excuse : string -> bool) : bool :=
  forallb (fun a =>
    implb (given (id a))
      (forallb (fun b => negb (given b)) (conflicts a)
       && forallb (fun b => given b || excuse b) (requires a))
    && match required a with
       | Some others => given (id a) || existsb given others || excuse (id a)
       | None => true
       end) ds.
End rules.

(** Clap refuses a line that breaks a rule, and takes one that keeps them all. *)
Class Clap := {
  accepts : list Arg -> (string -> bool) -> bool;
  accepts_obeys ds given : accepts ds given = true -> obeys ds given (excused ds given) = true;
  obeys_accepts ds given : obeys ds given (fun _ => false) = true -> accepts ds given = true;
}.

(** The arguments of each command, as declared. *)
Definition turn_args : list Arg :=
  [option_arg "turn" ["p2p"] [];
   option_arg "turn_secret" ["p2p"] ["turn_user"; "turn_pass"];
   option_arg "turn_user" ["turn_pass"; "p2p"] ["turn_secret"];
   option_arg "turn_pass" ["turn_user"; "p2p"] ["turn_secret"]].
Definition receive_args : list Arg :=
  [option_arg "out" [] []; option_arg "direct" ["tunnel"] []; option_arg "yes" [] []; option_arg "overwrite" [] [];
   option_arg "tunnel" [] []; option_arg "relay" [] ["tunnel"]; option_arg "p2p" [] ["tunnel"];
   option_arg "rendezvous" ["p2p"] []] ++ turn_args.
Definition send_args : list Arg :=
  [{| id := "code"; requires := []; conflicts := []; required := Some [] |};
   {| id := "paths"; requires := []; conflicts := []; required := Some ["text"] |};
   option_arg "text" [] ["paths"]; option_arg "relay" [] []; option_arg "p2p" [] [];
   option_arg "rendezvous" ["p2p"] []] ++ turn_args.

(** ** The parsed command *)

Inductive RelayCmd : Type := RelaySet (url : string) (token : option string) | RelayShow.
Inductive Cmd : Type :=
| Receive (out : path) (direct yes overwrite tunnel : bool) (relay : option string) (p2p : bool)
    (rendezvous : option string) (t : TurnArgs)
| SendCmd (code : string) (paths : list string) (text relay : option string) (p2p : bool)
    (rendezvous : option string) (t : TurnArgs)
| Doctor (target : option string)
| Relay (cmd : RelayCmd).
Record Cli : Type := { cafile : option path; cmd : Cmd }.

Definition some {A} (o : option A) : bool := match o with Some _ => true | None => false end.
Definition nonempty {A} (l : list A) : bool := match l with [] => false | _ => true end.
Definition is_given (l : list (string * bool)) (i : string) : bool := existsb (fun '(j, b) => String.eqb i j && b) l.
Definition turn_given (t : TurnArgs) : list (string * bool) :=
  [("turn", nonempty (turn t)); ("turn_secret", some (turn_secret t)); ("turn_user", some (turn_user t));
   ("turn_pass", some (turn_pass t))].
(** Which arguments the line gave ([out] has a default, and nothing asks for
    it). *)
Definition given (c : Cmd) : string -> bool :=
  match c with
  | Receive _ direct yes overwrite tunnel relay p2p rendezvous t =>
      is_given ([("direct", direct); ("yes", yes); ("overwrite", overwrite); ("tunnel", tunnel); ("relay", some relay);
                 ("p2p", p2p); ("rendezvous", some rendezvous)] ++ turn_given t)
  | SendCmd _ paths text relay p2p rendezvous t =>
      is_given ([("code", true); ("paths", nonempty paths); ("text", some text); ("relay", some relay);
                 ("p2p", p2p); ("rendezvous", some rendezvous)] ++ turn_given t)
  | Doctor _ | Relay _ => fun _ => false
  end.
Definition declared (c : Cmd) : list Arg :=
  match c with Receive _ _ _ _ _ _ _ _ _ => receive_args | SendCmd _ _ _ _ _ _ _ => send_args | _ => [] end.

(** ** Dispatch *)

(** What [run] calls; [tls] is built of the CA file. *)
Record handlers (R : Type) : Type := {
  h_tunnel : path -> bool -> bool -> bool -> option path -> R;
  h_p1 : path -> bool -> bool -> option string -> TurnArgs -> option path -> R;
  h_relay : path -> bool -> bool -> option string -> option path -> R;
  h_send : string -> list string -> option string -> option string -> bool -> option string -> TurnArgs -> option path -> R;
  h_set : string -> option string -> R;
  h_show : R;
  h_doctor : option string -> option path -> R;
}.
Arguments h_tunnel {R}. Arguments h_p1 {R}. Arguments h_relay {R}. Arguments h_send {R}.
Arguments h_set {R}. Arguments h_show {R}. Arguments h_doctor {R}.

Definition run {R} (h : handlers R) (cli : Cli) : R :=
  let tls := cafile cli in
  match cmd cli with
  | Receive out direct yes overwrite tunnel relay p2p rendezvous t =>
      if tunnel then h_tunnel h out direct yes overwrite tls
      else if p2p then h_p1 h out yes overwrite rendezvous t tls
      else h_relay h out yes overwrite relay tls
  | SendCmd code paths text relay p2p rendezvous t => h_send h code paths text relay p2p rendezvous t tls
  | Relay (RelaySet url token) => h_set h url token
  | Relay RelayShow => h_show h
  | Doctor target => h_doctor h target tls
  end.
(** [main]: the process's exit status. *)
Definition exit_code (r : res unit) : Z := match r with Ok _ => 0 | Err _ => 1 | Panic => 101 end.

(** The handlers of [Main], as [run] wires them: a relay receiver makes
    [n] attempts at most, for it may never give up; [tunnel_receive] is [receive_tunnel]; what [doctor]
    prints goes unsaid. *)
Section commands.
Context `{UrlCrate} `{TurnCrates} `{Spake2} `{Aead} `{Blake3} `{Base58} `{Toml}.
Context `{!Serde Manifest} `{!Serde StreamManifestAck} `{!Serde Commit} `{!Serde CommitAck} `{!Serde State}.
Variables (env_url env_token : option string) (config_path : path) (tar : bytes -> path -> io unit)
  (relay_connect : Role -> nat -> string -> option string -> string -> prog unit)
  (webrtc_connect : Role -> list IceServer -> string -> prog unit)
  (ntfy_new : string -> res unit) (fuel : nat) (rnd : nat -> bytes) (now : Z) (nonce : string)
  (metadata : string -> res Metadata) (cwd spool : path) (tar_append : path -> string -> io unit) (tar_finish : io unit)
  (tunnel_send : Code.Code -> Source -> prog string) (tunnel_receive : path -> bool -> bool -> bool -> prog unit)
  (n : nat) (e0 e1 e2 : byte) (stdin : nat -> option string).
Definition commands : handlers (prog (option unit)) := {|
  h_tunnel out direct yes overwrite _ := r ← tunnel_receive out direct yes overwrite; mret (Some r);
  h_p1 out yes overwrite rendezvous t _ :=
    r ← receive_p1_cli tar webrtc_connect ntfy_new fuel rnd now nonce e0 e1 e2 out yes overwrite rendezvous t (stdin 0%nat); mret (Some r);
  h_relay out yes overwrite relay _ :=
    receive_relay_cli env_url env_token config_path tar relay_connect fuel rnd n e0 e1 e2 out yes overwrite relay stdin;
  h_send code paths text relay p2p rendezvous t _ :=
    r ← do_send env_url env_token config_path relay_connect webrtc_connect ntfy_new fuel rnd now nonce metadata cwd spool
          tar_append tar_finish tunnel_send code paths text relay p2p rendezvous t; mret (Some r);
  h_set url token := _ ← prog_io (relay_set config_path url token); mret (Some tt);
  h_show := _ ← prog_io (relay_show config_path); mret (Some tt);
  h_doctor target _ := _ ← prog_io (doctor_args env_url env_token config_path target); mret (Some tt);
|}.
End commands.

(** ** Lemmas *)

Section accepted.
Context `{Clap}.
Definition accepted (c : Cmd) : bool := accepts (declared c) (given c).

Lemma accepted_obeys c : accepted c = true -> obeys (declared c) (given c) (excused (declared c) (given c)) = true.
Proof. apply accepts_obeys. Qed.
(** The rules on a [receive] line, one flag at a time. *)
Lemma receive_rules out direct yes overwrite tunnel relay p2p rendezvous t :
  accepted (Receive out direct yes overwrite tunnel relay p2p rendezvous t) = true ->
  (tunnel = true -> p2p = false /\ relay = None)
  /\ (direct = true -> tunnel = false -> p2p = true \/ relay <> None)
  /\ (p2p = false -> tunnel = false -> rendezvous = None /\ t = no_turn)
  /\ (some (turn_user t) = some (turn_pass t) /\ (turn_secret t <> None -> turn_user t = None)).
Proof.
  intros Ho%accepted_obeys. destruct t as [us se u pw]. cbv [declared given turn_given turn turn_secret turn_user turn_pass] in *.
  assert (E : forall A (o : option A), some o = false -> o = None) by (by intros A []).
  assert (E' : forall A (l : list A), nonempty l = false -> l = []) by (by intros A []).
  assert (E'' : forall A (o : option A), o <> None -> some o = true) by (by intros A []).
  assert (E3 : forall A (o : option A), some o = true -> o <> None) by (by intros A []).
  revert Ho. generalize (E _ relay) (E3 _ relay) (E _ rendezvous) (E' _ us) (E _ se) (E'' _ se) (E _ u) (E _ pw). clear E E' E'' E3.
  generalize (some relay) (some rendezvous) (nonempty us) (some se) (some u) (some pw).
  intros br brv bt bs bu bp Er Er' Erv Et Es Es' Eu Ep Ho.
  assert (Hb : forallb (fun x : bool => x)
    [implb tunnel (negb p2p && negb br); implb (direct && negb tunnel) (p2p || br);
     implb (negb p2p && negb tunnel) (negb brv && negb bt && negb bs && negb bu && negb bp);
     Bool.eqb bu bp; implb bs (negb bu)] = true).
  { revert Ho. clear. destruct direct, yes, overwrite, tunnel, br, p2p, brv, bt, bs, bu, bp; vm_compute; congruence. }
  cbn in Hb. rewrite !andb_true_iff in Hb. destruct Hb as (H1 & H2 & H3 & H4 & H5 & _).
  split_and!.
  - intros ->. destruct p2p; [done|]. split; [done|]. apply Er. by destruct br.
  - intros -> ->. destruct p2p; [by left|right]. apply Er'. by destruct br.
  - intros -> ->. cbn in H3. rewrite !andb_true_iff, !negb_true_iff in H3. destruct H3 as ((((? & ?) & ?) & ?) & ?).
    split; [by apply Erv|]. rewrite Et, Es, Eu, Ep by done. done.
  - by apply Bool.eqb_prop.
  - intros Hs%Es'. apply Eu. subst. by destruct bu.
Qed.
(** And on a [send] line, which are all it has to keep. *)
Definition sendable (paths : list string) (text : option string) (p2p : bool) (rendezvous : option string) (t : TurnArgs) : bool :=
  xorb (nonempty paths) (some text)
  && implb (some rendezvous || nonempty (turn t) || some (turn_secret t) || some (turn_user t) || some (turn_pass t)) p2p
  && Bool.eqb (some (turn_user t)) (some (turn_pass t)) && implb (some (turn_secret t)) (negb (some (turn_user t))).
Lemma send_rules code paths text relay p2p rendezvous t :
  accepted (SendCmd code paths text relay p2p rendezvous t) = sendable paths text p2p rendezvous t.
Proof.
  apply Bool.eq_iff_eq_true. unfold accepted, sendable. split.
  - intros Ho%accepts_obeys. revert Ho. destruct t as [us se u pw].
    cbv [declared given turn_given turn turn_secret turn_user turn_pass].
    generalize (nonempty paths) (some text) (some relay) (some rendezvous) (nonempty us) (some se) (some u) (some pw).
    intros bs bt br brv btu bse bu bp. destruct bs, bt, br, p2p, brv, btu, bse, bu, bp; vm_compute; congruence.
  - intros Ho. apply obeys_accepts. revert Ho. destruct t as [us se u pw].
    cbv [declared given turn_given turn turn_secret turn_user turn_pass].
    generalize (nonempty paths) (some text) (some relay) (some rendezvous) (nonempty us) (some se) (some u) (some pw).
    intros bs bt br brv btu bse bu bp. destruct bs, bt, br, p2p, brv, btu, bse, bu, bp; vm_compute; congruence.
Qed.
End accepted.

(** ** Properties *)

(** What the user asks for reaches its handler: an accepted [receive] line runs
    one handler, with every option given, save four kinds clap may let through
    without effect: rendezvous and TURN options beside [--tunnel], [--relay]
    beside [--p2p], and [--direct] beside either of these two. An accepted
    [send] line has files or a text and not both, and its rendezvous and TURN
    options only with [--p2p]. *)
Theorem accepted_options_reach `{Clap} {R} (h : handlers R) ca out direct yes overwrite tunnel relay p2p rendezvous t :
  accepted (Receive out direct yes overwrite tunnel relay p2p rendezvous t) = true ->
  let r := run h {| cafile := ca; cmd := Receive out direct yes overwrite tunnel relay p2p rendezvous t |} in
  (tunnel = true /\ p2p = false /\ relay = None /\ r = h_tunnel h out direct yes overwrite ca)
  \/ (p2p = true /\ tunnel = false /\ r = h_p1 h out yes overwrite rendezvous t ca)
  \/ (p2p = false /\ tunnel = false /\ rendezvous = None /\ t = no_turn /\ (direct = true -> relay <> None)
      /\ r = h_relay h out yes overwrite relay ca).
Proof.
  intros (H1 & H2 & H3 & _)%receive_rules r. destruct tunnel; [left; by destruct H1|right].
  destruct p2p; [by left|right]. destruct H3 as [-> ->]; [done..|]. split_and!; try done.
  intros Hd. by destruct H2.
Qed.

(** The same of [send]: files or a text and not both, rendezvous and TURN
    options only with [--p2p]; its [--relay] beside [--p2p] is handed on, and
    not used. *)
Theorem send_options_reach `{Clap} {R} (h : handlers R) ca code paths text relay p2p rendezvous t :
  accepted (SendCmd code paths text relay p2p rendezvous t) = true ->
  run h {| cafile := ca; cmd := SendCmd code paths text relay p2p rendezvous t |}
    = h_send h code paths text relay p2p rendezvous t ca
  /\ (text = None <-> paths <> []) /\ (p2p = false -> rendezvous = None /\ t = no_turn).
Proof.
  rewrite send_rules. unfold sendable. rewrite !andb_true_iff. intros (((H1 & H2) & _) & _).
  split; [done|]. split; [by destruct paths, text|]. intros ->.
  destruct rendezvous, t as [[] [] [] []]; discriminate || done.
Qed.

(** The flags of an accepted line that reach TURN name whole credentials: only
    a URL WebRTC cannot use, or no credentials at all, fail it. *)
Definition turn_flags (c : Cmd) : TurnArgs :=
  match c with Receive _ _ _ _ _ _ _ _ t | SendCmd _ _ _ _ _ _ t => t | _ => no_turn end.
Theorem turn_flags_resolve `{Clap} `{TurnCrates} c now nonce :
  accepted c = true ->
  let t := turn_flags c in
  turn t <> [] -> validate_all (turn t) = Ok tt -> turn_secret t <> None \/ turn_user t <> None \/ turn_pass t <> None ->
  exists s, Turn.resolve now (turn t) (turn_secret t) (turn_user t) (turn_pass t) nonce = Ok [s] /\ urls s = turn t.
Proof.
  intros Ha t. assert (Ht : some (turn_user t) = some (turn_pass t) /\ (turn_secret t <> None -> turn_user t = None)).
  { subst t. destruct c as [? ? ? ? ? ? ? ? t|? ? ? ? ? ? t| |]; [| |done|done]; cbn [turn_flags].
    - apply receive_rules in Ha. by destruct_and!.
    - rewrite send_rules in Ha. unfold sendable in Ha. rewrite !andb_true_iff in Ha. destruct Ha as [[_ H3] H4].
      split; [by apply Bool.eqb_prop|]. intros Hs. by destruct (turn_secret t), (turn_user t). }
  destruct t as [us se u pw]. cbn in *. destruct Ht as [Hu Hs]. intros Hne Hv Hc. unfold Turn.resolve.
  destruct us as [|x us]; [done|]. rewrite Hv. cbn [mbind res_bind].
  destruct se; [rewrite Hs in * by done; destruct pw; [done|]; by eexists|].
  destruct u, pw; try done; [by eexists|]. by destruct Hc as [|[]].
Qed.

(** ** At concrete inputs *)

Module Example.
(** A clap that takes every line it may take. *)
#[local] Instance lenient : Clap.
Proof.
  refine {| accepts ds given := obeys ds given (excused ds given) |}.
  - done.
  - intros ds p. unfold obeys. rewrite !forallb_forall. intros Ho a Ha. specialize (Ho a Ha). revert Ho.
    rewrite !andb_true_iff. intros [H1 H2]. split.
    + destruct (p (id a)); [|done]. cbn in *. revert H1. rewrite !andb_true_iff, !forallb_forall.
      intros [? H3]. split; [done|]. intros b Hb%H3. by rewrite orb_false_r in Hb; rewrite Hb.
    + destruct (required a); [|done]. rewrite orb_false_r in H2. by rewrite H2.
Defined.
Lemma accepted_options_reach_witness :
  let c := Receive ["out"] false true false false None true (Some "https://ntfy.example") no_turn in
  accepted c = true
  /\ forall h : handlers (option string), run h {| cafile := None; cmd := c |}
       = h_p1 h ["out"] true false (Some "https://ntfy.example") no_turn None.
Proof.
  intros c. split; [reflexivity|]. intros h.
  destruct (accepted_options_reach h None ["out"] false true false false None true (Some "https://ntfy.example") no_turn)
    as [(H1 & _)|[(_ & _ & H1)|(H1 & _)]]; [reflexivity|discriminate|exact H1|discriminate].
Defined.
(** [b2p receive --tunnel --rendezvous u], should clap take it, opens a tunnel. *)
Lemma ignored_rendezvous :
  let c := Receive [] false false false true None false (Some "u") no_turn in
  obeys receive_args (given c) (excused receive_args (given c)) = true
  /\ forall h : handlers (option string), run h {| cafile := None; cmd := c |} = h_tunnel h [] false false false None.
Proof. by split; [vm_compute|]. Qed.
End Example.
