(* ===== verification/ReceiveTunnel.v ===== *)
(** * [receive_tunnel] of src/main.rs: a receiver with a server

    The server, the tunnel's child process, the printed code, and the
    [select!] loop between the server's acceptance requests, its events,
    its shutdown token and Ctrl-C. Whichever branches are ready, any one of
    them may be taken. *)

From S2P Require Import Prelude Str Libs Fs Crypto Protocol Store Archive Stream Code Tunnel Cloudflared Server ServerSpec.

(** What the server's handles hold for the loop, and what the loop has
    answered. *)
Record screen : Type := {
  requests : list string; queue : list Event; token_cancelled : bool; replies : list bool;
}.

(** [line.trim().eq_ignore_ascii_case("y")]. *)
Definition answer (line : string) : bool := eq_ignore_ascii_case (trim line) "y".
(** What an event ends the loop with, if it does. *)
Definition on_event (e : Event) : option (res unit) :=
  match e with
  | DoneEvent _ => Some (Ok tt)
  | Failed msg => Some (Err (EMsg msg))
  | Accepted _ _ | Progress _ | TextEvent _ => None
  end.

(** One turn, and what [receive_tunnel] returns if it is the last. *)
Inductive turn : screen -> screen -> option (res unit) -> Prop :=
| take_request summary rs q c rep line :
    turn {| requests := summary :: rs; queue := q; token_cancelled := c; replies := rep |}
         {| requests := rs; queue := q; token_cancelled := c; replies := rep ++ [answer line] |} None
| request_stdin_error summary rs q c rep e :
    turn {| requests := summary :: rs; queue := q; token_cancelled := c; replies := rep |}
         {| requests := rs; queue := q; token_cancelled := c; replies := rep |} (Some (Err (EIo e)))
| take_event rs e q c rep :
    turn {| requests := rs; queue := e :: q; token_cancelled := c; replies := rep |}
         {| requests := rs; queue := q; token_cancelled := c; replies := rep |} (on_event e)
| take_cancelled rs q rep :
    turn {| requests := rs; queue := q; token_cancelled := true; replies := rep |}
         {| requests := rs; queue := q; token_cancelled := true; replies := rep |} (Some (Ok tt))
| ctrl_c rs q c rep :
    turn {| requests := rs; queue := q; token_cancelled := c; replies := rep |}
         {| requests := rs; queue := q; token_cancelled := true; replies := rep |} (Some (Ok tt)).

(** What the loop is woken by, in order; a request comes with the line typed for
    it, if one can be read. *)
Inductive ready : Type := AskedFor (line : res string) | Event_ (e : Event) | Token | CtrlC.
Definition on_ready (x : ready) : option (res unit) :=
  match x with
  | AskedFor (Ok _) => None
  | AskedFor (Err e) => Some (Err e)
  | AskedFor Panic => Some Panic
  | Event_ e => on_event e
  | Token | CtrlC => Some (Ok tt)
  end.
(** [None]: it waits for more. *)
Fixpoint screen_loop (l : list ready) : option (res unit) :=
  match l with
  | [] => None
  | x :: l' => match on_ready x with Some r => Some r | None => screen_loop l' end
  end.
Lemma turn_ready w w' o : turn w w' o -> exists x, on_ready x = o.
Proof.
  intros []; [by exists (AskedFor (Ok ""))|by exists (AskedFor (Err (EIo e)))|by exists (Event_ e)|by exists Token|by exists CtrlC].
Qed.

(** ** The command *)

(** It waits, the code printed and the server with this state running; or it
    has ended. *)
Inductive status : Type := Waiting (printed : string) (app : App) | Ended.

Section receive_tunnel.
Context `{UrlCrate} `{TunnelCrates} `{Aead} `{Blake3} `{Base58} `{!Serde Manifest} `{!Serde Commit} `{!Serde State}.
Variables (pf : Platform) (data_dir : option path) (download : string -> res bytes)
  (exec : path -> list string -> res (option output)) (lan_ip : option string).
(** The port of the listener, by the host it is bound to. *)
Variable bind_port : string -> res Z.

Definition server_start (c : ServerCfg) (bind_all : bool) : res (Z * App) :=
  port ← bind_port (if bind_all then "0.0.0.0" else "127.0.0.1");
  mret (port, start c).
Definition receive_tunnel (secret : Secret) (out : path) (direct yes ow : bool) (l : list ready) : hio status :=
  _ ← on_disk (create_dir_all out);
  sv ← hio_res (server_start {| cfg_secret := secret; out_dir := out; auto_accept := yes; overwrite := ow |} direct);
  tunnel_handle ← (if direct then direct_handle lan_ip sv.1 else start_cloudflared pf data_dir download exec sv.1);
  let printed := Code_to_string {| base_url := tunnel_url tunnel_handle; code_secret := secret |} in
  match screen_loop l with
  | None => mret (Waiting printed sv.2)
  | Some r => _ ← drop_handle tunnel_handle; _ ← hio_res r; mret Ended
  end.
Definition tunnel_cfg (secret : Secret) (out : path) (yes ow : bool) : ServerCfg :=
  {| cfg_secret := secret; out_dir := out; auto_accept := yes; overwrite := ow |}.
Lemma receive_tunnel_spec secret out direct yes ow l h :
  let '(r, h') := receive_tunnel secret out direct yes ow l h in
  match r with
  | Ok (Waiting printed app) =>
      screen_loop l = None /\ app = start (tunnel_cfg secret out yes ow)
      /\ exists url port, printed = Code_to_string {| base_url := url; code_secret := secret |}
      /\ bind_port (if direct then "0.0.0.0" else "127.0.0.1") = Ok port
      /\ (if direct then running h' = running h /\ Tunnel.direct lan_ip port = Ok url
          else exists bin lines deadline, running h' = running h ∪ {[fresh (running h)]}
               /\ exec bin (cloudflared_args port) = Ok (Some (lines, deadline)) /\ start_outcome lines deadline = Ok url)
  | _ => running h' = running h
  end.
Proof.
  unfold receive_tunnel, on_disk, hio_res, mbind, hio_bind.
  destruct (create_dir_all out (disk h)) as [[[]|e|] s]; [|done|done].
  unfold server_start. destruct (bind_port _) as [port|e|] eqn:Eb; [|done|done]. cbn [mbind res_bind mret res_ret fst snd].
  set (h1 := Host s (running h)). destruct direct.
  - unfold direct_handle, hio_res, mbind, hio_bind. destruct (Tunnel.direct lan_ip port) as [url|e|] eqn:Ed; [|done|done].
    cbn [mret hio_ret tunnel_url]. destruct (screen_loop l) as [[[]|e|]|] eqn:El; try done.
    split; [done|]. split; [done|]. by exists url, port.
  - pose proof (start_cloudflared_spec pf data_dir download exec port h1) as Hs.
    destruct (start_cloudflared _ _ _ _ port h1) as [[t|e|] h2]; [|done|done].
    destruct Hs as (Hc & Hr & bin & lines & dl & _ & Hx & Ho).
    destruct (screen_loop l) as [r|] eqn:El.
    + pose proof (drop_handle_running t h2 _ Hc Hr) as Hd. destruct (drop_handle t h2) as [r' h3] eqn:E.
      unfold drop_handle in E. rewrite Hc in E. injection E as <- <-. destruct r as [[]|e|]; exact Hd.
    + split; [done|]. split; [done|]. exists (tunnel_url t), port. split; [done|]. split; [done|]. by exists bin, lines, dl.
Qed.
End receive_tunnel.

(** ** Properties *)

(** C34: The tunnel lives as long as the receiver waits: however [receive --tunnel]
    ends, by success, error or panic, at any stage, it leaves no child process
    it started; while it waits it has the one child that announced the URL of
    the printed code, or none with [--direct], and whoever has that code is
    authorized by the server and has its key. *)
Theorem tunnel_lives_with_receiver `{UrlCrate} `{TunnelCrates} `{Aead} `{Blake3} `{Base58} `{!Serde Manifest}
    `{!Serde Commit} `{!Serde State} pf data_dir download exec lan_ip bind_port secret out direct yes ow l h :
  let '(r, h') := receive_tunnel pf data_dir download exec lan_ip bind_port secret out direct yes ow l h in
  match r with
  | Ok (Waiting printed app) =>
      exists url port, printed = Code_to_string {| base_url := url; code_secret := secret |}
      /\ authorized app (Some ("Bearer " +:+ auth_token secret)) = true /\ key app = data_key secret
      /\ (if direct then running h' = running h /\ Tunnel.direct lan_ip port = Ok url
          else exists bin lines deadline, running h' = running h ∪ {[fresh (running h)]}
               /\ exec bin (cloudflared_args port) = Ok (Some (lines, deadline)) /\ start_outcome lines deadline = Ok url)
  | _ => running h' = running h
  end.
Proof.
  pose proof (receive_tunnel_spec pf data_dir download exec lan_ip bind_port secret out direct yes ow l h) as Hs.
  destruct (receive_tunnel _ _ _ _ _ _ secret out direct yes ow l h) as [[[printed app|]|e|] h']; [|exact Hs..].
  destruct Hs as (_ & -> & url & port & Hp & _ & Hu). exists url, port. split; [exact Hp|]. split; [|split; [done|exact Hu]].
  apply bool_decide_eq_true. unfold provided, mbind, option_bind. by rewrite strip_prefix_app.
Qed.

(** The tenth bad token sends the failure and cancels the server at once, so
    the loop finds both ready: it may report the failure, and it may as well
    return success without a word of it. *)
Theorem lockout_may_be_silent `{Aead} `{Blake3} `{Base58} `{!Serde Manifest} `{!Serde Commit} `{!Serde State}
    tar ask req a s rs rep :
  authorized a (authorization req) = false -> auth_failures a = MAX_AUTH_FAILURES - 1 -> events a = [] ->
  let a' := (serve tar ask req (a, s)).2.1 in
  let w := {| requests := rs; queue := events a'; token_cancelled := cancelled a'; replies := rep |} in
  (exists w', turn w w' (Some (Err (EMsg "too many bad auth attempts — shutting down"))))
  /\ exists w', turn w w' (Some (Ok tt)).
Proof.
  intros Ha Hf He. unfold serve, auth_mw, get, mbind, srv_bind. cbn [fst]. rewrite Ha. cbn [negb fst snd]. rewrite Hf.
  change ((MAX_AUTH_FAILURES - 1 + 1) mod 2 ^ 32) with 10. change (MAX_AUTH_FAILURES <=? 10) with true.
  cbn. rewrite He. cbn. split; eexists; [apply (take_event rs (Failed _))|apply take_cancelled].
Qed.

Module Example.
#[local] Existing Instances Toy.aead Toy.blake3 Toy.base58.
#[local] Existing Instances ServerSpec.Example.toy_manifest ServerSpec.Example.toy_commit ServerSpec.Example.toy_state.

(** After nine strangers, one more. *)
Definition nine : App :=
  (serve_all ServerSpec.Example.tar0 ServerSpec.Example.ask0 (replicate 9 ServerSpec.Example.stranger)
     (start ServerSpec.Example.cfg0, ServerSpec.Example.disk)).1.
Definition ten : App :=
  (serve ServerSpec.Example.tar0 ServerSpec.Example.ask0 ServerSpec.Example.stranger.1 (nine, Fs ServerSpec.Example.disk [])).2.1.
Lemma lockout_may_be_silent_witness :
  exists w', turn {| requests := []; queue := events ten; token_cancelled := cancelled ten; replies := [] |} w' (Some (Ok tt)).
Proof.
  apply (lockout_may_be_silent ServerSpec.Example.tar0 ServerSpec.Example.ask0 ServerSpec.Example.stranger.1 nine
    (Fs ServerSpec.Example.disk []) [] []); vm_compute; reflexivity.
Defined.

(** A child that announces its URL on the second line. *)
Definition banner : path -> list string -> res (option output) :=
  fun _ _ => Ok (Some (["starting"; "| https://foo.trycloudflare.com |"], false)).
Definition receive0 (l : list ready) : res status * host :=
  receive_tunnel (H := toy_url) (H0 := Tunnel.Example.crates) Tunnel.Example.linux (Some ["d"]) Tunnel.Example.get banner None
    (fun _ => Ok 4000) {| secret_bytes := replicate 16 Byte.x07 |} ["out"] false true false l (Host (Fs ∅ []) {[0%nat]}).
Example waits_with_child :
  exists printed app, (receive0 [AskedFor (Ok "y")]).1 = Ok (Waiting printed app)
  /\ starts_with "https://foo.trycloudflare.com#" printed = true /\ running (receive0 [AskedFor (Ok "y")]).2 = {[0%nat; 1%nat]}.
Proof. eexists _, _. split; [vm_compute; reflexivity|]. by split; vm_compute. Qed.
Example aborted_without_child : receive0 [CtrlC] = (Ok Ended, (receive0 [CtrlC]).2) /\ running (receive0 [CtrlC]).2 = {[0%nat]}.
Proof. split; vm_compute; reflexivity. Qed.
End Example.
