(* ===== verification/TunnelCli.v ===== *)
(** * [receive --tunnel] and [send], together

    The receiver of ReceiveTunnel, waiting, and the sender of src/main.rs that
    is given the code it printed: the code is taken for a tunnel code with the
    receiver's secret, and the upload of src/send.rs under it ends with the
    file in place. *)

From S2P Require Import Prelude Str Libs Fs Crypto Protocol Store Archive Stream Transfer Safety Send RvCode Code Tunnel.
From S2P Require Import Cloudflared Server ServerSpec Upload Turn Pake Channel Handshake Session Config Main ReceiveTunnel.

(** ** The code *)

Section code.
Context `{UrlCrate} `{Blake3} `{Base58}.

(** An origin: [url] prints its scheme first, and the address a tunnel is
    announced under parses again without its trailing slash. *)
Definition origin (u : Url) : Prop :=
  (scheme u = "https" \/ scheme u = "http") /\ (exists rest, as_str u = scheme u +:+ "://" +:+ rest /\ rest <> "")
  /\ has_fragment u = false /\ url_parse (trim_end_char "/" (as_str u)) = Some u.

Lemma split_head a c s : Ascii.eqb a c = false -> exists p ps, str_split c (String a s) = String a p :: ps.
Proof. intros E. cbn [str_split]. rewrite E. destruct (str_split c s) as [|p ps]; by eexists _, _. Qed.
Lemma trim_end_first a b s : Ascii.eqb a b = false -> exists t, trim_end_char b (String a s) = String a t.
Proof. intros E. cbn [trim_end_char]. destruct (trim_end_char b s); [rewrite E|]; by eexists. Qed.

(** A tunnel code is never taken for a rendezvous code: it parses to what it
    was printed from. *)
Lemma origin_code c : origin (base_url c) -> zlen (secret_bytes (code_secret c)) = SECRET_LEN ->
  parse_dest (Code_to_string c) = Ok (DTunnel c).
Proof.
  intros (Hs & (rest & Hr & _) & Hf & Hp) Hl. unfold parse_dest.
  assert (E : is_rendezvous_code (Code_to_string c) = false).
  { destruct (graphic_display c) as [Hg Hn]. unfold is_rendezvous_code. rewrite trim_all_graphic by done.
    assert (Hh : exists t, Code_to_string c = String "h" t).
    { unfold Code_to_string. rewrite Hr. destruct (trim_end_first "h" "/" (match scheme (base_url c) with String _ t => t | _ => "" end +:+ "://" +:+ rest) eq_refl) as (t & Ht).
      exists (t +:+ "#" +:+ to_base58 (code_secret c)). destruct Hs as [Es|Es]; rewrite Es in Ht |- *; cbn in Ht |- *; by rewrite Ht. }
    destruct Hh as (t & ->). destruct (split_head "h" "-" t eq_refl) as (p & ps & ->). cbn [starts_with strip_prefix].
    by destruct ps as [|? [|? []]]. }
  rewrite E, code_parses by done. reflexivity.
Qed.
End code.

(** ** Property *)

(** C4: The tunnel commands deliver: a [receive --tunnel --yes] (or [--direct]) that
    waits has printed a code that [send] takes for a tunnel code, provided it
    was announced an origin. Where it was given [--overwrite] or has no file
    at the destination, and its disk has no faults and can be resumed from, the
    upload under that code runs for a bounded
    number of steps, however its requests interleave, and on a network that
    loses nothing it cannot stop before it reports completion with the file in
    place on the receiver. *)
Theorem tunnel_cli_delivers `{UrlCrate} `{TunnelCrates} `{Aead} `{Blake3} `{Base58} `{!Serde Manifest} `{!Serde Commit}
    `{!Serde State} pf data_dir download exec lan_ip bind_port secret out direct ow h h' printed app
    client_host nm tid es p sp content sender_disk tar ask :
  receive_tunnel pf data_dir download exec lan_ip bind_port secret out direct true ow [] h = (Ok (Waiting printed app), h') ->
  zlen (secret_bytes secret) = SECRET_LEN ->
  (if direct then forall port url, bind_port "0.0.0.0" = Ok port -> Tunnel.direct lan_ip port = Ok url -> origin url
   else forall bin args lines deadline url, exec bin args = Ok (Some (lines, deadline)) ->
     start_outcome lines deadline = Ok url -> origin url) ->
  let c := tunnel_cfg secret out true ow in
  let source := Blob KFile nm es (zlen content) tid p sp in
  let m := build_manifest source in
  let n := nodes (disk h') in
  zlen content < U64 -> file_at (nodes sender_disk) p = Some content -> faults sender_disk = [] ->
  (fits (manifest_request c m) /\ fits (commit_request c m content)
   /\ forall i, 0 <= i < n_chunks CHUNK_SIZE content -> fits (chunk_request c m content (show i, i))) ->
  wire_ok m ->
  path_exists (Fs n []) (join out (safe_name nm)) = false \/ ow = true ->
  resumable out (safe_name nm) tid CHUNK_SIZE content n ->
  exists code, parse_dest printed = Ok (DTunnel code) /\
    let step := send_step (code_secret code) client_host source sender_disk tar ask false in
    (forall j s, nsteps step j (AtManifest, (app, n)) s -> (j <= 12 * Z.to_nat (n_chunks CHUNK_SIZE content) + 3)%nat)
    /\ forall s, rtc step (AtManifest, (app, n)) s ->
       (exists s', step s s')
       \/ s.1 = Over (Ok "transfer complete") /\ file_at s.2.2 (out ++ [safe_name nm]) = Some content.
Proof.
  intros Hrun Hsec Horigin c source m n Hlen Hfile Hdisk Hfits Hwire Hclob Hres.
  pose proof (receive_tunnel_spec pf data_dir download exec lan_ip bind_port secret out direct true ow [] h) as Hs.
  rewrite Hrun in Hs. destruct Hs as (_ & -> & url & port & -> & Hport & Hu).
  assert (Ho : origin url).
  { destruct direct; [by eapply Horigin, Hu|]. destruct Hu as (bin & lines & dl & _ & Hx & Ho). by eapply Horigin. }
  exists {| base_url := url; code_secret := secret |}. split; [by apply origin_code|].
  assert (Hacc : decide_accept ask c m (path_exists (Fs n []) (join (out_dir c) (safe_name nm))) = Some true).
  { unfold decide_accept. cbn [auto_accept overwrite out_dir c tunnel_cfg]. by destruct Hclob as [-> | ->]; [|rewrite andb_false_r]. }
  intros step. split; [intros j s; apply (sends_bounded c client_host)|].
  intros s Hs. assert (Hi : send_inv c nm tid es p sp content false n s).
  { eapply (send_steps_inv c client_host nm tid es p sp content sender_disk tar ask false n); done. }
  assert (Hp : (forall r, s.1 <> Over r) -> exists s', step s s')
    by by apply (send_progress c client_host nm tid es p sp content sender_disk tar ask false n).
  destruct s as [[| | |[d|e|]] w]; simpl in *; try (left; by apply Hp); [|done..].
  right. destruct Hi as [-> ?]. done.
Qed.

Module Example.
Import ServerSpec.Example.
#[local] Existing Instances Toy.aead Toy.blake3 Toy.base58 ServerSpec.Example.toy_manifest
  ServerSpec.Example.toy_commit ServerSpec.Example.toy_state toy_url Tunnel.Example.crates.
Definition host0 : host := Host (Fs ServerSpec.Example.disk []) ∅.
(** A receiver on the LAN, and a file of a byte. *)
Definition waiting : res status * host :=
  receive_tunnel Tunnel.Example.linux (Some ["d"]) Tunnel.Example.get (fun _ _ => Err io_error) (Some "10.0.0.1")
    (fun _ => Ok 4000) (cfg_secret cfg0) ["out"] true true false [] host0.
Definition code0 : string := match waiting.1 with Ok (Waiting printed _) => printed | _ => "" end.
Lemma tunnel_cli_delivers_witness :
  exists code, parse_dest code0 = Ok (DTunnel code)
  /\ forall j s, nsteps (send_step (code_secret code) None Upload.Example.source0 Upload.Example.disk_s tar0 ask0 false) j
       (AtManifest, (Server.start cfg0, ServerSpec.Example.disk)) s -> (j <= 15)%nat.
Proof.
  destruct (tunnel_cli_delivers Tunnel.Example.linux (Some ["d"]) Tunnel.Example.get (fun _ _ => Err io_error) (Some "10.0.0.1")
    (fun _ => Ok 4000) (cfg_secret cfg0) ["out"] true false host0 host0 code0 (Server.start cfg0)
    None "../f" "t" [] ["s"] None content0 Upload.Example.disk_s tar0 ask0) as (code & Hd & Hb & _).
  - vm_compute. reflexivity.
  - reflexivity.
  - intros port url [= <-] Hu. vm_compute in Hu. injection Hu as <-. unfold origin. split_and!.
    + right. reflexivity.
    + exists "10.0.0.1:4000". split; [reflexivity|discriminate].
    + reflexivity.
    + vm_compute. reflexivity.
  - reflexivity.
  - reflexivity.
  - reflexivity.
  - split; [vm_compute; discriminate|]. split; [vm_compute; discriminate|]. intros i Hi.
    change (n_chunks CHUNK_SIZE content0) with 1 in Hi. replace i with 0 by lia. vm_compute. discriminate.
  - apply (bool_decide_unpack _). vm_compute. exact I.
  - left. vm_compute. reflexivity.
  - apply disk0_resumable.
  - exists code. split; [exact Hd|exact Hb].
Defined.
End Example.
