(* ===== verification/ServerRefine.v ===== *)
(** * The HTTP receiver refines an upload protocol

    What a client of the receiver has to know is a machine with three pieces
    of state: which chunks of the file are there, whether a transfer is open,
    whether the file has been saved. Its replies, and what of it is on disk,
    are the receiver's. *)

From S2P Require Import Prelude Str Libs Fs Crypto Protocol Store Archive Stream Transfer Safety Server ServerSpec.

(** ** The machine *)

(** [total] is the number of chunks. *)
Record upload : Type := { got : gset Z; active : bool; saved : bool }.
Definition upload0 (g : gset Z) : upload := {| got := g; active := false; saved := false |}.

(** A request of a holder of the code, one with the right token whose body
    does not open, one without the right token. *)
Inductive upload_request : Type :=
| RManifest | RChunk (segment : string) (i : Z) | RStatus | RCommit
| RJunk (r : route) | RStranger (token : option string) (r : route).

Definition out_of_range (i : Z) : Response := StatusText 400 ("chunk index " +:+ show i +:+ " out of range").
Definition incomplete (g : gset Z) (total : Z) : Response :=
  JsonCommitAck {| ca_ok := false;
    ca_error := Some ("transfer incomplete: " +:+ show (Z.of_nat (size g)) +:+ "/" +:+ show total +:+ " chunks") |}.
Definition upload_step (total : Z) (q : upload_request) (u : upload) : Response * upload :=
  match q with
  | RManifest =>
      (JsonManifestAck {| ma_accepted := true; ma_complete := false; ma_have := bt_iter (got u) |},
       {| got := got u; active := true; saved := saved u |})
  | RChunk _ i =>
      if negb (active u) then (Status 409, u)
      else if total <=? i then (out_of_range i, u)
      else (Status 200, {| got := {[i]} ∪ got u; active := true; saved := saved u |})
  | RStatus => (if active u then JsonStatusResp {| sr_have := bt_iter (got u) |} else Status 409, u)
  | RCommit =>
      if negb (active u) then (Status 409, u)
      else if Z.of_nat (size (got u)) =? total
      then (JsonCommitAck {| ca_ok := true; ca_error := None |}, {| got := ∅; active := false; saved := true |})
      else (incomplete (got u) total, {| got := got u; active := false; saved := saved u |})
  | RJunk (PutChunk seg _) =>
      (Status (if bool_decide (is_Some (parse_uint (U64 - 1) seg)) && negb (active u) then 409 else 400), u)
  | RJunk (PostCommit _) => (Status (if active u then 400 else 409), u)
  | RJunk OtherRoute => (Status 404, u)
  | RJunk _ => (Status 400, u)
  | RStranger _ _ => (Status 401, u)
  end.
Fixpoint upload_run (total : Z) (qs : list upload_request) (u : upload) : list Response * upload :=
  match qs with
  | [] => ([], u)
  | q :: qs' => let '(r, u1) := upload_step total q u in let '(rs, u2) := upload_run total qs' u1 in (r :: rs, u2)
  end.

(** ** The receiver *)

Section refine.
Context `{Aead} `{Blake3} `{Base58} `{!Serde Manifest} `{!Serde Commit} `{!Serde State}.
Variable tar : bytes -> path -> io unit.
Variable ask : string -> option (option bool).
Variables (c : ServerCfg) (m0 : Manifest) (content : bytes).

(** The replies of a sequence of requests. *)
Fixpoint replies (reqs : list (request * list fault)) (w : App * gmap path node)
    : list (res Response) * (App * gmap path node) :=
  match reqs with
  | [] => ([], w)
  | r :: reqs' =>
      let '(x, w1) := serve_on tar ask r w in
      let '(xs, w2) := replies reqs' w1 in (x :: xs, w2)
  end.

Definition concrete (q : upload_request) : request * list fault :=
  match q with
  | RManifest => manifest_request c m0
  | RChunk seg i => chunk_request c m0 content (seg, i)
  | RStatus => with_token c GetStatus
  | RCommit => commit_request c m0 content
  | RJunk r => with_token c r
  | RStranger token r => ({| authorization := token; rt := r |}, [])
  end.
Local Abbreviation k := (data_key (cfg_secret c)).
Local Abbreviation nm := (safe_name (name m0)).
Local Abbreviation tid := (mf_transfer_id m0).
Local Abbreviation cs := (mf_chunk_size m0).
Local Abbreviation pd := (partial_dir (out_dir c) nm).
Local Abbreviation dest := (out_dir c ++ [nm]).
Local Abbreviation total := (n_chunks cs content).
Local Abbreviation on_disk := (listed (out_dir c) nm tid cs content).
Local Abbreviation Idle := (resumable (out_dir c) nm tid cs content).

(** A body that does not open under the key for this transfer. *)
Definition junk (r : route) : Prop :=
  match r with
  | PostManifest b => zlen b <= BODY_LIMIT /\ is_ok (open_json (T := Manifest) k DManifest [] b) = false
  | PutChunk seg b =>
      zlen b <= BODY_LIMIT
      /\ forall i, parse_uint (U64 - 1) seg = Some i -> is_ok (open k DData i (as_bytes tid) b) = false
  | PostCommit b => zlen b <= BODY_LIMIT /\ is_ok (open_json (T := Commit) k DCommit (as_bytes tid) b) = false
  | GetStatus => False
  | OtherRoute => True
  end.
Definition well_formed (q : upload_request) : Prop :=
  match q with
  | RManifest | RCommit => fits (concrete q)
  | RChunk seg i => parse_uint (U64 - 1) seg = Some i /\ fits (concrete q)
  | RStatus => True
  | RJunk r => junk r
  | RStranger token r => authorized (start c) token = false
  end.

(** How the machine's state shows in the receiver's and on the disk, which was
    [n0] when the receiver started. *)
Definition refines (n0 : gmap path node) (u : upload) (w : App * gmap path node) : Prop :=
  same_conf (start c) w.1 /\ on_disk w.2 = got u /\ Idle w.2
  /\ (if active u
      then exists st, transfer w.1 = Some {| manifest := m0; store := st |}
           /\ store_inv pd tid cs content st w.2 /\ usable pd w.2 /\ st_have (state st) = got u
      else transfer w.1 = None)
  /\ (forall q, ~ pd `prefix_of` q -> q <> dest -> w.2 !! q = n0 !! q)
  /\ (if saved u then file_at w.2 dest = Some content else w.2 !! dest = n0 !! dest).

Hypothesis Hkind : kind m0 = KFile.
Hypothesis Hsize : mf_total_size m0 = zlen content.
Hypothesis Hcs : 0 < mf_chunk_size m0 < U64.
Hypothesis Hlen : zlen content < U64.
Hypothesis Hwire : wire_ok m0.
Hypothesis Hversion : version m0 = PROTOCOL_VERSION.
(** The user, or --yes --overwrite, accepts every time. *)
Hypothesis Haccept : forall b, decide_accept ask c m0 b = Some true.

Lemma same_conf_sym_cfg a : same_conf (start c) a -> cfg a = c /\ key a = k.
Proof. by intros (-> & -> & _). Qed.

(** Whatever lies outside the staging directory is kept. *)
Lemma staging_not_dest : ~ pd `prefix_of` dest.
Proof. rewrite partial_dir_plain by apply safe_name_plain. apply dest_not_under. Qed.
Lemma frame_keeps (n0 n n' : gmap path node) : keeps pd n n' ->
  (forall q, ~ pd `prefix_of` q -> q <> dest -> n !! q = n0 !! q) ->
  (forall q, ~ pd `prefix_of` q -> q <> dest -> n' !! q = n0 !! q) /\ n' !! dest = n !! dest.
Proof.
  intros Hk Hf. split; [|apply Hk, staging_not_dest]. intros q Hq Hd. rewrite Hk by done. by apply Hf.
Qed.

(** *** Each request *)

Lemma refines_same n0 u a a' n : refines n0 u (a, n) -> same_conf (start c) a' -> transfer a' = transfer a ->
  refines n0 u (a', n).
Proof. unfold refines. cbn [fst snd]. intros (_ & ? & ? & Hact & ? & ?) Hc Ht. rewrite Ht. done. Qed.

(** The disk of a receiver whose transfer is open. *)
Lemma open_refines (n0 n n' : gmap path node) st (sv : bool) w : transfer w.1 = Some {| manifest := m0; store := st |} ->
  same_conf (start c) w.1 -> w.2 = n' ->
  store_inv pd tid cs content st n' -> usable pd n' -> Idle n' -> on_disk n' = st_have (state st) -> keeps pd n n' ->
  (forall q, ~ pd `prefix_of` q -> q <> dest -> n !! q = n0 !! q) ->
  (if sv then file_at n dest = Some content else n !! dest = n0 !! dest) ->
  refines n0 {| got := st_have (state st); active := true; saved := sv |} w.
Proof.
  intros Ht Hc <- Hst Hu Hi Hl Hk Hf Hs. destruct (frame_keeps n0 n w.2 Hk Hf) as [Hf' Hd].
  split_and!; try done; [by exists st|]. cbn [saved]. unfold file_at in *. by rewrite Hd.
Qed.

Lemma manifest_refines n0 u w : well_formed RManifest -> refines n0 u w ->
  exists w', serve_on tar ask (concrete RManifest) w = (Ok (upload_step total RManifest u).1, w')
    /\ refines n0 (upload_step total RManifest u).2 w'.
Proof.
  destruct w as [a n]. intros Hf (Hc & Hg & Hi & _ & Hfr & Hs). cbn [fst snd] in *.
  destruct (reopen (out_dir c) nm tid cs content Hcs Hlen (safe_name_plain _) n Hi) as (st & n' & Ho & Hst & Hu & _ & Hk & Hi' & Hh & Hl).
  unfold concrete, manifest_request in *. rewrite with_token_served by done. cbn [router].
  rewrite limited_fits by exact Hf. unfold handle_manifest, get, mbind, srv_bind. cbn [fst snd].
  destruct (same_conf_sym_cfg a Hc) as [Ec Ek]. rewrite Ek.
  unfold open_json, seal_json. rewrite open_seal. cbn [mbind res_bind]. rewrite from_to_vec by done. cbn [ok_or fst snd].
  rewrite Hversion, Z.eqb_refl. cbn [negb look fst snd]. rewrite Ec, Haccept, Hkind.
  rewrite bool_decide_false by done. unfold srv_try. cbn [fst snd]. rewrite Hsize, Ho. simpl.
  eexists. split; [unfold have; rewrite Hh, Hg; reflexivity|].
  rewrite <- Hg, <- Hh. apply (open_refines n0 n n'); try done. congruence.
Qed.

Lemma chunk_refines n0 u w seg i : well_formed (RChunk seg i) -> refines n0 u w ->
  exists w', serve_on tar ask (concrete (RChunk seg i)) w = (Ok (upload_step total (RChunk seg i) u).1, w')
    /\ refines n0 (upload_step total (RChunk seg i) u).2 w'.
Proof.
  destruct w as [a n]. intros [Hp Hf] HR. pose proof HR as (Hc & Hg & Hi & Hact & Hfr & Hs). cbn [fst snd] in *.
  destruct (same_conf_sym_cfg a Hc) as [Ec Ek].
  cbn [concrete upload_step]. unfold concrete, chunk_request in *. rewrite with_token_served by done. cbn [router fst snd] in *.
  rewrite Hp, limited_fits by exact Hf. unfold handle_chunk, get, mbind, srv_bind. cbn [fst snd].
  destruct (active u) eqn:Ea; cbn [negb]; [|rewrite Hact; eexists; by split].
  destruct Hact as (st & Ht & Hst & Hu & Hh). rewrite Ht, Ek, open_seal. unfold srv_write. cbn [fst snd store manifest].
  pose proof (parse_uint_range (U64 - 1) _ _ ltac:(done) Hp) as Hr.
  destruct (Z.leb_spec total i) as [Hge|Hlt].
  - unfold write_chunk. rewrite (total_chunks_ok pd tid cs content Hcs) by apply Hst.
    apply Z.leb_le in Hge as ->. simpl. eexists. split; [reflexivity|]. by eapply refines_same.
  - destruct (write_chunk_runs pd tid cs content Hcs Hlen st i (Fs n []) ltac:(lia) Hst eq_refl Hu) as ([n' fl] & Hw & Hfl & Hu').
    simpl in Hfl. subst fl. pose proof (write_chunk_inv pd tid cs content Hcs Hlen st i (Fs n []) ltac:(lia) Hst) as Hinv.
    pose proof (write_chunk_saves pd tid cs content Hcs Hlen st i (Fs n []) ltac:(lia) Hst eq_refl Hu) as Hsv.
    pose proof Hst as ((Hd & Hdp & Hsp & _) & _).
    pose proof (write_chunk_keeps pd n st i (chunk cs i content) (Fs n []) Hd Hdp Hsp ltac:(done)) as Hk.
    pose proof Hi as (Hsta & _ & Hdest).
    pose proof (write_chunk_shape (out_dir c) nm (safe_name_plain _) st i (chunk cs i content) (Fs n []) Hd Hdp Hsp (conj Hsta Hdest)) as Hsh.
    rewrite Hw in Hinv, Hk, Hsv, Hsh |- *. destruct Hinv as (_ & Hst' & _). cbn [nodes snd] in Hsv, Hsh, Hu', Hst', Hk. simpl.
    eexists. split; [reflexivity|]. rewrite <- Hh.
    change ({[i]} ∪ st_have (state st)) with (st_have (state (insert_have i st))).
    apply (open_refines n0 n n'); try done; [by eapply uploading_idle; split|].
    apply saved_listed; [apply Hst'|done].
Qed.

Lemma commit_refines n0 u w : well_formed RCommit -> refines n0 u w ->
  exists w', serve_on tar ask (concrete RCommit) w = (Ok (upload_step total RCommit u).1, w')
    /\ refines n0 (upload_step total RCommit u).2 w'.
Proof.
  destruct w as [a n]. intros Hf HR. pose proof HR as (Hc & Hg & Hi & Hact & Hfr & Hs). cbn [fst snd] in *.
  destruct (same_conf_sym_cfg a Hc) as [Ec Ek].
  cbn [concrete upload_step]. unfold concrete, commit_request in *. rewrite with_token_served by done. cbn [router].
  rewrite limited_fits by exact Hf. unfold handle_commit, get, mbind, srv_bind. cbn [fst snd modify].
  destruct (active u) eqn:Ea; cbn [negb]; [|rewrite Hact; eexists; by split].
  destruct Hact as (st & Ht & Hst & Hu & Hh). rewrite Ht, Ek. cbn [fst snd manifest].
  unfold open_json, seal_json. rewrite open_seal. cbn [mbind res_bind]. rewrite from_to_vec by done. cbn [ok_or].
  unfold srv_try. cbn [fst snd set_transfer cfg]. rewrite Ec.
  assert (Hcomp : is_complete st = Ok (Z.of_nat (size (got u)) =? total)).
  { unfold is_complete. rewrite (total_chunks_ok pd tid cs content Hcs) by apply Hst. by rewrite Hh. }
  destruct (Z.of_nat (size (got u)) =? total) eqn:En.
  - rewrite finalize_stream by done. cbn [store manifest].
    assert (Hall : forall i, 0 <= i < total -> i ∈ st_have (state st)).
    { rewrite Hh. apply Z.eqb_eq in En. pose proof (n_chunks_range cs content Hcs).
      apply (bounded_set_size (got u) total); [lia| |done]. rewrite <- Hh.
      destruct Hst as (_ & _ & data & _ & _ & Hst). by intros j [? _]%Hst. }
    pose proof Hi as ((Hout & _) & _ & Hdest).
    destruct (finalize_exec (out_dir c) nm tid cs content Hcs (safe_name_plain _) tar n st n m0
      {| blake3_hex := hex_encode (blake3_hash content) |} ltac:(done) Hall Hkind eq_refl Hout Hdest) as (n' & -> & Hl & Hgone & Hk).
    simpl. eexists. split; [reflexivity|]. split; [done|]. cbn [snd got active saved].
    assert (Hno : forall e, n' !! (pd ++ [e]) = None) by (intros e; apply Hgone, prefix_app_r; done).
    split_and!.
    + unfold listed. unfold file_at. change (state_file pd) with (pd ++ ["state.json"]). by rewrite Hno.
    + by eapply (placed_resumable (out_dir c) nm); [apply safe_name_plain|..].
    + done.
    + intros q Hq Hd. rewrite Hk by done. by apply Hfr.
    + done.
  - assert (Efin : Server.finalize tar c {| manifest := m0; store := st |} {| blake3_hex := hex_encode (blake3_hash content) |} (Fs n [])
      = (Err (EMsg ("transfer incomplete: " +:+ show (Z.of_nat (size (got u))) +:+ "/" +:+ show total +:+ " chunks")), Fs n [])).
    { unfold Server.finalize. cbn [store]. rewrite Hcomp. unfold mbind, io_bind, io_lift. cbn [negb].
      rewrite (total_chunks_ok pd tid cs content Hcs) by apply Hst. unfold have. by rewrite zlen_bt_iter, Hh. }
    rewrite Efin. simpl. eexists. split; [reflexivity|]. split; [done|]. done.
Qed.

Lemma status_refines n0 u w : refines n0 u w ->
  exists w', serve_on tar ask (concrete RStatus) w = (Ok (upload_step total RStatus u).1, w')
    /\ refines n0 (upload_step total RStatus u).2 w'.
Proof.
  destruct w as [a n]. intros HR. pose proof HR as (Hc & Hg & Hi & Hact & Hfr & Hs). cbn [fst snd] in *.
  cbn [concrete upload_step]. rewrite with_token_served by done. cbn [router].
  unfold handle_status, get, mbind, srv_bind. cbn [fst snd]. destruct (active u).
  - destruct Hact as (st & -> & _ & _ & Hh). cbn [store]. unfold have. rewrite <- Hh. eexists. by split.
  - rewrite Hact. eexists. by split.
Qed.

Lemma stranger_refines n0 u w token r : well_formed (RStranger token r) -> refines n0 u w ->
  exists w', serve_on tar ask (concrete (RStranger token r)) w = (Ok (upload_step total (RStranger token r) u).1, w')
    /\ refines n0 (upload_step total (RStranger token r) u).2 w'.
Proof.
  destruct w as [a n]. intros Hf HR. pose proof HR as (Hc & _). cbn [fst snd well_formed] in *.
  cbn [concrete upload_step]. unfold serve_on. cbn [fst snd].
  destruct (serve_unauthorized tar ask {| authorization := token; rt := r |} a (Fs n [])) as (a' & -> & Ht & _ & Hk).
  { by rewrite (same_conf_authorized (start c) a). }
  eexists. split; [reflexivity|]. cbn [fst snd nodes]. eapply refines_same; [done| |done].
  unfold conf in Hk. injection Hk as E1 E2 E3 _ _. destruct Hc as (? & ? & ?). split_and!; congruence.
Qed.

Lemma junk_refines n0 u w r : well_formed (RJunk r) -> refines n0 u w ->
  exists w', serve_on tar ask (concrete (RJunk r)) w = (Ok (upload_step total (RJunk r) u).1, w')
    /\ refines n0 (upload_step total (RJunk r) u).2 w'.
Proof.
  destruct w as [a n]. intros Hf HR. pose proof HR as (Hc & Hg & Hi & Hact & Hfr & Hs). cbn [fst snd well_formed] in *.
  destruct (same_conf_sym_cfg a Hc) as [Ec Ek]. cbn [concrete]. rewrite with_token_served by done.
  destruct r as [b|seg b| |b|]; cbn [junk router upload_step] in *; [| |done| |by eexists].
  - destruct Hf as [Hl Hf]. rewrite limited_fits by done. unfold handle_manifest, get, mbind, srv_bind. cbn [fst snd].
    rewrite Ek. destruct (open_json k DManifest [] b); [done|by eexists..].
  - destruct Hf as [Hl Hf]. destruct (parse_uint (U64 - 1) seg) as [i|]; [|by eexists].
    rewrite bool_decide_true by done. rewrite limited_fits by done. unfold handle_chunk, get, mbind, srv_bind. cbn [fst snd].
    destruct (active u); [|rewrite Hact; by eexists].
    destruct Hact as (st & -> & _). cbn [manifest]. rewrite Ek. specialize (Hf i eq_refl).
    destruct (open k DData i (as_bytes tid) b); [done|by eexists..].
  - destruct Hf as [Hl Hf]. rewrite limited_fits by done. unfold handle_commit, get, mbind, srv_bind. cbn [fst snd].
    destruct (active u); [|rewrite Hact; by eexists].
    destruct Hact as (st & Ht & _). rewrite Ht. cbn [manifest modify fst snd]. rewrite Ek.
    destruct (open_json k DCommit (as_bytes tid) b); [done| |];
      (eexists; split; [reflexivity|]; eapply refines_same; [done|done|by rewrite Ht]).
Qed.

(** The simulation, and runs. *)
Lemma step_refines n0 u w q : well_formed q -> refines n0 u w ->
  exists w', serve_on tar ask (concrete q) w = (Ok (upload_step total q u).1, w')
    /\ refines n0 (upload_step total q u).2 w'.
Proof.
  intros Hq HR. destruct q; [by apply manifest_refines|by apply chunk_refines|by apply status_refines
    |by apply commit_refines|by apply junk_refines|by apply stranger_refines].
Qed.
Lemma run_refines n0 qs : forall u w, Forall well_formed qs -> refines n0 u w ->
  exists w', replies (map concrete qs) w = (map Ok (upload_run total qs u).1, w')
    /\ refines n0 (upload_run total qs u).2 w'.
Proof.
  induction qs as [|q qs IH]; intros u w Hqs HR; [by exists w|]. apply Forall_cons in Hqs as [Hq Hqs].
  destruct (step_refines n0 u w q Hq HR) as (w1 & E & HR1). cbn [map replies upload_run]. rewrite E.
  destruct (upload_step total q u) as [r u1]. cbn [fst snd] in *.
  destruct (IH u1 w1 Hqs HR1) as (w2 & -> & HR2). destruct (upload_run total qs u1) as [rs u2]. by exists w2.
Qed.
End refine.

(** ** Property *)

(** C14: The receiver refines the upload machine: started on any disk without
    faults from which the transfer can be resumed, with the chunks the disk
    lists, and accepting every manifest, it answers
    every sequence of requests (the sender's own in any order, junk, requests
    without the token) as the machine does; and then the disk lists the
    machine's chunks, holds the whole file at its destination if the machine
    has saved it and what was there before if not, and elsewhere outside the
    staging directory is as it was. *)
Theorem server_refines `{Aead} `{Blake3} `{Base58} `{!Serde Manifest} `{!Serde Commit} `{!Serde State}
    tar ask c m content n qs :
  kind m = KFile -> mf_total_size m = zlen content -> 0 < mf_chunk_size m < U64 -> zlen content < U64 ->
  wire_ok m -> version m = PROTOCOL_VERSION -> (forall b, decide_accept ask c m b = Some true) ->
  resumable (out_dir c) (safe_name (name m)) (mf_transfer_id m) (mf_chunk_size m) content n ->
  Forall (well_formed c m content) qs ->
  let on_disk := listed (out_dir c) (safe_name (name m)) (mf_transfer_id m) (mf_chunk_size m) content in
  let dest := out_dir c ++ [safe_name (name m)] in
  let '(rs, u) := upload_run (n_chunks (mf_chunk_size m) content) qs (upload0 (on_disk n)) in
  exists a n', replies tar ask (map (concrete c m content) qs) (start c, n) = (map Ok rs, (a, n'))
    /\ on_disk n' = got u
    /\ (if saved u then file_at n' dest = Some content else n' !! dest = n !! dest)
    /\ forall q, ~ store_dir c m `prefix_of` q -> q <> dest -> n' !! q = n !! q.
Proof.
  intros Hk Hs Hcs Hl Hw Hv Ha Hr Hqs.
  destruct (run_refines tar ask c m content Hk Hs Hcs Hl Hw Hv Ha n qs
    (upload0 (listed (out_dir c) (safe_name (name m)) (mf_transfer_id m) (mf_chunk_size m) content n)) (start c, n) Hqs)
    as ([a n'] & E & _ & HR1 & _ & _ & HR2 & HR3); [by split_and!|].
  cbn zeta. destruct (upload_run _ _ _) as [rs u]. cbn [fst snd] in *. exists a, n'. split_and!; try done.
Qed.

(** ** At a concrete input *)

Module Example.
Import ServerSpec.Example.
#[local] Existing Instances Toy.aead Toy.blake3 Toy.base58 toy_manifest toy_commit toy_state.
Definition cfg1 : ServerCfg :=
  {| cfg_secret := cfg_secret cfg0; out_dir := ["out"]; auto_accept := true; overwrite := true |}.
(** A status before the manifest, a commit too soon, a stranger, the chunk, a
    chunk too many, the commit. *)
Definition session : list upload_request :=
  [RStatus; RManifest; RCommit; RStranger None GetStatus; RManifest; RChunk "0" 0; RChunk "1" 1; RJunk OtherRoute; RCommit].
Lemma server_refines_witness :
  exists a n', replies tar0 ask0 (map (concrete cfg1 (manifest0 4) content0) session) (start cfg1, disk)
    = (map Ok [Status 409; JsonManifestAck {| ma_accepted := true; ma_complete := false; ma_have := [] |};
               incomplete ∅ 1; Status 401; JsonManifestAck {| ma_accepted := true; ma_complete := false; ma_have := [] |};
               Status 200; out_of_range 1; Status 404; JsonCommitAck {| ca_ok := true; ca_error := None |}], (a, n'))
    /\ file_at n' ["out"; "f"] = Some content0.
Proof.
  pose proof (server_refines tar0 ask0 cfg1 (manifest0 4) content0 disk session eq_refl eq_refl chunk0_ok len0_ok
    manifest0_ok eq_refl) as Hs.
  ospecialize (Hs _ (disk0_resumable 4) _).
  - intros []; reflexivity.
  - unfold session. repeat apply Forall_cons_2; try apply Forall_nil_2; try exact I;
      try (split; [vm_compute; reflexivity|vm_compute; discriminate]); try (vm_compute; discriminate).
    vm_compute. reflexivity.
  - cbn zeta in Hs.
    assert (E : upload_run (n_chunks (mf_chunk_size (manifest0 4)) content0) session
      (upload0 (listed (out_dir cfg1) (safe_name (name (manifest0 4))) (mf_transfer_id (manifest0 4)) (mf_chunk_size (manifest0 4)) content0 disk))
      = ([Status 409; JsonManifestAck {| ma_accepted := true; ma_complete := false; ma_have := [] |};
          incomplete ∅ 1; Status 401; JsonManifestAck {| ma_accepted := true; ma_complete := false; ma_have := [] |};
          Status 200; out_of_range 1; Status 404; JsonCommitAck {| ca_ok := true; ca_error := None |}],
         {| got := ∅; active := false; saved := true |})) by (vm_compute; reflexivity).
    rewrite E in Hs. destruct Hs as (a & n' & Hrep & _ & Hf & _). exists a, n'. split; [exact Hrep|exact Hf].
Defined.
End Example.
