(* ===== verification/Stuck.v ===== *)
(** * After a hash mismatch

    [finalize] refuses data whose hash is not the sender's and leaves the
    staging directory as it is, every chunk still listed. *)

From S2P Require Import Prelude Str Libs Fs Crypto Protocol Store Archive Stream Transfer Safety.

Section attempt.
Context `{Blake3} `{!Serde State}.
Variable tar : bytes -> path -> io unit.
Variables (out : path) (nm tid : string) (size cs : Z) (m : Manifest) (commit : Commit).

(** One more try: the store is opened, the sender is told which chunks are
    there, and sends the others (here there will be none) and its hash. *)
Definition attempt (n : gmap path node) : (list Z * res string) * gmap path node :=
  match open_or_create out nm tid size cs (Fs n []) with
  | (Ok st, s) => let '(r, s') := finalize tar st m commit out nm s in ((have st, r), nodes s')
  | (Err e, s) => (([], Err e), nodes s)
  | (Panic, s) => (([], Panic), nodes s)
  end.
Fixpoint attempts (k : nat) (n : gmap path node) : list (list Z * res string) * gmap path node :=
  match k with
  | O => ([], n)
  | S k' => let '(r, n1) := attempt n in let '(rs, n2) := attempts k' n1 in (r :: rs, n2)
  end.
End attempt.

(** A finished transfer of [data], of these parameters, is staged. *)
Definition staged_whole `{!Serde State} (out : path) (nm tid : string) (cs : Z) (data : bytes) (n : gmap path node) : Prop :=
  resumable out nm tid cs data n
  /\ forall i, 0 <= i < n_chunks cs data -> i ∈ listed out nm tid cs data n.

Section stuck.
Context `{Blake3} `{!Serde State}.
Variable tar : bytes -> path -> io unit.
Variables (out : path) (nm tid : string) (cs : Z) (data : bytes) (m : Manifest) (commit : Commit).
Hypothesis Hname : plain_name nm.
Hypothesis Hcs : 0 < cs < U64.
Hypothesis Hlen : zlen data < U64.
Hypothesis Hhash : hex_encode (blake3_hash data) <> blake3_hex commit.

Lemma attempt_stuck n : staged_whole out nm tid cs data n ->
  exists hv n', attempt tar out nm tid (zlen data) cs m commit n
      = ((hv, Err (EMsg "integrity check failed: hash mismatch")), n')
    /\ (forall i, 0 <= i < n_chunks cs data -> i ∈ hv) /\ staged_whole out nm tid cs data n'.
Proof.
  intros [Hr Hall]. destruct (reopen out nm tid cs data Hcs Hlen Hname n Hr) as (st & n' & Ho & Hi & _ & _ & _ & Hr' & Hh & Hl).
  assert (Hcomp : is_complete st = Ok true).
  { apply (all_complete out nm tid cs data Hcs st n' Hi). rewrite Hh. exact Hall. }
  pose proof (complete_content out nm tid cs data Hcs st n' Hi Hcomp) as Hfile.
  exists (have st), n'. split; [|split].
  - unfold attempt. rewrite Ho. unfold finalize. rewrite Hcomp. unfold mbind, io_bind, io_lift. cbn [negb].
    pose proof Hi as ((_ & Hdp & _) & _). rewrite (file_hash_runs out nm st n' data Hdp) by (by rewrite Hdp in Hfile || exact Hfile).
    apply String.eqb_neq in Hhash. by rewrite Hhash.
  - intros i Hi'. unfold have. apply elem_of_bt_iter. rewrite Hh. by apply Hall.
  - split; [done|]. intros i Hi'. rewrite Hl. by apply Hall.
Qed.
End stuck.

(** ** Property *)

(** C30: A mismatch is for good. Once a finished transfer is staged whose data does
    not have the sender's hash (its file changed between two attempts, or
    while it was read), every later attempt at the same transfer (the same id,
    name, sizes and commit), on a disk without faults, fails too: each opens
    the same store, finds every chunk listed, so that the sender sends none
    again, ends in the same mismatch, and leaves the staging directory as it
    found it for the next. *)
Theorem mismatch_is_permanent `{Blake3} `{!Serde State} tar out nm tid cs data m commit n k :
  plain_name nm -> 0 < cs < U64 -> zlen data < U64 ->
  hex_encode (blake3_hash data) <> blake3_hex commit -> staged_whole out nm tid cs data n ->
  length (attempts tar out nm tid (zlen data) cs m commit k n).1 = k
  /\ Forall (fun a => a.2 = Err (EMsg "integrity check failed: hash mismatch")
                     /\ forall i, 0 <= i < n_chunks cs data -> i ∈ a.1)
       (attempts tar out nm tid (zlen data) cs m commit k n).1
  /\ staged_whole out nm tid cs data (attempts tar out nm tid (zlen data) cs m commit k n).2.
Proof.
  intros Hname Hcs Hlen Hhash. revert n. induction k as [|k IH]; intros n Hn; [done|]. cbn [attempts].
  destruct (attempt_stuck tar out nm tid cs data m commit Hname Hcs Hlen Hhash n Hn) as (hv & n' & -> & Hhv & Hn').
  destruct (IH n' Hn') as (Hl & Hf & Hs). destruct (attempts _ _ _ _ _ _ _ _ k n') as [rs n2]. cbn [fst snd] in *.
  split; [cbn; by rewrite Hl|]. split; [by constructor|done].
Qed.

Module Example.
#[local] Existing Instances Toy.blake3.
#[local] Instance toy_state : Serde State := Toy.serde.
Definition old : bytes := [Byte.x41].
Definition new : bytes := [Byte.x42].
Definition st0 : State := {| st_transfer_id := "t"; st_total_size := 1; st_chunk_size := 4; st_have := {[0]} |}.
Definition disk : gmap path node :=
  {[ ["out"] := Dir; ["out"; "f.b2p-partial"] := Dir; ["out"; "f.b2p-partial"; "data"] := File old;
     ["out"; "f.b2p-partial"; "state.json"] := File (to_vec st0) ]}.
Lemma disk_whole : staged_whole ["out"] "f" "t" 4 old disk.
Proof.
  split; [split; [split; [|repeat split; by vm_compute]|split; [|by vm_compute]]|].
  - intros p Hp. assert (E : prefixes ["out"] = [["out"]]) by reflexivity. rewrite E in Hp.
    apply list_elem_of_singleton in Hp as ->. reflexivity.
  - intros b s Hb Hs _. right. assert (E : file_at disk (state_file (partial_dir ["out"] "f")) = Some (to_vec st0)) by (vm_compute; reflexivity).
    assert (Eb : b = to_vec st0) by congruence. subst b.
    assert (Es : from_slice (to_vec st0) = Some st0) by (vm_compute; reflexivity). assert (s = st0) as -> by congruence. exists old. split; [vm_compute; reflexivity|]. split; [done|].
    intros i Hi0. assert (i = 0) as -> by (change (i ∈ ({[0]} : gset Z)) in Hi0; by apply elem_of_singleton in Hi0). split; [done|]. reflexivity.
  - intros i Hi. assert (E : i = 0) by (change (n_chunks 4 old) with 1 in Hi; lia). subst i.
    apply (bool_decide_unpack _). vm_compute. exact I.
Qed.
Lemma mismatch_is_permanent_witness :
  map snd (attempts (fun _ _ => mret tt) ["out"] "f" "t" (zlen old) 4
    {| version := 1; mf_transfer_id := "t"; kind := KFile; name := "f"; entries := []; mf_total_size := 1; mf_chunk_size := 4; text := None |}
    {| blake3_hex := hex_encode (blake3_hash new) |} 5 disk).1
  = replicate 5 (Err (EMsg "integrity check failed: hash mismatch")).
Proof.
  destruct (mismatch_is_permanent (fun _ _ => mret tt) ["out"] "f" "t" 4 old
    {| version := 1; mf_transfer_id := "t"; kind := KFile; name := "f"; entries := []; mf_total_size := 1; mf_chunk_size := 4; text := None |}
    {| blake3_hex := hex_encode (blake3_hash new) |} disk 5) as (Hl & Hf & _).
  - split; [done|]. vm_compute. done.
  - done.
  - done.
  - vm_compute. discriminate.
  - exact disk_whole.
  - revert Hl Hf. generalize (attempts (fun _ _ => mret tt) ["out"] "f" "t" (zlen old) 4
      {| version := 1; mf_transfer_id := "t"; kind := KFile; name := "f"; entries := []; mf_total_size := 1; mf_chunk_size := 4; text := None |}
      {| blake3_hex := hex_encode (blake3_hash new) |} 5 disk).1. clear. intros l Hl Hf.
    revert Hl. generalize 5%nat. induction Hf as [|[hv r] l [Hr _] Hf IH]; intros k Hl; cbn in *; [by subst k|].
    subst k. cbn in Hr. rewrite Hr. cbn. f_equal. by apply IH.
Defined.

(** The same without a wrong hash: the file is moved into place and then
    removing the staging directory fails (or the process dies in between).
    The commit is reported as failed; and as [state.json] still lists every
    chunk and [data] is made anew, of zeros, every retry ends in a mismatch. *)
Definition manifest0 : Manifest :=
  {| version := 1; mf_transfer_id := "t"; kind := KFile; name := "f"; entries := []; mf_total_size := 1; mf_chunk_size := 4; text := None |}.
Definition commit0 : Commit := {| blake3_hex := hex_encode (blake3_hash old) |}.
Definition no_tar : bytes -> path -> io unit := fun _ _ => mret tt.
Definition failed_cleanup : res string * fs :=
  match open_or_create ["out"] "f" "t" 1 4 (Fs disk []) with
  | (Ok st, s) => finalize no_tar st manifest0 commit0 ["out"] "f" (Fs (nodes s) [NoFault; NoFault; FailBefore])
  | (Err e, s) => (Err e, s)
  | (Panic, s) => (Panic, s)
  end.
Theorem cleanup_failure_sticks :
  is_ok failed_cleanup.1 = false /\ file_at (nodes failed_cleanup.2) ["out"; "f"] = Some old
  /\ map snd (attempts no_tar ["out"] "f" "t" 1 4 manifest0 commit0 3 (nodes failed_cleanup.2)).1
     = replicate 3 (Err (EMsg "integrity check failed: hash mismatch")).
Proof. vm_compute. done. Qed.
End Example.
