(* ===== verification/Manifests.v ===== *)
(** * What a prepared source promises the receiver

    src/archive.rs prepares a source; src/send.rs and src/stream.rs each make a
    manifest of it. The receivers rely on the manifest's shape. *)

From S2P Require Import Prelude Str Libs Fs Crypto Protocol Archive Send Stream.

(** A manifest of chunk size [cs] the receivers can trust the shape of: what
    serde can carry; a text exactly when the kind says so; a file that is its
    one entry; a bundle of a sorted list of entries. *)
Definition path_le (a b : Entry) : Prop := String.leb (e_path a) (e_path b) = true.
Definition manifest_typed (cs : Z) (m : Manifest) : Prop :=
  wire_ok m /\ version m = PROTOCOL_VERSION /\ mf_chunk_size m = cs
  /\ (kind m = KText <-> is_Some (text m))
  /\ match kind m with
     | KFile => exists e, entries m = [e] /\ e_path e = name m /\ e_size e = mf_total_size m
     | KTar => name m = "b2p-bundle.tar" /\ entries m <> [] /\ StronglySorted path_le (entries m)
     | KText => name m = "" /\ entries m = [] /\ exists t, text m = Some t /\ str_len t = mf_total_size m
     end
  /\ Manifest_total_chunks m = Ok (cdiv (mf_total_size m) cs).

(** Sizes are [u64]. *)
Definition metadata_typed (metadata : string -> res Metadata) : Prop :=
  forall p md, metadata p = Ok md ->
  match md with
  | MFile m => u64_ok (m_len m)
  | MDir w => Forall (fun e => match e with Ok e => match w_meta e with Ok m => u64_ok (m_len m) | _ => True end | _ => True end) w
  | MOther => True
  end.
Definition source_size (s : Source) : Z := match s with Blob _ _ _ size _ _ _ => size | Text t _ => str_len t end.

(** ** Lemmas *)

Lemma collect_walk_typed base input w : forall files r,
  Forall (fun e => match e with Ok e => match w_meta e with Ok m => u64_ok (m_len m) | _ => True end | _ => True end) w ->
  Forall (fun f => u64_ok (fr_size f)) files -> collect_walk base input w files = Ok r ->
  Forall (fun f => u64_ok (fr_size f)) r.
Proof.
  induction w as [|[e|e|] w IH]; intros files r Hw Hf; cbn [collect_walk]; [by intros [= <-]| |done|done].
  apply Forall_cons in Hw as [He Hw]. cbn [mbind res_bind]. destruct (negb (w_is_file e)); [by apply IH|].
  destruct (strip_base input (w_path e)); [|done..]. cbn [mbind res_bind].
  destruct (w_meta e) as [m| |]; [|done..]. cbn [mbind res_bind]. apply IH; [done|].
  apply Forall_app. split; [done|]. by apply Forall_singleton.
Qed.
Lemma collect_inputs_typed metadata paths : metadata_typed metadata -> forall files r,
  Forall (fun f => u64_ok (fr_size f)) files -> collect_inputs metadata paths files = Ok r ->
  Forall (fun f => u64_ok (fr_size f)) r.
Proof.
  intros Hm. induction paths as [|p paths IH]; intros files r Hf; cbn [collect_inputs]; [by intros [= <-]|].
  destruct (metadata p) as [md| |] eqn:E; [|done..]. cbn [context mbind res_bind].
  destruct (ok_or _ (file_name p)) as [b| |]; [|done..]. cbn [mbind res_bind]. pose proof (Hm p md E) as Hmd.
  destruct md as [m|w|]; cbn [mbind res_bind mret res_ret]; [| |done].
  - apply IH, Forall_app. split; [done|]. by apply Forall_singleton.
  - destruct (collect_walk b p w files) as [l| |] eqn:Ew; [|done..]. apply IH. by eapply collect_walk_typed.
Qed.
Lemma entries_sorted l : StronglySorted rel_le l ->
  StronglySorted path_le (map (fun f => {| e_path := fr_rel f; e_size := fr_size f |}) l).
Proof.
  induction 1 as [|f l _ IH Hf]; cbn; constructor; [done|]. apply Forall_map. eapply Forall_impl; [exact Hf|]. done.
Qed.

(** What a successful [prepare] returns. *)
Lemma prepare_shape `{Blake3} metadata cwd spool app fin paths src s s' :
  prepare metadata cwd spool app fin paths s = (Ok src, s') ->
  exists files, collect_files metadata paths = Ok files /\ files <> []
    /\ let es := map (fun f => {| e_path := fr_rel f; e_size := fr_size f |}) files in
       (exists f p, files = [f] /\ src = Blob KFile (fr_rel f) es (fr_size f) (fingerprint files) p None)
       \/ exists size, src = Blob KTar "b2p-bundle.tar" es size (fingerprint files) spool (Some spool).
Proof.
  unfold prepare. destruct paths as [|p0 rest]; [done|]. unfold mbind, io_bind, io_lift.
  destruct (collect_files metadata (p0 :: rest)) as [files| |] eqn:E; [|done..].
  destruct files as [|f more]; [done|]. intros Hp. exists (f :: more). split; [done|]. split; [done|]. revert Hp.
  match goal with |- context [if ?b then _ else _] => destruct b eqn:Eb end.
  - intros [= <- <-]. left. destruct rest, more; try done. eauto.
  - intros Hp. right. repeat (case_match; try done); injection Hp as <- <-; by eexists.
Qed.

Lemma chunks_typed m : u64_ok (mf_total_size m) -> mf_chunk_size m <> 0 ->
  Manifest_total_chunks m = Ok (cdiv (mf_total_size m) (mf_chunk_size m)).
Proof. intros Hm Hc. unfold Manifest_total_chunks, div_ceil. by apply Z.eqb_neq in Hc as ->. Qed.
Lemma manifest_of_typed `{Blake3} metadata paths files cs src m :
  metadata_typed metadata -> collect_files metadata paths = Ok files -> files <> [] ->
  let es := map (fun f => {| e_path := fr_rel f; e_size := fr_size f |}) files in
  ((exists f p, files = [f] /\ src = Blob KFile (fr_rel f) es (fr_size f) (fingerprint files) p None)
   \/ exists size spool, src = Blob KTar "b2p-bundle.tar" es size (fingerprint files) spool (Some spool)) ->
  u64_ok (source_size src) -> u64_ok cs -> cs <> 0 ->
  m = match src with
      | Blob k n es size tid _ _ =>
          {| version := PROTOCOL_VERSION; mf_transfer_id := tid; kind := k; name := n; entries := es;
             mf_total_size := size; mf_chunk_size := cs; text := None |}
      | Text _ _ => m
      end ->
  manifest_typed cs m.
Proof.
  intros Hm Hc Hne es Hsrc Hsz Hcs Hc0 Em. unfold collect_files in Hc.
  destruct (collect_inputs metadata paths []) as [found| |] eqn:Ei; [|done..]. injection Hc as Hc.
  pose proof (collect_inputs_typed metadata paths Hm [] found ltac:(constructor) Ei) as Ht.
  assert (Hes : Forall (fun e => u64_ok (e_size e)) es).
  { apply Forall_map. rewrite <- Hc. cbn. by rewrite sort_files_perm. }
  assert (Hst : StronglySorted path_le es) by (apply entries_sorted; rewrite <- Hc; apply sort_files_sorted).
  destruct Hsrc as [(f & p & Ef & ->)|(size & sp & ->)]; cbn in Hsz; rewrite Em; split_and!; try done;
    try (apply chunks_typed; done); cbn.
  - split; [done|]. by intros [? ?].
  - exists {| e_path := fr_rel f; e_size := fr_size f |}. unfold es. by rewrite Ef.
  - split; [done|]. by intros [? ?].
  - unfold es. by destruct files.
Qed.

(** ** Property *)

(** C38: Every manifest a sender makes has the shape the receivers rely on: from
    files, whatever the disk and the tar library do, and from text, on the
    HTTP path and on the streams; its name is its one entry's for a file, its
    entries come sorted and are never none for a bundle, it carries a text
    exactly when it is one, and its chunks can be counted. *)
Theorem prepared_manifests_typed `{Blake3} metadata cwd spool app fin paths src s s' t :
  metadata_typed metadata -> prepare metadata cwd spool app fin paths s = (Ok src, s') ->
  u64_ok (source_size src) -> u64_ok (str_len t) ->
  manifest_typed CHUNK_SIZE (build_manifest src) /\ manifest_typed STREAM_FRAME_SIZE (stream_manifest src)
  /\ manifest_typed CHUNK_SIZE (build_manifest (prepare_text t))
  /\ manifest_typed STREAM_FRAME_SIZE (stream_manifest (prepare_text t)).
Proof.
  intros Hm Hp Hsz Ht. destruct (prepare_shape _ _ _ _ _ _ _ _ _ Hp) as (files & Hc & Hne & Hs).
  assert (Hs' : (exists f p, files = [f] /\ src = Blob KFile (fr_rel f) (map (fun f => {| e_path := fr_rel f; e_size := fr_size f |}) files) (fr_size f) (fingerprint files) p None)
    \/ exists size spool, src = Blob KTar "b2p-bundle.tar" (map (fun f => {| e_path := fr_rel f; e_size := fr_size f |}) files) size (fingerprint files) spool (Some spool)).
  { destruct Hs as [Hs|(size & Hs)]; [by left|right; by exists size, spool]. }
  assert (Hb : exists k n es size tid p sp, src = Blob k n es size tid p sp).
  { destruct Hs' as [(f & p & _ & ->)|(size & sp & ->)]; eauto 10. }
  assert (Htext : forall cs m, u64_ok cs -> cs <> 0 ->
    m = {| version := PROTOCOL_VERSION; mf_transfer_id := mf_transfer_id m; kind := KText; name := ""; entries := [];
           mf_total_size := str_len t; mf_chunk_size := cs; text := Some t |} -> manifest_typed cs m).
  { intros cs m Hcs Hc0 ->. split_and!; try done; first [by apply chunks_typed|split; [done|]; split; [done|by eexists]|split; [by eexists|done]]. }
  split_and!.
  - eapply manifest_of_typed; try done. destruct Hb as (? & ? & ? & ? & ? & ? & ? & ->). done.
  - eapply manifest_of_typed; try done. destruct Hb as (? & ? & ? & ? & ? & ? & ? & ->). done.
  - by apply Htext.
  - by apply Htext.
Qed.

Lemma prepared_manifests_typed_witness :
  exists src s', prepare (H := Toy.blake3) example_meta ["cwd"] ["spool"] (fun _ _ => mret tt) (mret tt) ["/a.txt"] (Fs ∅ []) = (Ok src, s')
    /\ manifest_typed CHUNK_SIZE (build_manifest src) /\ name (build_manifest src) = "a.txt".
Proof.
  destruct (prepare (H := Toy.blake3) example_meta ["cwd"] ["spool"] (fun _ _ => mret tt) (mret tt) ["/a.txt"] (Fs ∅ []))
    as [[src| |] s'] eqn:E; [|vm_compute in E; discriminate..].
  exists src, s'. split; [reflexivity|].
  destruct (prepared_manifests_typed (H := Toy.blake3) example_meta ["cwd"] ["spool"] (fun _ _ => mret tt) (mret tt) ["/a.txt"]
    src (Fs ∅ []) s' "") as (Ht & _); [| exact E | vm_compute in E; injection E as <- _; by vm_compute | by vm_compute |].
  - intros p md. unfold example_meta. destruct (String.eqb p "/d"); [intros [= <-]; repeat constructor; done|].
    destruct (String.eqb p "/a.txt"); [intros [= <-]; done|done].
  - split; [exact Ht|]. vm_compute in E. injection E as <- _. reflexivity.
Defined.
