(* ===== verification/Signaling.v ===== *)
(** * src/transport/webrtc.rs: signaling over the rendezvous

    The peer connection is the [webrtc] crate's; the program seals its session
    descriptions and candidates for the rendezvous, and its pump applies the
    other side's. [PeerConn] is what the program relies on of the crate. *)

From S2P Require Import Prelude Str Libs Fs Crypto Pake Channel Handshake Turn.

(** [RTCPeerConnection] and the JSON forms of its messages. A remote
    description is there once it has been set; nothing else sets or removes
    one. *)
Class PeerConn := {
  pc : Type; Sdp : Type; Cand : Type;
  sdp_to_json : Sdp -> bytes;
  sdp_from_json : bytes -> option Sdp;
  cand_to_json : Cand -> bytes;
  cand_from_json : bytes -> option Cand;
  create_offer : pc -> res Sdp * pc;
  create_answer : pc -> res Sdp * pc;
  set_local_description : pc -> Sdp -> res unit * pc;
  set_remote_description : pc -> Sdp -> res unit * pc;
  add_ice_candidate : pc -> Cand -> res unit * pc;
  remote_description : pc -> bool;
  sdp_roundtrip d : sdp_from_json (sdp_to_json d) = Some d;
  cand_roundtrip c : cand_from_json (cand_to_json c) = Some c;
  remote_after_set p d :
    remote_description (set_remote_description p d).2
    = is_ok (set_remote_description p d).1 || remote_description p;
  remote_after_add p c : remote_description (add_ice_candidate p c).2 = remote_description p;
  remote_after_answer p : remote_description (create_answer p).2 = remote_description p;
  remote_after_local p d : remote_description (set_local_description p d).2 = remote_description p;
}.

Section signaling.
Context `{PeerConn} `{Aead} `{Blake3}.
(** [key.signaling_key()], this side's role, the nonces [seal_random] draws. *)
Variables (sig_key : bytes) (role : Role) (nonces : nat -> bytes).

(** The associated data of a kind and a sender. *)
Definition aad (kind : Z) (r : Role) : bytes := [z2b kind; z2b (role_byte r)].
Definition sealed_frame (nonce : bytes) (kind : Z) (plain : bytes) : bytes :=
  encode_frame kind role (seal_random nonce sig_key (aad kind role) plain).

(** The frame [wire_local_ice] publishes of a candidate. *)
Definition local_ice (nonce : bytes) (c : Cand) : bytes := sealed_frame nonce KIND_ICE (cand_to_json c).

(** The calls made on the connection, the candidates waiting for a remote
    description, the frames published, the nonces drawn. *)
Inductive call : Type := CallRemote (d : Sdp) | CallIce (c : Cand) | CallAnswer | CallLocal (d : Sdp).
Record pump_state : Type := {
  pp_pc : pc; pending_ice : list Cand; calls : list call; published : list bytes; drawn : nat;
}.

Definition add_ice (w : pump_state) (c : Cand) : pump_state :=
  {| pp_pc := (add_ice_candidate (pp_pc w) c).2; pending_ice := pending_ice w;
     calls := calls w ++ [CallIce c]; published := published w; drawn := drawn w |}.
(** The Sender's answer; every failure is passed over. *)
Definition answer_offer (w : pump_state) : pump_state :=
  let '(ra, p1) := create_answer (pp_pc w) in
  let w1 := {| pp_pc := p1; pending_ice := pending_ice w; calls := calls w ++ [CallAnswer];
               published := published w; drawn := drawn w |} in
  match ra with
  | Ok answer =>
      let '(rl, p2) := set_local_description p1 answer in
      let w2 := {| pp_pc := p2; pending_ice := pending_ice w1; calls := calls w1 ++ [CallLocal answer];
                   published := published w1; drawn := drawn w1 |} in
      match rl with
      | Ok _ => {| pp_pc := p2; pending_ice := pending_ice w2; calls := calls w2;
                   published := published w2 ++ [sealed_frame (nonces (drawn w2)) KIND_SDP (sdp_to_json answer)];
                   drawn := S (drawn w2) |}
      | _ => w2
      end
  | _ => w1
  end.
Definition apply_sdp (w : pump_state) (sdp : Sdp) : pump_state :=
  let '(r, p) := set_remote_description (pp_pc w) sdp in
  let w1 := {| pp_pc := p; pending_ice := pending_ice w; calls := calls w ++ [CallRemote sdp];
               published := published w; drawn := drawn w |} in
  match r with
  | Ok _ =>
      let w2 := fold_left add_ice (pending_ice w1)
                  {| pp_pc := pp_pc w1; pending_ice := []; calls := calls w1;
                     published := published w1; drawn := drawn w1 |} in
      if decide (role = Sender) then answer_offer w2 else w2
  | _ => w1
  end.
Definition apply_ice (w : pump_state) (init : Cand) : pump_state :=
  if remote_description (pp_pc w) then add_ice w init
  else {| pp_pc := pp_pc w; pending_ice := pending_ice w ++ [init]; calls := calls w;
          published := published w; drawn := drawn w |}.

(** A frame of the other side that opens: its kind and its content. *)
Definition inbound (frame : bytes) : option (Z * bytes) :=
  '(kind, r, payload) ← decode_frame frame;
  if negb (r =? role_byte (other role)) then None
  else plain ← ok (open_random sig_key [z2b kind; z2b r] payload); Some (kind, plain).
(** One turn of the pump. *)
Definition pump_frame (w : pump_state) (frame : bytes) : pump_state :=
  match inbound frame with
  | None => w
  | Some (kind, plain) =>
      if kind =? KIND_SDP then
        match sdp_from_json plain with Some sdp => apply_sdp w sdp | None => w end
      else if kind =? KIND_ICE then
        match cand_from_json plain with Some init => apply_ice w init | None => w end
      else w
  end.
Definition pump (w : pump_state) (frames : list bytes) : pump_state := fold_left pump_frame frames w.
Definition pump_start (p : pc) : pump_state :=
  {| pp_pc := p; pending_ice := []; calls := []; published := []; drawn := 0 |}.

(** The Receiver's offer: the frame it publishes. *)
Definition drive_offer (p : pc) (nonce : bytes) (publish : bytes -> res unit) : res bytes * pc :=
  let '(ro, p1) := create_offer p in
  match ro with
  | Ok offer =>
      let '(rl, p2) := set_local_description p1 offer in
      match rl with
      | Ok _ =>
          let f := sealed_frame nonce KIND_SDP (sdp_to_json offer) in
          (_ ← publish f; Ok f, p2)
      | Err e => (Err e, p2)
      | Panic => (Panic, p2)
      end
  | Err e => (Err e, p1)
  | Panic => (Panic, p1)
  end.

(** [establish]: the data channel ([create_data_channel], the Receiver's) and
    the subscription come first, then the offer; [opened] says whether the
    channel then opens, and its handle comes with it. [None]: nothing has come
    of it by the deadline. *)
Definition establish (p : pc) (nonce : bytes) (create_data_channel subscribe : res unit)
    (publish : bytes -> res unit) (opened : option bool) : option (res unit) :=
  match
    _ ← (if decide (role = Receiver) then create_data_channel else Ok tt);
    _ ← subscribe;
    if decide (role = Receiver) then _ ← (drive_offer p nonce publish).1; Ok tt else Ok tt
  with
  | Ok _ => match opened with
            | None => None
            | Some true => Some (Ok tt)
            | Some false => Some (Err (EMsg "data channel opened but handle was lost"))
            end
  | r => Some r
  end.
End signaling.

(** What [connect] makes of [establish] under its deadline, and whether it
    closed the connection. *)
Definition connect_result (o : option (res unit)) : res unit * bool :=
  match o with
  | Some (Err e) => (Err e, true)
  | Some r => (r, false)
  | None =>
      (Err (EMsg "connected to the peer over signaling, but no direct UDP path formed in time — likely a symmetric NAT on one side. Retry with a TURN relay (--turn turn:HOST:PORT), use --tunnel, or put both peers on the same LAN"), true)
  end.

(** [RTCIceServer] of the crate, as [build_pc_config] fills it. *)
Record RTCIceServer : Type := { rtc_urls : list string; rtc_username : string; rtc_credential : string }.
Definition build_pc_config (ice_servers : list IceServer) : list RTCIceServer :=
  map (fun s => {| rtc_urls := urls s; rtc_username := username s; rtc_credential := credential s |}) ice_servers.
(** [connect], over the connections that are open: [new_peer_connection] gives
    one to be closed, or an error; [established] is what [establish] comes to
    with it, [None] at the deadline. *)
Definition connect (new_peer_connection : list RTCIceServer -> res unit) (established : nat -> option (res unit))
    (ice_servers : list IceServer) (opened : gset nat) : res nat * gset nat :=
  match new_peer_connection (build_pc_config ice_servers) with
  | Ok _ =>
      let p := fresh opened in
      let '(r, close) := connect_result (established p) in
      ((_ ← r; Ok p), if close : bool then (opened ∪ {[p]}) ∖ {[p]} else opened ∪ {[p]})
  | Err e => (Err e, opened)
  | Panic => (Panic, opened)
  end.

(** ** Lemmas *)

(** An attempt that fails leaves no connection open: one that works, its own. *)
Lemma connect_closes new_pc established servers opened :
  let '(r, opened') := connect new_pc established servers opened in
  match r with
  | Ok p => (p ∉ opened) /\ opened' = (opened ∪ {[p]}) /\ new_pc (build_pc_config servers) = Ok tt
            /\ established p = Some (Ok tt)
  | Err _ => opened' = opened
  | Panic => True
  end.
Proof.
  unfold connect. destruct (new_pc _) as [[]|e|]; [|done..]. pose proof (is_fresh opened) as Hf.
  destruct (established (fresh opened)) as [[[]|e|]|] eqn:E; cbn; try done; apply drop_fresh.
Qed.

Section facts.
Context `{PeerConn} `{Aead} `{Blake3}.
Variables (sig_key : bytes) (role : Role) (nonces : nat -> bytes).
Local Abbreviation inbound := (inbound sig_key role).
Local Abbreviation pump_frame := (pump_frame sig_key role nonces).
Local Abbreviation pump := (pump sig_key role nonces).

Lemma inbound_sealed f kind plain : inbound f = Some (kind, plain) ->
  exists nonce, zlen nonce = 24 /\ 0 <= kind < 256
    /\ f = sealed_frame sig_key (other role) nonce kind plain.
Proof.
  unfold Signaling.inbound. destruct f as [|k [|r payload]]; cbn [decode_frame mbind option_bind]; [done..|].
  destruct (Z.eqb_spec (b2z r) (role_byte (other role))) as [Er|]; [|done]. cbn [negb].
  destruct (open_random sig_key _ payload) as [p| |] eqn:Eo; [|done..]. cbn. intros [= <- <-].
  destruct (proj2 (proj2 (open_random_spec sig_key [z2b (b2z k); z2b (b2z r)])) _ _ Eo) as (nonce & Hn & ->).
  exists nonce. split; [done|]. split; [apply b2z_range|].
  unfold sealed_frame, encode_frame, aad. by rewrite <- Er, !z2b_b2z.
Qed.
Lemma sealed_inbound nonce kind plain : zlen nonce = 24 -> 0 <= kind < 256 ->
  inbound (sealed_frame sig_key (other role) nonce kind plain) = Some (kind, plain).
Proof.
  intros Hn Hk. unfold Signaling.inbound, sealed_frame. rewrite decode_encode by done. cbn [mbind option_bind].
  rewrite Z.eqb_refl. cbn [negb].
  by rewrite (proj1 (open_random_spec sig_key (aad kind (other role))) nonce plain Hn).
Qed.
Lemma own_not_inbound nonce kind plain : 0 <= kind < 256 ->
  inbound (sealed_frame sig_key role nonce kind plain) = None.
Proof.
  intros Hk. unfold Signaling.inbound, sealed_frame. rewrite decode_encode by done. cbn [mbind option_bind].
  by destruct role.
Qed.

(** The candidates among the calls, and among the frames. *)
Definition ices (l : list call) : list Cand :=
  omap (fun c => match c with CallIce c => Some c | _ => None end) l.
Definition candidates (frames : list bytes) : list Cand :=
  omap (fun f => '(kind, plain) ← inbound f;
                 if kind =? KIND_SDP then None
                 else if kind =? KIND_ICE then cand_from_json plain else None) frames.

Lemma ices_app a b : ices (a ++ b) = ices a ++ ices b.
Proof. apply omap_app. Qed.
Lemma add_ices l w :
  ices (calls (fold_left add_ice l w)) = ices (calls w) ++ l
  /\ pending_ice (fold_left add_ice l w) = pending_ice w
  /\ remote_description (pp_pc (fold_left add_ice l w)) = remote_description (pp_pc w).
Proof.
  revert w. induction l as [|c l IH]; intros w; [by rewrite app_nil_r|]. cbn [fold_left].
  destruct (IH (add_ice w c)) as (-> & -> & ->). cbn. rewrite ices_app, <- app_assoc, remote_after_add. done.
Qed.
Lemma answer_keeps w :
  ices (calls (answer_offer sig_key role nonces w)) = ices (calls w)
  /\ pending_ice (answer_offer sig_key role nonces w) = pending_ice w
  /\ remote_description (pp_pc (answer_offer sig_key role nonces w)) = remote_description (pp_pc w).
Proof.
  unfold answer_offer. pose proof (remote_after_answer (pp_pc w)) as Ha.
  destruct (create_answer (pp_pc w)) as [ra p1]. cbn [snd] in Ha.
  destruct ra as [d|e|]; cbn; [|by rewrite ices_app, app_nil_r..].
  pose proof (remote_after_local p1 d) as Hl. destruct (set_local_description p1 d) as [rl p2]. cbn [snd] in Hl.
  destruct rl; cbn; by rewrite !ices_app, !app_nil_r, Hl.
Qed.

(** Where the candidates that have come are. *)
Definition placed (cands : list Cand) (w : pump_state) : Prop :=
  if remote_description (pp_pc w) then ices (calls w) = cands /\ pending_ice w = []
  else ices (calls w) = [] /\ pending_ice w = cands.

Lemma apply_sdp_placed cands w d : placed cands w -> placed cands (apply_sdp sig_key role nonces w d).
Proof.
  unfold placed, apply_sdp. intros Hw. pose proof (remote_after_set (pp_pc w) d) as Hr.
  destruct (set_remote_description (pp_pc w) d) as [r p]. cbn [fst snd] in Hr. destruct r as [[]|e|]; cbn [is_ok orb] in Hr.
  2,3: cbn; rewrite Hr, ices_app, app_nil_r; exact Hw.
  set (w2 := fold_left add_ice _ _).
  assert (H2 : remote_description (pp_pc w2) = true /\ ices (calls w2) = cands /\ pending_ice w2 = []).
  { unfold w2. cbn [pending_ice pp_pc calls published drawn].
    destruct (add_ices (pending_ice w) {| pp_pc := p; pending_ice := []; calls := calls w ++ [CallRemote d];
      published := published w; drawn := drawn w |}) as (-> & -> & ->). cbn. rewrite ices_app, Hr, app_nil_r.
    destruct (remote_description (pp_pc w)); destruct Hw as [-> ->]; by rewrite ?app_nil_r. }
  destruct H2 as (H2a & H2b & H2c). destruct (decide (role = Sender)); [|by rewrite H2a].
  destruct (answer_keeps w2) as (-> & -> & ->). by rewrite H2a.
Qed.
Lemma pump_frame_placed cands w f : placed cands w ->
  placed (cands ++ candidates [f]) (pump_frame w f).
Proof.
  unfold candidates, Signaling.pump_frame. intros Hw. cbn [omap list_omap].
  destruct (inbound f) as [[kind plain]|]; cbn [mbind option_bind]; [|by rewrite app_nil_r].
  destruct (Z.eqb_spec kind KIND_SDP).
  { rewrite app_nil_r. destruct (sdp_from_json plain); [by apply apply_sdp_placed|done]. }
  destruct (Z.eqb_spec kind KIND_ICE); [|by rewrite app_nil_r].
  destruct (cand_from_json plain) as [c|]; [|by rewrite app_nil_r].
  unfold placed, apply_ice in *. destruct (remote_description (pp_pc w)) eqn:Er; cbn; destruct Hw as [<- Hp].
  - by rewrite remote_after_add, Er, ices_app, Hp.
  - by rewrite Er, Hp.
Qed.
Lemma pump_placed frames : forall cands w, placed cands w -> placed (cands ++ candidates frames) (pump w frames).
Proof.
  induction frames as [|f frames IH]; intros cands w Hw; [by rewrite app_nil_r|].
  unfold Signaling.pump. cbn [fold_left]. pose proof (IH _ _ (pump_frame_placed cands w f Hw)) as Hi.
  assert (E : candidates (f :: frames) = candidates [f] ++ candidates frames) by apply (omap_app _ [f] frames).
  by rewrite E, app_assoc.
Qed.
End facts.

(** ** Properties *)

(** C27: Nobody without the session's key steers a connection: a frame that was not
    sealed under the signaling key as a frame of the other side, its own
    echoes included, makes the pump call nothing and publish nothing. *)
Theorem signaling_authentic `{PeerConn} `{Aead} sig_key role nonces w frames :
  Forall (fun f => forall kind nonce plain, zlen nonce = 24 -> 0 <= kind < 256 ->
            f <> sealed_frame sig_key (other role) nonce kind plain) frames ->
  pump sig_key role nonces w frames = w.
Proof.
  revert w. induction frames as [|f frames IH]; intros w Hf; [done|]. apply Forall_cons in Hf as [Hf Hfs].
  unfold pump. cbn [fold_left]. assert (E : pump_frame sig_key role nonces w f = w).
  { unfold pump_frame. destruct (inbound sig_key role f) as [[kind plain]|] eqn:E; [|done].
    destruct (inbound_sealed sig_key role f kind plain E) as (nonce & Hn & Hk & ->). by destruct (Hf kind nonce plain). }
  rewrite E. by apply IH.
Qed.

(** C28: No candidate is lost, repeated, reordered or applied too soon: at every
    point of the stream, the candidates of the other side's frames so far have
    all been added to the connection, once each and in order, if it has a
    remote description, and are all waiting if it has none. *)
Theorem candidates_in_order `{PeerConn} `{Aead} sig_key role nonces p frames :
  remote_description p = false ->
  let w := pump sig_key role nonces (pump_start p) frames in
  if remote_description (pp_pc w) then ices (calls w) = candidates sig_key role frames /\ pending_ice w = []
  else ices (calls w) = [] /\ pending_ice w = candidates sig_key role frames.
Proof.
  intros Hp. apply (pump_placed sig_key role nonces frames [] (pump_start p)). unfold placed, pump_start. cbn.
  by rewrite Hp.
Qed.

(** The offer and the answer meet: where the two connections do what they are
    asked, the Receiver's published offer becomes the Sender's remote
    description and the answer it then publishes the Receiver's, though each
    side is shown its own frames as well. *)
Theorem sdp_exchange `{PeerConn} `{Aead} sig_key nonces nonces' nonce pr pr1 pr2 pr3 ps ps1 ps2 ps3 offer answer :
  zlen nonce = 24 -> zlen (nonces 0%nat) = 24 ->
  create_offer pr = (Ok offer, pr1) -> set_local_description pr1 offer = (Ok tt, pr2) ->
  set_remote_description ps offer = (Ok tt, ps1) -> create_answer ps1 = (Ok answer, ps2) ->
  set_local_description ps2 answer = (Ok tt, ps3) -> set_remote_description pr2 answer = (Ok tt, pr3) ->
  exists o a, drive_offer sig_key Receiver pr nonce (fun _ => Ok tt) = (Ok o, pr2)
    /\ pump sig_key Sender nonces (pump_start ps) [o; a]
       = {| pp_pc := ps3; pending_ice := []; calls := [CallRemote offer; CallAnswer; CallLocal answer];
            published := [a]; drawn := 1 |}
    /\ pump sig_key Receiver nonces' (pump_start pr2) [o; a]
       = {| pp_pc := pr3; pending_ice := []; calls := [CallRemote answer]; published := []; drawn := 0 |}.
Proof.
  intros Hn Hn0 Ho Hlo Hro Ha Hla Hra.
  exists (sealed_frame sig_key Receiver nonce KIND_SDP (sdp_to_json offer)),
    (sealed_frame sig_key Sender (nonces 0%nat) KIND_SDP (sdp_to_json answer)).
  split; [unfold drive_offer; by rewrite Ho, Hlo|]. split.
  - unfold pump. cbn [fold_left]. unfold pump_frame at 2.
    rewrite (sealed_inbound sig_key Sender nonce) by done. cbn [Z.eqb Pos.eqb KIND_SDP].
    rewrite sdp_roundtrip. unfold apply_sdp. cbn [pump_start pp_pc]. rewrite Hro. cbn [pending_ice fold_left pump_start pp_pc calls published drawn].
    destruct (decide (Sender = Sender)); [|done]. unfold answer_offer. cbn [pp_pc]. rewrite Ha. cbn. rewrite Hla. cbn.
    unfold pump_frame. by rewrite own_not_inbound by done.
  - unfold pump. cbn [fold_left]. unfold pump_frame at 2. rewrite own_not_inbound by done.
    unfold pump_frame. rewrite (sealed_inbound sig_key Receiver (nonces 0%nat)) by done. cbn [Z.eqb Pos.eqb KIND_SDP].
    rewrite sdp_roundtrip. unfold apply_sdp. cbn [pump_start pp_pc]. rewrite Hra. cbn [pending_ice fold_left pump_start pp_pc calls published drawn].
    by destruct (decide (Receiver = Sender)).
Qed.

(** ** At concrete inputs *)

Module Example.
#[local] Existing Instance Toy.aead.

(** A connection that only remembers whether it has a remote description. *)
#[refine] #[local] Instance conn : PeerConn :=
  {| pc := bool; Sdp := bytes; Cand := bytes;
     sdp_to_json d := d; sdp_from_json b := Some b; cand_to_json c := c; cand_from_json b := Some b;
     create_offer p := (Ok [Byte.x01], p); create_answer p := (Ok [Byte.x02], p);
     set_local_description p _ := (Ok tt, p); set_remote_description _ _ := (Ok tt, true);
     add_ice_candidate p _ := (Ok tt, p); remote_description p := p |}.
Proof. all: done. Defined.
Definition sk : bytes := [Byte.x07].
Definition nonce (_ : nat) : bytes := replicate 24 Byte.x00.

Definition fresh : @pc conn := false.
Definition described : @pc conn := true.
Definition offer0 : @Sdp conn := [Byte.x01].
Definition answer0 : @Sdp conn := [Byte.x02].
Definition c0 : @Cand conn := [Byte.x0a].
Definition c1 : @Cand conn := [Byte.x0b].

Lemma signaling_authentic_witness :
  pump sk Sender nonce (pump_start fresh) [sealed_frame sk Sender (nonce 0%nat) KIND_SDP [Byte.x05]; []] = pump_start fresh.
Proof.
  apply (signaling_authentic sk Sender nonce (pump_start fresh)). constructor; [|constructor; [|constructor]].
  - intros kind n plain Hn Hk E. apply (f_equal (fun l => l !! 1%nat)) in E. cbn in E. discriminate.
  - intros kind n plain Hn Hk E. discriminate.
Defined.
Lemma candidates_in_order_witness :
  let frames := [local_ice sk Receiver (nonce 0%nat) c0; sealed_frame sk Receiver (nonce 0%nat) KIND_SDP [Byte.x05];
                 local_ice sk Receiver (nonce 0%nat) c1] in
  ices (calls (pump sk Sender nonce (pump_start fresh) frames)) = [c0; c1].
Proof.
  intros frames. pose proof (candidates_in_order sk Sender nonce fresh frames eq_refl) as Hw. cbv zeta in Hw.
  destruct (remote_description _) eqn:E; [|vm_compute in E; discriminate].
  rewrite (proj1 Hw). vm_compute. reflexivity.
Defined.
Lemma sdp_exchange_witness :
  exists o a, pump sk Sender nonce (pump_start fresh) [o; a]
    = {| pp_pc := described; pending_ice := []; calls := [CallRemote offer0; CallAnswer; CallLocal answer0];
         published := [a]; drawn := 1 |}.
Proof.
  destruct (sdp_exchange sk nonce nonce (nonce 0%nat) fresh fresh fresh described fresh described described described offer0 answer0)
    as (o & a & _ & H & _); [reflexivity..|]. exists o, a. exact H.
Defined.
End Example.
