(* ===== verification/WebRtcChannel.v ===== *)
(** * src/transport/webrtc.rs: the open channel and its close latch

    [WebRtcChannel::send] against the handlers that see the connection end
    ([on_close] and the connection-state handler), which run concurrently: a
    send parked on the data channel's backpressure must not outlive the peer.
    The flag and [tokio]'s [Notify] are shared. *)

From S2P Require Import Prelude.

(** What [recv] drains. *)
Inductive Item : Type := Msg (m : bytes) | Closed.
Definition closed_error : error := EMsg "data channel closed by peer".
(** [recv] on what has come; [None] is an empty queue whose senders are gone. *)
Definition recv_item (item : option Item) : res bytes :=
  match item with
  | Some (Msg m) => Ok m
  | Some Closed | None => Err closed_error
  end.

(** Connection states; those that end it. *)
Inductive PeerConnectionState : Type := New | Connecting | Connected | Disconnected | FailedState | ClosedState.
Definition terminal (s : PeerConnectionState) : bool :=
  match s with FailedState | ClosedState => true | _ => false end.

(** The callbacks of [wire_channel] and of the connection's state, and what each
    queues for [recv]. *)
Inductive callback : Type := OnMessage (data : bytes) | OnClose | OnStateChange (s : PeerConnectionState).
Definition enqueue (c : callback) : list Item :=
  match c with
  | OnMessage data => [Msg data]
  | OnClose => [Closed]
  | OnStateChange s => if terminal s then [Closed] else []
  end.
(** [n] calls of [recv] on what callbacks have queued; [None] waits. *)
Fixpoint recvs (n : nat) (q : list Item) : list (option (res bytes)) :=
  match n with
  | O => []
  | S n' => match q with [] => None :: recvs n' [] | x :: q' => Some (recv_item (Some x)) :: recvs n' q' end
  end.
Definition data_of (c : callback) : list bytes := match c with OnMessage data => [data] | _ => [] end.

(** [Drop]: how many times the send queue is looked at and found unsent before
    the connection is closed. *)
Fixpoint drain (looks : nat) (buffered_amount : nat -> Z) (slept : nat) : nat :=
  match looks with
  | O => slept
  | S looks' => if buffered_amount slept =? 0 then slept else drain looks' buffered_amount (S slept)
  end.
Definition drop_sleeps (buffered_amount : nat -> Z) : nat := drain 50 buffered_amount 0.

(** ** The latch *)

(** Where [send] is: before its waiter is registered, before it looks at the
    flag, in the [select!], returned. *)
Inductive sender : Type := Entering | Registered | Parked | Returned (r : res unit).
(** Where a closing handler is: before the flag is stored, before
    [notify_waiters], before [Item::Closed] is queued, done. *)
Inductive closer : Type := Detecting | Stored | Notified | Finished.
(** [woken]: the registered waiter has been notified. *)
Record latch : Type := {
  at_send : sender; closed_flag : bool; registered : bool; woken : bool;
  closers : list closer; queue : list Item;
}.

(** [dc.send] completes, fails or never returns; [notify_waiters] wakes the
    waiters registered by then and leaves no permit. *)
Inductive latch_step : latch -> latch -> Prop :=
| send_registers f w cs q :
    latch_step {| at_send := Entering; closed_flag := f; registered := false; woken := w; closers := cs; queue := q |}
               {| at_send := Registered; closed_flag := f; registered := true; woken := w; closers := cs; queue := q |}
| send_sees_closed g w cs q :
    latch_step {| at_send := Registered; closed_flag := true; registered := g; woken := w; closers := cs; queue := q |}
               {| at_send := Returned (Err closed_error); closed_flag := true; registered := g; woken := w; closers := cs; queue := q |}
| send_parks g w cs q :
    latch_step {| at_send := Registered; closed_flag := false; registered := g; woken := w; closers := cs; queue := q |}
               {| at_send := Parked; closed_flag := false; registered := g; woken := w; closers := cs; queue := q |}
| send_completes f g w cs q r :
    r = Ok tt \/ (exists e, r = Err (EContext "data channel send failed" e)) ->
    latch_step {| at_send := Parked; closed_flag := f; registered := g; woken := w; closers := cs; queue := q |}
               {| at_send := Returned r; closed_flag := f; registered := g; woken := w; closers := cs; queue := q |}
| send_woken f g cs q :
    latch_step {| at_send := Parked; closed_flag := f; registered := g; woken := true; closers := cs; queue := q |}
               {| at_send := Returned (Err closed_error); closed_flag := f; registered := g; woken := true; closers := cs; queue := q |}
| closer_stores s f g w l r q :
    latch_step {| at_send := s; closed_flag := f; registered := g; woken := w; closers := l ++ Detecting :: r; queue := q |}
               {| at_send := s; closed_flag := true; registered := g; woken := w; closers := l ++ Stored :: r; queue := q |}
| closer_notifies s f g w l r q :
    latch_step {| at_send := s; closed_flag := f; registered := g; woken := w; closers := l ++ Stored :: r; queue := q |}
               {| at_send := s; closed_flag := f; registered := g; woken := w || g; closers := l ++ Notified :: r; queue := q |}
| closer_queues s f g w l r q :
    latch_step {| at_send := s; closed_flag := f; registered := g; woken := w; closers := l ++ Notified :: r; queue := q |}
               {| at_send := s; closed_flag := f; registered := g; woken := w; closers := l ++ Finished :: r; queue := q ++ [Closed] |}.

(** A send begins on an open channel; [n] handlers may come to see it end. *)
Definition latch0 (n : nat) (q : list Item) : latch :=
  {| at_send := Entering; closed_flag := false; registered := false; woken := false;
     closers := replicate n Detecting; queue := q |}.

(** ** Lemmas *)

(** What arrived before the connection was seen to end is received first, in
    order; then [recv] fails. *)
Lemma received_before_close pre c post :
  Forall (fun x => forall i, i ∈ enqueue x -> i <> Closed) pre -> Closed ∈ enqueue c ->
  recvs (S (length (flat_map data_of pre))) (flat_map enqueue (pre ++ c :: post))
  = map (fun m => Some (Ok m)) (flat_map data_of pre) ++ [Some (Err closed_error)].
Proof.
  intros Hpre Hc. assert (E : enqueue c = [Closed]).
  { destruct c as [m| |s]; cbn in *; [by apply list_elem_of_singleton in Hc|done|]. by destruct (terminal s); [|apply elem_of_nil in Hc]. }
  induction Hpre as [|x pre Hx _ IH]; [by cbn; rewrite E|].
  destruct x as [m| |s]; cbn in *.
  - f_equal. exact IH.
  - by destruct (Hx Closed); [left|].
  - destruct (terminal s); [by destruct (Hx Closed); [left|]|exact IH].
Qed.

(** A drop closes the connection at the first empty queue, and after 50 looks
    (a second) in any case. *)
Lemma drain_spec looks b slept :
  (slept <= drain looks b slept <= slept + looks)%nat
  /\ (forall i, (slept <= i < drain looks b slept)%nat -> b i <> 0)
  /\ ((drain looks b slept < slept + looks)%nat -> b (drain looks b slept) = 0).
Proof.
  revert slept. induction looks as [|looks IH]; intros slept; cbn [drain]; [split_and!; lia|].
  destruct (Z.eqb_spec (b slept) 0) as [E|E]; [split_and!; (lia || done)|].
  destruct (IH (S slept)) as (H1 & H2 & H3). split_and!; [lia|lia| |intros; apply H3; lia].
  intros i Hi. destruct (decide (i = slept)) as [->|]; [done|apply H2; lia].
Qed.

Definition past (c : closer) : bool := match c with Notified | Finished => true | _ => false end.
Definition stored (c : closer) : bool := match c with Detecting => false | _ => true end.
(** What holds of every state: the flag is what the handlers made it, a parked
    send had registered while the flag was down, and from then on any
    notification wakes it. *)
Definition latch_inv (s : latch) : Prop :=
  closed_flag s = existsb stored (closers s)
  /\ registered s = match at_send s with Entering => false | _ => true end
  /\ (at_send s = Parked -> existsb past (closers s) = woken s)
  /\ (woken s = true -> existsb past (closers s) = true)
  /\ (at_send s = Returned (Err closed_error) -> closed_flag s = true).

Lemma past_stored l : existsb stored l = false -> existsb past l = false.
Proof. induction l as [|[] l IH]; cbn; [done|exact IH|done..]. Qed.
Lemma latch_inv_step s s' : latch_inv s -> latch_step s s' -> latch_inv s'.
Proof.
  unfold latch_inv. intros (H1 & H2 & H3 & H4 & H5) Hs. inversion Hs; subst; cbn in *.
  all: try rewrite !existsb_app in *; cbn in *.
  - split_and!; done.
  - split_and!; done.
  - split_and!; try done. intros _. symmetry in H1. rewrite (past_stored _ H1) in *. destruct w; [|done]. by rewrite H4.
  - split_and!; try done. intros E. destruct H as [-> | (e & ->)]; done.
  - split_and!; try done. intros _. rewrite H1. specialize (H4 eq_refl).
    destruct (existsb stored cs) eqn:E; [done|]. by rewrite (past_stored _ E) in H4.
  - split_and!; try done. by rewrite orb_true_r.
  - split_and!; try done.
    + intros ->. rewrite H2. by rewrite !orb_true_r.
    + intros _. by rewrite orb_true_r.
  - split_and!; done.
Qed.
Lemma latch0_inv n q : latch_inv (latch0 n q).
Proof.
  unfold latch_inv, latch0. cbn. split; [|done]. by induction n.
Qed.
Lemma latch_reachable n q s : rtc latch_step (latch0 n q) s -> latch_inv s.
Proof.
  assert (H : forall a b, rtc latch_step a b -> latch_inv a -> latch_inv b).
  { induction 1 as [a|a b c Hab _ IH]; [done|]. intros Ha. apply IH. by eapply latch_inv_step. }
  intros Hs. by eapply H, latch0_inv.
Qed.

(** Every step brings the end nearer. *)
Definition send_left (s : sender) : nat :=
  match s with Entering => 3 | Registered => 2 | Parked => 1 | Returned _ => 0 end.
Definition close_left (c : closer) : nat :=
  match c with Detecting => 3 | Stored => 2 | Notified => 1 | Finished => 0 end.
Definition left_of (s : latch) : nat := send_left (at_send s) + sum_list_with close_left (closers s).
Lemma step_decreases s s' : latch_step s s' -> (left_of s' < left_of s)%nat.
Proof.
  inversion 1; subst; unfold left_of; cbn; rewrite ?sum_list_with_app; cbn; lia.
Qed.
Lemma nsteps_decrease k s s' : nsteps latch_step k s s' -> (left_of s' + k <= left_of s)%nat.
Proof.
  induction 1 as [s|k s s1 s2 Hs _ IH]; [lia|]. apply step_decreases in Hs. lia.
Qed.

(** ** Properties *)

(** C29: A send never outlives the peer: however a send and any number of closing
    handlers interleave, the run is over in a bounded number of steps; once a
    handler has come past its notification, the send has returned or can go
    on to return without the data channel's help; and it reports the channel
    closed only if a handler saw it close. *)
Theorem send_never_hangs n q :
  (forall k s, nsteps latch_step k (latch0 n q) s -> (k <= 3 + 3 * n)%nat)
  /\ forall s, rtc latch_step (latch0 n q) s ->
     (existsb past (closers s) = true ->
        match at_send s with
        | Returned _ => True
        | Parked => woken s = true
        | Registered => closed_flag s = true
        | Entering => closed_flag s = true
        end)
     /\ (at_send s = Returned (Err closed_error) -> existsb stored (closers s) = true).
Proof.
  split.
  - intros k s Hk%nsteps_decrease. assert (E : left_of (latch0 n q) = (3 + 3 * n)%nat).
    { unfold left_of, latch0. cbn [at_send closers send_left].
      assert (Hr : sum_list_with close_left (replicate n Detecting) = (3 * n)%nat).
      { clear. induction n as [|n IH]; simpl in *; lia. }
      rewrite Hr. lia. }
    lia.
  - intros s Hs%latch_reachable. destruct Hs as (H1 & H2 & H3 & H4 & H5). split.
    + intros Hp. assert (Hf : closed_flag s = true).
      { rewrite H1. destruct (existsb stored (closers s)) eqn:E; [done|]. by rewrite (past_stored _ E) in Hp. }
      destruct (at_send s); [done|done| |done]. rewrite <- H3; done.
    + intros Hr. rewrite <- H1. by apply H5.
Qed.
