(* ===== verification/Rendezvous.v ===== *)
(** * src/rendezvous: frames over an ntfy topic

    [Rendezvous] of src/rendezvous/mod.rs as src/rendezvous/ntfy.rs implements
    it: a frame is published as the base64 body of a POST, and a subscription
    reads the topic's JSON stream line by line. *)

From S2P Require Import Prelude Str Libs RelayFlow.

(** [base64]'s standard engine. *)
Class Base64 := {
  b64_encode : bytes -> string;
  b64_decode : string -> option bytes;
  b64_decode_encode b : b64_decode (b64_encode b) = Some b;
}.

Definition SINCE_WINDOW : string := "3m".
(** What an HTTP request comes to: no response, a status that
    [error_for_status] makes an error of, or another. *)
Inductive http : Type := SendFailed (e : error) | BadStatus (e : error) | Accepted.
(** [send().await.context(sending)?.error_for_status().context(rejected)?]. *)
Definition http_ok (sending rejected : string) (r : http) : res unit :=
  match r with
  | SendFailed e => Err (EContext sending e)
  | BadStatus e => Err (EContext rejected e)
  | Accepted => Ok tt
  end.

(** What [next_line] comes to; the end of the list is the end of the body. *)
Inductive line_item : Type := Line (s : string) | LineError.

Section ntfy.
Context `{JsonParser} `{Base64}.

Definition parse_ntfy_message (line : string) : option bytes :=
  v ← json_parse line;
  ev ← json_get "event" v; ev ← as_str ev;
  if negb (String.eqb ev "message") then None
  else msg ← json_get "message" v; msg ← as_str msg; b64_decode msg.

Record NtfyRendezvous : Type := { base : string }.
(** [client] is [http::client]'s outcome. *)
Definition new (url : string) (client : res unit) : res NtfyRendezvous :=
  _ ← client; Ok {| base := trim_end_char "/" url |}.

(** The POST: its URL and its body. *)
Definition publish_request (rv : NtfyRendezvous) (topic : string) (frame : bytes) : string * string :=
  (base rv +:+ "/" +:+ topic, b64_encode frame).
Definition publish (rv : NtfyRendezvous) (topic : string) (frame : bytes) (post : string -> string -> http) : res unit :=
  let '(url, body) := publish_request rv topic frame in
  http_ok "publishing to the rendezvous failed" "rendezvous rejected the publish" (post url body).

(** The frames the subscription yields before it ends. *)
Fixpoint unfold_frames (lines : list line_item) : list bytes :=
  match lines with
  | Line line :: lines' =>
      match parse_ntfy_message line with
      | Some frame => frame :: unfold_frames lines'
      | None => unfold_frames lines'
      end
  | LineError :: _ | [] => []
  end.
Definition subscribe_url (rv : NtfyRendezvous) (topic : string) : string :=
  base rv +:+ "/" +:+ topic +:+ "/json?since=" +:+ SINCE_WINDOW.
Definition subscribe (rv : NtfyRendezvous) (topic : string) (get : string -> http * list line_item) : res (list bytes) :=
  let '(r, lines) := get (subscribe_url rv topic) in
  _ ← http_ok "subscribing to the rendezvous failed" "rendezvous rejected the subscribe" r;
  Ok (unfold_frames lines).

(** ** What ntfy streams of a topic

    An object a line: a message event carries the body posted, and other
    events ([open], [keepalive]) come between them. *)
Inductive streams : list line_item -> list string -> Prop :=
| streams_end : streams [] []
| streams_message line v body lines bodies :
    json_parse line = Some v -> json_get "event" v = Some (JStr "message") ->
    json_get "message" v = Some (JStr body) -> streams lines bodies ->
    streams (Line line :: lines) (body :: bodies)
| streams_other line v ev lines bodies :
    json_parse line = Some v -> json_get "event" v = Some (JStr ev) -> ev <> "message" ->
    streams lines bodies -> streams (Line line :: lines) bodies.

(** ** Lemmas *)

Lemma unfold_streams lines bodies : streams lines bodies -> unfold_frames lines = omap b64_decode bodies.
Proof.
  induction 1 as [|line v body lines bodies Hp He Hm _ IH|line v ev lines bodies Hp He Hn _ IH]; [done| |];
    cbn [unfold_frames]; unfold parse_ntfy_message; rewrite Hp; cbn [mbind option_bind]; rewrite He; cbn [mbind option_bind as_str].
  - rewrite Hm. cbn [String.eqb Ascii.eqb Bool.eqb negb mbind option_bind as_str omap list_omap].
    destruct (b64_decode body); by rewrite IH.
  - apply String.eqb_neq in Hn. rewrite Hn. exact IH.
Qed.
(** What opens is the posted frames; other posters' junk is passed over. *)
Lemma decode_posted (posts : list (bytes + string)) :
  (forall s, inr s ∈ posts -> b64_decode s = None) ->
  omap b64_decode (map (fun p => match p with inl f => b64_encode f | inr s => s end) posts)
  = omap (fun p => match p with inl f => Some f | inr _ => None end) posts.
Proof.
  induction posts as [|[f|s] posts IH]; intros Hj; [done| |]; cbn.
  - rewrite b64_decode_encode. f_equal. apply IH. intros s Hs. apply Hj. by right.
  - rewrite (Hj s) by by left. apply IH. intros s' Hs. apply Hj. by right.
Qed.
End ntfy.
Fixpoint slashes (n : nat) : string := match n with O => "" | S n' => String "/" (slashes n') end.
Lemma trim_slashes s n : trim_end_char "/" (s +:+ slashes n) = trim_end_char "/" s.
Proof.
  assert (E : trim_end_char "/" (slashes n) = "").
  { induction n as [|n IH]; [done|]. cbn [slashes trim_end_char]. by rewrite IH. }
  induction s as [|a s IH]; [exact E|].
  change (String a s +:+ slashes n) with (String a (s +:+ slashes n)). cbn [trim_end_char]. by rewrite IH.
Qed.

(** ** Property *)

(** C39: Frames published to a topic reach its subscriber, unchanged and in order:
    whatever trailing slashes each side writes after the rendezvous' URL, both
    use one topic URL; and of a stream that carries the bodies posted there,
    with the service's other events between them, the subscription yields the
    published frames and passes over what is not base64. *)
Theorem rendezvous_delivers `{JsonParser} `{Base64} url n m topic (posts : list (bytes + string)) lines get post :
  (forall s, inr s ∈ posts -> b64_decode s = None) ->
  streams lines (map (fun p => match p with inl f => b64_encode f | inr s => s end) posts) ->
  (forall u b, post u b = Accepted) ->
  get (trim_end_char "/" url +:+ "/" +:+ topic +:+ "/json?since=3m") = (Accepted, lines) ->
  exists a b, new (url +:+ slashes n) (Ok tt) = Ok a /\ new (url +:+ slashes m) (Ok tt) = Ok b
    /\ (forall f, publish_request a topic f = (trim_end_char "/" url +:+ "/" +:+ topic, b64_encode f)
                  /\ publish a topic f post = Ok tt)
    /\ subscribe b topic get = Ok (omap (fun p => match p with inl f => Some f | inr _ => None end) posts).
Proof.
  intros Hj Hs Hp Hg. exists {| base := trim_end_char "/" url |}, {| base := trim_end_char "/" url |}.
  unfold new. cbn [mbind res_bind]. rewrite !trim_slashes. split_and!; [done|done| |].
  - intros f. split; [done|]. unfold publish. cbn. by rewrite Hp.
  - unfold subscribe, subscribe_url, SINCE_WINDOW. cbn [base].
    rewrite (Hg : get (trim_end_char "/" url +:+ "/" +:+ topic +:+ "/json?since=" +:+ "3m") = _). cbn [http_ok mbind res_bind].
    rewrite (unfold_streams _ _ Hs), decode_posted by done. done.
Qed.

(** ** At a concrete input *)

Module Example.
(** A parser of lines that say their event and their message, apart. *)
#[local] Instance toy_json : JsonParser := fun s =>
  match s with
  | String "m" rest => Some (JObj [("event", JStr "message"); ("message", JStr rest)])
  | "k" => Some (JObj [("event", JStr "keepalive")])
  | _ => None
  end.
#[local, refine] Instance toy_base64 : Base64 :=
  {| b64_encode := @b58_encode Toy.base58; b64_decode := @b58_decode Toy.base58 |}.
Proof. exact (@b58_decode_encode Toy.base58). Defined.
Definition hello : bytes := [Byte.x68; Byte.x69].
Definition lines : list line_item :=
  [Line "k"; Line ("m" +:+ b64_encode hello); Line "m!!!"; Line "k"; Line ("m" +:+ b64_encode [])].

Lemma rendezvous_delivers_witness :
  exists b, new "https://ntfy.sh//" (Ok tt) = Ok b
    /\ subscribe b "t" (fun _ => (Accepted, lines)) = Ok [hello; []].
Proof.
  destruct (rendezvous_delivers "https://ntfy.sh" 0 2 "t" [inl hello; inr "!!!"; inl []] lines
    (fun _ => (Accepted, lines)) (fun _ _ => Accepted)) as (a & b & _ & Hb & _ & Hs).
  - intros s Hs. apply list_elem_of_In in Hs. destruct Hs as [E|[E|[E|[]]]]; [discriminate| |discriminate].
    injection E as <-. vm_compute. reflexivity.
  - repeat first [ eapply streams_other; [vm_compute; reflexivity|vm_compute; reflexivity|done|]
                 | eapply streams_message; [vm_compute; reflexivity|vm_compute; reflexivity|vm_compute; reflexivity|]
                 | apply streams_end ].
  - done.
  - reflexivity.
  - exists b. split; [exact Hb|exact Hs].
Defined.
End Example.
