(* ===== verification/Ip.v ===== *)
(** * [std::net::IpAddr]: parsing and printing, as the program uses them

    The parser follows the standard library's: a cursor over the text, each
    reader leaving it where it was on failure. *)

From S2P Require Import Prelude Str.

(** Four octets; eight 16-bit segments. *)
Inductive IpAddr : Type := V4 (o1 o2 o3 o4 : Z) | V6 (segments : list Z).
#[export] Instance IpAddr_eq_dec : EqDecision IpAddr.
Proof. solve_decision. Defined.

(** [char::to_digit]. *)
Definition to_digit (radix : Z) (a : ascii) : option Z :=
  let c := Z.of_N (N_of_ascii a) in
  let d := if (48 <=? c) && (c <=? 57) then c - 48
           else if (97 <=? c) && (c <=? 122) then c - 87
           else if (65 <=? c) && (c <=? 90) then c - 55 else radix in
  if d <? radix then Some d else None.

(** A reader: a value and the rest of the text. *)
Definition reader (A : Type) : Type := string -> option (A * string).

(** [read_number]: at most [digits] digits, a value of at most [max]. *)
Fixpoint number_loop (radix max : Z) (digits : nat) (n : Z) (count : nat) (s : string) : option (Z * nat * string) :=
  match s with
  | EmptyString => Some (n, count, s)
  | String a s' =>
      match to_digit radix a with
      | None => Some (n, count, s)
      | Some d =>
          match digits with
          | O => None
          | S digits' =>
              let n := n * radix + d in
              if max <? n then None else number_loop radix max digits' n (S count) s'
          end
      end
  end.
Definition read_number (radix max : Z) (digits : nat) (allow_zero_prefix : bool) : reader Z := fun s =>
  let has_leading_zero := starts_with "0" s in
  match number_loop radix max digits 0 0 s with
  | Some (n, count, rest) =>
      if (count =? 0)%nat then None
      else if negb allow_zero_prefix && has_leading_zero && (1 <? count)%nat then None
      else Some (n, rest)
  | None => None
  end.
Definition read_given_char (c : ascii) : reader unit := fun s =>
  match s with
  | String a s' => if Ascii.eqb a c then Some (tt, s') else None
  | EmptyString => None
  end.
(** A separator before every element but the first. *)
Definition read_separator {A} (sep : ascii) (index : nat) (r : reader A) : reader A := fun s =>
  match index with
  | O => r s
  | _ => '(_, s) ← read_given_char sep s; r s
  end.

Definition read_ipv4_addr : reader (Z * Z * Z * Z) := fun s =>
  let octet i := read_separator "." i (read_number 10 255 3 false) in
  '(a, s) ← octet 0%nat s;
  '(b, s) ← octet 1%nat s;
  '(c, s) ← octet 2%nat s;
  '(d, s) ← octet 3%nat s;
  Some ((a, b, c, d), s).

(** [read_groups]: up to [limit - i] groups from the [i]th on; whether the
    last two were an IPv4 address. *)
Fixpoint read_groups (left : nat) (i : nat) (s : string) : list Z * bool * string :=
  match left with
  | O => ([], false, s)
  | S left' =>
      match (if (0 <? left')%nat then read_separator ":" i read_ipv4_addr s else None) with
      | Some ((a, b, c, d), s') => ([a * 256 + b; c * 256 + d], true, s')
      | None =>
          match read_separator ":" i (read_number 16 65535 4 true) s with
          | Some (g, s') => let '(gs, v4, s'') := read_groups left' (S i) s' in (g :: gs, v4, s'')
          | None => ([], false, s)
          end
      end
  end.
Definition read_ipv6_addr : reader (list Z) := fun s =>
  let '(head, head_ipv4, s) := read_groups 8 0 s in
  if (length head =? 8)%nat then Some (head, s)
  else if head_ipv4 then None
  else
    '(_, s) ← read_given_char ":" s;
    '(_, s) ← read_given_char ":" s;
    let '(tail, _, s) := read_groups (8 - (length head + 1)) 0 s in
    Some (head ++ replicate (8 - length head - length tail) 0 ++ tail, s).
Definition read_ip_addr : reader IpAddr := fun s =>
  match read_ipv4_addr s with
  | Some ((a, b, c, d), s') => Some (V4 a b c d, s')
  | None => '(g, s') ← read_ipv6_addr s; Some (V6 g, s')
  end.
(** [s.parse::<IpAddr>().ok()]. *)
Definition parse_ip (s : string) : option IpAddr :=
  match read_ip_addr s with Some (ip, EmptyString) => Some ip | _ => None end.

Definition is_loopback (ip : IpAddr) : bool :=
  match ip with
  | V4 a _ _ _ => a =? 127
  | V6 g => bool_decide (g = [0; 0; 0; 0; 0; 0; 0; 1])
  end.
Definition is_unspecified (ip : IpAddr) : bool :=
  match ip with
  | V4 a b c d => (a =? 0) && (b =? 0) && (c =? 0) && (d =? 0)
  | V6 g => bool_decide (g = [0; 0; 0; 0; 0; 0; 0; 0])
  end.

(** ** [Display] *)

Definition show_v4 (a b c d : Z) : string := show a +:+ "." +:+ show b +:+ "." +:+ show c +:+ "." +:+ show d.
Definition hex_char (d : Z) : ascii := ascii_of_N (Z.to_N (if d <? 10 then 48 + d else 87 + d)).
(** [{:x}] of a 16-bit value. *)
Definition show_hex (n : Z) : string :=
  let digits := [n / 4096; n / 256 mod 16; n / 16 mod 16; n mod 16] in
  let fix strip (l : list Z) := match l with
                                | d :: ((_ :: _) as l') => if d =? 0 then strip l' else l
                                | _ => l
                                end in
  foldr (fun d s => String (hex_char d) s) "" (strip digits).
Fixpoint join_colon (l : list Z) : string :=
  match l with
  | [] => ""
  | [g] => show_hex g
  | g :: l' => show_hex g +:+ ":" +:+ join_colon l'
  end.
(** The first of the longest runs of zero segments: start and length. *)
Fixpoint longest_zeros (l : list Z) (i : nat) (cur best : nat * nat) : nat * nat :=
  match l with
  | [] => best
  | g :: l' =>
      if g =? 0 then
        let cur := if (cur.2 =? 0)%nat then (i, 1%nat) else (cur.1, S cur.2) in
        longest_zeros l' (S i) cur (if (best.2 <? cur.2)%nat then cur else best)
      else longest_zeros l' (S i) (0%nat, 0%nat) best
  end.
Definition show_v6 (g : list Z) : string :=
  match g with
  | [0; 0; 0; 0; 0; 65535; x; y] => "::ffff:" +:+ show_v4 (x / 256) (x mod 256) (y / 256) (y mod 256)
  | _ =>
      let '(start, len) := longest_zeros g 0 (0%nat, 0%nat) (0%nat, 0%nat) in
      if (1 <? len)%nat then join_colon (take start g) +:+ "::" +:+ join_colon (drop (start + len) g)
      else join_colon g
  end.
Definition show_ip (ip : IpAddr) : string :=
  match ip with V4 a b c d => show_v4 a b c d | V6 g => show_v6 g end.

Example ip_samples :
  parse_ip "2606:4700::1" = Some (V6 [0x2606; 0x4700; 0; 0; 0; 0; 0; 1])
  /\ parse_ip "::ffff:1.2.3.4" = Some (V6 [0; 0; 0; 0; 0; 65535; 258; 772])
  /\ parse_ip "104.16.132.229" = Some (V4 104 16 132 229) /\ parse_ip "1.02.3.4" = None
  /\ parse_ip "256.1.1.1" = None /\ parse_ip "ignored.cname.example" = None /\ parse_ip "::1%eth0" = None
  /\ show_ip (V6 [0x2606; 0x4700; 0; 0; 0; 0; 0; 1]) = "2606:4700::1"
  /\ show_ip (V6 [0; 0; 0; 0; 0; 0; 0; 0]) = "::" /\ show_ip (V6 [1; 0; 2; 0; 0; 3; 0; 0]) = "1:0:2::3:0:0".
Proof. vm_compute. done. Qed.
