(* ===== verification/Doh.v ===== *)
(** * src/doh.rs, and [build_client] of src/send.rs: resolving over HTTPS *)

From S2P Require Import Prelude Str Ip.

Definition PROVIDERS : list (string * string) :=
  [("cloudflare", "https://1.1.1.1/dns-query"); ("google", "https://8.8.8.8/resolve")].
Definition A : Z := 1.
Definition AAAA : Z := 28.
Record DohAnswer : Type := { kind : Z; data : string }.

(** What a GET of a provider comes to. *)
Inductive doh_reply : Type :=
| SendError (e : error) | BadStatus (e : error) | BadJson (e : error) | Answers (l : list DohAnswer).

Section doh.
(** The GET, by endpoint, host and record type; whether the client is built. *)
Variables (get : string -> string -> string -> doh_reply) (client : res unit).

Definition answers (r : doh_reply) : res (list DohAnswer) :=
  match r with
  | SendError e => Err (EContext "DoH request failed" e)
  | BadStatus e => Err (EContext "DoH endpoint returned an error status" e)
  | BadJson e => Err (EContext "DoH response was not valid JSON" e)
  | Answers l => Ok l
  end.
Fixpoint push_answers (l : list DohAnswer) (ips : list IpAddr) : res (list IpAddr) :=
  match l with
  | [] => Ok ips
  | ans :: l' =>
      if ((kind ans =? A) || (kind ans =? AAAA)) && bool_decide (is_Some (parse_ip (data ans)))
      then match parse_ip (data ans) with
           | Some ip => push_answers l' (ips ++ [ip])
           | None => Panic
           end
      else push_answers l' ips
  end.
Fixpoint query_kinds (base host : string) (kinds : list string) (ips : list IpAddr) : res (list IpAddr) :=
  match kinds with
  | [] => Ok ips
  | k :: kinds' =>
      l ← answers (get base host k);
      ips ← push_answers l ips;
      query_kinds base host kinds' ips
  end.
Definition query (base host : string) : res (list IpAddr) := query_kinds base host ["A"; "AAAA"] [].

Fixpoint try_providers (host : string) (l : list (string * string)) (last_err : option error) : res (list IpAddr) :=
  match l with
  | [] => Err (default (EMsg "no DoH providers configured") last_err)
  | (label, base) :: l' =>
      match query base host with
      | Ok ips =>
          if negb (bool_decide (ips = [])) then Ok ips
          else try_providers host l' (Some (EMsg (label +:+ ": no A/AAAA records for " +:+ host)))
      | Err e => try_providers host l' (Some (EContext ("DoH provider " +:+ label +:+ " failed") e))
      | Panic => Panic
      end
  end.
Definition resolve (host : string) : res (list IpAddr) :=
  _ ← client; try_providers host PROVIDERS None.

(** [build_client]: the addresses pinned for the URL's host, if any; [port] is
    [port_or_known_default]. [builder] and [build] are the HTTP client's. *)
Definition pins (host : option string) (port : option Z) : list (IpAddr * Z) :=
  match host with
  | None => []
  | Some host =>
      if bool_decide (is_Some (parse_ip host)) || String.eqb host "localhost" then []
      else match resolve host with
           | Ok ips => map (fun ip => (ip, default 443 port)) ips
           | _ => []
           end
  end.
Definition build_client (builder build : res unit) (host : option string) (port : option Z) : res (list (IpAddr * Z)) :=
  _ ← builder;
  let p := pins host port in
  _ ← build; mret p.

(** ** Lemmas *)

(** The addresses among a reply's records. *)
Definition addresses (l : list DohAnswer) : list IpAddr :=
  omap (fun a => if (kind a =? A) || (kind a =? AAAA) then parse_ip (data a) else None) l.
Lemma push_answers_spec l ips : push_answers l ips = Ok (ips ++ addresses l).
Proof.
  revert ips. induction l as [|a l IH]; intros ips; [by rewrite app_nil_r|]. cbn [push_answers].
  assert (E : addresses (a :: l) = option_list (if (kind a =? A) || (kind a =? AAAA) then parse_ip (data a) else None) ++ addresses l).
  { unfold addresses. cbn. by repeat case_match. }
  rewrite E. destruct ((kind a =? A) || (kind a =? AAAA)); [|by rewrite IH].
  destruct (parse_ip (data a)) as [ip|]; cbn; [|by rewrite IH]. by rewrite IH, <- app_assoc.
Qed.
Lemma query_spec base host :
  query base host = (a ← answers (get base host "A"); b ← answers (get base host "AAAA");
                     mret (addresses a ++ addresses b)).
Proof.
  unfold query. cbn [query_kinds]. destruct (answers (get base host "A")) as [a|e|]; [|done..].
  cbn [mbind res_bind]. rewrite push_answers_spec. cbn [mbind res_bind app].
  destruct (answers (get base host "AAAA")) as [b|e|]; [|done..]. cbn [mbind res_bind]. by rewrite push_answers_spec.
Qed.
Lemma query_not_panic base host : query base host <> Panic.
Proof.
  rewrite query_spec. unfold answers. destruct (get base host "A"), (get base host "AAAA"); done.
Qed.
(** A provider that does not help. *)
Definition useless (host : string) (p : string * string) : Prop :=
  query p.2 host = Ok [] \/ is_err (query p.2 host) = true.
Lemma try_providers_spec host l last :
  match try_providers host l last with
  | Ok ips => ips <> [] /\ exists pre p post, l = pre ++ p :: post /\ query p.2 host = Ok ips /\ Forall (useless host) pre
  | Err _ => Forall (useless host) l
  | Panic => False
  end.
Proof.
  revert last. induction l as [|[label base] l IH]; intros last; [by constructor|]. cbn [try_providers].
  assert (Hcons : forall last', useless host (label, base) ->
    match try_providers host l last' with
    | Ok ips => ips <> [] /\ exists pre p post, (label, base) :: l = pre ++ p :: post /\ query p.2 host = Ok ips /\ Forall (useless host) pre
    | Err _ => Forall (useless host) ((label, base) :: l)
    | Panic => False
    end).
  { intros last' Hu. specialize (IH last'). destruct (try_providers host l last') as [ips|e|]; [|by constructor|done].
    destruct IH as (Hi & pre & p & post & -> & Hq & Hp). split; [done|].
    exists ((label, base) :: pre), p, post. split; [done|]. split; [done|]. by constructor. }
  destruct (query base host) as [ips|e|] eqn:Eq.
  - destruct (bool_decide_reflect (ips = [])) as [->|Hi]; cbn [negb].
    + apply Hcons. by left.
    + split; [done|]. exists [], (label, base), l. split; [done|]. split; [done|constructor].
  - apply Hcons. right. change (is_err (query base host) = true). by rewrite Eq.
  - by destruct (query_not_panic base host).
Qed.
End doh.

(** ** Property *)

(** The sender's client is pinned to an honest answer or to nothing: unless
    the code's host is an address or [localhost], it connects to the A and
    AAAA records, in order, of the first provider that has any, and if none
    has, or DoH fails altogether, to what the system resolves; DoH never makes
    the send fail. *)
Theorem doh_pins_first_answer get client host port :
  (forall builder build p, build_client get client builder build host port = Ok p <-> builder = Ok tt /\ build = Ok tt /\ p = pins get client host port)
  /\ (pins get client host port <> [] ->
      exists h pre p post a b, host = Some h /\ parse_ip h = None /\ h <> "localhost"
        /\ PROVIDERS = pre ++ p :: post /\ Forall (useless get h) pre
        /\ get p.2 h "A" = Answers a /\ get p.2 h "AAAA" = Answers b
        /\ pins get client host port = map (fun ip => (ip, default 443 port)) (addresses a ++ addresses b))
  /\ forall h, host = Some h -> parse_ip h = None -> h <> "localhost" -> client = Ok tt ->
       pins get client host port = [] -> Forall (useless get h) PROVIDERS.
Proof.
  split; [|split].
  - intros builder build p. unfold build_client. destruct builder as [[]|e|], build as [[]|e'|]; cbn; split;
      (intros [= <-]; done) || (by intros (? & ? & ->)) || done.
  - destruct host as [h|]; [|done]. unfold pins. destruct (parse_ip h) as [ip|] eqn:Eh; [done|].
    destruct (String.eqb_spec h "localhost"); [done|]. cbn [bool_decide orb]. rewrite bool_decide_eq_false_2 by (by apply is_Some_None).
    cbn [orb]. unfold resolve. destruct client as [[]|e|]; [|done..]. cbn [mbind res_bind].
    pose proof (try_providers_spec get h PROVIDERS None) as Hs. destruct (try_providers get h PROVIDERS None) as [ips|e|]; [|done..].
    intros _. destruct Hs as (_ & pre & p & post & Hp & Hq & Hu). rewrite query_spec in Hq. unfold answers in Hq.
    destruct (get p.2 h "A") as [| | |a] eqn:Ea; [done..|]. destruct (get p.2 h "AAAA") as [| | |b] eqn:Eb; [done..|].
    injection Hq as <-. by exists h, pre, p, post, a, b.
  - intros h -> Hh Hl Hc. unfold pins. rewrite Hh. apply String.eqb_neq in Hl. rewrite Hl.
    rewrite bool_decide_eq_false_2 by (by apply is_Some_None). cbn [orb]. unfold resolve. rewrite Hc. cbn [mbind res_bind].
    pose proof (try_providers_spec get h PROVIDERS None) as Hs. destruct (try_providers get h PROVIDERS None) as [ips|e|]; [|done|done].
    intros E. by destruct ips, Hs.
Qed.
Definition sample_get (base host k : string) : doh_reply :=
  if String.eqb base "https://1.1.1.1/dns-query" then BadStatus (EExternal "503")
  else if String.eqb k "A" then Answers [{| kind := 5; data := "cname.example" |}; {| kind := 1; data := "104.16.132.229" |}]
  else Answers [{| kind := 28; data := "2606:4700::1" |}].
Lemma doh_pins_first_answer_witness :
  exists a b, sample_get "https://8.8.8.8/resolve" "t.example" "A" = Answers a
    /\ sample_get "https://8.8.8.8/resolve" "t.example" "AAAA" = Answers b
    /\ pins sample_get (Ok tt) (Some "t.example") None = map (fun ip => (ip, 443)) (addresses a ++ addresses b).
Proof.
  destruct (doh_pins_first_answer sample_get (Ok tt) (Some "t.example") None) as (_ & Hp & _).
  destruct Hp as (h & pre & p & post & a & b & [= <-] & _ & _ & Hpr & _ & Ha & Hb & E); [vm_compute; discriminate|].
  exists a, b. assert (Hb' : p = ("google", "https://8.8.8.8/resolve")).
  { unfold PROVIDERS in Hpr. destruct pre as [|? [|? [|]]]; try discriminate; injection Hpr as; subst; [|reflexivity].
    vm_compute in Ha. discriminate. }
  subst p. split; [exact Ha|]. split; [exact Hb|exact E].
Defined.
