(* ===== verification/TlsProbe.v ===== *)
(** * src/tlsprobe.rs and src/http.rs: certificates on disk and on the wire *)

From S2P Require Import Prelude Str Libs Fs.

Record TlsReport : Type := { leaf_issuer : string; os_store_verifies : bool; os_error : option string }.

Definition PUBLIC_CA_MARKERS : list string :=
  ["Let's Encrypt"; "ISRG"; "Google Trust Services"; "DigiCert"; "Cloudflare"; "Amazon"; "Sectigo"; "COMODO";
   "USERTrust"; "GlobalSign"; "Entrust"; "GoDaddy"; "Starfield"; "ZeroSSL"; "SSL.com"; "IdenTrust"; "QuoVadis";
   "Buypass"; "Actalis"; "Microsoft"; "Apple"].
Definition looks_public (issuer : string) : bool := existsb (fun m => contains m issuer) PUBLIC_CA_MARKERS.

(** [rustls_pemfile], [reqwest::Certificate::from_pem_bundle] and
    [x509_parser]: what they make of bytes. *)
Class TlsCrates := {
  CertificateDer : Type; ReqwestCertificate : Type;
  pem_certs : bytes -> res (list CertificateDer);
  from_pem_bundle : bytes -> res (list ReqwestCertificate);
  x509_issuer : bytes -> res string;
}.

Section tls.
Context `{TlsCrates}.

Definition issuer_of (der : bytes) : res string :=
  map_err (fun e => EMsg ("parsing server certificate: " +:+ error_to_string e)) (x509_issuer der).

(** [ensure!(!certs.is_empty(), ..)]. *)
Definition ensure_some {A} (p : path) (certs : list A) : res (list A) :=
  match certs with [] => Err (EMsg ("no certificates found in " +:+ display p)) | _ => Ok certs end.
Definition load_pem_roots (p : path) : io (list CertificateDer) :=
  pem ← io_context ("reading " +:+ display p) (fs_read p);
  io_lift (certs ← context ("parsing PEM certificates in " +:+ display p) (pem_certs pem); ensure_some p certs).
(** [load_pem_certs] of src/http.rs. *)
Definition load_pem_certs (p : path) : io (list ReqwestCertificate) :=
  pem ← io_context ("reading --cafile " +:+ display p) (fs_read p);
  io_lift (certs ← context ("parsing PEM certificates in " +:+ display p) (from_pem_bundle pem); ensure_some p certs).
(** [builder] and [client] of src/http.rs: the extra roots the client trusts. *)
Definition builder (cafile : option path) : io (list ReqwestCertificate) :=
  match cafile with Some p => load_pem_certs p | None => mret [] end.
Definition client (build : res unit) (cafile : option path) : io (list ReqwestCertificate) :=
  certs ← builder cafile; _ ← io_lift build; mret certs.

(** [tls_connector] of src/transport/relay.rs: the roots a relay connection
    trusts. [add] is [RootCertStore::add], which refuses what it cannot parse;
    [native] is the OS store. *)
Fixpoint add_roots (add : CertificateDer -> res unit) (roots certs : list CertificateDer) : res (list CertificateDer) :=
  match certs with
  | [] => Ok roots
  | der :: certs' => _ ← add der; add_roots add (roots ++ [der]) certs'
  end.
Definition tls_connector (add : CertificateDer -> res unit) (native : list CertificateDer) (cafile : option path)
    : io (list CertificateDer) :=
  let roots := List.filter (fun c => is_ok (add c)) native in
  extra ← match cafile with Some p => load_pem_roots p | None => mret [] end;
  roots ← io_lift (add_roots add roots extra);
  match roots with [] => io_lift (Err (EMsg "no trusted TLS roots available")) | _ => mret roots end.

(** ** Lemmas *)

Lemma add_roots_spec add roots certs r : add_roots add roots certs = Ok r ->
  r = roots ++ certs /\ Forall (fun c => add c = Ok tt) certs.
Proof.
  revert roots. induction certs as [|c certs IH]; intros roots; cbn [add_roots].
  - intros [= <-]. by rewrite app_nil_r.
  - destruct (add c) as [[]|e|] eqn:E; [|done..]. cbn [mbind res_bind]. intros Hr.
    destruct (IH _ Hr) as [-> Hf]. rewrite <- app_assoc. split; [done|by constructor].
Qed.
Lemma load_pem_roots_spec p s l s' : load_pem_roots p s = (Ok l, s') ->
  exists b, file_at (nodes s) p = Some b /\ pem_certs b = Ok l /\ l <> [].
Proof.
  unfold load_pem_roots, mbind, io_bind, io_context. destruct (fs_read p s) as [[b|e|] s1] eqn:Er; [|done..].
  intros El. exists b. split.
  - unfold fs_read, sys, file_at in *.
    destruct (faults s) as [|[] fl]; destruct (nodes s !! p) as [[|b']|]; cbn in Er; try done; by injection Er as -> _.
  - unfold io_lift in El. injection El as El _. destruct (pem_certs b) as [l'|e|]; cbn [context mbind res_bind] in El; [|done..].
    unfold ensure_some in El. destruct l'; [done|]. by injection El as <-.
Qed.
(** The --cafile adds to the OS store and takes nothing from it; all of it is
    used, or the connection is refused. *)
Theorem connector_roots add native cafile s r s' :
  tls_connector add native cafile s = (Ok r, s') ->
  r <> [] /\ exists extra, r = List.filter (fun c => is_ok (add c)) native ++ extra
    /\ match cafile with
       | Some p => exists b, file_at (nodes s) p = Some b /\ pem_certs b = Ok extra /\ extra <> []
                   /\ Forall (fun c => add c = Ok tt) extra
       | None => extra = []
       end.
Proof.
  unfold tls_connector, mbind, io_bind. destruct cafile as [p|].
  - destruct (load_pem_roots p s) as [[extra|e|] s1] eqn:El; [|done..]. unfold io_lift at 1.
    destruct (add_roots _ _ extra) as [roots|e|] eqn:Ea; [|done..]. apply add_roots_spec in Ea as [-> Hf].
    intros Hr. assert (Hn : List.filter (fun c => is_ok (add c)) native ++ extra <> [] /\ r = List.filter (fun c => is_ok (add c)) native ++ extra).
    { destruct (_ ++ _) eqn:E in Hr |- *; [done|]. by injection Hr as <- _. }
    destruct Hn as [Hn ->]. split; [done|]. exists extra. split; [done|].
    destruct (load_pem_roots_spec _ _ _ _ El) as (b & Hb & Hc & He). by exists b.
  - cbn. intros Hr. split; [|exists []; rewrite app_nil_r; split; [|done]]; destruct (List.filter _ native); (done || by injection Hr as <- _).
Qed.
End tls.

(** ** The probe

    Rustls asks a verifier for its judgment of what a server presents. *)

Record Verifier (St : Type) : Type := {
  verify_server_cert : bytes -> list bytes -> St -> res unit * St;
  verify_signature : bytes -> St -> res unit;
}.
Arguments verify_server_cert {St}. Arguments verify_signature {St}.
(** Takes every certificate and signature, and keeps the leaf. *)
Definition CaptureVerifier : Verifier (option bytes) :=
  {| verify_server_cert end_entity _ _ := (Ok tt, Some end_entity); verify_signature _ _ := Ok tt |}.

(** A connection to a server, the chain it presents, and a handshake with it
    under a verifier, or under the roots of [with_root_certificates]. A
    handshake that succeeds has had the presented chain accepted. *)
Class Rustls `{TlsCrates} := {
  Conn : Type;
  presented : Conn -> list bytes;
  complete_io {St} : Verifier St -> Conn -> St -> res unit * St;
  complete_io_roots : list CertificateDer -> Conn -> res unit;
  complete_io_verified {St} (v : Verifier St) c st st' : complete_io v c st = (Ok tt, st') ->
    exists leaf chain, presented c = leaf :: chain /\ verify_server_cert v leaf chain st = (Ok tt, st');
}.

Section probe.
Context `{Rustls}.

(** [connect]: only the first address is tried. *)
Definition connect {Addr} (addrs : res (list Addr)) (dial : Addr -> res Conn) : res Conn :=
  l ← addrs; a ← ok_or (EMsg "hostname did not resolve") (head l); dial a.
(** [handshake], by what it is configured with; [name] is what [ServerName] makes
    of the host, [conn] the connection. *)
Definition handshake {St} (name : res unit) (conn : res Conn) (io : Conn -> St -> res unit * St) (st : St) : res unit * St :=
  match (_ ← name; conn) with
  | Ok c => let '(r, st') := io c st in (context "TLS handshake" r, st')
  | Err e => (Err e, st)
  | Panic => (Panic, st)
  end.
(** The two passes each make their own connection. [add] is
    [RootCertStore::add], [native] the OS store. *)
Definition probe_blocking (add : CertificateDer -> res unit) (native : list CertificateDer) (name : res unit)
    (conn1 conn2 : res Conn) (extra_roots : list CertificateDer) : res TlsReport :=
  let '(r, captured) := handshake name conn1 (complete_io CaptureVerifier) None in
  _ ← r;
  leaf ← ok_or (EMsg "server presented no certificate") captured;
  leaf_issuer ← issuer_of leaf;
  let roots := List.filter (fun c => is_ok (add c)) native ++ List.filter (fun c => is_ok (add c)) extra_roots in
  match (handshake name conn2 (fun c st => (complete_io_roots roots c, st)) tt).1 with
  | Ok _ => Ok {| leaf_issuer := leaf_issuer; os_store_verifies := true; os_error := None |}
  | Err e => Ok {| leaf_issuer := leaf_issuer; os_store_verifies := false; os_error := Some (error_chain e) |}
  | Panic => Panic
  end.

(** A handshake that succeeds has captured the leaf presented. *)
Lemma captured_leaf name conn st' : handshake name conn (complete_io CaptureVerifier) None = (Ok tt, st') ->
  exists c leaf chain, name = Ok tt /\ conn = Ok c /\ presented c = leaf :: chain /\ st' = Some leaf.
Proof.
  unfold handshake. destruct name as [[]|e|]; [|done..]. destruct conn as [c|e|]; [|done..]. cbn [mbind res_bind].
  destruct (complete_io CaptureVerifier c None) as [[[]|e|] st1] eqn:E; [|done..]. intros [= <-].
  destruct (complete_io_verified _ _ _ _ E) as (leaf & chain & Hp & [= <-]). by exists c, leaf, chain.
Qed.
(** What the probe reports: the issuer of the leaf that the server presented to
    a client that trusts it blindly, and whether a client with the OS store
    and the extra roots, those that parse, accepts the server. That the server
    presented no certificate is never reported. *)
Theorem probe_reports add native name conn1 conn2 extra :
  match probe_blocking add native name conn1 conn2 extra with
  | Ok rep =>
      (exists c leaf chain, conn1 = Ok c /\ presented c = leaf :: chain /\ issuer_of leaf = Ok (leaf_issuer rep))
      /\ os_store_verifies rep
         = is_ok (c ← conn2; complete_io_roots (List.filter (fun c => is_ok (add c)) (native ++ extra)) c)
      /\ (os_store_verifies rep = true <-> os_error rep = None)
  | _ => forall st, handshake name conn1 (complete_io CaptureVerifier) None = (Ok tt, st) -> st <> None
  end.
Proof.
  unfold probe_blocking. pose proof (captured_leaf name conn1) as Hc.
  destruct (handshake name conn1 _ None) as [[[]|e|] st] eqn:E; [|by intros st' [=]..].
  destruct (Hc st eq_refl) as (c & leaf & chain & -> & -> & Hp & ->). cbn [mbind res_bind ok_or].
  destruct (issuer_of leaf) as [i|e|] eqn:Ei; [|by intros st [= <-]..]. rewrite <- List.filter_app.
  unfold handshake. cbn [mbind res_bind]. destruct conn2 as [c2|e|]; cbn [mbind res_bind fst].
  - destruct (complete_io_roots _ c2) as [[]|e|]; cbn [context fst is_ok]; [| |by intros st [= <-]];
      cbn; (split; [by exists c, leaf, chain|done]).
  - cbn. split; [by exists c, leaf, chain|done].
  - by intros st [= <-].
Qed.
End probe.

Example looks_public_samples :
  looks_public "C=US, O=Let's Encrypt, CN=R11" = true /\ looks_public "CN=BTG Pactual-RootCA" = false.
Proof. vm_compute. done. Qed.
