(* ===== verification/Doctor.v ===== *)
(** * src/doctor.rs: which layer of the network is broken *)

From S2P Require Import Prelude Str Libs Fs Ip Stun TlsProbe.

Definition DEFAULT_TARGET : string := "trycloudflare.com".
Definition TLS_CANARY : string := "www.google.com".
Definition RENDEZVOUS_HEALTH : string := "https://ntfy.sh/v1/health".

Inductive Outcome : Type := OutOk | Warn | Fail.
#[export] Instance Outcome_eq_dec : EqDecision Outcome.
Proof. solve_decision. Defined.
Record Check : Type := { name : string; label : string; outcome : Outcome; detail : string }.
Record DoctorReport : Type := { checks : list Check; report_verdict : string }.

Definition newline : string := String "010" "".
Definition mark (o : Outcome) : string := match o with OutOk => "✓" | Warn => "!" | Fail => "✗" end.
(** [Display]. *)
Definition report_to_string (r : DoctorReport) : string :=
  foldr (fun c s => mark (outcome c) +:+ " " +:+ label c +:+ ": " +:+ detail c +:+ newline +:+ s)
    (newline +:+ "verdict: " +:+ report_verdict r) (checks r).

(** ** DNS *)

Inductive DnsClass : Type := Clean | BlockPage (ip : IpAddr) | Sinkhole (ip : IpAddr).
Definition umbrella (ip : IpAddr) : bool :=
  match ip with
  | Ip.V4 a b c d => (a =? 146) && (b =? 112) && (c =? 61) && ((104 <=? d) && (d <=? 110))
  | Ip.V6 _ => false
  end.
Fixpoint classify_ips (ips : list IpAddr) : DnsClass :=
  match ips with
  | [] => Clean
  | ip :: ips' =>
      if umbrella ip then BlockPage ip
      else if is_loopback ip || is_unspecified ip then Sinkhole ip
      else classify_ips ips'
  end.

(** What a bounded lookup comes to. *)
Inductive lookup : Type := Resolved (ips : list IpAddr) | LookupError (e : string) | LookupTimeout.
Definition dns_check (host : string) (l : lookup) : Check :=
  let make o d := {| name := "dns"; label := "DNS (" +:+ host +:+ ")"; outcome := o; detail := d |} in
  if bool_decide (is_Some (parse_ip host)) || String.eqb host "localhost" then
    make OutOk (host +:+ " is a literal address — DNS not in play")
  else match l with
       | Resolved ips =>
           match ips with
           | [] => make Fail "resolver returned no addresses"
           | ip0 :: _ =>
               match classify_ips ips with
               | Clean => make OutOk ("resolves to " +:+ show_ip ip0)
               | BlockPage ip => make Fail ("resolves to " +:+ show_ip ip +:+ " (a Cisco Umbrella block IP) — this network is DNS-filtering it")
               | Sinkhole ip => make Fail ("resolves to " +:+ show_ip ip +:+ " — looks sinkholed by a DNS filter")
               end
           end
       | LookupError e => make Fail ("resolution failed: " +:+ e)
       | LookupTimeout => make Fail "resolution timed out"
       end.

(** ** TLS, UDP, HTTPS, the relay *)

(** [extra]: the [--cafile], loaded or refused, if one was given. *)
Definition tls_check (extra : option (error + unit)) (probe : error + TlsReport) : Check :=
  let make o d := {| name := "tls"; label := "TLS (" +:+ TLS_CANARY +:+ ")"; outcome := o; detail := d |} in
  match extra with
  | Some (inl e) => make Fail ("cannot load --cafile: " +:+ error_chain e)
  | _ =>
      match probe with
      | inr r =>
          let inspected := negb (looks_public (leaf_issuer r)) in
          if os_store_verifies r then
            if inspected then
              make Warn ("certificates are re-signed by " +:+ leaf_issuer r +:+ " — this network runs TLS inspection; the OS trust store accepts it, so HTTPS works")
            else make OutOk ("issuer " +:+ leaf_issuer r +:+ " — chain verifies against the OS trust store")
          else make Fail ("issuer " +:+ leaf_issuer r +:+ " is not trusted (" +:+ default "" (os_error r) +:+ ") — add this network's root CA to the OS store, or pass --cafile / set SSL_CERT_FILE")
      | inl e => make Fail ("cannot complete a TLS handshake: " +:+ error_chain e)
      end
  end.

(** [SocketAddr]'s [Display], and [Debug] of a list of them. *)
Definition octets (b : bytes) : list Z := map b2z b.
Fixpoint segments (b : list Z) : list Z :=
  match b with h :: l :: b' => (h * 256 + l) :: segments b' | _ => [] end.
Definition show_socket (a : SocketAddr) : string :=
  match a with
  | Stun.V4 b port => match octets b with
                      | [o1; o2; o3; o4] => show_v4 o1 o2 o3 o4
                      | _ => ""
                      end +:+ ":" +:+ show port
  | Stun.V6 b port => "[" +:+ show_v6 (segments (octets b)) +:+ "]:" +:+ show port
  end.
Fixpoint show_sockets (l : list SocketAddr) : string :=
  match l with
  | [] => ""
  | [a] => show_socket a
  | a :: l' => show_socket a +:+ ", " +:+ show_sockets l'
  end.
Definition stun_check (m : NatMapping) : Check :=
  let make o d := {| name := "stun"; label := "UDP/STUN"; outcome := o; detail := d |} in
  match m with
  | EndpointIndependent a =>
      make OutOk ("UDP egress works; mapped to " +:+ show_socket a +:+ " from every STUN server — endpoint-independent NAT, direct WebRTC viable")
  | OneResponse a =>
      make OutOk ("UDP egress works (mapped to " +:+ show_socket a +:+ "; only one STUN server answered, so NAT mapping is unclassified) — WebRTC likely viable")
  | Symmetric addrs =>
      make Warn ("UDP egress works, but this NAT is symmetric (mapped addresses differ: [" +:+ show_sockets addrs +:+ "]) — direct WebRTC to another NAT'd peer will likely fail; use a TURN relay (--turn) or --tunnel")
  | NoResponse =>
      make Warn "no STUN response — UDP likely blocked (harmless for the tunnel transport; matters for v2 WebRTC)"
  end.

(** A GET of the rendezvous' health page: the client or not, then a status or
    an error. *)
Definition is_success (status : Z) : bool := (200 <=? status) && (status <? 300).
Definition rendezvous_check (url : string) (client : error + unit) (reply : string + Z) : Check :=
  let make o d := {| name := "rendezvous"; label := "rendezvous (" +:+ url +:+ ")"; outcome := o; detail := d |} in
  match client with
  | inl e => make Fail ("cannot build HTTPS client: " +:+ error_chain e)
  | _ =>
      match reply with
      | inr s => if is_success s then make OutOk ("HTTP " +:+ show s +:+ " — reachable")
                 else make Warn ("unexpected HTTP " +:+ show s)
      | inl e => make Fail ("unreachable: " +:+ e)
      end
  end.
(** [bounded]: what [probe] came to, unless the deadline did. *)
Definition relay_check (url : string) (bounded : option (error + unit)) : Check :=
  let make o d := {| name := "relay"; label := "relay (" +:+ url +:+ ")"; outcome := o; detail := d |} in
  match bounded with
  | Some (inr _) => make OutOk "WebSocket connect + ping round-trip OK"
  | Some (inl e) => make Fail (error_chain e)
  | None => make Fail "timed out probing the relay"
  end.

(** ** The verdict *)

Definition failed (n : string) (checks : list Check) : bool :=
  existsb (fun c => String.eqb (name c) n && bool_decide (outcome c = Fail)) checks.
Definition symmetric (checks : list Check) : bool :=
  existsb (fun c => String.eqb (name c) "stun" && bool_decide (outcome c = Warn) && contains "symmetric" (detail c)) checks.
Definition no_blockers : string := "no blockers found — DNS, TLS, and HTTPS reachability look clean".
Definition verdict (checks : list Check) (target : string) : string :=
  if failed "dns" checks then
    "this network blocks " +:+ target +:+ " at the DNS layer — the tunnel transport cannot work here; try `b2p receive --direct` with both machines on the same LAN, or run the receiver on a less restricted network"
  else if failed "tls" checks then
    "TLS verification is failing — if this network runs TLS inspection, add its root CA to the OS trust store, or pass --cafile / set SSL_CERT_FILE"
  else if failed "relay" checks then
    "the relay is unreachable — default transfers cannot proceed; check the URL (b2p relay show) and that the worker is deployed (npx wrangler deploy in relay-worker/)"
  else if failed "rendezvous" checks then
    "HTTPS egress looks restricted (the rendezvous host is unreachable) — transfers may still work if the tunnel host is reachable; otherwise use --direct on a shared LAN"
  else if symmetric checks then
    if existsb (fun c => String.eqb (name c) "relay" && bool_decide (outcome c = OutOk)) checks then
      "this network's NAT is symmetric — direct P2P (--p2p) would likely fail, but the default relay transport is unaffected and reachable; transfers should work"
    else
      "every layer is clean, but this network's NAT is symmetric — direct WebRTC (--p2p) to another NAT'd peer will likely fail. The default relay transport is unaffected (configure one: b2p relay set); for P2P use a TURN relay (--turn), --tunnel, or put both peers on the same LAN"
  else no_blockers.

(** What the network answers to the five checks of [run]; [relay]: the relay
    to probe and what came of it. *)
Record network : Type := {
  net_lookup : lookup; net_cafile : option (error + unit); net_tls : error + TlsReport; net_nat : NatMapping;
  net_client : error + unit; net_health : string + Z; net_relay : option (string * option (error + unit));
}.
Definition run (target_host : option string) (n : network) : DoctorReport :=
  let target := default DEFAULT_TARGET target_host in
  let checks :=
    [dns_check target (net_lookup n); tls_check (net_cafile n) (net_tls n); stun_check (net_nat n);
     rendezvous_check RENDEZVOUS_HEALTH (net_client n) (net_health n)]
    ++ match net_relay n with Some (url, b) => [relay_check url b] | None => [] end in
  {| checks := checks; report_verdict := verdict checks target |}.

(** ** Lemmas *)

(** An answer no honest resolver gives. *)
Definition bad_ip (ip : IpAddr) : bool := umbrella ip || (is_loopback ip || is_unspecified ip).
Lemma classify_ips_spec ips :
  match classify_ips ips with
  | Clean => Forall (fun ip => bad_ip ip = false) ips
  | BlockPage ip => exists pre post, ips = pre ++ ip :: post /\ umbrella ip = true /\ Forall (fun ip => bad_ip ip = false) pre
  | Sinkhole ip => exists pre post, ips = pre ++ ip :: post /\ umbrella ip = false
      /\ is_loopback ip || is_unspecified ip = true /\ Forall (fun ip => bad_ip ip = false) pre
  end.
Proof.
  induction ips as [|ip ips IH]; [by constructor|]. cbn [classify_ips].
  destruct (umbrella ip) eqn:Eu; [by exists [], ips|].
  destruct (is_loopback ip || is_unspecified ip) eqn:El; [by exists [], ips|].
  assert (Hb : bad_ip ip = false) by (unfold bad_ip; by rewrite Eu, El).
  destruct (classify_ips ips).
  - by constructor.
  - destruct IH as (pre & post & -> & ? & ?). exists (ip :: pre), post. split_and!; [done|done|by constructor].
  - destruct IH as (pre & post & -> & ? & ? & ?). exists (ip :: pre), post. split_and!; [done|done|done|by constructor].
Qed.

(** The network's answers that fail each check. *)
Definition dns_fine (target : string) (l : lookup) : Prop :=
  is_Some (parse_ip target) \/ target = "localhost"
  \/ exists ips, l = Resolved ips /\ ips <> [] /\ Forall (fun ip => bad_ip ip = false) ips.
Definition tls_fine (cafile : option (error + unit)) (r : error + TlsReport) : Prop :=
  match cafile with Some (inl _) => False | _ => exists t, r = inr t /\ os_store_verifies t = true end.
Definition relay_fine (r : option (string * option (error + unit))) : Prop :=
  match r with Some (_, b) => b = Some (inr tt) | None => True end.
Definition rendezvous_fine (client : error + unit) (reply : string + Z) : Prop :=
  match client with inl _ => False | inr _ => exists s, reply = inr s end.

Lemma dns_check_fails target l : outcome (dns_check target l) = Fail <-> ~ dns_fine target l.
Proof.
  unfold dns_check, dns_fine. destruct (bool_decide_reflect (is_Some (parse_ip target))) as [Hp|Hp]; cbn [orb outcome].
  { split; [done|]. intros []. by left. }
  destruct (String.eqb_spec target "localhost") as [Hl|Hl]; cbn [outcome].
  { split; [done|]. intros []. right. by left. }
  destruct l as [ips|e|]; cbn; [|split; [|done]; intros _ [?|[?|(? & ? & _)]]; done..].
  pose proof (classify_ips_spec ips) as Hc. destruct ips as [|ip0 ips].
  { split; [|done]. intros _ [?|[?|(? & [= <-] & ? & _)]]; done. }
  destruct (classify_ips (ip0 :: ips)) as [|ip|ip]; cbn; split; try done.
  - intros []. right. right. eexists. split; [done|]. split; [done|done].
  - intros _ [?|[?|(? & [= <-] & _ & Hf)]]; [done..|]. destruct Hc as (pre & post & E & Hu & _). rewrite E in Hf.
    apply Forall_app in Hf as [_ Hf]. apply Forall_cons in Hf as [Hf _]. unfold bad_ip in Hf. by rewrite Hu in Hf.
  - intros _ [?|[?|(? & [= <-] & _ & Hf)]]; [done..|]. destruct Hc as (pre & post & E & Hu & Hb & _). rewrite E in Hf.
    apply Forall_app in Hf as [_ Hf]. apply Forall_cons in Hf as [Hf _]. unfold bad_ip in Hf. by rewrite Hu, Hb in Hf.
Qed.
Lemma tls_check_fails c r : outcome (tls_check c r) = Fail <-> ~ tls_fine c r.
Proof.
  assert (H : forall r, outcome (tls_check None r) = Fail <-> ~ exists t, r = inr t /\ os_store_verifies t = true).
  { intros r'. unfold tls_check. destruct r' as [e|t]; [by split; [intros _ (? & ? & _)|]|].
    destruct (os_store_verifies t) eqn:E; cbn.
    - destruct (negb _); (split; [done|]); intros []; by exists t.
    - split; [|done]. intros _ (? & [= <-] & E'). congruence. }
  unfold tls_fine. destruct c as [[e|[]]|]; [|apply H..]. split; [by intros _ []|done].
Qed.
Lemma relay_check_fails url b : outcome (relay_check url b) = Fail <-> b <> Some (inr tt).
Proof. unfold relay_check. by destruct b as [[e|[]]|]. Qed.
Lemma rendezvous_check_fails url c r : outcome (rendezvous_check url c r) = Fail <-> ~ rendezvous_fine c r.
Proof.
  unfold rendezvous_fine. destruct c as [e|[]]; [split; [by intros _ []|done]|].
  destruct r as [e|s]; cbn; [by split; [intros _ (? & ?)|]|]. destruct (is_success s); (split; [done|]); intros []; by exists s.
Qed.
Lemma stun_symmetric m :
  outcome (stun_check m) = Warn /\ contains "symmetric" (detail (stun_check m)) = true <-> exists l, m = Symmetric l.
Proof.
  destruct m as [a|l|a|]; cbn [stun_check outcome detail].
  - split; [by intros []|by intros []].
  - split; [by exists l|]. intros _. split; [done|].
    apply (contains_app "symmetric" "UDP egress works, but this NAT is ").
  - split; [by intros []|by intros []].
  - split; [|by intros []]. intros [_ E]. vm_compute in E. discriminate.
Qed.

(** The name of each check is fixed. *)
Lemma dns_check_name t l : name (dns_check t l) = "dns".
Proof. unfold dns_check. by repeat case_match. Qed.
Lemma tls_check_name c r : name (tls_check c r) = "tls".
Proof. unfold tls_check. by repeat case_match. Qed.
Lemma stun_check_name m : name (stun_check m) = "stun".
Proof. by destruct m. Qed.
Lemma rendezvous_check_name u c r : name (rendezvous_check u c r) = "rendezvous".
Proof. unfold rendezvous_check. by repeat case_match. Qed.
Lemma relay_check_name u b : name (relay_check u b) = "relay".
Proof. unfold relay_check. by repeat case_match. Qed.

Lemma verdict_clear checks target :
  verdict checks target = no_blockers <->
  failed "dns" checks = false /\ failed "tls" checks = false /\ failed "relay" checks = false
  /\ failed "rendezvous" checks = false /\ symmetric checks = false.
Proof.
  unfold verdict. split.
  - destruct (failed "dns" checks); [discriminate|]. destruct (failed "tls" checks); [discriminate|].
    destruct (failed "relay" checks); [discriminate|]. destruct (failed "rendezvous" checks); [discriminate|].
    destruct (symmetric checks); [|done]. destruct (existsb _ _); discriminate.
  - by intros (-> & -> & -> & -> & ->).
Qed.
(** Which check of a run each clause of the verdict reads. *)
Lemma run_clauses target n :
  let cs := checks (run target n) in
  let t := default DEFAULT_TARGET target in
  failed "dns" cs = bool_decide (outcome (dns_check t (net_lookup n)) = Fail)
  /\ failed "tls" cs = bool_decide (outcome (tls_check (net_cafile n) (net_tls n)) = Fail)
  /\ failed "relay" cs = match net_relay n with
                         | Some (u, b) => bool_decide (outcome (relay_check u b) = Fail) | None => false end
  /\ failed "rendezvous" cs
     = bool_decide (outcome (rendezvous_check RENDEZVOUS_HEALTH (net_client n) (net_health n)) = Fail)
  /\ symmetric cs = bool_decide (outcome (stun_check (net_nat n)) = Warn)
                    && contains "symmetric" (detail (stun_check (net_nat n))).
Proof.
  unfold run, failed, symmetric. cbn [checks app existsb].
  rewrite dns_check_name, tls_check_name, stun_check_name, rendezvous_check_name.
  destruct (net_relay n) as [[u b]|]; cbn [existsb]; rewrite ?relay_check_name;
    cbn [String.eqb Ascii.eqb Bool.eqb andb orb]; rewrite ?orb_false_r; done.
Qed.

(** The answers that fail a check are decided by it. *)
#[export] Instance dns_fine_dec t l : Decision (dns_fine t l).
Proof.
  destruct (decide (is_Some (parse_ip t))) as [?|H1]; [by left; left|].
  destruct (decide (t = "localhost")) as [?|H2]; [by left; right; left|].
  destruct l as [ips|e|]; [|right; intros [?|[?|(? & ? & _)]]; done..].
  destruct (decide (ips <> [] /\ Forall (fun ip => bad_ip ip = false) ips)) as [H3|H3].
  - left. right. right. by exists ips.
  - right. intros [?|[?|(? & [= <-] & ?)]]; done.
Defined.
#[export] Instance tls_fine_dec c r : Decision (tls_fine c r).
Proof.
  assert (D : Decision (exists t, r = inr t /\ os_store_verifies t = true)).
  { destruct r as [e|t]; [right; by intros (? & ? & _)|].
    destruct (os_store_verifies t) eqn:E; [left; by exists t|right]. intros (? & [= <-] & ?). congruence. }
  unfold tls_fine. destruct c as [[]|]; [right; by intros []|exact D|exact D].
Defined.
#[export] Instance rendezvous_fine_dec c r : Decision (rendezvous_fine c r).
Proof.
  assert (D : Decision (exists s : Z, r = inr s)).
  { destruct r as [e|s]; [right; by intros (? & ?)|left; by exists s]. }
  unfold rendezvous_fine. destruct c; [right; by intros []|exact D].
Defined.
Lemma fails_iff {P : Prop} `{!Decision P} (o : Outcome) :
  (o = Fail <-> ~ P) -> (bool_decide (o = Fail) = false <-> P).
Proof.
  intros H. rewrite bool_decide_eq_false, H. split; [apply dec_stable|tauto].
Qed.

(** C40: The doctor's all-clear. The verdict of a run is "no blockers" exactly
    when the network answered well to every check that can block: the target
    is localhost or a literal address, or resolves to addresses no filter answers with;
    the --cafile, if given, loads and the canary's chain verifies against the
    OS trust store; the relay, if one was named, took the connection and the
    ping; the rendezvous host answered HTTP; and the NAT is not known to be
    symmetric. *)
Theorem all_clear_means target n :
  report_verdict (run target n) = no_blockers <->
  dns_fine (default DEFAULT_TARGET target) (net_lookup n)
  /\ tls_fine (net_cafile n) (net_tls n)
  /\ relay_fine (net_relay n)
  /\ rendezvous_fine (net_client n) (net_health n)
  /\ ~ (exists l, net_nat n = Symmetric l).
Proof.
  change (report_verdict (run target n)) with (verdict (checks (run target n)) (default DEFAULT_TARGET target)).
  rewrite verdict_clear. destruct (run_clauses target n) as (-> & -> & -> & -> & ->).
  rewrite <- stun_symmetric, !(fails_iff _ (dns_check_fails _ _)), (fails_iff _ (tls_check_fails _ _)),
    (fails_iff _ (rendezvous_check_fails _ _ _)), andb_false_iff, bool_decide_eq_false.
  assert (Hr : match net_relay n with Some (u, b) => bool_decide (outcome (relay_check u b) = Fail)
               | None => false end = false <-> relay_fine (net_relay n)).
  { unfold relay_fine. destruct (net_relay n) as [[u b]|]; [|done].
    rewrite bool_decide_eq_false, relay_check_fails. destruct b as [[e|[]]|]; intuition congruence. }
  rewrite Hr. destruct (contains "symmetric" (detail (stun_check (net_nat n)))); intuition congruence.
Qed.
