(* ===== verification/Diagnose.v ===== *)
(** * Diagnostics on failure: who runs the doctor, and about what

    [connect_failed] and [connect_failed_relay] of src/main.rs,
    [connect_failure] of src/send.rs and the [doctor] command build the
    arguments of [doctor::run]. *)

From S2P Require Import Prelude Str Libs Fs Crypto Protocol Store Archive Ip Stun TlsProbe Config Code Send Main Doctor.

Record DoctorArgs : Type := {
  target_host : option string; da_cafile : option path; da_relay : option string; da_relay_token : option string;
}.

(** What the machine and its network answer: a lookup by host, a [--cafile]
    by path, and what is made of the checks with that file's roots; a relay
    by URL and token. *)
Record world : Type := {
  w_lookup : string -> lookup; w_cafile : path -> error + unit; w_tls : option path -> error + TlsReport;
  w_nat : NatMapping; w_client : option path -> error + unit; w_health : option path -> string + Z;
  w_relay : string -> option string -> option path -> option (error + unit);
}.

(** [doctor::run] on its arguments. *)
Definition doctor_run (args : DoctorArgs) (w : world) : DoctorReport :=
  Doctor.run (target_host args)
    {| net_lookup := w_lookup w (default DEFAULT_TARGET (target_host args));
       net_cafile := w_cafile w <$> da_cafile args;
       net_tls := w_tls w (da_cafile args);
       net_nat := w_nat w;
       net_client := w_client w (da_cafile args);
       net_health := w_health w (da_cafile args);
       net_relay := (fun url => (url, w_relay w url (da_relay_token args) (da_cafile args))) <$> da_relay args |}.

(** The report that is printed, and the error returned in the place of the
    failure. *)
Definition connect_failed_relay (relay : RelayCfg) (cafile : option path) (w : world) : DoctorReport * error :=
  (doctor_run {| target_host := None; da_cafile := cafile; da_relay := Some (url relay);
                 da_relay_token := token relay |} w, no_connection).
Definition connect_failed `{UrlCrate} (rendezvous_base : string) (cafile : option path) (w : world) : DoctorReport * error :=
  let host := url_parse rendezvous_base ≫= host_str in
  (doctor_run {| target_host := host; da_cafile := cafile; da_relay := None; da_relay_token := None |} w, no_connection).

(** What [connect_failure] prints of a failed first request: the layer, the
    hint, and the doctor's report when it runs. *)
Definition error_chain_text (e : string) (sources : list string) : string :=
  fold_left (fun s inner => (s +:+ ": ") +:+ inner) sources e.
Definition layer_hint (l : FailLayer) (host : string) : string :=
  match l with
  | Dns => "this network may be filtering " +:+ host +:+ " — see the diagnosis below"
  | Tls => "if this network intercepts TLS, add its root CA to the OS store or pass --cafile"
  | Connect => "the receiver may be gone (re-run `b2p receive`), or the network blocks this host"
  | Other => "unexpected failure"
  end.
Definition connect_failure_report (host : option string) (chain : string) (cafile : option path) (w : world)
    : string * string * option DoctorReport :=
  let h := default "<no host>" host in
  let l := classify_error_text chain in
  (layer_name l +:+ " layer failed reaching " +:+ h +:+ ": " +:+ chain, "hint: " +:+ layer_hint l h,
   if ran_doctor l then
     Some (doctor_run {| target_host := Some h; da_cafile := cafile; da_relay := None; da_relay_token := None |} w)
   else None).

(** ** Properties *)

Definition relay_unreachable : string :=
  "the relay is unreachable — default transfers cannot proceed; check the URL (b2p relay show) and that the worker is deployed (npx wrangler deploy in relay-worker/)".

(** The report of a failed relay connection probes that relay, with its
    token, and the verdict is that the relay is unreachable exactly when the
    probe fails, the tunnel's domain resolves and TLS works. *)
Theorem relay_failure_report relay cafile w :
  let r := fst (connect_failed_relay relay cafile w) in
  let probe := w_relay w (url relay) (token relay) cafile in
  last (checks r) = Some (relay_check (url relay) probe)
  /\ (report_verdict r = relay_unreachable <->
      probe <> Some (inr tt) /\ dns_fine DEFAULT_TARGET (w_lookup w DEFAULT_TARGET)
      /\ tls_fine (w_cafile w <$> cafile) (w_tls w cafile)).
Proof.
  intros r probe. split; [done|].
  unfold r, connect_failed_relay, doctor_run. cbn [fst target_host da_cafile da_relay da_relay_token default fmap option_fmap option_map].
  set (net := {| net_lookup := _ |}).
  change (report_verdict (Doctor.run None net)) with (Doctor.verdict (checks (Doctor.run None net)) DEFAULT_TARGET).
  destruct (run_clauses None net) as (Ed & Et & Er & _). cbn [net_relay net] in Er.
  assert (Hd : failed "dns" (checks (Doctor.run None net)) = false <-> dns_fine DEFAULT_TARGET (w_lookup w DEFAULT_TARGET))
    by (rewrite Ed; apply (fails_iff _ (dns_check_fails _ _))).
  assert (Ht : failed "tls" (checks (Doctor.run None net)) = false <-> tls_fine (w_cafile w <$> cafile) (w_tls w cafile))
    by (rewrite Et; apply (fails_iff _ (tls_check_fails _ _))).
  assert (Hr : failed "relay" (checks (Doctor.run None net)) = true <-> probe <> Some (inr tt))
    by (rewrite Er, bool_decide_eq_true; apply relay_check_fails).
  rewrite <- Hd, <- Ht, <- Hr. unfold Doctor.verdict, relay_unreachable.
  destruct (failed "dns" _); [split; [discriminate|by intros (_ & ? & _)]|].
  destruct (failed "tls" _); [split; [discriminate|by intros (_ & _ & ?)]|].
  destruct (failed "relay" _); [done|]. split; [|by intros (? & _)].
  destruct (failed "rendezvous" _); [discriminate|]. destruct (symmetric _); [|discriminate]. destruct (existsb _ _); discriminate.
Qed.

(** So the verdict need not name the blocker: where a filter answers for the
    tunnel's domain, a failed relay connection, whatever failed it, is
    reported as that domain being blocked. *)
Theorem relay_failure_blames_tunnel relay cafile w :
  ~ dns_fine DEFAULT_TARGET (w_lookup w DEFAULT_TARGET) ->
  report_verdict (fst (connect_failed_relay relay cafile w)) =
    "this network blocks " +:+ DEFAULT_TARGET +:+ " at the DNS layer — the tunnel transport cannot work here; try `b2p receive --direct` with both machines on the same LAN, or run the receiver on a less restricted network".
Proof.
  intros Hn. unfold connect_failed_relay, doctor_run. cbn [fst target_host da_cafile da_relay da_relay_token default fmap option_fmap option_map].
  set (net := {| net_lookup := _ |}).
  change (report_verdict (Doctor.run None net)) with (Doctor.verdict (checks (Doctor.run None net)) DEFAULT_TARGET).
  destruct (run_clauses None net) as (Ed & _). unfold Doctor.verdict. rewrite Ed. cbn [net_lookup net default].
  by rewrite (proj2 (bool_decide_eq_true _) (proj2 (dns_check_fails _ _) Hn)).
Qed.
Lemma relay_failure_blames_tunnel_witness :
  exists v, report_verdict (fst (connect_failed_relay {| Config.url := "wss://r.example"; Config.token := None |} None
    {| w_lookup _ := LookupError "refused"; w_cafile _ := inr tt; w_tls _ := inl EElapsed; w_nat := NoResponse;
       w_client _ := inr tt; w_health _ := inr 200; w_relay _ _ _ := None |})) = "this network blocks " +:+ DEFAULT_TARGET +:+ v.
Proof.
  eexists. apply relay_failure_blames_tunnel. intros [H|[H|(ips & H & _)]]; [|discriminate..].
  assert (E : parse_ip DEFAULT_TARGET = None) by (vm_compute; reflexivity). rewrite E in H. by destruct H.
Defined.

(** The doctor runs on a failed first request unless no layer can be told,
    and then about the host that was not reached; the returned error says
    whether it ran. *)
Theorem failed_request_report host e sources cafile w :
  let chain := error_chain_text e sources in
  let l := classify_error_text chain in
  let '(_, _, report) := connect_failure_report (Some host) chain cafile w in
  connect_failure (Some host) chain = EMsg (failure_summary (layer_name l) host (ran_doctor l))
  /\ (report = None <-> l = Other)
  /\ forall r, report = Some r -> (checks r !! 0%nat) = Some (dns_check host (w_lookup w host)).
Proof.
  intros chain l. unfold connect_failure_report, connect_failure. cbn [default]. fold l.
  destruct l; cbn; (split; [done|]; split; [done|]; intros r Hr; by simplify_eq).
Qed.
