(* ===== verification/Topic.v ===== *)
(** * Two ends over one rendezvous topic

    The topic of src/rendezvous/mod.rs as the key exchange of
    src/handshake.rs meets it: every frame published reaches every
    subscriber, the publisher included; strangers publish too, and a frame may
    reach a subscriber again. The exchange ends all the same, both ends with
    the same key; and from it a peer-to-peer session of src/session.rs
    delivers. *)

From Stdlib Require Import FunctionalExtensionality.
From S2P Require Import Prelude Str Libs Fs Crypto Protocol Store Archive Pake Channel.
From S2P Require Import Send Stream Transfer Safety Handshake Session.

(** ** The topic *)

Section topic.
Context {A B : Type}.

(** Two subscribers and what each has yet to read; the frames posted so far,
    of which [again] may still be delivered a second time; and the frames
    strangers are going to post. *)
Record topic : Type := Topic {
  left_end : proc A;
  right_end : proc B;
  left_unread : list bytes;
  right_unread : list bytes;
  posted : list bytes;
  again : nat;
  strangers : list bytes;
}.

Inductive tstep : topic -> topic -> Prop :=
| left_publishes m k r ul ur ps n sl :
    tstep (Topic (Send m k) r ul ur ps n sl) (Topic (k (Ok tt)) r (ul ++ [m]) (ur ++ [m]) (ps ++ [m]) n sl)
| right_publishes m k l ul ur ps n sl :
    tstep (Topic l (Send m k) ul ur ps n sl) (Topic l (k (Ok tt)) (ul ++ [m]) (ur ++ [m]) (ps ++ [m]) n sl)
| left_reads m k r ul ur ps n sl :
    tstep (Topic (Recv k) r (m :: ul) ur ps n sl) (Topic (k (Ok m)) r ul ur ps n sl)
| right_reads m k l ul ur ps n sl :
    tstep (Topic l (Recv k) ul (m :: ur) ps n sl) (Topic l (k (Ok m)) ul ur ps n sl)
| stranger_publishes m l r ul ur ps n sl :
    tstep (Topic l r ul ur ps n (m :: sl)) (Topic l r (ul ++ [m]) (ur ++ [m]) (ps ++ [m]) n sl)
| left_hears_again m l r ul ur ps n sl :
    m ∈ ps -> tstep (Topic l r ul ur ps (S n) sl) (Topic l r (ul ++ [m]) ur ps n sl)
| right_hears_again m l r ul ur ps n sl :
    m ∈ ps -> tstep (Topic l r ul ur ps (S n) sl) (Topic l r ul (ur ++ [m]) ps n sl).
End topic.
Arguments topic : clear implicits.
Arguments Topic {A B}.

(** ** The exchange as a script

    Publish a frame, read until the peer's first frame, publish another, read
    until the peer's second. *)

(** A frame of the exchange, from this role. *)
Definition ours (from : Role) (m : bytes) : bool :=
  match decode_frame m with
  | Some (k, r, _) => ((k =? KIND_PAKE) || (k =? KIND_CONFIRM)) && (r =? role_byte from)
  | None => false
  end.
Definition noise (m : bytes) : Prop := forall r, ours r m = false.

(** The states of a script: [st 0], about to publish [m0]; [st 1 f], reading
    for [t0], [f] frames at most; [st 2]; [st 3 f]; [st 4], over. *)
Record script {A} (from : Role) (F : nat) (m0 m1 t0 t1 : bytes) (a : A) (st : nat -> nat -> proc A) : Prop := {
  script_send0 : forall f, exists k, st 0%nat f = Send m0 k /\ k (Ok tt) = st 1%nat F;
  script_read0 : forall f, exists k, st 1%nat (S f) = Recv k /\ k (Ok t0) = st 2%nat 0%nat
    /\ forall m, ours from m = false -> k (Ok m) = st 1%nat f;
  script_send1 : forall f, exists k, st 2%nat f = Send m1 k /\ k (Ok tt) = st 3%nat F;
  script_read1 : forall f, exists k, st 3%nat (S f) = Recv k /\ k (Ok t1) = st 4%nat 0%nat /\ k (Ok t0) = st 3%nat f
    /\ forall m, ours from m = false -> k (Ok m) = st 3%nat f;
  script_over : forall f, st 4%nat f = Done a;
}.

(** How many frames an end in a state has published, and heard of its peer. *)
Definition sent (p : nat) : nat := (match p with 0 => 0 | 1 | 2 => 1 | _ => 2 end)%nat.
Definition heard (p : nat) : nat := (match p with 0 | 1 => 0 | 2 | 3 => 1 | _ => 2 end)%nat.

Section side.
Context {A : Type} (from : Role) (F : nat) (m0 m1 t0 t1 : bytes) (a : A) (st : nat -> nat -> proc A).
Hypothesis Hst : script from F m0 m1 t0 t1 a st.
Hypothesis Ht0 : ours from t0 = true.
Hypothesis Ht1 : ours from t1 = true.

(** What the unread frames of the peer must still hold, when [h] were heard
    and [s] sent. *)
Definition owed (h s : nat) (l : list bytes) : Prop :=
  match h, s with
  | O, O => l = []
  | O, S O => exists l', l = t0 :: l' /\ Forall (.∈ [t0]) l'
  | O, _ => exists l', l = t0 :: l' /\ t1 ∈ l' /\ Forall (.∈ [t0; t1]) l'
  | S O, O => False
  | S O, S O => Forall (.∈ [t0]) l
  | S O, _ => t1 ∈ l /\ Forall (.∈ [t0; t1]) l
  | _, _ => True
  end.
(** An end in state [p]; its peer has sent [s] frames; at most [b] more frames
    will come. *)
Definition side (p f s b : nat) (x : proc A) (unread : list bytes) : Prop :=
  (p <= 4)%nat /\ x = st p f /\ owed (heard p) s (filter (fun m => ours from m = true) unread)
  /\ (p = 1 \/ p = 3 -> length unread + b < f)%nat.

Lemma filter_ours_app u m : filter (fun m => ours from m = true) (u ++ [m])
  = filter (fun m => ours from m = true) u ++ (if ours from m then [m] else []).
Proof.
  rewrite filter_app, filter_cons, filter_nil. by destruct (ours from m); case_decide.
Qed.
Lemma side_other p f s b b' x u m : side p f s b x u -> ours from m = false -> (S b' <= b)%nat -> side p f s b' x (u ++ [m]).
Proof.
  intros (H1 & H2 & H3 & H4) Hm Hb. split_and!; [done|done| |].
  - by rewrite filter_ours_app, Hm, app_nil_r.
  - intros Hp. specialize (H4 Hp). rewrite length_app. simpl. lia.
Qed.
Lemma Forall_snoc_in (l s : list bytes) (m : bytes) : Forall (.∈ s) l -> m ∈ s -> Forall (.∈ s) (l ++ [m]).
Proof. intros Hl Hm. apply Forall_app. by split; [|apply Forall_singleton]. Qed.
Lemma Forall_snoc_new (l : list bytes) (x y : bytes) : Forall (.∈ [x]) l ->
  y ∈ l ++ [y] /\ Forall (.∈ [x; y]) (l ++ [y]).
Proof.
  intros Hl. split; [apply elem_of_app; right; by apply list_elem_of_singleton|].
  apply Forall_snoc_in; [|right; by apply list_elem_of_singleton]. eapply Forall_impl; [exact Hl|].
  intros z ->%list_elem_of_singleton. by left.
Qed.
Lemma owed_again h s l m : owed h s l -> m ∈ take s [t0; t1] -> owed h s (l ++ [m]).
Proof.
  intros Ho Hm. destruct h as [|[|h]], s as [|[|s]]; simpl in *; try done; try by apply elem_of_nil in Hm.
  - destruct Ho as (l' & -> & Hl). exists (l' ++ [m]). split; [done|]. by apply Forall_snoc_in.
  - rewrite take_nil in Hm. destruct Ho as (l' & -> & Hin & Hl). exists (l' ++ [m]). split; [done|].
    split; [apply elem_of_app; by left|by apply Forall_snoc_in].
  - by apply Forall_snoc_in.
  - rewrite take_nil in Hm. destruct Ho as (Hin & Hl). split; [apply elem_of_app; by left|by apply Forall_snoc_in].
Qed.
Lemma ours_in_take s m : m ∈ take s [t0; t1] -> ours from m = true.
Proof.
  intros Hm. assert (Hm' : m ∈ [t0; t1]) by (eapply elem_of_prefix; [exact Hm|apply prefix_take]).
  by repeat (apply elem_of_cons in Hm' as [->|Hm']); [..|apply elem_of_nil in Hm'].
Qed.
Lemma side_again p f s b b' x u m : side p f s b x u -> m ∈ take s [t0; t1] -> (S b' <= b)%nat ->
  side p f s b' x (u ++ [m]).
Proof.
  intros (H1 & H2 & H3 & H4) Hm Hb. split_and!; [done|done| |].
  - rewrite filter_ours_app, (ours_in_take s m Hm). by apply owed_again.
  - intros Hp. specialize (H4 Hp). rewrite length_app. simpl. lia.
Qed.
(** The peer's next frame comes in. *)
Lemma owed_next h s l : (s < 2)%nat -> owed h s l ->
  owed h (S s) (l ++ [match s with O => t0 | _ => t1 end]).
Proof.
  intros Hs Ho. destruct h as [|[|h]], s as [|[|s]]; simpl in *; try done; try lia.
  - subst l. by exists [].
  - destruct Ho as (l' & -> & Hl). exists (l' ++ [t1]). split; [done|]. by apply Forall_snoc_new.
  - by apply Forall_snoc_new.
Qed.
Lemma side_next p f s b b' x u : side p f s b x u -> (s < 2)%nat -> (S b' <= b)%nat ->
  side p f (S s) b' x (u ++ [match s with O => t0 | _ => t1 end]).
Proof.
  intros (H1 & H2 & H3 & H4) Hs Hb. split_and!; [done|done| |].
  - rewrite filter_ours_app. replace (ours from _) with true by (by destruct s). by apply owed_next.
  - intros Hp. specialize (H4 Hp). rewrite length_app. simpl. lia.
Qed.
Lemma side_weaken p f s b b' x u : side p f s b x u -> (b' <= b)%nat -> side p f s b' x u.
Proof. intros (H1 & H2 & H3 & H4) Hb. split_and!; try done. intros Hp. specialize (H4 Hp). lia. Qed.

(** An end publishes. *)
Lemma side_sends p f s b u m k : side p f s b (Send m k) u -> (length u + b < F)%nat ->
  (sent p < 2)%nat /\ m = match sent p with O => m0 | _ => m1 end
  /\ sent (S p) = S (sent p) /\ side (S p) F s b (k (Ok tt)) u.
Proof.
  intros (H1 & H2 & H3 & H4) HF.
  destruct p as [|[|[|[|[|p]]]]]; [| | | | |lia].
  - destruct (script_send0 _ _ _ _ _ _ _ _ Hst f) as (k' & E & Ek). rewrite E in H2. injection H2 as -> ->.
    split_and!; [simpl; lia|done|done|]. rewrite Ek. by split_and!; [lia|..].
  - destruct f as [|f]; [specialize (H4 (or_introl eq_refl)); lia|].
    destruct (script_read0 _ _ _ _ _ _ _ _ Hst f) as (k' & E & _). by rewrite E in H2.
  - destruct (script_send1 _ _ _ _ _ _ _ _ Hst f) as (k' & E & Ek). rewrite E in H2. injection H2 as -> ->.
    split_and!; [simpl; lia|done|done|]. rewrite Ek. by split_and!; [lia|..].
  - destruct f as [|f]; [specialize (H4 (or_intror eq_refl)); lia|].
    destruct (script_read1 _ _ _ _ _ _ _ _ Hst f) as (k' & E & _). by rewrite E in H2.
  - by rewrite (script_over _ _ _ _ _ _ _ _ Hst) in H2.
Qed.
Lemma owed_head_in h s l m : owed h s (m :: l) -> (h < 2)%nat -> m = t0 \/ h = 1%nat /\ m = t1 /\ (2 <= s)%nat.
Proof.
  intros Ho Hh. destruct h as [|[|h]]; [| |lia]; destruct s as [|[|s]]; simpl in Ho; try done.
  - destruct Ho as (l' & [= -> _] & _). by left.
  - destruct Ho as (l' & [= -> _] & _). by left.
  - apply Forall_cons in Ho as [Hm _]. apply list_elem_of_singleton in Hm. by left.
  - destruct Ho as [_ [Hm _]%Forall_cons].
    apply elem_of_cons in Hm as [->|Hm%list_elem_of_singleton]; [by left|right; subst; split_and!; [done..|lia]].
Qed.
(** An end reads. *)
Lemma side_reads p f s b u m k : t0 <> t1 -> side p f s b (Recv k) (m :: u) -> (length u + b < F)%nat ->
  exists p' f', sent p' = sent p /\ side p' f' s b (k (Ok m)) u.
Proof.
  intros Hne (H1 & H2 & H3 & H4) HF.
  destruct p as [|[|[|[|[|p]]]]]; [| | | | |lia].
  - destruct (script_send0 _ _ _ _ _ _ _ _ Hst f) as (k' & E & _). by rewrite E in H2.
  - specialize (H4 (or_introl eq_refl)). simpl in H4. destruct f as [|f]; [lia|].
    destruct (script_read0 _ _ _ _ _ _ _ _ Hst f) as (k' & E & E0 & Es). rewrite E in H2. injection H2 as ->.
    rewrite filter_cons in H3. case_decide as Hm.
    + cbn [heard] in H3. destruct (owed_head_in _ _ _ _ H3) as [->|[? _]]; [lia| |done].
      exists 2%nat, 0%nat. split; [done|]. rewrite E0. split_and!; [lia|done| |lia].
      destruct s as [|[|s]]; simpl in H3 |- *; [done| |]; destruct H3 as (l' & [= ->] & H3); done.
    + apply not_true_is_false in Hm. exists 1%nat, f. split; [done|]. rewrite Es by done.
      split_and!; [lia|done|done|lia].
  - destruct (script_send1 _ _ _ _ _ _ _ _ Hst f) as (k' & E & _). by rewrite E in H2.
  - specialize (H4 (or_intror eq_refl)). simpl in H4. destruct f as [|f]; [lia|].
    destruct (script_read1 _ _ _ _ _ _ _ _ Hst f) as (k' & E & E1 & E0 & Es). rewrite E in H2. injection H2 as ->.
    rewrite filter_cons in H3. case_decide as Hm.
    + cbn [heard] in H3. destruct (owed_head_in _ _ _ _ H3) as [->|(_ & -> & Hs)]; [lia| |].
      * exists 3%nat, f. split; [done|]. rewrite E0. split_and!; [lia|done| |lia].
        destruct s as [|[|s]]; simpl in H3 |- *; [done| |].
        -- by apply Forall_cons in H3 as [_ H3].
        -- destruct H3 as [Hin [_ H3]%Forall_cons]. split; [|done].
           apply elem_of_cons in Hin as [->|Hin]; [done|exact Hin].
      * exists 4%nat, 0%nat. split; [done|]. rewrite E1. split_and!; [lia|done|done|lia].
    + apply not_true_is_false in Hm. exists 3%nat, f. split; [done|]. rewrite Es by done.
      split_and!; [lia|done|done|lia].
  - by rewrite (script_over _ _ _ _ _ _ _ _ Hst) in H2.
Qed.

(** What an end can do: publish, read, or it waits, or is over. *)
Lemma side_can p f s b x u : side p f s b x u ->
  (exists m k, x = Send m k) \/ (exists k m u', x = Recv k /\ u = m :: u')
  \/ (exists k, x = Recv k) /\ u = [] /\ (p = 1 /\ s = 0 \/ p = 3 /\ s = 1)%nat \/ x = Done a /\ p = 4%nat.
Proof.
  intros (H1 & -> & H3 & H4). destruct p as [|[|[|[|[|p]]]]]; [| | | | |lia].
  - destruct (script_send0 _ _ _ _ _ _ _ _ Hst f) as (k' & E & _). left. eauto.
  - specialize (H4 (or_introl eq_refl)). destruct f as [|f]; [lia|].
    destruct (script_read0 _ _ _ _ _ _ _ _ Hst f) as (k' & E & _). right.
    destruct u as [|m u]; [right; left|left; eauto]. split; [eauto|]. split; [done|].
    left. split; [done|]. destruct s as [|[|s]]; [done|..]; by destruct H3 as (? & ? & _).
  - destruct (script_send1 _ _ _ _ _ _ _ _ Hst f) as (k' & E & _). left. eauto.
  - specialize (H4 (or_intror eq_refl)). destruct f as [|f]; [lia|].
    destruct (script_read1 _ _ _ _ _ _ _ _ Hst f) as (k' & E & _). right.
    destruct u as [|m u]; [right; left|left; eauto]. split; [eauto|]. split; [done|].
    right. split; [done|]. destruct s as [|[|s]]; [done..|]. destruct H3 as [Hin _]. by apply elem_of_nil in Hin.
  - right. right. right. by rewrite (script_over _ _ _ _ _ _ _ _ Hst).
Qed.
End side.

(** ** Two scripts over a topic *)

Section meeting.
Context {A B : Type} (F : nat) (x0 x1 y0 y1 : bytes) (a : A) (b : B) (stl : nat -> nat -> proc A) (str : nat -> nat -> proc B).
Hypothesis Hl : script Sender F x0 x1 y0 y1 a stl.
Hypothesis Hr : script Receiver F y0 y1 x0 x1 b str.
Hypothesis Hx0 : ours Receiver x0 = true.
Hypothesis Hx1 : ours Receiver x1 = true.
Hypothesis Hy0 : ours Sender y0 = true.
Hypothesis Hy1 : ours Sender y1 = true.
Hypothesis Hx : x0 <> x1.
Hypothesis Hy : y0 <> y1.

Lemma ours_one m r r' : ours r m = true -> ours r' m = true -> r = r'.
Proof.
  unfold ours. destruct (decode_frame m) as [[[k q] p]|]; [|done].
  rewrite !andb_true_iff, !Z.eqb_eq. intros [_ ->] [_ E]. by apply role_byte_inj.
Qed.
Lemma ours_not m r r' : ours r m = true -> r <> r' -> ours r' m = false.
Proof. intros H1 Hne. apply not_true_is_false. intros H2. apply Hne. by eapply ours_one. Qed.

(** The frames still to come, beside those unread. *)
Definition coming (pl pr n : nat) (sl : list bytes) : nat := ((2 - sent pl) + (2 - sent pr) + length sl + n)%nat.
(** A step less is possible each time. *)
Definition left_over (pl pr : nat) (c : topic A B) : nat :=
  (3 * ((2 - sent pl) + (2 - sent pr) + length (strangers c)) + 2 * again c
   + length (left_unread c) + length (right_unread c))%nat.
Definition meeting (pl fl pr fr : nat) (c : topic A B) : Prop :=
  side Sender y0 y1 stl pl fl (sent pr) (coming pl pr (again c) (strangers c)) (left_end c) (left_unread c)
  /\ side Receiver x0 x1 str pr fr (sent pl) (coming pl pr (again c) (strangers c)) (right_end c) (right_unread c)
  /\ Forall noise (strangers c)
  /\ (forall m, m ∈ posted c -> noise m \/ m ∈ take (sent pl) [x0; x1] \/ m ∈ take (sent pr) [y0; y1])
  /\ (length (left_unread c) + coming pl pr (again c) (strangers c) < F)%nat
  /\ (length (right_unread c) + coming pl pr (again c) (strangers c) < F)%nat.

Lemma sent_le p : (sent p <= 2)%nat.
Proof. destruct p as [|[|[|p]]]; simpl; lia. Qed.
Lemma take_next (s : nat) (u v m : bytes) : m ∈ take s [u; v] -> m ∈ take (S s) [u; v].
Proof. destruct s as [|[|s]]; simpl; rewrite ?take_nil; [by intros ?%elem_of_nil| |done]. intros ->%list_elem_of_singleton. by left. Qed.
Lemma take_last (s : nat) (u v : bytes) : (s < 2)%nat -> match s with O => u | _ => v end ∈ take (S s) [u; v].
Proof. destruct s as [|[|s]]; simpl; intros ?; [by left|right; by left|lia]. Qed.

Ltac sizes := unfold coming, left_over in *; cbn [strangers again left_unread right_unread] in *;
  rewrite ?length_app in *; cbn [length] in *; try lia.

(** The left end publishes: its script is a frame further, the right end has one more to read. *)
Lemma meeting_left_publishes pl fl pr fr m k x ul ur ps n sl (c := Topic (Send m k) x ul ur ps n sl) (c' := Topic (k (Ok tt)) x (ul ++ [m]) (ur ++ [m]) (ps ++ [m]) n sl) :
  meeting pl fl pr fr c ->
  exists pl' fl' pr' fr', meeting pl' fl' pr' fr' c' /\ (left_over pl' pr' c' < left_over pl pr c)%nat.
Proof.
  subst c c'. intros (HL & HR & Hs & Hp & HFl & HFr). pose proof (sent_le pl). pose proof (sent_le pr).
  cbn [left_end right_end left_unread right_unread posted again strangers] in *.
  destruct (side_sends _ _ _ _ _ _ _ _ Hl _ _ _ _ _ _ _ HL HFl) as (Hs2 & -> & Es & HL').
  exists (S pl), F, pr, fr. unfold meeting. rewrite Es. split; [|sizes].
  split; [|split; [|split; [done|split; [|split]]]].
  + eapply (side_other Sender y0 y1); [exact HL'| |sizes].
    destruct (sent pl); apply (ours_not _ Receiver); done.
  + eapply (side_next Receiver x0 x1); [done|done|exact HR|done|sizes].
  + intros m [Hm|Hm%list_elem_of_singleton]%elem_of_app.
    * destruct (Hp m Hm) as [?|[?|?]]; [by left|right; left; by apply take_next|by right; right].
    * subst m. right. left. by apply take_last.
  + sizes.
  + sizes.
Qed.

(** The right end publishes. *)
Lemma meeting_right_publishes pl fl pr fr m k x ul ur ps n sl (c := Topic x (Send m k) ul ur ps n sl) (c' := Topic x (k (Ok tt)) (ul ++ [m]) (ur ++ [m]) (ps ++ [m]) n sl) :
  meeting pl fl pr fr c ->
  exists pl' fl' pr' fr', meeting pl' fl' pr' fr' c' /\ (left_over pl' pr' c' < left_over pl pr c)%nat.
Proof.
  subst c c'. intros (HL & HR & Hs & Hp & HFl & HFr). pose proof (sent_le pl). pose proof (sent_le pr).
  cbn [left_end right_end left_unread right_unread posted again strangers] in *.
  destruct (side_sends _ _ _ _ _ _ _ _ Hr _ _ _ _ _ _ _ HR HFr) as (Hs2 & -> & Es & HR').
  exists pl, fl, (S pr), F. unfold meeting. rewrite Es. split; [|sizes].
  split; [|split; [|split; [done|split; [|split]]]].
  + eapply (side_next Sender y0 y1); [done|done|exact HL|done|sizes].
  + eapply (side_other Receiver x0 x1); [exact HR'| |sizes].
    destruct (sent pr); apply (ours_not _ Sender); done.
  + intros m [Hm|Hm%list_elem_of_singleton]%elem_of_app.
    * destruct (Hp m Hm) as [?|[?|?]]; [by left|by right; left|right; right; by apply take_next].
    * subst m. right. right. by apply take_last.
  + sizes.
  + sizes.
Qed.

Lemma meeting_step pl fl pr fr c c' : meeting pl fl pr fr c -> tstep c c' ->
  exists pl' fl' pr' fr', meeting pl' fl' pr' fr' c' /\ (left_over pl' pr' c' < left_over pl pr c)%nat.
Proof.
  intros (HL & HR & Hs & Hp & HFl & HFr) Hstep.
  pose proof (sent_le pl). pose proof (sent_le pr).
  pose proof (conj HL (conj HR (conj Hs (conj Hp (conj HFl HFr)))) : meeting pl fl pr fr c) as Hall.
  destruct Hstep as [m k r ul ur ps n sl|m k l ul ur ps n sl|m k r ul ur ps n sl|m k l ul ur ps n sl
    |m l r ul ur ps n sl|m l r ul ur ps n sl Hin|m l r ul ur ps n sl Hin]; cbn [left_end right_end left_unread right_unread posted again strangers] in *.
  - by eapply meeting_left_publishes.
  - by eapply meeting_right_publishes.
  - destruct (side_reads _ _ _ _ _ _ _ _ Hl Hy1 _ _ _ _ _ _ _ Hy HL ltac:(sizes)) as (pl' & fl' & Es & HL').
    exists pl', fl', pr, fr. unfold meeting, coming. rewrite Es. split; [|sizes; rewrite Es; lia].
    split_and!; [exact HL'|exact HR|done|done|sizes|sizes].
  - destruct (side_reads _ _ _ _ _ _ _ _ Hr Hx1 _ _ _ _ _ _ _ Hx HR ltac:(sizes)) as (pr' & fr' & Es & HR').
    exists pl, fl, pr', fr'. unfold meeting, coming. rewrite Es. split; [|sizes; rewrite Es; lia].
    split_and!; [exact HL|exact HR'|done|done|sizes|sizes].
  - apply Forall_cons in Hs as [Hm Hs]. exists pl, fl, pr, fr. split; [|sizes].
    split; [|split; [|split; [done|split; [|split]]]].
    + eapply side_other; [exact HL|apply Hm|sizes].
    + eapply side_other; [exact HR|apply Hm|sizes].
    + intros m' [Hm'|Hm'%list_elem_of_singleton]%elem_of_app; [by apply Hp|left; by subst].
    + sizes.
    + sizes.
  - exists pl, fl, pr, fr. split; [|sizes]. split_and!; [| |done|done|sizes|sizes].
    + destruct (Hp m Hin) as [Hn|[Hm|Hm]].
      * eapply side_other; [exact HL|apply Hn|sizes].
      * eapply side_other; [exact HL| |sizes]. apply (ours_not _ Receiver); [|done]. by eapply (ours_in_take Receiver x0 x1).
      * eapply (side_again Sender y0 y1); [done|done|exact HL|done|sizes].
    + eapply side_weaken; [exact HR|sizes].
  - exists pl, fl, pr, fr. split; [|sizes]. split_and!; [| |done|done|sizes|sizes].
    + eapply side_weaken; [exact HL|sizes].
    + destruct (Hp m Hin) as [Hn|[Hm|Hm]].
      * eapply side_other; [exact HR|apply Hn|sizes].
      * eapply (side_again Receiver x0 x1); [done|done|exact HR|done|sizes].
      * eapply side_other; [exact HR| |sizes]. apply (ours_not _ Sender); [|done]. by eapply (ours_in_take Sender y0 y1).
Qed.

(** Until both are over, something can happen. *)
Lemma meeting_progress pl fl pr fr c : meeting pl fl pr fr c ->
  (exists c', tstep c c') \/ left_end c = Done a /\ right_end c = Done b.
Proof.
  destruct c as [l r ul ur ps n sl]. intros (HL & HR & _). cbn [left_end right_end left_unread right_unread again strangers] in *.
  destruct (side_can _ _ _ _ _ _ _ _ Hl _ _ _ _ _ _ HL) as [(m & k & ->)|[(k & m & u' & -> & ->)|[[(k & ->) (-> & Hpl)]|[-> ->]]]];
    [left; eexists; by constructor..| |];
    (destruct (side_can _ _ _ _ _ _ _ _ Hr _ _ _ _ _ _ HR) as [(m' & k' & ->)|[(k' & m' & u'' & -> & ->)|[[(k' & ->) (-> & Hpr)]|[-> ->]]]];
      [left; eexists; by constructor..| |]).
  - exfalso. destruct Hpl as [[-> E]|[-> E]], Hpr as [[-> E']|[-> E']]; simpl in E, E'; lia.
  - exfalso. destruct Hpl as [[-> E]|[-> E]]; simpl in E; lia.
  - exfalso. destruct Hpr as [[-> E']|[-> E']]; simpl in E'; lia.
  - by right.
Qed.
Lemma meeting_done pl fl pr fr c x y : meeting pl fl pr fr c -> left_end c = Done x -> right_end c = Done y -> x = a /\ y = b.
Proof.
  intros (HL & HR & _) E1 E2. rewrite E1 in HL. rewrite E2 in HR. split.
  - by destruct (side_can _ _ _ _ _ _ _ _ Hl _ _ _ _ _ _ HL) as [(m & k & [=])|[(k & m & u' & [=] & _)|[[(k & [=]) _]|[[= ->] _]]]].
  - by destruct (side_can _ _ _ _ _ _ _ _ Hr _ _ _ _ _ _ HR) as [(m & k & [=])|[(k & m & u' & [=] & _)|[[(k & [=]) _]|[[= ->] _]]]].
Qed.
Lemma meeting_run pl fl pr fr j c c' : meeting pl fl pr fr c -> nsteps tstep j c c' ->
  (j <= left_over pl pr c)%nat /\ ((exists c'', tstep c' c'') \/ left_end c' = Done a /\ right_end c' = Done b)
  /\ (forall x y, left_end c' = Done x -> right_end c' = Done y -> x = a /\ y = b).
Proof.
  intros Hm Hj. revert pl fl pr fr Hm. induction Hj as [c|j c c1 c' H1 _ IH]; intros pl fl pr fr Hm.
  - split; [lia|]. split; [by eapply meeting_progress|]. intros x y. by eapply meeting_done.
  - destruct (meeting_step _ _ _ _ _ _ Hm H1) as (pl' & fl' & pr' & fr' & Hm' & Hlt).
    destruct (IH _ _ _ _ Hm') as [Hj Hend]. split; [lia|done].
Qed.
(** From the beginning. *)
Lemma meeting_start fl fr ul ur ps n sl :
  Forall noise ul -> Forall noise ur -> Forall noise ps -> Forall noise sl ->
  (length ul + length sl + n + 4 < F)%nat -> (length ur + length sl + n + 4 < F)%nat ->
  meeting 0 fl 0 fr (Topic (stl 0%nat fl) (str 0%nat fr) ul ur ps n sl).
Proof.
  intros Hul Hur Hps Hsl H1 H2.
  assert (Hn : forall r l, Forall noise l -> filter (fun m => ours r m = true) l = []).
  { intros r l Hn. induction Hn as [|m l Hm Hn IH]; [done|]. rewrite filter_cons, IH, (Hm r). by case_decide. }
  split_and!; cbn [left_end right_end left_unread right_unread posted again strangers]; [| |done| |sizes|sizes].
  - split_and!; [lia|done|by rewrite Hn|intros [|]; done].
  - split_and!; [lia|done|by rewrite Hn|intros [|]; done].
  - intros m Hm. left. rewrite Forall_forall in Hps. by apply Hps.
Qed.
End meeting.

(** ** The key exchange is such a script *)

(** How an end finishes, from the keys it and its peer derived. *)
Definition rv_verdict `{Blake3} (mine theirs : SessionKey) (role : Role) : res SessionKey :=
  if verify_confirmation mine (other role) (confirmation theirs (other role))
  then Ok mine else Err (EMsg mismatch_msg).

Lemma other_other r : other (other r) = r.
Proof. by destruct r. Qed.
Lemma ours_frame k r r' p : k = KIND_PAKE \/ k = KIND_CONFIRM ->
  ours r (encode_frame k r' p) = bool_decide (r = r').
Proof.
  intros Hk. unfold ours. rewrite decode_encode by (by destruct Hk as [->| ->]).
  assert (E : ((k =? KIND_PAKE) || (k =? KIND_CONFIRM)) = true) by (by destruct Hk as [->| ->]).
  rewrite E. by destruct r, r'.
Qed.
Lemma frames_differ r r' p p' : encode_frame KIND_PAKE r p <> encode_frame KIND_CONFIRM r' p'.
Proof. unfold encode_frame. by intros [=]. Qed.

(** A read loop takes the frame it wants and passes over another. *)
Lemma wait_for_read {X : Type} f k r (s : fs) (K : bytes -> prog X) : exists g,
  (wait_for (S f) k (role_byte r) ≫= K) s = Recv g
  /\ (forall p, 0 <= k < 256 -> g (Ok (encode_frame k r p)) = K p s)
  /\ forall m, (forall q, decode_frame m <> Some (k, role_byte r, q)) ->
       g (Ok m) = (wait_for f k (role_byte r) ≫= K) s.
Proof.
  eexists. split; [reflexivity|]. split.
  - intros p Hk. cbn [proc_bind]. rewrite decode_encode by done. by rewrite !Z.eqb_refl.
  - intros m Hm. cbn [proc_bind]. destruct (decode_frame m) as [[[k' r'] q]|] eqn:E; [|done].
    destruct (Z.eqb_spec k' k) as [->|]; [|done]. destruct (Z.eqb_spec r' (role_byte r)) as [->|]; [|done].
    by destruct (Hm q).
Qed.

Section exchange.
Context `{Spake2} `{Blake3}.
Variables (fuel : nat) (ctx : string) (role : Role) (rnd pw rnd' pw' : bytes) (key key' : SessionKey) (s : fs).
Hypothesis Hkey : finish (fst (start rnd pw ctx)) (snd (start rnd' pw' ctx)) = Ok key.

(** The exchange from the second frame on, and from the comparison on. *)
Definition confirming (k : SessionKey) (peer_conf : bytes) : prog SessionKey :=
  if negb (verify_confirmation k (other role) peer_conf) then prog_res (Err (EMsg mismatch_msg)) else mret k.
Definition keyed (peer_msg : bytes) : prog SessionKey :=
  k ← prog_res (finish (fst (start rnd pw ctx)) peer_msg);
  _ ← send (encode_frame KIND_CONFIRM role (confirmation k role));
  peer_conf ← wait_for fuel KIND_CONFIRM (role_byte (other role));
  confirming k peer_conf.
Definition exchange_state (p f : nat) : proc (res SessionKey * fs) :=
  match p with
  | O => handshake fuel rnd ctx pw role s
  | 1%nat => with_timeout (timeout_msg role) (wait_for f KIND_PAKE (role_byte (other role)) ≫= keyed) s
  | 2%nat => with_timeout (timeout_msg role) (keyed (snd (start rnd' pw' ctx))) s
  | 3%nat => with_timeout (timeout_msg role) (wait_for f KIND_CONFIRM (role_byte (other role)) ≫= confirming key) s
  | _ => Done (rv_verdict key key' role, s)
  end.
Definition pake_frame (r : Role) (random password : bytes) : bytes :=
  encode_frame KIND_PAKE r (snd (start random password ctx)).
Definition confirm_frame (r : Role) (k : SessionKey) : bytes := encode_frame KIND_CONFIRM r (confirmation k r).

Lemma exchange_script :
  script (other role) fuel (pake_frame role rnd pw) (confirm_frame role key)
    (pake_frame (other role) rnd' pw') (confirm_frame (other role) key') (rv_verdict key key' role, s) exchange_state.
Proof.
  assert (Hskip : forall k m, (k = KIND_PAKE \/ k = KIND_CONFIRM) -> ours (other role) m = false ->
    forall q, decode_frame m <> Some (k, role_byte (other role), q)).
  { intros k m Hk Ho q E. unfold ours in Ho. rewrite E, Z.eqb_refl, andb_true_r in Ho. by destruct Hk as [-> | ->]. }
  split.
  - intros f. eexists. split; reflexivity.
  - intros f. destruct (wait_for_read f KIND_PAKE (other role) s keyed) as (g & E & Eg & Es).
    cbn [exchange_state]. unfold with_timeout. rewrite E. cbn [proc_bind]. eexists. split; [reflexivity|]. cbn beta. split.
    + unfold pake_frame. by rewrite Eg.
    + intros m Hm. rewrite Es; [done|]. apply Hskip; [by left|done].
  - intros f. cbn [exchange_state]. unfold with_timeout, keyed. rewrite Hkey, prog_res_bind. eexists. split; reflexivity.
  - intros f. destruct (wait_for_read f KIND_CONFIRM (other role) s (confirming key)) as (g & E & Eg & Es).
    cbn [exchange_state]. unfold with_timeout. rewrite E. cbn [proc_bind]. eexists. split; [reflexivity|]. cbn beta.
    split; [|split].
    + unfold confirm_frame. rewrite Eg by done. unfold confirming, rv_verdict.
      by destruct (verify_confirmation key (other role) _).
    + rewrite Es; [done|]. intros q. unfold pake_frame. rewrite decode_encode by done. by intros [= E' _ _].
    + intros m Hm. rewrite Es; [done|]. apply Hskip; [by right|done].
  - done.
Qed.
End exchange.

(** Every run of the exchange is bounded, and ends with both verdicts. *)
Definition exchange_bound (ul ur : list bytes) (n : nat) (sl : list bytes) : nat :=
  (12 + 3 * length sl + 2 * n + length ul + length ur)%nat.
Lemma exchange_runs `{Spake2} `{Blake3} fuel ctx pwA pwB rA rB kA kB s1 s2 ul ur ps n sl :
  finish (fst (start rA pwA ctx)) (snd (start rB pwB ctx)) = Ok kA ->
  finish (fst (start rB pwB ctx)) (snd (start rA pwA ctx)) = Ok kB ->
  Forall noise ul -> Forall noise ur -> Forall noise ps -> Forall noise sl ->
  (length ul + length sl + n + 4 < fuel)%nat -> (length ur + length sl + n + 4 < fuel)%nat ->
  forall j c, nsteps tstep j
      (Topic (handshake fuel rA ctx pwA Receiver s1) (handshake fuel rB ctx pwB Sender s2) ul ur ps n sl) c ->
    (j <= exchange_bound ul ur n sl)%nat
    /\ ((exists c', tstep c c')
        \/ left_end c = Done (rv_verdict kA kB Receiver, s1) /\ right_end c = Done (rv_verdict kB kA Sender, s2))
    /\ (forall x y, left_end c = Done x -> right_end c = Done y ->
         x = (rv_verdict kA kB Receiver, s1) /\ y = (rv_verdict kB kA Sender, s2)).
Proof.
  intros HA HB Hul Hur Hps Hsl H1 H2 j c Hj.
  pose proof (exchange_script fuel ctx Receiver rA pwA rB pwB kA kB s1 HA) as SA.
  pose proof (exchange_script fuel ctx Sender rB pwB rA pwA kB kA s2 HB) as SB. cbn [other] in SA, SB.
  assert (Hframes : forall r rnd pw k, ours r (pake_frame ctx r rnd pw) = true /\ ours r (confirm_frame r k) = true
    /\ pake_frame ctx r rnd pw <> confirm_frame r k).
  { intros r rnd pw k. unfold pake_frame, confirm_frame. rewrite !ours_frame, !bool_decide_true by tauto.
    split_and!; [done|done|apply frames_differ]. }
  destruct (Hframes Receiver rA pwA kA) as (FA0 & FA1 & FA). destruct (Hframes Sender rB pwB kB) as (FB0 & FB1 & FB).
  assert (Hm := meeting_start fuel (pake_frame ctx Receiver rA pwA) (confirm_frame Receiver kA)
    (pake_frame ctx Sender rB pwB) (confirm_frame Sender kB) (exchange_state fuel ctx Receiver rA pwA rB pwB kA kB s1)
    (exchange_state fuel ctx Sender rB pwB rA pwA kB kA s2) 0 0 ul ur ps n sl Hul Hur Hps Hsl H1 H2).
  destruct (meeting_run fuel _ _ _ _ _ _ _ _ SA SB FA0 FA1 FB0 FB1 FA FB _ _ _ _ _ _ _ Hm Hj) as [Hj' Hend].
  split; [|exact Hend]. unfold left_over in Hj'. cbn [sent strangers again left_unread right_unread] in Hj'.
    unfold exchange_bound. lia.
Qed.

(** ** The exchange, then the data channel

    Both ends of a peer-to-peer session: the topic until both have their key,
    then the channel the WebRTC connection gives them. *)

Section p2p.
Context {X Y A B : Type} (kl : X -> proc A) (kr : Y -> proc B).
Inductive session : Type := Meet (t : topic X Y) | Link (c : config A B).
Inductive session_step (cap : nat) : session -> session -> Prop :=
| meets t t' : tstep t t' -> session_step cap (Meet t) (Meet t')
| connects x y ul ur ps n sl :
    session_step cap (Meet (Topic (Done x) (Done y) ul ur ps n sl)) (Link (Config (kl x) (kr y) [] []))
| talks c c' : step cap c c' -> session_step cap (Link c) (Link c').

Lemma link_run cap j c d : nsteps (session_step cap) j (Link c) d ->
  exists c', d = Link c' /\ nsteps (step cap) j c c'.
Proof.
  remember (Link c) as w eqn:E. intros Hj. revert c E.
  induction Hj as [w|j w w1 d H1 _ IH]; intros c ->; [exists c; split; [done|constructor]|].
  inversion H1 as [| |? c1 Hc]; subst. destruct (IH c1 eq_refl) as (c' & -> & Hc'). exists c'. split; [done|].
  by eapply nsteps_l.
Qed.
(** A run is a run of the topic, perhaps then the connection and a run of
    the channel. *)
Lemma session_run cap j t d : nsteps (session_step cap) j (Meet t) d ->
  (exists t', d = Meet t' /\ nsteps tstep j t t')
  \/ exists j1 j2 t' x y c', j = (j1 + S j2)%nat /\ nsteps tstep j1 t t'
     /\ left_end t' = Done x /\ right_end t' = Done y
     /\ d = Link c' /\ nsteps (step cap) j2 (Config (kl x) (kr y) [] []) c'.
Proof.
  remember (Meet t) as w eqn:E. intros Hj. revert t E.
  induction Hj as [w|j w w1 d H1 Hd IH]; intros t ->; [left; exists t; split; [done|constructor]|].
  inversion H1 as [? t1 Ht|x y ul ur ps n sl|]; subst.
  - destruct (IH t1 eq_refl) as [(t' & -> & Ht')|(j1 & j2 & t' & x & y & c' & -> & Ht' & Hx & Hy & -> & Hc)].
    + left. exists t'. split; [done|]. by eapply nsteps_l.
    + right. exists (S j1), j2, t', x, y, c'. split_and!; try done. by eapply nsteps_l.
  - right. destruct (link_run _ _ _ _ Hd) as (c' & -> & Hc).
    exists 0%nat, j, (Topic (Done x) (Done y) ul ur ps n sl), x, y, c'. split_and!; try done. constructor.
Qed.
End p2p.
Arguments session : clear implicits.

Section p1.
Context `{Spake2} `{Aead} `{Blake3} `{!Serde Manifest} `{!Serde StreamManifestAck} `{!Serde Commit}
  `{!Serde CommitAck} `{!Serde State}.

Lemma proc_bind_assoc {A B C} (p : proc A) (f : A -> proc B) (g : B -> proc C) :
  proc_bind (proc_bind p f) g = proc_bind p (fun a => proc_bind (f a) g).
Proof. induction p as [a|m k IH|k IH]; simpl; [done|f_equal; by apply functional_extensionality..]. Qed.
Lemma proc_bind_done {A} (p : proc A) : proc_bind p Done = p.
Proof. induction p as [a|m k IH|k IH]; simpl; [done|f_equal; by apply functional_extensionality..]. Qed.

(** [receive_p1] and [send_p1] after their key exchange, the connection
    made. *)
Definition receive_p1_rest (tar : bytes -> path -> io unit) (out : path) (accept : gmap path node -> Manifest -> bool)
    (o : res SessionKey * fs) : proc (res string * fs) :=
  prog_k (fun key => desc ← recv_into tar key out accept; _ ← grace; mret desc) (map_err EEstablish o.1, o.2).
Definition send_p1_rest (source : Source) (o : res SessionKey * fs) : proc (res string * fs) :=
  prog_k (fun key => send_source key source) (map_err EEstablish o.1, o.2).

(** The two commands are the key exchange and then these. *)
Lemma receive_p1_splits tar fuel rnd topic secret out accept s :
  receive_p1 tar (mret tt) fuel rnd topic secret out accept s
  = proc_bind (handshake fuel rnd topic secret Receiver s) (receive_p1_rest tar out accept).
Proof.
  unfold receive_p1, prog_map_err. rewrite !prog_bind_eq, proc_bind_assoc. f_equal.
  apply functional_extensionality. intros [[key|e|] s']; reflexivity.
Qed.
Lemma send_p1_splits fuel rnd topic secret source s :
  send_p1 (mret tt) fuel rnd topic secret source s
  = proc_bind (handshake fuel rnd topic secret Sender s) (send_p1_rest source).
Proof.
  unfold send_p1, prog_map_err. rewrite !prog_bind_eq, proc_bind_assoc. f_equal.
  apply functional_extensionality. intros [[key|e|] s']; reflexivity.
Qed.

(** Once both have the key, the file arrives. *)
Lemma p1_exec key cap src ns out nm tid es sp content tar accept nr :
  (1 <= cap)%nat -> zlen content < U64 -> Forall (fun e => u64_ok (e_size e)) es ->
  file_at ns src = Some content ->
  accept nr (stream_manifest (Blob KFile nm es (zlen content) tid src sp)) = true ->
  resumable out (safe_name nm) tid STREAM_FRAME_SIZE content nr ->
  exists nr',
    rtc (step cap)
      (Config (receive_p1_rest tar out accept (Ok key, Fs nr []))
              (send_p1_rest (Blob KFile nm es (zlen content) tid src sp) (Ok key, Fs ns [])) [] [])
      (Config (Recv (fun _ => Done (Ok ("saved " +:+ display (out ++ [safe_name nm])), Fs nr' [])))
              (Done (Ok "transfer complete", Fs ns [])) [] [])
    /\ file_at nr' (out ++ [safe_name nm]) = Some content
    /\ (forall q, partial_dir out (safe_name nm) `prefix_of` q -> nr' !! q = None).
Proof.
  intros Hcap Hlen Hes Hsrc Hacc (Hst & Hinv & Hdest).
  destruct (transfer_exec cap key src ns out nm tid es sp content tar accept Hcap Hlen Hes Hsrc nr
    Hacc Hst Hinv Hdest) as (nr' & Ht & Hfile & Hgone & _).
  exists nr'. split; [|done]. apply (rtc_swap cap) in Ht. cbn [left_proc right_proc to_left to_right] in Ht.
  apply (rtc_bind cap (prog_k (fun desc => _ ← grace; mret desc)) Done) in Ht.
  unfold receive_p1_rest, send_p1_rest. cbn [fst snd map_err prog_k]. rewrite prog_bind_eq.
  rewrite proc_bind_done in Ht. exact Ht.
Qed.
End p1.

(** ** Two ends, whatever is on the topic *)

(** A program that sends and receives at most [n] times. *)
Fixpoint lasts {A} (n : nat) (p : proc A) {struct p} : Prop :=
  match p with
  | Done _ => True
  | Send _ k => match n with O => False | S n' => forall r, lasts n' (k r) end
  | Recv k => match n with O => False | S n' => forall r, lasts n' (k r) end
  end.
Lemma lasts_mono {A} n n' (p : proc A) : lasts n p -> (n <= n')%nat -> lasts n' p.
Proof.
  revert n n'. induction p as [a|m k IH|k IH]; intros n n' Hp Hn; [done|..];
    (destruct n as [|n]; [done|]; destruct n' as [|n']; [lia|]; intros r; eapply IH; [apply Hp|lia]).
Qed.
Lemma lasts_bind {A B} n m (p : proc A) (f : A -> proc B) : lasts n p -> (forall a, lasts m (f a)) -> lasts (n + m) (proc_bind p f).
Proof.
  intros Hp Hf. revert n Hp. induction p as [a|x k IH|k IH]; intros n Hp; cbn [proc_bind].
  - eapply lasts_mono; [apply Hf|lia].
  - destruct n as [|n]; [done|]. intros r. apply IH, Hp.
  - destruct n as [|n]; [done|]. intros r. apply IH, Hp.
Qed.
Lemma lasts_prog {A B} n m (p : prog A) (f : A -> prog B) s :
  (forall s, lasts n (p s)) -> (forall a s, lasts m (f a s)) -> lasts (n + m) ((p ≫= f) s).
Proof. intros Hp Hf. rewrite prog_bind_eq. apply lasts_bind; [apply Hp|]. intros [[a|e|] s']; cbn; [apply Hf|done|done]. Qed.
Lemma wait_for_lasts fuel kind from s : lasts fuel (wait_for fuel kind from s).
Proof.
  revert s. induction fuel as [|fuel IH]; intros s; [done|]. cbn [wait_for]. apply (lasts_prog 1 fuel); [by intros s' r|].
  intros [frame|] s'; [|done]. destruct (decode_frame frame) as [[[k r] payload]|]; [|apply IH]. case_match; [done|apply IH].
Qed.
Lemma handshake_lasts `{Spake2} `{Blake3} fuel rnd ctx pw role s : lasts (2 * fuel + 2) (handshake fuel rnd ctx pw role s).
Proof.
  unfold handshake, with_timeout. replace (2 * fuel + 2)%nat with ((2 * fuel + 2) + 0)%nat by lia.
  apply lasts_bind; [|by intros [r s']]. unfold handshake_inner. destruct (start rnd pw ctx) as [pake my].
  replace (2 * fuel + 2)%nat with (1 + (fuel + (0 + (1 + (fuel + 0)))))%nat by lia.
  apply lasts_prog; [by intros s' r|]. intros _ s1. apply lasts_prog; [intros s'; apply wait_for_lasts|]. intros m s2.
  apply lasts_prog; [done|]. intros key s3. apply lasts_prog; [by intros s' r|]. intros _ s4.
  apply lasts_prog; [intros s'; apply wait_for_lasts|]. intros c s5. by case_match.
Qed.

Section anyone.
Context {A B : Type}.
Lemma lasts_bounds nl nr j (c c' : topic A B) : lasts nl (left_end c) -> lasts nr (right_end c) -> nsteps tstep j c c' ->
  (j <= nl + nr + again c + length (strangers c))%nat.
Proof.
  intros Hl Hr Hj. revert nl nr Hl Hr. induction Hj as [c|j c c1 c' Hs Hj IH]; intros nl nr Hl Hr; [lia|].
  destruct Hs; cbn [left_end right_end again strangers] in *.
  - destruct nl as [|nl]; [done|]. specialize (IH nl nr (Hl _) Hr). lia.
  - destruct nr as [|nr]; [done|]. specialize (IH nl nr Hl (Hr _)). lia.
  - destruct nl as [|nl]; [done|]. specialize (IH nl nr (Hl _) Hr). lia.
  - destruct nr as [|nr]; [done|]. specialize (IH nl nr Hl (Hr _)). lia.
  - specialize (IH nl nr Hl Hr). simpl. lia.
  - specialize (IH nl nr Hl Hr). lia.
  - specialize (IH nl nr Hl Hr). lia.
Qed.
(** Frames stay posted. *)
Lemma posted_stays (c c' : topic A B) : rtc tstep c c' -> forall m, m ∈ posted c -> m ∈ posted c'.
Proof. induction 1 as [|c c1 c' Hs Hr IH]; [done|]. intros m Hm. apply IH. destruct Hs; cbn [posted] in *; rewrite ?elem_of_app; auto. Qed.
(** Each end reads what was unread at first, or is posted by the end. *)
Lemma run_may (c c' : topic A B) : rtc tstep c c' -> forall (PL PR : bytes -> Prop) QL QR,
  (forall m, m ∈ posted c' -> PL m /\ PR m) -> (forall m, m ∈ left_unread c -> PL m) -> (forall m, m ∈ right_unread c -> PR m) ->
  may PL (left_end c) QL -> may PR (right_end c) QR -> may PL (left_end c') QL /\ may PR (right_end c') QR.
Proof.
  intros Hr PL PR QL QR Hp. induction Hr as [c|c c1 c' Hs Hr IH]; intros Hul Hur Hl Hrr; [done|]. specialize (IH Hp).
  assert (Hpc : forall m, m ∈ posted c1 -> PL m /\ PR m) by (intros m Hm; apply Hp; by eapply posted_stays).
  assert (Happ : forall (P : bytes -> Prop) u x, (forall m, m ∈ u -> P m) -> P x -> forall m, m ∈ u ++ [x] -> P m).
  { intros P u x Hu Hx m [Hm|Hm%list_elem_of_singleton]%elem_of_app; [by apply Hu|by subst]. }
  assert (Hcons : forall (P : bytes -> Prop) u x, (forall m, m ∈ x :: u -> P m) -> P x /\ forall m, m ∈ u -> P m).
  { intros P u x Hu. split; [apply Hu; by left|]. intros m Hm. apply Hu. by right. }
  destruct Hs as [m k r ul ur ps n sl|m k l ul ur ps n sl|m k r ul ur ps n sl|m k l ul ur ps n sl|m l r ul ur ps n sl
    |m l r ul ur ps n sl Hin|m l r ul ur ps n sl Hin]; cbn [left_end right_end left_unread right_unread posted] in *;
    try (destruct (Hpc m) as [P1 P2]; [apply elem_of_app; right; by apply list_elem_of_singleton|]).
  - apply IH; [by apply Happ|by apply Happ|by apply Hl|done].
  - apply IH; [by apply Happ|by apply Happ|done|by apply Hrr].
  - destruct (Hcons _ _ _ Hul) as [Hm Hu]. apply IH; [done|done|apply Hl; [done|by intros ? [= <-]]|done].
  - destruct (Hcons _ _ _ Hur) as [Hm Hu]. apply IH; [done|done|done|apply Hrr; [done|by intros ? [= <-]]].
  - apply IH; [by apply Happ|by apply Happ|done|done].
  - destruct (Hpc m Hin) as [P1 P2]. apply IH; [by apply Happ|done|done|done].
  - destruct (Hpc m Hin) as [P1 P2]. apply IH; [done|by apply Happ|done|done].
Qed.
End anyone.

(** ** Properties *)

(** C22: Two ends with one code over a public topic. Whatever anybody has posted
    or posts there, in whatever order frames are read and delivered again,
    every run is bounded, neither end panics, and an end that has a key has
    derived it from one frame of the topic and has read in another that key's
    confirmation tag for the other role. And where strangers post no frames
    of the key exchange itself, the run cannot stop before both ends hold the
    same key. (A stranger's key-exchange frame in the place of the peer's ends
    both in the mismatch error, whose text names the case: see
    [Example.collision_fails].) *)
Theorem rendezvous_agrees `{Spake2} `{Blake3} fuel ctx pw rA rB s1 s2 ul ur ps n sl :
  let begin := Topic (handshake fuel rA ctx pw Receiver s1) (handshake fuel rB ctx pw Sender s2) ul ur ps n sl in
  (forall j c, nsteps tstep j begin c ->
     (j <= 4 * fuel + 4 + n + length sl)%nat
     /\ (forall o, left_end c = Done o -> outcome rA ctx pw Receiver (fun m => m ∈ ul ++ posted c) s1 o)
     /\ (forall o, right_end c = Done o -> outcome rB ctx pw Sender (fun m => m ∈ ur ++ posted c) s2 o))
  /\ (Forall noise ul -> Forall noise ur -> Forall noise ps -> Forall noise sl ->
      (length ul + length sl + n + 4 < fuel)%nat -> (length ur + length sl + n + 4 < fuel)%nat ->
      exists key, forall j c, nsteps tstep j begin c ->
        (j <= exchange_bound ul ur n sl)%nat
        /\ ((exists c', tstep c c') \/ left_end c = Done (Ok key, s1) /\ right_end c = Done (Ok key, s2))).
Proof.
  intros begin.
  assert (Hends : forall c, rtc tstep begin c -> may (fun m => m ∈ ul ++ posted c) (left_end c) (outcome rA ctx pw Receiver (fun m => m ∈ ul ++ posted c) s1)
    /\ may (fun m => m ∈ ur ++ posted c) (right_end c) (outcome rB ctx pw Sender (fun m => m ∈ ur ++ posted c) s2)).
  { intros c Hc. apply (run_may begin c Hc); unfold begin; cbn [left_end right_end left_unread right_unread].
    - intros m Hm. split; apply elem_of_app; by right.
    - intros m Hm. apply elem_of_app. by left.
    - intros m Hm. apply elem_of_app. by left.
    - apply with_timeout_may, exchange_may. intros kind from. apply wait_for_may.
    - apply with_timeout_may, exchange_may. intros kind from. apply wait_for_may. }
  split; [intros j c Hj; split; [|split]|].
  - eapply Nat.le_trans; [by eapply (lasts_bounds (2 * fuel + 2) (2 * fuel + 2)); [| |exact Hj]; apply handshake_lasts|].
    unfold begin. cbn [again strangers]. lia.
  - intros o Ho. destruct (Hends c (rtc_nsteps_2 _ _ _ Hj)) as [Hl _]. by rewrite Ho in Hl.
  - intros o Ho. destruct (Hends c (rtc_nsteps_2 _ _ _ Hj)) as [_ Hr]. by rewrite Ho in Hr.
  - intros Hul Hur Hps Hsl H1 H2. destruct (finish_agree pw ctx rA rB) as (key & HA & HB).
    exists key. intros j c Hj.
    destruct (exchange_runs _ _ _ _ _ _ _ _ s1 s2 _ _ _ _ _ HA HB Hul Hur Hps Hsl H1 H2 j c Hj) as (Hb & He & _).
    unfold rv_verdict in He. by rewrite !verify_own in He.
Qed.

(** Ends that derive keys with different confirmation tags both refuse. *)
Theorem rendezvous_mismatch `{Spake2} `{Blake3} fuel ctx pwA pwB rA rB kA kB s1 s2 ul ur ps n sl :
  finish (fst (start rA pwA ctx)) (snd (start rB pwB ctx)) = Ok kA ->
  finish (fst (start rB pwB ctx)) (snd (start rA pwA ctx)) = Ok kB ->
  (forall r, confirmation kA r <> confirmation kB r) ->
  Forall noise ul -> Forall noise ur -> Forall noise ps -> Forall noise sl ->
  (length ul + length sl + n + 4 < fuel)%nat -> (length ur + length sl + n + 4 < fuel)%nat ->
  forall j c,
    nsteps tstep j (Topic (handshake fuel rA ctx pwA Receiver s1) (handshake fuel rB ctx pwB Sender s2) ul ur ps n sl) c ->
    (j <= exchange_bound ul ur n sl)%nat
    /\ ((exists c', tstep c c')
        \/ left_end c = Done (Err (EMsg mismatch_msg), s1) /\ right_end c = Done (Err (EMsg mismatch_msg), s2)).
Proof.
  intros HA HB Hne Hul Hur Hps Hsl H1 H2 j c Hj.
  destruct (exchange_runs _ _ _ _ _ _ _ _ s1 s2 _ _ _ _ _ HA HB Hul Hur Hps Hsl H1 H2 j c Hj) as (Hb & He & _).
  unfold rv_verdict, verify_confirmation in He. rewrite bool_decide_false in He by apply Hne.
  rewrite bool_decide_false in He by (intros E; by apply (Hne Receiver)). done.
Qed.

(** A peer-to-peer session delivers: [receive_p1] and [send_p1] with one code,
    which meet on a public topic and are then connected by a channel, make
    only bounded runs, and no run can stop before the sender has reported
    completion and the receiver has the file in place, waiting only for the
    connection to end, whatever comes of that wait. *)
Theorem p2p_delivers `{Spake2} `{Aead} `{Blake3} `{!Serde Manifest} `{!Serde StreamManifestAck}
    `{!Serde Commit} `{!Serde CommitAck} `{!Serde State}
    cap fuel room secret rR rS ul ur ps n sl src ns out nm tid es sp content tar accept nr :
  (1 <= cap)%nat -> zlen content < U64 -> Forall (fun e => u64_ok (e_size e)) es ->
  file_at ns src = Some content ->
  accept nr (stream_manifest (Blob KFile nm es (zlen content) tid src sp)) = true ->
  resumable out (safe_name nm) tid STREAM_FRAME_SIZE content nr ->
  Forall noise ul -> Forall noise ur -> Forall noise ps -> Forall noise sl ->
  (length ul + length sl + n + 4 < fuel)%nat -> (length ur + length sl + n + 4 < fuel)%nat ->
  let source := Blob KFile nm es (zlen content) tid src sp in
  let receiver := receive_p1_rest tar out accept in
  let sender := send_p1_rest source in
  receive_p1 tar (mret tt) fuel rR room secret out accept (Fs nr [])
    = proc_bind (handshake fuel rR room secret Receiver (Fs nr [])) receiver
  /\ send_p1 (mret tt) fuel rS room secret source (Fs ns [])
    = proc_bind (handshake fuel rS room secret Sender (Fs ns [])) sender
  /\ exists k nr' wait,
    (forall j w, nsteps (session_step receiver sender cap) j
        (Meet (Topic (handshake fuel rR room secret Receiver (Fs nr [])) (handshake fuel rS room secret Sender (Fs ns []))
                     ul ur ps n sl)) w ->
      (j <= k)%nat /\ ((exists w', session_step receiver sender cap w w')
                       \/ w = Link (Config (Recv wait) (Done (Ok "transfer complete", Fs ns [])) [] [])))
    /\ (forall r, wait r = Done (Ok ("saved " +:+ display (out ++ [safe_name nm])), Fs nr' []))
    /\ file_at nr' (out ++ [safe_name nm]) = Some content
    /\ (forall q, partial_dir out (safe_name nm) `prefix_of` q -> nr' !! q = None).
Proof.
  intros Hcap Hlen Hes Hsrc Hacc Hres Hul Hur Hps Hsl H1' H2' source receiver sender.
  split; [apply receive_p1_splits|]. split; [apply send_p1_splits|].
  destruct (finish_agree secret room rR rS) as (key & HA & HB).
  destruct (p1_exec key cap src ns out nm tid es sp content tar accept nr Hcap Hlen Hes Hsrc Hacc Hres)
    as (nr' & [k Hk]%rtc_nsteps & Hfile & Hgone).
  exists (exchange_bound ul ur n sl + S k)%nat, nr'. eexists. split; [|split; [|done]]; [|intros r; reflexivity]. intros j w Hj.
  pose proof (exchange_runs _ _ _ _ _ _ _ _ (Fs nr []) (Fs ns []) _ _ _ _ _ HA HB Hul Hur Hps Hsl H1' H2') as Hmeet.
  unfold rv_verdict in Hmeet. rewrite !verify_own in Hmeet.
  destruct (session_run _ _ _ _ _ _ Hj) as [(t & -> & Ht)|(j1 & j2 & t & x & y & c & -> & Ht & Hx & Hy & -> & Hc)].
  - destruct (Hmeet _ _ Ht) as (Hb & [(t' & Ht')|[E1 E2]] & _); (split; [lia|left]).
    + eexists. by apply meets.
    + destruct t. cbn [left_end right_end] in E1, E2. subst. eexists. apply connects.
  - destruct (Hmeet _ _ Ht) as (Hb & _ & Hd). destruct (Hd x y Hx Hy) as [-> ->].
    pose proof (fun Hfin => runs_converge cap k _ _ Hfin Hk _ _ Hc) as Hend. destruct Hend as [Hj2 Hrest]; [intros d; by inversion 1|].
    split; [lia|].
    destruct (k - j2)%nat as [|i]; [right; by inversion Hrest|left].
    inversion Hrest; subst. eexists. by apply talks.
Qed.

(** ** At a concrete input *)

Module Example.
#[local] Existing Instances Toy.spake2 Toy.aead Toy.blake3 Transfer.Example.toy_manifest Transfer.Example.toy_ack
  Transfer.Example.toy_commit Transfer.Example.toy_commit_ack Transfer.Example.toy_state.
(** An old frame of another exchange's signaling, and a stranger's. *)
Definition old : bytes := [Byte.x03; Byte.x01; Byte.xff].
Definition stray : bytes := [Byte.x00].
Lemma old_noise : Forall noise [old].
Proof. apply Forall_singleton. by intros []. Qed.
Lemma stray_noise : Forall noise [stray].
Proof. apply Forall_singleton. by intros []. Qed.
(** Frames delivered twice: one. *)
Lemma rendezvous_agrees_witness :
  exists key, forall j c,
    nsteps tstep j (Topic (handshake 8 [] "room" [Byte.x07] Receiver (Fs ∅ []))
                          (handshake 8 [Byte.x01] "room" [Byte.x07] Sender (Fs ∅ [])) [old] [] [old] 1 [stray]) c ->
    (j <= 18)%nat
    /\ ((exists c', tstep c c') \/ left_end c = Done (Ok key, Fs ∅ []) /\ right_end c = Done (Ok key, Fs ∅ [])).
Proof.
  apply (rendezvous_agrees 8 "room" [Byte.x07] [] [Byte.x01] (Fs ∅ []) (Fs ∅ []) [old] [] [old] 1 [stray]);
    [apply old_noise|constructor|apply old_noise|apply stray_noise|simpl; lia|simpl; lia].
Defined.

(** An end's next step, or a stranger's. *)
Definition go {A B} (who : option Role) (c : topic A B) : topic A B :=
  match who, c with
  | Some Receiver, Topic (Send m k) r ul ur ps n sl => Topic (k (Ok tt)) r (ul ++ [m]) (ur ++ [m]) (ps ++ [m]) n sl
  | Some Receiver, Topic (Recv k) r (m :: ul) ur ps n sl => Topic (k (Ok m)) r ul ur ps n sl
  | Some Sender, Topic l (Send m k) ul ur ps n sl => Topic l (k (Ok tt)) (ul ++ [m]) (ur ++ [m]) (ps ++ [m]) n sl
  | Some Sender, Topic l (Recv k) ul (m :: ur) ps n sl => Topic l (k (Ok m)) ul ur ps n sl
  | None, Topic l r ul ur ps n (m :: sl) => Topic l r (ul ++ [m]) (ur ++ [m]) (ps ++ [m]) n sl
  | _, _ => c
  end.
Lemma go_runs {A B} order (c : topic A B) : rtc tstep c (fold_left (fun c who => go who c) order c).
Proof.
  revert c. induction order as [|who order IH]; intros c; [done|]. cbn [fold_left].
  assert (Hg : go who c = c \/ tstep c (go who c)); [|destruct Hg as [->|Hg]; [done|by eapply rtc_l]].
  destruct c as [l r ul ur ps n sl]. destruct who as [[]|]; cbn [go].
  - destruct l as [a|m k|k]; [by left|right; constructor|destruct ul; [by left|right; constructor]].
  - destruct r as [a|m k|k]; [by left|right; constructor|destruct ur; [by left|right; constructor]].
  - destruct sl; [by left|right; constructor].
Qed.
(** A stranger with another code posts a key-exchange frame before the ends
    do; the receiver takes it for its peer's, and in the end both fail with
    the mismatch. *)
Definition rival : bytes := encode_frame KIND_PAKE Sender (snd (start [] [Byte.x09] "room")).
Theorem collision_fails :
  exists c, rtc tstep (Topic (handshake 8 [] "room" [Byte.x07] Receiver (Fs ∅ []))
                             (handshake 8 [Byte.x01] "room" [Byte.x07] Sender (Fs ∅ [])) [] [] [] 0 [rival]) c
    /\ left_end c = Done (Err (EMsg mismatch_msg), Fs ∅ []) /\ right_end c = Done (Err (EMsg mismatch_msg), Fs ∅ []).
Proof.
  eexists. split; [apply (go_runs ([None] ++ replicate 3 (Some Receiver) ++ replicate 8 (Some Sender) ++ replicate 8 (Some Receiver)))|].
  vm_compute. split; reflexivity.
Qed.
Lemma rendezvous_mismatch_witness :
  forall j c,
    nsteps tstep j (Topic (handshake 8 [] "room" [Byte.x07] Receiver (Fs ∅ []))
                          (handshake 8 [Byte.x01] "room" [Byte.x08] Sender (Fs ∅ [])) [] [] [] 0 []) c ->
    (j <= 12)%nat
    /\ ((exists c', tstep c c')
        \/ left_end c = Done (Err (EMsg mismatch_msg), Fs ∅ []) /\ right_end c = Done (Err (EMsg mismatch_msg), Fs ∅ [])).
Proof.
  eapply (rendezvous_mismatch 8 "room" [Byte.x07] [Byte.x08] [] [Byte.x01]).
  - vm_compute. reflexivity.
  - vm_compute. reflexivity.
  - intros []; vm_compute; discriminate.
  - constructor.
  - constructor.
  - constructor.
  - constructor.
  - simpl. lia.
  - simpl. lia.
Defined.
Lemma p2p_delivers_witness :
  exists nr', file_at nr' ["out"; "f"] = Some [Byte.x41].
Proof.
  destruct (p2p_delivers 1 8 "room" [Byte.x07] [] [Byte.x01] [old] [] [old] 1 [stray]
    ["s"] {[ ["s"] := File [Byte.x41] ]} ["out"] "../f" "t" [] None [Byte.x41] (fun _ _ => mret tt) (fun _ _ => true)
    Transfer.Example.disk) as (_ & _ & k & nr' & wait & _ & _ & H1 & _);
    [lia|done|constructor|done|done|apply Transfer.Example.disk_resumable|apply old_noise|constructor|apply old_noise
    |apply stray_noise|simpl; lia|simpl; lia|].
  exists nr'. exact H1.
Defined.
End Example.
