(* ===== verification/WebRtcRun.v ===== *)
(** * Two WebRTC channels as a transport, and a session over them

    Both ends of a data channel (src/transport/webrtc.rs): [send], the
    callbacks of [wire_channel] and of the connection's state, and the queue
    [recv] drains, which holds a callback back when it is full. They keep what
    a transport promises (Transport); so a peer-to-peer session of
    src/session.rs, which meets on a topic (Topic), goes on over them. *)

From stdpp Require Import functions.
From S2P Require Import Prelude Str Libs Fs Crypto Protocol Store Archive Pake Channel Transport.
From S2P Require Import Send Stream Transfer Safety Handshake Session Topic WebRtcChannel.

(** The data channel of the crate is reliable and ordered, and calls
    [on_message] for one message after the other. What it buffers is bounded
    ([dc_room]: whether it takes one more message, given those it has not
    delivered), and so is a message. *)
Class DataChannel := {
  dc_max : Z;
  dc_room : list bytes -> bytes -> bool;
  dc_room_empty m : zlen m <= dc_max -> dc_room [] m = true;
}.
(** The places of the queue. *)
Definition RX_QUEUE : nat := 64.

Section webrtc.
Context `{DataChannel}.

(** By end: whether [establish] has returned, what is queued for [recv]; and
    what it has sent and the crate has not delivered. *)
Record link : Type := { w_open : Role -> bool; w_rx : Role -> list Item; w_wire : Role -> list bytes }.
Definition link0 : link := {| w_open := fun _ => false; w_rx := fun _ => []; w_wire := fun _ => [] |}.
Inductive link_step : link -> option (Role * action) -> link -> Prop :=
| w_opens c r :
    link_step c None {| w_open := <[r := true]> (w_open c); w_rx := w_rx c; w_wire := w_wire c |}
| w_calls c r m rest : w_wire c (peer r) = m :: rest -> (length (w_rx c r) < RX_QUEUE)%nat ->
    link_step c None {| w_open := w_open c; w_rx := <[r := w_rx c r ++ enqueue (OnMessage m)]> (w_rx c);
                        w_wire := <[peer r := rest]> (w_wire c) |}
| w_changes c r s : terminal s = false ->
    link_step c None {| w_open := w_open c; w_rx := <[r := w_rx c r ++ enqueue (OnStateChange s)]> (w_rx c); w_wire := w_wire c |}
| w_sends c r m : w_open c r = true -> dc_room (w_wire c r) m = true ->
    link_step c (Some (r, ASend m)) {| w_open := w_open c; w_rx := w_rx c; w_wire := <[r := w_wire c r ++ [m]]> (w_wire c) |}
| w_takes c r i m rest : w_open c r = true -> w_rx c r = i :: rest -> recv_item (Some i) = Ok m ->
    link_step c (Some (r, ATake m)) {| w_open := w_open c; w_rx := <[r := rest]> (w_rx c); w_wire := w_wire c |}.

Definition data_in (q : list Item) : list bytes := omap (fun i => match i with Msg m => Some m | Closed => None end) q.
Definition link_waiting (c : link) (r : Role) : list bytes := data_in (w_rx c (peer r)) ++ w_wire c r.
Definition link_inv (c : link) (_ : label) : Prop := forall r, Closed ∉ w_rx c r.
Definition link_carries (ms : label) : Prop := Forall (fun x => zlen x.2 <= dc_max) ms.

Lemma insert_same {A} (f : Role -> A) r x : <[r := x]> f r = x.
Proof. apply fn_lookup_insert. Qed.
Lemma insert_other {A} (f : Role -> A) r x : <[r := x]> f (peer r) = f (peer r).
Proof. apply fn_lookup_insert_ne, not_eq_sym, peer_ne. Qed.
Lemma insert_other' {A} (f : Role -> A) r x : <[peer r := x]> f r = f r.
Proof. apply fn_lookup_insert_ne, peer_ne. Qed.
Create Rewrite HintDb ends.
#[local] Hint Rewrite @insert_same @insert_other @insert_other' peer_peer : ends.
Lemma data_in_app a b : data_in (a ++ b) = data_in a ++ data_in b.
Proof. apply omap_app. Qed.

Lemma link_step_inv c a c' ms : link_step c a c' -> link_inv c ms -> link_inv c' (ms ++ sent_in a).
Proof.
  intros Hs Hi r'. destruct Hs as [c r|c r m rest Hw Hl|c r s Ht|c r m Ho Hr|c r i m rest Ho Hq Hm]; cbn [w_rx]; try apply Hi.
  all: destruct (role_cases r r') as [->| ->]; autorewrite with ends; try apply Hi.
  - cbn. rewrite not_elem_of_app. split; [apply Hi|]. by rewrite list_elem_of_singleton.
  - cbn. rewrite Ht, app_nil_r. apply Hi.
  - specialize (Hi r). rewrite Hq in Hi. set_solver.
Qed.
Lemma link_step_queue c a c' ms : link_step c a c' -> link_inv c ms -> queue_step (link_waiting c) a (link_waiting c').
Proof.
  intros Hs Hi. destruct Hs as [c r|c r m rest Hw Hl|c r s Ht|c r m Ho Hr|c r i m rest Ho Hq Hm]; cbn [queue_step]; unfold link_waiting; cbn [w_rx w_wire].
  - done.
  - intros r'. destruct (role_cases r r') as [->| ->]; autorewrite with ends; [done|]. by rewrite data_in_app, Hw, <- app_assoc.
  - intros r'. cbn. rewrite Ht, app_nil_r. destruct (role_cases r r') as [->| ->]; autorewrite with ends; done.
  - autorewrite with ends. by rewrite app_assoc.
  - autorewrite with ends. rewrite Hq. destruct i; [|done]. by injection Hm as ->.
Qed.
Lemma link_take_ready c ms r m l : link_inv c ms -> link_carries ms -> link_waiting c (peer r) = m :: l ->
  (length (link_waiting c r) <= 1)%nat ->
  exists c' c'', rtc (fun c c' => link_step c None c') c c' /\ link_step c' (Some (r, ATake m)) c''.
Proof.
  intros Hi _ Hq _. unfold link_waiting in Hq. rewrite peer_peer in Hq.
  pose proof (w_opens c r) as Hs1. match type of Hs1 with link_step _ _ ?c => set (c1 := c) in Hs1 end.
  destruct (w_rx c r) as [|i q] eqn:Eq.
  - cbn in Hq. assert (Hw : w_wire c1 (peer r) = m :: l) by done. assert (Hrx : w_rx c1 r = []) by done.
    do 2 eexists. split.
    + eapply rtc_l; [exact Hs1|]. eapply rtc_l; [apply (w_calls c1 r m l Hw); rewrite Hrx; unfold RX_QUEUE; simpl; lia|]. apply rtc_refl.
    + eapply (w_takes _ r (Msg m) m []); cbn; autorewrite with ends; [done|by rewrite Eq|done].
  - destruct i as [m'|]; [|by destruct (Hi r); rewrite Eq; left]. cbn in Hq. injection Hq as -> Hq.
    do 2 eexists. split; [eapply rtc_l; [exact Hs1|apply rtc_refl]|].
    eapply (w_takes c1 r (Msg m) m q); [|exact Eq|done]. cbn. by autorewrite with ends.
Qed.
Lemma link_send_ready c ms r m : link_inv c ms -> link_waiting c r = [] -> link_carries (ms ++ [(r, m)]) ->
  exists c' c'', rtc (fun c c' => link_step c None c') c c' /\ link_step c' (Some (r, ASend m)) c''.
Proof.
  intros _ Hq [_ [Hm _]%Forall_cons]%Forall_app. apply app_nil in Hq as [_ Hw].
  do 2 eexists. split; [eapply rtc_l; [apply (w_opens c r)|apply rtc_refl]|].
  apply w_sends; cbn; autorewrite with ends; [done|]. rewrite Hw. by apply dc_room_empty.
Qed.
#[local] Instance webrtc_transport : Transport.
Proof.
  refine {| tr_state := link; tr_start := link0; tr_step := link_step; tr_waiting := link_waiting; tr_inv := link_inv;
    tr_carries := link_carries; tr_start_waiting := fun r => eq_refl; tr_step_inv := link_step_inv;
    tr_step_queue := link_step_queue; tr_take_ready := link_take_ready; tr_send_ready := link_send_ready |}.
  - intros r. apply not_elem_of_nil.
  - intros a b E Ha. unfold link_carries. by rewrite <- E.
  - intros a b [Ha _]%Forall_app. exact Ha.
Defined.
End webrtc.

(** ** A session: the topic, then the transport *)

Section p2p.
Context {T : Transport} {X Y A B : Type} (kl : X -> proc A) (kr : Y -> proc B).
(** The receiver is on the left of the topic, as in Topic. *)
Inductive meeting : Type := AtTopic (t : topic X Y) | Linked (d : over B A).
Inductive meeting_step : meeting -> meeting -> Prop :=
| m_meets t t' : tstep t t' -> meeting_step (AtTopic t) (AtTopic t')
| m_connects x y ul ur ps n sl :
    meeting_step (AtTopic (Topic (Done x) (Done y) ul ur ps n sl)) (Linked (Over (kr y) (kl x) tr_start))
| m_talks d d' : over_step d d' -> meeting_step (Linked d) (Linked d').

Lemma linked_rtc d d' : rtc over_step d d' -> rtc meeting_step (Linked d) (Linked d').
Proof. induction 1 as [d|d d1 d' Hs _ IH]; [apply rtc_refl|]. eapply rtc_l; [by apply m_talks|done]. Qed.
Lemma topic_rtc t t' : rtc tstep t t' -> rtc meeting_step (AtTopic t) (AtTopic t').
Proof. induction 1 as [t|t t1 t' Hs _ IH]; [apply rtc_refl|]. eapply rtc_l; [by apply m_meets|done]. Qed.
Lemma linked_run d w : rtc meeting_step (Linked d) w -> exists d', w = Linked d' /\ rtc over_step d d'.
Proof.
  remember (Linked d) as v eqn:E. intros Hr. revert d E. induction Hr as [v|v v1 w Hs _ IH]; intros d ->; [exists d; split; [done|apply rtc_refl]|].
  inversion Hs as [| |? d1 Hd]; subst. destruct (IH d1 eq_refl) as (d' & -> & Hd'). exists d'. split; [done|]. by eapply rtc_l.
Qed.
Lemma meeting_run_splits t w : rtc meeting_step (AtTopic t) w ->
  (exists t', w = AtTopic t' /\ rtc tstep t t')
  \/ exists t' x y d, rtc tstep t t' /\ left_end t' = Done x /\ right_end t' = Done y
       /\ w = Linked d /\ rtc over_step (Over (kr y) (kl x) tr_start) d.
Proof.
  remember (AtTopic t) as v eqn:E. intros Hr. revert t E.
  induction Hr as [v|v v1 w Hs Hr IH]; intros t ->; [left; exists t; split; [done|apply rtc_refl]|].
  inversion Hs as [? t1 Ht|x y ul ur ps n sl|]; subst.
  - destruct (IH t1 eq_refl) as [(t' & -> & Ht')|(t' & x & y & d & Ht' & Hx & Hy & -> & Hd)].
    + left. exists t'. split; [done|]. by eapply rtc_l.
    + right. exists t', x, y, d. split_and!; try done. by eapply rtc_l.
  - right. destruct (linked_run _ _ Hr) as (d & -> & Hd).
    exists (Topic (Done x) (Done y) ul ur ps n sl), x, y, d. by split_and!.
Qed.

(** A topic on which every run is bounded and can go on until both are done
    with [x] and [y]. *)
Definition meets_with (t : topic X Y) (k : nat) (x : X) (y : Y) : Prop :=
  forall j t', nsteps tstep j t t' -> (j <= k)%nat
    /\ ((exists t'', tstep t' t'') \/ left_end t' = Done x /\ right_end t' = Done y)
    /\ (forall x' y', left_end t' = Done x' -> right_end t' = Done y' -> x' = x /\ y' = y).
Lemma meets_end t k x y : meets_with t k x y -> forall i j t', (k - j <= i)%nat -> nsteps tstep j t t' ->
  exists t'', rtc tstep t' t'' /\ left_end t'' = Done x /\ right_end t'' = Done y.
Proof.
  intros Hm. induction i as [|i IH]; intros j t' Hi Hj; destruct (Hm j t' Hj) as (Hk & [(t1 & Ht)|[Hx Hy]] & _).
  - destruct (Hm (S j) t1) as (Hk' & _); [by eapply nsteps_r|lia].
  - exists t'. split; [apply rtc_refl|done].
  - destruct (IH (S j) t1) as (t'' & Hr & Hxy); [lia|by eapply nsteps_r|]. exists t''. split; [by eapply rtc_l|done].
  - exists t'. split; [apply rtc_refl|done].
Qed.
Lemma meeting_delivers t k x y fin : meets_with t k x y -> carried (kr y) (kl x) -> (forall cap d, ~ step cap fin d) ->
  rtc (step 1) (Channel.Config (kr y) (kl x) [] []) fin ->
  forall w, rtc meeting_step (AtTopic t) w ->
  exists d, rtc meeting_step w (Linked d) /\ o_left d = left_proc fin /\ o_right d = right_proc fin.
Proof.
  intros Hm Hc Hfin Hrun w Hw. destruct (meeting_run_splits t w Hw) as [(t' & -> & [j Ht]%rtc_nsteps)|(t' & x' & y' & d & [j Ht]%rtc_nsteps & Hx & Hy & -> & Hd)].
  - destruct (meets_end t k x y Hm (k - j) j t' (Nat.le_refl _) Ht) as (t'' & Ht'' & Hx & Hy).
    destruct (over_delivers _ _ fin Hc Hfin Hrun _ (rtc_refl _ _)) as (d & Hd & E1 & E2).
    exists d. split; [|done]. etrans; [by apply topic_rtc|]. destruct t'' as [l r ul ur ps n sl]. cbn [left_end right_end] in Hx, Hy. subst.
    eapply rtc_l; [apply m_connects|by apply linked_rtc].
  - destruct (Hm j t' Ht) as (_ & _ & Hd'). destruct (Hd' x' y' Hx Hy) as [-> ->].
    destruct (over_delivers _ _ fin Hc Hfin Hrun d Hd) as (d' & Hr & E1 & E2). exists d'. split; [by apply linked_rtc|done].
Qed.
End p2p.
Arguments meeting {T} X Y A B.

(** ** Property *)

(** C5: A peer-to-peer session delivers over its own transport: two ends with
    one code, [receive_p1] and [send_p1], which meet on a public topic, with
    strangers' frames in any order and some frames delivered twice, none of
    the strangers' being a frame of the key exchange itself (one of those can
    end it: see [Topic.Example.collision_fails]), and then go on over the two WebRTC channels, whose queues hold callbacks back and
    whose buffers make a sender wait, can be brought, from wherever a run has
    come, to where the sender has reported completion and the receiver has the
    file in place, waiting only for the connection to end, whatever comes of
    that wait. The receiver accepts the manifest, its disk can be resumed
    from and has no faults, and no frame may be too long for a data channel. *)
Theorem p2p_over_webrtc `{Spake2} `{Aead} `{Blake3} `{!Serde Manifest} `{!Serde StreamManifestAck}
    `{!Serde Commit} `{!Serde CommitAck} `{!Serde State} `{DataChannel}
    fuel room secret rR rS ul ur ps n sl src ns out nm tid es sp content tar accept nr :
  zlen content < U64 -> Forall (fun e => u64_ok (e_size e)) es ->
  file_at ns src = Some content ->
  accept nr (stream_manifest (Blob KFile nm es (zlen content) tid src sp)) = true ->
  resumable out (safe_name nm) tid STREAM_FRAME_SIZE content nr ->
  Forall noise ul -> Forall noise ur -> Forall noise ps -> Forall noise sl ->
  (length ul + length sl + n + 4 < fuel)%nat -> (length ur + length sl + n + 4 < fuel)%nat ->
  let source := Blob KFile nm es (zlen content) tid src sp in
  let receiver := receive_p1_rest tar out accept in
  let sender := send_p1_rest source in
  (forall key, finish (fst (start rR secret room)) (snd (start rS secret room)) = Ok key ->
     carried (T := webrtc_transport) (sender (Ok key, Fs ns [])) (receiver (Ok key, Fs nr []))) ->
  receive_p1 tar (mret tt) fuel rR room secret out accept (Fs nr [])
    = proc_bind (handshake fuel rR room secret Receiver (Fs nr [])) receiver
  /\ send_p1 (mret tt) fuel rS room secret source (Fs ns [])
    = proc_bind (handshake fuel rS room secret Sender (Fs ns [])) sender
  /\ exists nr' wait,
    (forall w, rtc (meeting_step (T := webrtc_transport) receiver sender)
        (AtTopic (Topic (handshake fuel rR room secret Receiver (Fs nr [])) (handshake fuel rS room secret Sender (Fs ns []))
                     ul ur ps n sl)) w ->
      exists d, rtc (meeting_step receiver sender) w (Linked d)
        /\ o_left d = Done (Ok "transfer complete", Fs ns []) /\ o_right d = Recv wait)
    /\ (forall r, wait r = Done (Ok ("saved " +:+ display (out ++ [safe_name nm])), Fs nr' []))
    /\ file_at nr' (out ++ [safe_name nm]) = Some content
    /\ (forall q, partial_dir out (safe_name nm) `prefix_of` q -> nr' !! q = None).
Proof.
  intros Hlen Hes Hsrc Hacc Hres Hul Hur Hps Hsl H1' H2' source receiver sender Hcar.
  split; [apply receive_p1_splits|]. split; [apply send_p1_splits|].
  destruct (finish_agree secret room rR rS) as (key & HA & HB).
  destruct (p1_exec key 1 src ns out nm tid es sp content tar accept nr (Nat.le_refl _) Hlen Hes Hsrc Hacc Hres)
    as (nr' & Hk%(rtc_swap 1) & Hfile & Hgone). cbn [left_proc right_proc to_left to_right] in Hk.
  exists nr'. eexists. split; [|split; [|done]]; [|intros r; reflexivity]. intros w Hw.
  pose proof (exchange_runs _ _ _ _ _ _ _ _ (Fs nr []) (Fs ns []) _ _ _ _ _ HA HB Hul Hur Hps Hsl H1' H2') as Hmeet.
  unfold rv_verdict in Hmeet. rewrite !verify_own in Hmeet.
  destruct (fun Hfin => meeting_delivers receiver sender _ _ _ _ _ Hmeet (Hcar key HA) Hfin Hk w Hw) as (d & Hd & E1 & E2);
    [intros cap d; by inversion 1|].
  exists d. by split_and!.
Qed.

Module Example.
#[local] Existing Instances Toy.spake2 Toy.aead Toy.blake3 Transfer.Example.toy_manifest Transfer.Example.toy_ack
  Transfer.Example.toy_commit Transfer.Example.toy_commit_ack Transfer.Example.toy_state.
(** A data channel that takes a message when it holds none. *)
#[local] Instance one_at_a_time : DataChannel := {|
  dc_max := 65536; dc_room q m := match q with [] => zlen m <=? 65536 | _ => false end;
  dc_room_empty m := proj2 (Z.leb_le (zlen m) 65536) |}.
Definition link_carriesb (ms : label) : bool := forallb (fun x => zlen x.2 <=? dc_max) ms.
Lemma link_carriesb_spec ms : link_carriesb ms = true -> link_carries ms.
Proof.
  unfold link_carriesb. rewrite forallb_forall. intros Hf. apply Forall_forall. intros x Hx%list_elem_of_In. by apply Z.leb_le, Hf.
Qed.
Lemma p2p_over_webrtc_witness :
  exists nr', file_at nr' ["out"; "f"] = Some [Byte.x41].
Proof.
  destruct (p2p_over_webrtc 8 "room" [Byte.x07] [] [Byte.x01] [Topic.Example.old] [] [Topic.Example.old] 1 [Topic.Example.stray]
    ["s"] {[ ["s"] := File [Byte.x41] ]} ["out"] "../f" "t" [] None [Byte.x41] (fun _ _ => mret tt) (fun _ _ => true)
    Transfer.Example.disk) as (_ & _ & nr' & wait & _ & _ & H1 & _);
    [done|constructor|done|done|apply Transfer.Example.disk_resumable|apply Topic.Example.old_noise|constructor|apply Topic.Example.old_noise
    |apply Topic.Example.stray_noise|simpl; lia|simpl; lia| |].
  - intros key Hk. vm_compute in Hk. injection Hk as <-.
    apply (drives_carried link_carriesb 100); [apply link_carriesb_spec|vm_compute; reflexivity].
  - exists nr'. exact H1.
Defined.
End Example.
