(* ===== verification/Interleave.v ===== *)
(** * src/server.rs, a call at a time

    axum serves requests in parallel. The handlers of chunks, of the status
    and of the commit hold the mutex of the transfer from beginning to end;
    that of the manifest works outside it until it installs the store it has
    opened. Here every request is a task, and between any two of its calls on
    the disk any other task may run, as the mutex allows. [fs::write] is two
    calls, one that creates or empties the file and one that writes; the
    handle in between stays with its file when that is renamed or removed.
    The other files a request has open are under their paths: the development
    speaks of a store up to the moment its file lands. *)

From S2P Require Import Prelude Str Libs Fs Crypto Protocol Store Archive Stream Server.

(** ** Tasks *)

(** Who saves a state file: [open_or_create], or [write_chunk] of a chunk of
    this length. *)
Inductive job : Type := ForManifest (m : Manifest) | ForChunk (len : Z).

(** A request between two calls:
    - a manifest: waiting for the decision, it being known whether the
      destination exists; accepted; with the staging directory; with what the
      state file lists; with [data] open; with [data] of the right length;
      with the store open, waiting for the mutex;
    - saving the state file: about to create the temporary one; about to
      write to it, by a handle that is at this path, if still anywhere; about
      to rename it;
    - a commit: with the hash checked; with the data moved or unpacked. *)
Inductive task : Type :=
| Arrived (rq : request)
| Asked (m : Manifest) (dest_exists : bool)
| Making (m : Manifest) | Reading (m : Manifest)
| Loading (m : Manifest) (st : State) | Sizing (m : Manifest) (st : State)
| Opened (m : Manifest) (st : Store)
| Saving (j : job) (st : Store) | Filling (j : job) (st : Store) (handle : option path) | Placing (j : job) (st : Store)
| Moving (act : ActiveTransfer) | Clearing (act : ActiveTransfer)
| Answered (r : res Response).

Section tasks.
Context `{Aead} `{Blake3} `{Base58} `{!Serde Manifest} `{!Serde Commit} `{!Serde State}.
Variable tar : bytes -> path -> io unit.
Variable ask : string -> option (option bool).

Definition reply_with (r : Response) : srv task := mret (Answered (Ok r)).
(** A call whose [Result] decides how the task goes on. *)
Definition call {A} (m : io A) (ok : A -> srv task) (err : error -> srv task) : srv task :=
  r ← srv_try m;
  match r with Ok x => ok x | Err e => err e | Panic => reply_with (Status 500) end.

(** *** [handle_manifest] *)

Definition begin_manifest (body : bytes) : srv task :=
  a ← get;
  match open_json (T := Manifest) (key a) DManifest [] body with
  | Ok m =>
      if negb (version m =? PROTOCOL_VERSION) then reply_with refused else
      dest_exists ← look (fun s => path_exists s (join (out_dir (cfg a)) (safe_name (name m))));
      mret (Asked m dest_exists)
  | _ => reply_with (Status 400)
  end.
Definition decided (m : Manifest) (dest_exists : bool) : srv task :=
  a ← get;
  match decide_accept ask (cfg a) m dest_exists with
  | None => reply_with (Status 503)
  | Some false => reply_with refused
  | Some true =>
      if bool_decide (kind m = KText) then
        _ ← modify (send_event (TextEvent (default "" (text m))));
        _ ← modify (send_event (DoneEvent "text received"));
        _ ← modify cancel_soon;
        reply_with (JsonManifestAck {| ma_accepted := true; ma_complete := true; ma_have := [] |})
      else mret (Making m)
  end.
Definition cannot_open (e : error) : srv task :=
  _ ← modify (send_event (Failed ("cannot open store: " +:+ error_to_string e)));
  reply_with (Status 500).
(** The staging directory of a manifest. *)
Definition staging (a : App) (m : Manifest) : path := join (out_dir (cfg a)) (safe_name (name m) +:+ ".b2p-partial").
(** [open_or_create], a call at a time. *)
Definition make_dir (m : Manifest) : srv task :=
  a ← get; call (create_dir_all (staging a m)) (fun _ => mret (Reading m)) cannot_open.
Definition read_state (m : Manifest) : srv task :=
  a ← get;
  call (io_try (fs_read (join (staging a m) "state.json")))
    (fun r => mret (Loading m (load_state r (mf_transfer_id m) (mf_total_size m) (mf_chunk_size m)))) cannot_open.
Definition open_file (m : Manifest) (st : State) : srv task :=
  a ← get;
  call (open_rw (join (staging a m) "data") (bool_decide (st_have st = ∅))) (fun _ => mret (Sizing m st)) cannot_open.
Definition size_file (m : Manifest) (st : State) : srv task :=
  a ← get;
  let d := staging a m in
  call (file_set_len (join d "data") (mf_total_size m))
    (fun _ => mret (Saving (ForManifest m)
       {| dir := d; data_path := join d "data"; state_path := join d "state.json"; state := st |})) cannot_open.
Definition install (m : Manifest) (st : Store) : srv task :=
  _ ← modify (set_transfer (Some {| manifest := m; store := st |}));
  reply_with (JsonManifestAck {| ma_accepted := true; ma_complete := false; ma_have := have st |}).

(** *** [persist_state] *)

Definition saved_for (j : job) (st : Store) : srv task :=
  match j with
  | ForManifest m =>
      _ ← modify (send_event (Accepted (safe_name (name m)) (mf_total_size m))); mret (Opened m st)
  | ForChunk len => _ ← modify (send_event (Progress len)); reply_with (Status 200)
  end.
Definition save_failed (j : job) (e : error) : srv task :=
  match j with
  | ForManifest _ => cannot_open e
  | ForChunk _ => reply_with (StatusText 400 (error_to_string e))
  end.
(** [File::create]: as [OpenOptions] with [create] and [truncate]. *)
Definition create_tmp (j : job) (st : Store) : srv task :=
  call (open_rw (tmp_path st) true) (fun _ => mret (Filling j st (Some (tmp_path st)))) (save_failed j).
(** [write_all] at the start of the file the handle is at; that of a removed
    file is lost. *)
Definition write_handle (h : option path) (b : bytes) : io unit :=
  match h with
  | Some p => file_write_at p 0 b
  | None => sys (fun n => (Ok tt, n)) (fun _ n => n)
  end.
Definition fill_tmp (j : job) (st : Store) (h : option path) : srv task :=
  call (write_handle h (to_vec (state st))) (fun _ => mret (Placing j st)) (save_failed j).
Definition place_tmp (j : job) (st : Store) : srv task :=
  call (fs_rename (tmp_path st) (state_path st)) (fun _ => saved_for j st) (save_failed j).

(** *** [handle_chunk] *)

(** [write_chunk] up to [persist_state]. *)
Definition put_chunk (s : Store) (index : Z) (plaintext : bytes) : io Store :=
  n ← io_lift (total_chunks s);
  if n <=? index then io_lift (Err (EMsg ("chunk index " +:+ show index +:+ " out of range")))
  else
    el ← io_lift (expected_len s index);
    if negb (zlen plaintext =? el) then
      io_lift (Err (EMsg ("chunk " +:+ show index +:+ " has wrong length "
                          +:+ show (zlen plaintext) +:+ " (expected " +:+ show el +:+ ")")))
    else
      _ ← file_write_at (data_path s) (index * st_chunk_size (state s))%u64 plaintext;
      mret (insert_have index s).
Definition begin_chunk (index : Z) (body : bytes) : srv task :=
  a ← get;
  match transfer a with
  | None => reply_with (Status 409)
  | Some active =>
      match open (key a) DData index (as_bytes (mf_transfer_id (manifest active))) body with
      | Ok plaintext =>
          call (put_chunk (store active) index plaintext)
            (fun s => _ ← modify (set_transfer (Some {| manifest := manifest active; store := s |}));
                      mret (Saving (ForChunk (zlen plaintext)) s))
            (fun e => reply_with (StatusText 400 (error_to_string e)))
      | _ => reply_with (Status 400)
      end
  end.

(** *** [handle_commit] *)

Definition commit_failed (e : error) : srv task :=
  _ ← modify (send_event (Failed (error_to_string e)));
  reply_with (JsonCommitAck {| ca_ok := false; ca_error := Some (error_to_string e) |}).
(** [finalize] up to the hash. *)
Definition verify (active : ActiveTransfer) (commit : Commit) : io unit :=
  d ← io_lift (is_complete (store active));
  if negb d then
    n ← io_lift (total_chunks (store active));
    io_lift (Err (EMsg ("transfer incomplete: " +:+ show (zlen (have (store active))) +:+ "/" +:+ show n +:+ " chunks")))
  else
    actual ← file_hash (store active);
    if negb (String.eqb actual (blake3_hex commit))
    then io_lift (Err (EMsg "integrity check failed: hash mismatch")) else mret tt.
Definition begin_commit (body : bytes) : srv task :=
  a ← get;
  match transfer a with
  | None => reply_with (Status 409)
  | Some active =>
      match open_json (T := Commit) (key a) DCommit (as_bytes (mf_transfer_id (manifest active))) body with
      | Ok commit =>
          _ ← modify (set_transfer None); call (verify active commit) (fun _ => mret (Moving active)) commit_failed
      | _ => reply_with (Status 400)
      end
  end.
(** [rename], or [unpack_tar], a call of the tar library. *)
Definition move (c : ServerCfg) (act : ActiveTransfer) : io unit :=
  match kind (manifest act) with
  | KFile =>
      let dest := join (out_dir c) (safe_name (name (manifest act))) in
      io_context ("moving download into place at " +:+ display dest) (fs_rename (data_path (store act)) dest)
  | KTar => unpack_tar tar (data_path (store act)) (out_dir c)
  | KText => io_lift Panic
  end.
Definition move_data (active : ActiveTransfer) : srv task :=
  a ← get; call (move (cfg a) active) (fun _ => mret (Clearing active)) commit_failed.
Definition clear (active : ActiveTransfer) : srv task :=
  a ← get;
  call (remove_dir_all (dir (store active)))
    (fun _ =>
       _ ← modify (send_event (DoneEvent (match kind (manifest active) with
            | KFile => "saved " +:+ display (join (out_dir (cfg a)) (safe_name (name (manifest active))))
            | _ => "unpacked archive into " +:+ display (out_dir (cfg a)) end)));
       _ ← modify cancel_soon;
       reply_with (JsonCommitAck {| ca_ok := true; ca_error := None |})) commit_failed.

(** *** The next call of a task *)

(** The request passes the authentication and the body limit. *)
Definition admitted (a : App) (rq : request) (body : bytes) : bool :=
  authorized a (authorization rq) && negb (BODY_LIMIT <? zlen body).
Definition serve_now (rq : request) : srv task := r ← serve tar ask rq; reply_with r.
(** A request that makes no call on the disk is served at once. *)
Definition arrive (rq : request) : srv task :=
  a ← get;
  match rt rq with
  | PostManifest body => if admitted a rq body then begin_manifest body else serve_now rq
  | PutChunk seg body =>
      match parse_uint (U64 - 1) seg with
      | Some index => if admitted a rq body then begin_chunk index body else serve_now rq
      | None => serve_now rq
      end
  | PostCommit body => if admitted a rq body then begin_commit body else serve_now rq
  | _ => serve_now rq
  end.
Definition advance (t : task) : srv task :=
  match t with
  | Arrived rq => arrive rq
  | Asked m dest_exists => decided m dest_exists
  | Making m => make_dir m
  | Reading m => read_state m
  | Loading m st => open_file m st
  | Sizing m st => size_file m st
  | Opened m st => install m st
  | Saving j st => create_tmp j st
  | Filling j st h => fill_tmp j st h
  | Placing j st => place_tmp j st
  | Moving act => move_data act
  | Clearing act => clear act
  | Answered r => mret (Answered r)
  end.
(** What a call leaves of its task: a panic ends it. *)
Definition settle (r : res task) : task :=
  match r with Ok t => t | Err e => Answered (Err e) | Panic => Answered Panic end.

(** The mutex: the tasks that hold it between two calls, and those whose next
    call needs it. *)
Definition holds_lock (t : task) : bool :=
  match t with
  | Saving (ForChunk _) _ | Filling (ForChunk _) _ _ | Placing (ForChunk _) _ | Moving _ | Clearing _ => true
  | _ => false
  end.
Definition wants_lock (a : App) (t : task) : bool :=
  match t with
  | Arrived rq =>
      match rt rq with
      | PutChunk seg body => bool_decide (is_Some (parse_uint (U64 - 1) seg)) && admitted a rq body
      | GetStatus => authorized a (authorization rq)
      | PostCommit body => admitted a rq body
      | _ => false
      end
  | Opened _ _ => true
  | _ => false
  end.

(** Where a handle is after another task's call. *)
Definition follow_handle (t : task) (n n' : gmap path node) (h : option path) : option path :=
  p ← h;
  match t with
  | Placing _ st =>
      if bool_decide (is_Some (n !! tmp_path st)) && bool_decide (n' !! tmp_path st = None) then
        if bool_decide (p = tmp_path st) then Some (state_path st)
        else if bool_decide (p = state_path st) then None else Some p
      else Some p
  | _ => if bool_decide (is_Some (n' !! p)) then Some p else None
  end.
Definition refollow (t : task) (n n' : gmap path node) (x : task) : task :=
  match x with Filling j st h => Filling j st (follow_handle t n n' h) | _ => x end.

(** ** Interleavings

    The application, the disk and the tasks. A call meets any faults; but the
    read of a state file that is there does not fail. *)

Definition world : Type := (App * gmap path node) * list task.
Definition fair (t : task) (fl : list fault) : Prop :=
  match t with Reading _ => fl = [] \/ exists fl', fl = NoFault :: fl' | _ => True end.
Definition step_at (i : nat) (fl : list fault) (w : world) : option world :=
  let '((a, n), ts) := w in
  t ← ts !! i;
  if wants_lock a t && existsb holds_lock ts then None else
  let '(r, (a', s')) := advance t (a, Fs n fl) in
  Some ((a', nodes s'), map (refollow t n (nodes s')) (<[i := settle r]> ts)).
Inductive cstep : world -> world -> Prop :=
| one_call i fl t w w' : w.2 !! i = Some t -> fair t fl -> step_at i fl w = Some w' -> cstep w w'.

(** A task that has made the temporary state file and not yet renamed it, and
    one about to make it. *)
Definition persisting (t : task) : bool := match t with Filling _ _ _ | Placing _ _ => true | _ => false end.
Definition saving (t : task) : bool := match t with Saving _ _ => true | _ => false end.
(** The steps in which no two tasks make a state file at once: as if
    [persist_state] had a mutex of its own. *)
Definition in_turn (ts : list task) (t : task) : bool := negb (saving t && existsb persisting ts).
Inductive xstep : world -> world -> Prop :=
| one_call_in_turn i fl t w w' :
    w.2 !! i = Some t -> fair t fl -> in_turn w.2 t = true -> step_at i fl w = Some w' -> xstep w w'.

(** An executable schedule: the tasks in the order they go on, no fault; one
    that cannot is passed over. *)
Fixpoint run_schedule (order : list nat) (w : world) : world :=
  match order with
  | [] => w
  | i :: order' => run_schedule order' (default w (step_at i [] w))
  end.
Lemma run_schedule_steps order w : rtc cstep w (run_schedule order w).
Proof.
  revert w. induction order as [|i order IH]; intros w; [done|]. cbn [run_schedule].
  destruct (step_at i [] w) as [w'|] eqn:E; [|apply IH]. eapply rtc_l; [|apply IH].
  destruct w as [[a n] ts]. cbn [step_at] in E. destruct (ts !! i) as [t|] eqn:Et; [|done].
  eapply (one_call i [] t); [exact Et|destruct t; try done; by left|]. cbn [step_at]. by rewrite Et.
Qed.

(** The schedule takes turns. *)
Fixpoint takes_turns (order : list nat) (w : world) : bool :=
  match order with
  | [] => true
  | i :: order' =>
      match w.2 !! i with Some t => in_turn w.2 t | None => true end
      && takes_turns order' (default w (step_at i [] w))
  end.
Lemma takes_turns_steps order w : takes_turns order w = true -> rtc xstep w (run_schedule order w).
Proof.
  revert w. induction order as [|i order IH]; intros w; [done|]. cbn [run_schedule takes_turns].
  intros [H1' H2']%andb_true_iff. destruct (step_at i [] w) as [w'|] eqn:E; [|by apply IH]. eapply rtc_l; [|by apply IH].
  destruct w as [[a n] ts]. cbn [step_at snd] in *. destruct (ts !! i) as [t|] eqn:Et; [|done].
  eapply (one_call_in_turn i [] t); [exact Et|destruct t; try done; by left|done|cbn [step_at]; by rewrite Et].
Qed.

(** ** A request alone is served as in [Server] *)

(** A task on its own, without faults. *)
Fixpoint solo (k : nat) (t : task) (w : App * gmap path node) : task * (App * gmap path node) :=
  match k with
  | O => (t, w)
  | S k' =>
      let '(r, (a', s')) := advance t (w.1, Fs w.2 []) in
      solo k' (refollow t w.2 (nodes s') (settle r)) (a', nodes s')
  end.
Lemma lock_own a t : wants_lock a t && existsb holds_lock [t] = false.
Proof. by destruct t as [rq| | | | | | |[]|[]|[]| | |]; cbn [existsb holds_lock]; rewrite ?andb_false_r. Qed.
Lemma solo_schedule k t w : run_schedule (replicate k 0%nat) (w, [t]) = ((solo k t w).2, [(solo k t w).1]).
Proof.
  revert t w. induction k as [|k IH]; intros t [a n]; [done|]. cbn [replicate run_schedule solo].
  cbn [step_at lookup list_lookup]. change (([t] : list task) !! 0%nat) with (Some t). unfold mbind, option_bind. rewrite lock_own. cbn [fst snd].
  destruct (advance t (a, Fs n [])) as [r [a' s']]. cbn [default map]. apply IH.
Qed.
Lemma solo_answered k r w : solo k (Answered r) w = (Answered r, w).
Proof. revert w. induction k as [|k IH]; intros [a n]; [done|apply IH]. Qed.

Lemma solo_step k t w :
  solo (S k) t w = let '(r, (a', s')) := advance t (w.1, Fs w.2 []) in
    solo k (refollow t w.2 (nodes s') (settle r)) (a', nodes s').
Proof. done. Qed.
(** The answer and what is left. *)
Definition then_answer (w : res Response * (App * fs)) : task * (App * gmap path node) :=
  let '(x, (a', s')) := w in (Answered x, (a', nodes s')).
Lemma solo_more k k' t w o : solo k t w = then_answer o -> solo (k + k') t w = solo k t w.
Proof.
  revert t w. induction k as [|k IH]; intros t w.
  - cbn [solo Nat.add]. destruct o as [x [a' s']]. intros [= -> ->]. apply solo_answered.
  - cbn [Nat.add]. rewrite !solo_step. destruct (advance t (w.1, Fs w.2 [])) as [r [a' s']]. apply IH.
Qed.
Lemma call_spec {A} (m : io A) ok err a s :
  call m ok err (a, s) = match m s with
    | (Ok x, s') => ok x (a, s') | (Err e, s') => err e (a, s') | (Panic, s') => (Panic, (a, s')) end.
Proof. unfold call, mbind, srv_bind, srv_try. cbn [fst snd]. by destruct (m s) as [[x|e|] s']. Qed.
Lemma get_spec {A} (f : App -> srv A) w : (get ≫= f) w = f w.1 w.
Proof. done. Qed.
Lemma save_failed_answers j e a s : exists r a', save_failed j e (a, s) = (Ok (Answered r), (a', s)).
Proof. destruct j; [by eexists _, _|by eexists _, _]. Qed.
Lemma saved_for_keeps j st a s :
  (saved_for j st (a, s)).2.2 = s /\ forall t n n', refollow t n n' (settle (saved_for j st (a, s)).1) = settle (saved_for j st (a, s)).1.
Proof. by destruct j. Qed.
(** What [persist_state] leads to. *)
Definition after_persist (j : job) (st : Store) (w : res unit * fs) (a : App) : res task * (App * fs) :=
  match w with
  | (Ok _, s) => saved_for j st (a, s) | (Err e, s) => save_failed j e (a, s) | (Panic, s) => (Panic, (a, s))
  end.
Lemma persist_alone k j st a n :
  solo (3 + k) (Saving j st) (a, n)
  = let '(r, (a', s')) := after_persist j st (persist_state st (Fs n [])) a in solo k (settle r) (a', nodes s').
Proof.
  assert (Hno : forall e s, solo (2 + k) (settle (save_failed j e (a, s)).1) ((save_failed j e (a, s)).2.1, nodes s)
    = let '(r, (a', s')) := save_failed j e (a, s) in solo k (settle r) (a', nodes s')).
  { intros e s. destruct (save_failed_answers j e a s) as (r & a' & ->). cbn [fst snd settle]. by rewrite !solo_answered. }
  assert (Hfail : forall e s u m m' k', solo k' (refollow u m m' (settle (save_failed j e (a, s)).1)) = solo k' (settle (save_failed j e (a, s)).1)).
  { intros e s u m m' k'. by destruct (save_failed_answers j e a s) as (r & a' & ->). }
  assert (Hwr : forall b : bytes, write_at 0 b [] = b) by (intros b; unfold write_at; cbn; by rewrite drop_nil, app_nil_r).
  change (3 + k)%nat with (S (2 + k)). rewrite solo_step. cbn [advance fst snd]. unfold create_tmp. rewrite call_spec.
  unfold persist_state, fs_write, open_rw, sys, put_file, mbind, io_bind. cbn [faults nodes].
  set (p := tmp_path st). set (x := to_vec (state st)).
  assert (Hgo : forall n1, n1 = upd n p [] -> 
    solo (2 + k) (refollow (Saving j st) n n1 (settle (Ok (Filling j st (Some p))))) (a, n1)
    = let '(r, (a', s')) := after_persist j st (fs_rename p (state_path st) (Fs (upd n p x) [])) a in solo k (settle r) (a', nodes s')).
  { intros n1 ->. cbn [settle refollow follow_handle mbind option_bind]. rewrite lookup_insert_eq. cbn [bool_decide].
    rewrite bool_decide_true by done. change (2 + k)%nat with (S (S k)). rewrite solo_step. cbn [advance fst snd].
    unfold fill_tmp. rewrite call_spec. unfold write_handle, file_write_at, sys, on_file. cbn [faults nodes].
    rewrite lookup_insert_eq, insert_insert_eq, Hwr. unfold mret at 1, srv_ret at 1. cbn [settle refollow nodes]. rewrite solo_step. cbn [advance fst snd].
    unfold place_tmp. rewrite call_spec. fold p x. unfold after_persist.
    destruct (fs_rename p (state_path st) (Fs (upd n p x) [])) as [[[]|e|] s'].
    - destruct (saved_for_keeps j st a s') as [E1 E2]. destruct (saved_for j st (a, s')) as [r [a' s2]]. cbn [fst snd] in *. by rewrite E2.
    - pose proof (Hfail e s' (Placing j st) (upd n p x)) as E. destruct (save_failed j e (a, s')) as [r [a' s2]]. cbn [fst snd] in *. by rewrite E.
    - done. }
  destruct (n !! p) as [[|c]|]; [|exact (Hgo _ eq_refl)|].
  - cbn [after_persist]. pose proof (Hno (EIo "Is a directory") (Fs n [])) as E.
    destruct (save_failed_answers j (EIo "Is a directory") a (Fs n [])) as (r & a' & E'). rewrite E' in E |- *. exact E.
  - destruct (is_dir n (parent p)); [exact (Hgo _ eq_refl)|]. cbn [after_persist].
    pose proof (Hno (EIo "No such file or directory") (Fs n [])) as E.
    destruct (save_failed_answers j (EIo "No such file or directory") a (Fs n [])) as (r & a' & E'). rewrite E' in E |- *. exact E.
Qed.

Lemma serve_now_alone k rq a n : solo k (settle (serve_now rq (a, Fs n [])).1)
    ((serve_now rq (a, Fs n [])).2.1, nodes (serve_now rq (a, Fs n [])).2.2) = then_answer (serve tar ask rq (a, Fs n [])).
Proof.
  unfold serve_now, mbind, srv_bind. destruct (serve tar ask rq (a, Fs n [])) as [[x|e|] [a' s']]; apply solo_answered.
Qed.
Lemma opening_alone m a n (st : State) :
  solo 6 (Loading m st) (a, n)
  = then_answer (match open_data (staging a m) (mf_total_size m) st (Fs n []) with
      | (Ok st, s1) => (Ok (JsonManifestAck {| ma_accepted := true; ma_complete := false; ma_have := have st |}),
          (set_transfer (Some {| manifest := m; store := st |}) (send_event (Accepted (safe_name (name m)) (mf_total_size m)) a), s1))
      | (Err e, s1) => (Ok (Status 500), (send_event (Failed ("cannot open store: " +:+ error_to_string e)) a, s1))
      | (Panic, s1) => (Panic, (a, s1)) end).
Proof.
  rewrite solo_step. cbn [advance fst snd]. unfold open_file, get, mbind at 1, srv_bind at 1. cbn [fst snd]. rewrite call_spec.
  unfold open_data, mbind, io_bind.
  assert (E1 : exists r n1, open_rw (join (staging a m) "data") (bool_decide (st_have st = ∅)) (Fs n []) = (r, Fs n1 [])).
  { unfold open_rw, sys. cbn [faults nodes]. destruct (put_file _ _ n) as [r n1]. by exists r, n1. }
  destruct E1 as (r & n1 & ->). destruct r as [[]|e|]; [|by cbn; rewrite ?solo_answered..]. cbn [mret srv_ret settle refollow nodes].
  rewrite solo_step. cbn [advance fst snd]. unfold size_file, get, mbind at 1, srv_bind at 1. cbn [fst snd]. rewrite call_spec.
  assert (E2 : exists r n2, file_set_len (join (staging a m) "data") (mf_total_size m) (Fs n1 []) = (r, Fs n2 [])).
  { unfold file_set_len, sys. cbn [faults nodes]. destruct (on_file _ _ n1) as [r n2]. by exists r, n2. }
  destruct E2 as (r & n2 & ->). destruct r as [[]|e|]; [|by cbn; rewrite ?solo_answered..]. cbn [mret srv_ret settle refollow nodes].
  rewrite (persist_alone 1). unfold after_persist.
  destruct (persist_state _ (Fs n2 [])) as [[[]|e|] s3]; done.
Qed.
Lemma manifest_alone body a n :
  let o := begin_manifest body (a, Fs n []) in
  solo 9 (settle o.1) (o.2.1, nodes o.2.2) = then_answer (handle_manifest ask body (a, Fs n [])).
Proof.
  unfold begin_manifest, handle_manifest, reply_with, get, look, mbind, srv_bind, mret, srv_ret. cbn [fst snd].
  destruct (open_json (key a) DManifest [] body) as [m|e|]; [|reflexivity..].
  destruct (negb (version m =? PROTOCOL_VERSION)); [reflexivity|]. cbn [fst snd settle]. rewrite solo_step.
  cbn [advance fst snd nodes]. unfold decided, reply_with, get, mbind, srv_bind, mret, srv_ret. cbn [fst snd].
  destruct (decide_accept ask (cfg a) m _) as [[]|]; [|reflexivity..].
  case_bool_decide; [reflexivity|]. cbn [settle refollow nodes]. rewrite solo_step. cbn [advance fst snd].
  unfold make_dir, get, mbind at 1, srv_bind at 1. cbn [fst snd]. rewrite call_spec.
  unfold srv_try, open_or_create, mbind, io_bind. cbn [fst snd]. fold (staging a m).
  assert (E1 : exists r n1, create_dir_all (staging a m) (Fs n []) = (r, Fs n1 [])).
  { unfold create_dir_all, sys. cbn [faults nodes]. destruct (mkdirs _ n) as [r n1]. by exists r, n1. }
  destruct E1 as (r & n1 & ->). destruct r as [[]|e|]; [|by cbn; rewrite ?solo_answered..].
  cbn [mret srv_ret settle refollow nodes]. rewrite solo_step. cbn [advance fst snd].
  unfold read_state, get, mbind at 1, srv_bind at 1. cbn [fst snd]. rewrite call_spec.
  assert (E2 : exists r, io_try (fs_read (join (staging a m) "state.json")) (Fs n1 []) = (Ok r, Fs n1 [])).
  { unfold io_try, fs_read, sys. cbn [faults nodes]. destruct (n1 !! _) as [[]|]; by eexists. }
  destruct E2 as (r & ->). cbn [mret srv_ret settle refollow nodes].
  unfold mret, srv_ret. cbn [settle refollow nodes]. rewrite opening_alone.
  destruct (open_data _ _ _ (Fs n1 [])) as [[st|e|] s1]; reflexivity.
Qed.
Lemma write_chunk_split st i p s :
  write_chunk st i p s = match put_chunk st i p s with
    | (Ok st1, s1) => let (r, s2) := persist_state st1 s1 in ((r, st1), s2)
    | (Err e, s1) => ((Err e, st), s1) | (Panic, s1) => ((Panic, st), s1) end.
Proof.
  unfold write_chunk, put_chunk, io_lift, mbind, io_bind. destruct (total_chunks st) as [n|e|]; [|done..].
  destruct (n <=? i); [done|]. destruct (expected_len st i) as [el|e|]; [|done..]. destruct (negb (zlen p =? el)); [done|].
  by destruct (file_write_at _ _ _ s) as [[[]|e|] s1].
Qed.
Lemma chunk_alone i body a n :
  let o := begin_chunk i body (a, Fs n []) in
  solo 3 (settle o.1) (o.2.1, nodes o.2.2) = then_answer (handle_chunk i body (a, Fs n [])).
Proof.
  unfold begin_chunk, handle_chunk, reply_with. rewrite !get_spec. cbn [fst snd].
  destruct (transfer a) as [act|] eqn:Ea; [|reflexivity].
  destruct (open _ _ _ _ _) as [p|e|]; [|reflexivity..]. rewrite call_spec. unfold srv_write, mbind, srv_bind. cbn [fst snd].
  rewrite write_chunk_split.
  assert (Esame : set_transfer (Some {| manifest := manifest act; store := store act |}) a = a).
  { destruct a; cbn in *. unfold set_transfer. cbn. rewrite Ea. by destruct act. }
  assert (E1 : exists r n1, put_chunk (store act) i p (Fs n []) = (r, Fs n1 [])).
  { unfold put_chunk, io_lift, mbind, io_bind. destruct (total_chunks _); [|by eexists _, _..].
    destruct (_ <=? _); [by eexists _, _|]. destruct (expected_len _ _); [|by eexists _, _..]. destruct (negb _); [by eexists _, _|].
    unfold file_write_at, sys. cbn [faults nodes]. destruct (on_file _ _ n) as [[[]|e|] n1]; by eexists _, _. }
  destruct E1 as (r & n1 & ->). destruct r as [st1|e|]; [|cbn; by rewrite Esame..].
  unfold modify, mret, srv_ret. cbn [fst snd settle nodes]. rewrite (persist_alone 0). unfold after_persist.
  by destruct (persist_state st1 (Fs n1 [])) as [[[]|e|] s2].
Qed.
(** [finalize] is [verify], [move] and the removal of the staging directory. *)
Lemma finalize_split c act commit s :
  finalize tar c act commit s = match verify act commit s with
    | (Ok _, s1) => match move c act s1 with
        | (Ok _, s2) => match remove_dir_all (dir (store act)) s2 with
            | (Ok _, s3) => (Ok (match kind (manifest act) with
                | KFile => "saved " +:+ display (join (out_dir c) (safe_name (name (manifest act))))
                | _ => "unpacked archive into " +:+ display (out_dir c) end), s3)
            | (Err e, s3) => (Err e, s3) | (Panic, s3) => (Panic, s3) end
        | (Err e, s2) => (Err e, s2) | (Panic, s2) => (Panic, s2) end
    | (Err e, s1) => (Err e, s1) | (Panic, s1) => (Panic, s1) end.
Proof.
  unfold finalize, verify, move, finalize_file, cleanup, io_lift, mbind, io_bind, mret, io_ret. destruct (is_complete _) as [[]|e|]; [cbn [negb]| |done..].
  - destruct (file_hash _ s) as [[h|e|] s1]; [|done..]. destruct (negb (String.eqb _ _)); [done|].
    destruct (kind (manifest act)); [..|done].
    + destruct (io_context _ _ s1) as [[[]|e|] s2]; [|done..]. by destruct (remove_dir_all _ s2) as [[[]|e|] s3].
    + destruct (unpack_tar _ _ _ s1) as [[[]|e|] s2]; [|done..]. by destruct (remove_dir_all _ s2) as [[[]|e|] s3].
  - cbn [negb]. by destruct (total_chunks _).
Qed.

Lemma read_quiet p n : exists r, fs_read p (Fs n []) = (r, Fs n []).
Proof. unfold fs_read, sys. cbn [faults nodes]. destruct (n !! p) as [[]|]; by eexists. Qed.
(** The tar library meets no fault of ours. *)
Hypothesis tar_quiet : forall b p n, faults (tar b p (Fs n [])).2 = [].
Lemma commit_alone body a n :
  let o := begin_commit body (a, Fs n []) in
  solo 3 (settle o.1) (o.2.1, nodes o.2.2) = then_answer (handle_commit tar body (a, Fs n [])).
Proof.
  unfold begin_commit, handle_commit, reply_with. rewrite !get_spec. cbn [fst snd].
  destruct (transfer a) as [act|] eqn:Ea; [|reflexivity].
  destruct (open_json _ _ _ _) as [commit|e|] eqn:Eo; unfold modify, mbind, srv_bind; cbn [fst snd].
  2-3: by destruct a; cbn in *; unfold set_transfer; cbn; rewrite Ea.
  rewrite call_spec. unfold srv_try. cbn [fst snd]. rewrite finalize_split.
  assert (E1 : exists r, verify act commit (Fs n []) = (r, Fs n [])).
  { destruct (read_quiet (data_path (store act)) n) as [r Hr]. unfold verify, file_hash, io_lift, mbind, io_bind, mret, io_ret.
    destruct (is_complete _) as [[]|e|]; [cbn [negb]| |by eexists..].
    - rewrite Hr. destruct r as [b|e|]; [destruct (negb _)|..]; by eexists.
    - cbn [negb]. unfold mbind, io_bind. destruct (total_chunks _); by eexists. }
  destruct E1 as ([[]|e|] & ->); [|reflexivity..]. unfold mret, srv_ret. cbn [fst snd settle nodes].
  rewrite solo_step. cbn [advance fst snd]. unfold move_data. rewrite get_spec, call_spec.
  assert (E2 : exists r n2, move (cfg a) act (Fs n []) = (r, Fs n2 [])).
  { unfold move. destruct (kind (manifest act)); [| |by eexists _, _].
    - unfold io_context, fs_rename, sys. cbn [faults nodes]. destruct (rename_file _ _ n) as [r n2]. by eexists _, _.
    - unfold unpack_tar, mbind, io_bind, fs_read, sys. cbn [faults nodes]. destruct (n !! data_path (store act)) as [[|b]|]; [by eexists _, _| |by eexists _, _].
      unfold io_context. pose proof (tar_quiet b (out_dir (cfg a)) n) as Hq. destruct (tar b (out_dir (cfg a)) (Fs n [])) as [r [n2 fl]].
      cbn in Hq. subst fl. by eexists _, _. }
  cbn [fst]. change (cfg (set_transfer None a)) with (cfg a).
  destruct E2 as (r & n2 & ->). destruct r as [[]|e|]; [|reflexivity..].
  unfold mret, srv_ret. cbn [settle refollow nodes]. rewrite solo_step. cbn [advance fst snd]. unfold clear. rewrite get_spec, call_spec.
  cbn [fst snd]. change (cfg (set_transfer None a)) with (cfg a).
  by destruct (remove_dir_all _ _) as [[[]|e|] s3].
Qed.

Definition filling (t : task) : bool := match t with Filling _ _ _ => true | _ => false end.
Lemma refollow_other t n n' x : filling x = false -> refollow t n n' x = x.
Proof. by destruct x. Qed.
Lemma begin_not_filling a s body i :
  filling (settle (begin_manifest body (a, s)).1) = false /\ filling (settle (begin_chunk i body (a, s)).1) = false
  /\ filling (settle (begin_commit body (a, s)).1) = false.
Proof.
  split_and!.
  - unfold begin_manifest. rewrite get_spec. destruct (open_json _ _ _ _) as [m|e|]; [|done..]. by destruct (negb _).
  - unfold begin_chunk. rewrite get_spec. destruct (transfer _) as [act|]; [|done]. destruct (open _ _ _ _ _) as [p|e|]; [|done..].
    rewrite call_spec. by destruct (put_chunk _ _ _ s) as [[x|e|] s'].
  - unfold begin_commit. rewrite get_spec. destruct (transfer _) as [act|]; [|done]. destruct (open_json _ _ _ _) as [p|e|]; [|done..].
    unfold modify, mbind, srv_bind. cbn [fst snd]. rewrite call_spec. by destruct (verify _ _ s) as [[x|e|] s'].
Qed.
Lemma solo_begun k t o w (w' : App * gmap path node) : filling (settle o.1) = false ->
  solo k (settle o.1) (o.2.1, nodes o.2.2) = w ->
  (let '(r, (a', s')) := o in solo k (refollow t w'.2 (nodes s') (settle r)) (a', nodes s')) = w.
Proof. destruct o as [r [a' s']]. cbn [fst snd]. intros Hf <-. by rewrite refollow_other. Qed.
(** Without faults, the calls of a request are those of [Server]'s handler. *)
Lemma serve_alone rq a n : solo 10 (Arrived rq) (a, n) = then_answer (serve tar ask rq (a, Fs n [])).
Proof.
  rewrite solo_step. cbn [advance fst snd]. unfold arrive. rewrite get_spec. cbn [fst].
  assert (Hnow : (let '(r, (a', s')) := serve_now rq (a, Fs n []) in
      solo 9 (refollow (Arrived rq) n (nodes s') (settle r)) (a', nodes s')) = then_answer (serve tar ask rq (a, Fs n []))).
  { rewrite <- (serve_now_alone 9). unfold serve_now, mbind, srv_bind.
    by destruct (serve tar ask rq (a, Fs n [])) as [[x|e|] [a' s']]. }
  assert (Hlim : forall body (h : srv Response), admitted a rq body = true -> limited body h = h).
  { intros body h [_ Hb]%andb_true_iff. unfold limited. by destruct (BODY_LIMIT <? zlen body). }
  assert (Hau : forall body, admitted a rq body = true -> serve tar ask rq (a, Fs n []) = router tar ask (rt rq) (a, Fs n [])).
  { intros body [Hb _]%andb_true_iff. by apply serve_authorized. }
  destruct (rt rq) as [body|seg body| |body|] eqn:Er; [| |exact Hnow| |exact Hnow].
  - destruct (admitted a rq body) eqn:Ea; [|exact Hnow]. rewrite (Hau body Ea). cbn [router]. rewrite Hlim by done.
    apply (solo_begun 9 _ _ _ (a, n)); [apply begin_not_filling; exact 0|apply manifest_alone].
  - destruct (parse_uint (U64 - 1) seg) as [i|] eqn:Ei; [|exact Hnow].
    destruct (admitted a rq body) eqn:Ea; [|exact Hnow]. rewrite (Hau body Ea). cbn [router]. rewrite Ei, Hlim by done.
    apply (solo_begun 9 _ _ _ (a, n)); [apply begin_not_filling|]. 
    change 9%nat with (3 + 6)%nat. by rewrite (solo_more 3 6 _ _ _ (chunk_alone i body a n)), chunk_alone.
  - destruct (admitted a rq body) eqn:Ea; [|exact Hnow]. rewrite (Hau body Ea). cbn [router]. rewrite Hlim by done.
    apply (solo_begun 9 _ _ _ (a, n)); [apply begin_not_filling; exact 0|]. change 9%nat with (3 + 6)%nat. by rewrite (solo_more 3 6 _ _ _ (commit_alone body a n)), commit_alone.
Qed.
End tasks.
