(* ===== verification/Concurrent.v ===== *)
(** * Requests that overlap

    One upload under any interleaving of the calls of any number of requests
    ([Interleave]): what is listed on the disk stays there, as long as no two
    requests make a state file at once; and what can happen when they do, or
    when a manifest comes before anything is listed. *)

From S2P Require Import Prelude Str Libs Fs Crypto Protocol Store Archive Stream Transfer Safety Server ServerSpec Stuck Interleave.

(** ** One file, uploaded by many *)

Section concurrent.
Context `{Aead} `{Blake3} `{Base58} `{!Serde Manifest} `{!Serde Commit} `{!Serde State}.
Variable tar : bytes -> path -> io unit.
Variable ask : string -> option (option bool).
Variables (c : ServerCfg) (m0 : Manifest) (content : bytes).
Hypothesis Hkind : kind m0 = KFile.
Hypothesis Hsize : mf_total_size m0 = zlen content.
Hypothesis Hcs : 0 < mf_chunk_size m0 < U64.
Hypothesis Hlen : zlen content < U64.
Local Abbreviation k := (data_key (cfg_secret c)).
Local Abbreviation nm := (safe_name (name m0)).
Local Abbreviation tid := (mf_transfer_id m0).
Local Abbreviation cs := (mf_chunk_size m0).
Local Abbreviation pd := (partial_dir (out_dir c) nm).
Local Abbreviation total := (n_chunks cs content).
Local Abbreviation on_disk := (listed (out_dir c) nm tid cs content).
Local Abbreviation have_staged := (has_staged pd cs content).
Local Abbreviation tmp := (tmp_file pd).
Hint Resolve data_state_ne data_tmp_ne state_tmp_ne : core.

(** Requests of senders of [content], or junk: what opens under the key is
    the manifest, or a chunk of the content at its index. *)
Definition honest_route (x : route) : Prop :=
  match x with
  | PostManifest body => forall m, open_json (T := Manifest) k DManifest [] body = Ok m -> m = m0
  | PutChunk seg body =>
      forall i p, parse_uint (U64 - 1) seg = Some i -> i < total ->
        open k DData i (as_bytes tid) body = Ok p -> p = chunk cs i content
  | _ => True
  end.
(** The staging directory holds what its state file lists, [g0] among it. *)
Variable g0 : gset Z.
Hypothesis Hg0 : g0 <> ∅.
Definition begun (n : gmap path node) : Prop :=
  shape (out_dir c) nm n /\ disk_inv pd tid cs content n /\ g0 ⊆ on_disk n.
Definition live (n : gmap path node) (st : Store) : Prop :=
  store_ok pd tid cs content st /\ have_staged (st_have (state st)) n /\ g0 ⊆ st_have (state st).
Definition loads (n : gmap path node) (st : State) : Prop :=
  state_matches st tid (zlen content) cs = true /\ wire_ok st /\ g0 ⊆ st_have st /\ have_staged (st_have st) n.
Definition job_ok (j : job) : Prop := match j with ForManifest m => m = m0 | ForChunk _ => True end.
Definition task_ok (n : gmap path node) (t : task) : Prop :=
  match t with
  | Arrived rq => honest_route (rt rq)
  | Asked m _ | Making m | Reading m => m = m0
  | Loading m st | Sizing m st => m = m0 /\ loads n st
  | Opened m st => m = m0 /\ live n st
  | Saving j st => job_ok j /\ live n st
  | Filling j st h => (job_ok j /\ live n st) /\ h = Some tmp /\ file_at n tmp = Some []
  | Placing j st => (job_ok j /\ live n st) /\ file_at n tmp = Some (to_vec (state st))
  | Moving act => manifest act = m0 /\ live n (store act) /\ is_complete (store act) = Ok true
  | Clearing _ => False
  | Answered _ => True
  end.
(** At most one task has made a temporary state file. *)
Definition one_saver (ts : list task) : Prop :=
  forall i j t u, ts !! i = Some t -> ts !! j = Some u -> persisting t = true -> persisting u = true -> i = j.
Definition app_ok (a : App) (n : gmap path node) : Prop :=
  cfg a = c /\ key a = k /\ begun n
  /\ forall act, transfer a = Some act -> manifest act = m0 /\ live n (store act).
Definition conc_inv (w : world) : Prop := app_ok w.1.1 w.1.2 /\ Forall (task_ok w.1.2) w.2 /\ one_saver w.2.

(** A disk on which everything counted on is still there. *)
Definition spreads (n n' : gmap path node) : Prop := begun n' /\ forall g, have_staged g n -> have_staged g n'.
Lemma live_spreads n n' st : spreads n n' -> live n st -> live n' st.
Proof. intros [_ Hg] (H1' & H2' & H3'). split; [done|]. split; [by apply Hg|done]. Qed.
Lemma loads_spreads n n' st : spreads n n' -> loads n st -> loads n' st.
Proof. intros [_ Hg] (? & ? & ? & ?). split_and!; try done. by apply Hg. Qed.
Lemma live_inv n st : begun n -> live n st -> store_inv pd tid cs content st n.
Proof. intros (_ & Hd & _) (H1' & H2' & _). done. Qed.
Lemma begun_refl n : begun n -> spreads n n.
Proof. intros Hb. by split. Qed.
Lemma spreads_files n n' : begun n -> shape (out_dir c) nm n' ->
  file_at n' (data_file pd) = file_at n (data_file pd) -> file_at n' (state_file pd) = file_at n (state_file pd) -> spreads n n'.
Proof.
  intros (_ & Hd & Hl) Hs Hf1 Hf2. split; [split; [done|split]|].
  - by apply (disk_inv_same _ _ _ _ n).
  - unfold listed in *. by rewrite Hf2.
  - intros g (data & H1' & H2'). exists data. by rewrite Hf1.
Qed.
Lemma not_empty g : g0 ⊆ g -> g <> ∅.
Proof. intros Hs ->. apply Hg0, leibniz_equiv, (anti_symm (⊆)); [done|apply empty_subseteq]. Qed.

(** *** What each call leaves *)

Lemma spreads_tmp n x : begun n -> spreads n (upd n tmp x).
Proof.
  intros Hb. apply spreads_files; [done| |by autorewrite with disk..]. unfold tmp_file. apply shape_upd; [apply safe_name_plain|apply Hb].
Qed.
Lemma spreads_part n i b k' : begun n -> 0 <= i < total -> file_at n (data_file pd) = Some b ->
  spreads n (upd n (data_file pd) (write_at (i * cs) (take k' (chunk cs i content)) b)).
Proof.
  intros (Hsh & Hd & Hl) Hi Hb.
  assert (Hst : forall g data, file_at n (data_file pd) = Some data -> staged cs content g data ->
    exists data', file_at (upd n (data_file pd) (write_at (i * cs) (take k' (chunk cs i content)) b)) (data_file pd) = Some data'
      /\ staged cs content g data').
  { intros g data Hdata Hg. rewrite Hb in Hdata. injection Hdata as ->. eexists. split; [by autorewrite with disk|].
    apply staged_write; [lia|done..]. }
  split; [split; [|split]|].
  - unfold data_file. apply shape_upd; [apply safe_name_plain|done].
  - eapply disk_inv_data; [done|by autorewrite with disk|]. intros data h. apply Hst.
  - unfold listed in *. by autorewrite with disk.
  - intros g (data & H1' & H2'). by eapply Hst.
Qed.
(** Renaming the temporary file of a live store. *)
Lemma spreads_place n st : begun n -> live n st ->
  spreads n (upd (delete tmp n) (state_file pd) (to_vec (state st))).
Proof.
  intros (Hsh & Hd & Hl) (Hok & (data & Hdata & Hst) & Hsub).
  set (n' := upd (delete tmp n) (state_file pd) (to_vec (state st))).
  assert (Hd' : file_at n' (data_file pd) = Some data) by (unfold n'; by autorewrite with disk).
  split; [split; [|split]|].
  - unfold n', state_file, tmp_file. apply shape_upd, shape_delete; [apply safe_name_plain..|done].
  - intros b s Hb Hs _. unfold n' in Hb. autorewrite with disk in Hb. injection Hb as <-.
    rewrite from_to_vec in Hs by apply Hok. injection Hs as <-. right. by exists data.
  - rewrite (saved_listed (out_dir c) nm tid cs content st); [done|done|]. unfold saved, n'. by autorewrite with disk.
  - intros g (data' & H1' & H2'). exists data. split; [done|]. by replace data with data' by congruence.
Qed.

(** *** What each task's next call leaves *)

Definition idle_tmp (t : task) (n n' : gmap path node) : Prop :=
  persisting t = false -> saving t = false -> file_at n' tmp = file_at n tmp.
Definition goes_on (a : App) (n : gmap path node) (t : task) (o : res task * (App * fs)) : Prop :=
  let '(r, (a', s')) := o in
  (same_conf a a' /\ (forall act, transfer a' = Some act -> manifest act = m0 /\ live (nodes s') (store act)))
  /\ spreads n (nodes s') /\ task_ok (nodes s') (settle r) /\ idle_tmp t n (nodes s')
  /\ (persisting (settle r) = true -> persisting t = true /\ filling (settle r) = false \/ saving t = true).
Lemma goes a n t r a' s' : app_ok a n -> same_conf a a' -> transfer a' = transfer a \/ transfer a' = None ->
  spreads n (nodes s') -> idle_tmp t n (nodes s') -> task_ok (nodes s') (settle r) ->
  (persisting (settle r) = true -> persisting t = true /\ filling (settle r) = false \/ saving t = true) -> goes_on a n t (r, (a', s')).
Proof.
  intros (_ & _ & Hb & Ha) Hc Ht Hs Hi Hk Hp. split; [split; [done|]|done].
  intros act Hact. destruct Ht as [Ht|Ht]; rewrite Ht in Hact; [|done]. destruct (Ha act Hact). split; [done|]. by eapply live_spreads.
Qed.
Lemma idle_same t n n' : file_at n' tmp = file_at n tmp -> idle_tmp t n n'.
Proof. by intros E _ _. Qed.
(** What the handlers do with an error: they answer, and the transfer stays. *)
Definition only_answers (err : error -> srv task) : Prop :=
  forall e a s, exists r a', err e (a, s) = (Ok (Answered r), (a', s)) /\ same_conf a a' /\ transfer a' = transfer a.
Lemma cannot_open_answers : only_answers cannot_open.
Proof. intros e a s. by eexists _, _. Qed.
Lemma commit_failed_answers : only_answers commit_failed.
Proof. intros e a s. by eexists _, _. Qed.
Lemma save_failed_ok j : only_answers (save_failed j).
Proof. intros e a s. destruct j; by eexists _, _. Qed.
Hint Resolve cannot_open_answers commit_failed_answers save_failed_ok : core.
Lemma goes_wrong a n t err e s' : app_ok a n -> only_answers err -> spreads n (nodes s') -> idle_tmp t n (nodes s') ->
  goes_on a n t (err e (a, s')).
Proof.
  intros Ha He Hs Hi. destruct (He e a s') as (r & a' & -> & Hc & Ht). apply goes; try done. by left.
Qed.
(** A call that leaves the disk as it is. *)
Ltac stays := try solve [done | by left | by apply begun_refl | by intros ? [=] | by intros [=] | by intros _; left | by intros _; right | by right].
Lemma spreads_begun n n' : spreads n n' -> begun n'.
Proof. by intros []. Qed.
(** The result of a call from this very disk. *)
Lemma at_disk {A} (m : io A) n fl (Q : A -> gmap path node -> Prop) (E : gmap path node -> Prop) :
  triple (fun x => x = n) m Q E ->
  match m (Fs n fl) with (Ok x, s') => Q x (nodes s') | (Err _, s') => E (nodes s') | (Panic, _) => False end.
Proof. intros Ht. by apply (Ht (Fs n fl)). Qed.

Lemma make_goes a n m fl : app_ok a n -> m = m0 -> goes_on a n (Making m) (make_dir m (a, Fs n fl)).
Proof.
  intros Ha ->. pose proof Ha as (Hc & _ & Hb & _). unfold make_dir. rewrite get_spec, call_spec. cbn [fst snd].
  unfold staging. rewrite Hc. fold pd.
  pose proof (create_shape (out_dir c) nm (safe_name_plain _) (Fs n fl) (proj1 Hb)) as H1'.
  pose proof (at_disk (create_dir_all pd) n fl (fun _ n' => forall q, file_at n' q = file_at n q) (fun n' => forall q, file_at n' q = file_at n q)) as H2'.
  ospecialize (H2' _); [apply triple_create_dir_all; intros x y -> Hq; done|].
  destruct (create_dir_all pd (Fs n fl)) as [[[]|e|] s']; [| |done].
  - apply goes; try done; [by left|by apply spreads_files|by apply idle_same].
  - apply goes_wrong; try done; [by apply spreads_files|by apply idle_same].
Qed.
Lemma read_goes a n m fl : app_ok a n -> m = m0 -> fair (Reading m) fl -> goes_on a n (Reading m) (read_state m (a, Fs n fl)).
Proof.
  intros Ha -> Hf. pose proof Ha as (Hc & _ & Hb & _). pose proof Hb as (_ & Hd & Hsub). unfold read_state. rewrite get_spec, call_spec. cbn [fst snd].
  unfold staging. rewrite Hc. fold pd. rewrite join_state.
  destruct (fs_read_nofault (state_file pd) (Fs n fl)) as (fl' & -> & _); [exact Hf|]. cbn [nodes]. rewrite Hsize.
  match goal with |- context [load_state ?x _ _ _] => set (r := x) end.
  destruct (load_state_ok tid cs content Hcs Hlen r) as [Hm Hw].
  assert (Hld : loaded pd tid cs content (load_state r tid (zlen content) cs) n) by apply load_state_loaded.
  pose proof (loaded_listed (out_dir c) nm tid cs content _ _ Hld) as Hh.
  apply goes; stays. cbn [settle task_ok nodes]. split; [done|]. split; [done|]. split; [done|].
  rewrite Hh. split; [done|].
  destruct (loaded_staged pd tid cs content _ _ Hld Hd) as [E|Hst]; [rewrite Hh in E; by destruct (not_empty _ Hsub)|by rewrite Hh in Hst].
Qed.
(** Opening data that is listed, and setting its length, leaves the disk as it
    is. *)
Lemma open_goes a n m st fl : app_ok a n -> m = m0 -> loads n st -> goes_on a n (Loading m st) (open_file m st (a, Fs n fl)).
Proof.
  intros Ha -> Hl. pose proof Ha as (Hc & _ & Hb & _). pose proof Hl as (_ & _ & Hsub & data & Hd & _).
  unfold open_file. rewrite get_spec, call_spec. cbn [fst snd]. unfold staging. rewrite Hc. fold pd. rewrite join_data.
  rewrite bool_decide_false by (by apply not_empty).
  pose proof (at_disk (open_rw (data_file pd) false) n fl (fun _ n' => n' = n) (fun n' => n' = n)) as H1'.
  ospecialize (H1' _).
  { apply triple_open_rw; [done|]. intros x ->. rewrite Hd. cbn [default]. apply file_at_Some in Hd. by rewrite insert_id. }
  destruct (open_rw _ _ _) as [[[]|e|] [n1 fl1]]; [| |done]; cbn [nodes] in H1'; subst n1; [apply goes|apply goes_wrong]; stays.
Qed.
Lemma size_goes a n m st fl : app_ok a n -> m = m0 -> loads n st -> goes_on a n (Sizing m st) (size_file m st (a, Fs n fl)).
Proof.
  intros Ha -> Hl. pose proof Ha as (Hc & _ & Hb & _). pose proof Hl as (Hm & Hw & Hsub & data & Hd & Hst).
  unfold size_file. rewrite get_spec, call_spec. cbn [fst snd]. unfold staging. rewrite Hc. fold pd. rewrite join_data, join_state, Hsize.
  pose proof (at_disk (file_set_len (data_file pd) (zlen content)) n fl (fun _ n' => n' = n) (fun n' => n' = n)) as H1'.
  ospecialize (H1' _).
  { apply triple_set_len; [done|]. intros x b -> Hx. replace b with data by congruence. rewrite set_len_id by apply Hst.
    apply file_at_Some in Hd. by rewrite insert_id. }
  destruct (file_set_len _ _ _) as [[[]|e|] [n1 fl1]]; [| |done]; cbn [nodes] in H1'; subst n1.
  - apply goes; stays. split; [done|]. split; [|by split; [by exists data|]]. repeat (split; [done|]). done.
  - apply goes_wrong; stays.
Qed.
Lemma install_goes a n m st fl : app_ok a n -> m = m0 -> live n st -> goes_on a n (Opened m st) (install m st (a, Fs n fl)).
Proof.
  intros (Hc & _ & Hb & _) -> Hl. split; [split; [done|]|]; [by intros act [= <-]|]. split; [by apply begun_refl|]. done.
Qed.

Lemma create_goes a n j st fl : app_ok a n -> job_ok j -> live n st -> goes_on a n (Saving j st) (create_tmp j st (a, Fs n fl)).
Proof.
  intros Ha Hj Hl. pose proof Ha as (_ & _ & Hb & _). pose proof (proj1 Hl) as (Hd & _).
  unfold create_tmp. rewrite call_spec. unfold tmp_path. rewrite Hd, join_tmp.
  pose proof (at_disk (open_rw tmp true) n fl (fun _ n' => n' = upd n tmp []) (fun n' => n' = n \/ n' = upd n tmp [])) as H1'.
  ospecialize (H1' _); [apply triple_open_rw; [by left|]; intros x ->; split; [done|by right]|].
  destruct (open_rw _ _ _) as [[[]|e|] [n1 fl1]]; [| |done]; cbn [nodes] in H1'.
  - subst n1. pose proof (spreads_tmp n [] Hb). apply goes; stays. 
    split; [split; [done|by eapply live_spreads]|]. split; [done|]. cbn [nodes]. by autorewrite with disk.
  - apply goes_wrong; stays. destruct H1' as [->| ->]; [by apply begun_refl|by apply spreads_tmp].
Qed.
Lemma fill_goes a n j st h fl : app_ok a n -> task_ok n (Filling j st h) -> goes_on a n (Filling j st h) (fill_tmp j st h (a, Fs n fl)).
Proof.
  intros Ha [[Hj Hl] [-> Ht]]. pose proof Ha as (_ & _ & Hb & _). unfold fill_tmp. rewrite call_spec. cbn [write_handle].
  pose proof (at_disk (file_write_at tmp 0 (to_vec (state st))) n fl (fun _ n' => n' = upd n tmp (to_vec (state st)))
    (fun n' => n' = n \/ exists x, n' = upd n tmp x)) as H1'.
  ospecialize (H1' _).
  { apply triple_write_at; [by left| |intros x b k' -> _; right; by eexists]. intros x b -> Hx. f_equal. f_equal.
    replace b with ([] : bytes) by congruence. unfold write_at. cbn. by rewrite drop_nil, app_nil_r. }
  destruct (file_write_at _ _ _ _) as [[[]|e|] [n1 fl1]]; [| |done]; cbn [nodes] in H1'.
  - subst n1. pose proof (spreads_tmp n (to_vec (state st)) Hb). apply goes; stays.
    split; [split; [done|by eapply live_spreads]|]. cbn [nodes]. by autorewrite with disk.
  - apply goes_wrong; stays. destruct H1' as [->|[x ->]]; [by apply begun_refl|by apply spreads_tmp].
Qed.
Lemma place_goes a n j st fl : app_ok a n -> task_ok n (Placing j st) -> goes_on a n (Placing j st) (place_tmp j st (a, Fs n fl)).
Proof.
  intros Ha [[Hj Hl] Ht]. pose proof Ha as (_ & _ & Hb & _). pose proof (proj1 Hl) as (Hd & _ & Hsp & _).
  unfold place_tmp. rewrite call_spec. unfold tmp_path. rewrite Hd, Hsp, join_tmp. pose proof (spreads_place n st Hb Hl) as Hs.
  set (n2 := upd (delete tmp n) (state_file pd) (to_vec (state st))) in *.
  pose proof (at_disk (fs_rename tmp (state_file pd)) n fl (fun _ n' => n' = n2) (fun n' => n' = n \/ n' = n2)) as H1'.
  ospecialize (H1' _).
  { apply triple_rename; [by left|]. intros x b -> Hx. replace b with (to_vec (state st)) by congruence. split; [done|by right]. }
  destruct (fs_rename _ _ _) as [[[]|e|] [n1 fl1]]; [| |done]; cbn [nodes] in H1'.
  - subst n1. assert (Hl2 : live n2 st) by (by eapply live_spreads).
    destruct j as [m|len]; [apply goes|apply goes]; stays.
  - apply goes_wrong; stays. destruct H1' as [->| ->]; [by apply begun_refl|done].
Qed.

Lemma put_goes n st i fl : begun n -> live n st -> 0 <= i < total ->
  match put_chunk st i (chunk cs i content) (Fs n fl) with
  | (Ok st1, s') => spreads n (nodes s') /\ live (nodes s') st1 /\ file_at (nodes s') tmp = file_at n tmp
  | (Err _, s') => spreads n (nodes s') /\ file_at (nodes s') tmp = file_at n tmp
  | (Panic, _) => False
  end.
Proof.
  intros Hb (Hok & (data & Hd & Hst) & Hsub) Hi. unfold put_chunk, io_lift, mbind, io_bind.
  rewrite (total_chunks_ok pd tid cs content Hcs) by done.
  destruct (Z.leb_spec total i); [lia|]. rewrite (expected_len_ok pd tid cs content Hcs), Z.eqb_refl by done. cbn [negb].
  rewrite (offset_ok pd tid cs content Hcs Hlen) by done. pose proof Hok as (_ & -> & _).
  set (full := upd n (data_file pd) (write_at (i * cs) (chunk cs i content) data)).
  pose proof (at_disk (file_write_at (data_file pd) (i * cs) (chunk cs i content)) n fl (fun _ n' => n' = full)
    (fun n' => n' = n \/ exists k', n' = upd n (data_file pd) (write_at (i * cs) (take k' (chunk cs i content)) data))) as H1'.
  ospecialize (H1' _).
  { apply triple_write_at; [by left| |].
    - intros x b -> Hx. by replace b with data by congruence.
    - intros x b k' -> Hx. right. exists k'. by replace b with data by congruence. }
  destruct (file_write_at _ _ _ _) as [[[]|e|] [n1 fl1]]; [| |done]; cbn [nodes] in H1'.
  - subst n1. pose proof (spreads_part n i data (length (chunk cs i content)) Hb Hi Hd) as Hs. rewrite take_ge in Hs by lia.
    cbn [mret io_ret nodes]. split; [exact Hs|]. split; [|unfold full; by autorewrite with disk].
    split; [by apply (insert_have_ok pd tid cs content Hcs Hlen)|]. split; [|cbn; by apply union_subseteq_r'].
    exists (write_at (i * cs) (chunk cs i content) data). unfold full. autorewrite with disk. split; [done|]. apply staged_insert; [lia|done..].
  - cbn [nodes]. destruct H1' as [->|[k' ->]]; [split; [by apply begun_refl|done]|]. split; [by apply spreads_part|by autorewrite with disk].
Qed.
Lemma put_late st i p f n : live n st -> total <= i -> exists e, put_chunk st i p f = (Err e, f).
Proof.
  intros (Hok & _) Hi. unfold put_chunk, io_lift, mbind, io_bind. rewrite (total_chunks_ok pd tid cs content Hcs) by done.
  apply Z.leb_le in Hi as ->. by eexists.
Qed.
Lemma chunk_goes a n rq seg i body fl : app_ok a n -> rt rq = PutChunk seg body -> parse_uint (U64 - 1) seg = Some i ->
  honest_route (rt rq) -> goes_on a n (Arrived rq) (begin_chunk i body (a, Fs n fl)).
Proof.
  intros Ha Er Ei Hr. pose proof Ha as (_ & Hk & Hb & Hact). rewrite Er in Hr. unfold begin_chunk. rewrite get_spec. cbn [fst].
  assert (Hinert : forall r, goes_on a n (Arrived rq) (Ok (Answered r), (a, Fs n fl))) by (intros r; apply goes; stays).
  destruct (transfer a) as [act|] eqn:Et; [|apply Hinert]. destruct (Hact act eq_refl) as [Em Hl]. rewrite Hk, Em.
  destruct (open _ _ _ _ _) as [p|e|] eqn:Ep; [|apply Hinert..]. rewrite call_spec.
  destruct (Z.leb_spec total i) as [Hge|Hlt].
  { destruct (put_late (store act) i p (Fs n fl) n Hl Hge) as [e ->]. apply Hinert. }
  pose proof (parse_uint_range (U64 - 1) _ _ ltac:(done) Ei) as Hr0. rewrite (Hr i p Ei Hlt Ep).
  pose proof (put_goes n (store act) i fl Hb Hl ltac:(lia)) as Hp.
  destruct (put_chunk _ _ _ _) as [[st1|e|] s']; [| |done].
  - destruct Hp as (H1' & H2' & H3'). split; [split; [done|by intros act' [= <-]]|]. split; [done|]. split; [by split|].
    split; [by apply idle_same|done].
  - destruct Hp as (H1' & H2'). apply goes; stays.
Qed.
Lemma commit_goes a n rq body fl : app_ok a n -> goes_on a n (Arrived rq) (begin_commit body (a, Fs n fl)).
Proof.
  intros Ha. pose proof Ha as (_ & Hk & Hb & Hact). unfold begin_commit. rewrite get_spec. cbn [fst].
  assert (Hinert : forall r, goes_on a n (Arrived rq) (Ok (Answered r), (a, Fs n fl))) by (intros r; apply goes; stays).
  destruct (transfer a) as [act|] eqn:Et; [|apply Hinert]. destruct (Hact act eq_refl) as [Em Hl].
  destruct (open_json _ _ _ _) as [commit|e|]; [|apply Hinert..]. unfold modify, mbind at 1, srv_bind at 1. cbn [fst snd]. rewrite call_spec.
  assert (Hv : exists r s', verify act commit (Fs n fl) = (r, s') /\ nodes s' = n /\ r <> Panic
    /\ (r = Ok tt -> is_complete (store act) = Ok true)).
  { unfold verify, io_lift, mbind, io_bind. unfold is_complete. rewrite (total_chunks_ok pd tid cs content Hcs) by apply Hl.
    cbn [mbind res_bind mret res_ret]. destruct (_ =? total); cbn [negb].
    - pose proof (file_hash_any (store act) n (Fs n fl) eq_refl) as Hf.
      destruct (file_hash (store act) (Fs n fl)) as [[h|e|] s']; [| |done].
      + destruct Hf as [Hf _]. destruct (negb _); by eexists _, s'.
      + by eexists _, s'.
    - by eexists _, _. }
  destruct Hv as (r & [n1 fl1] & -> & Hn & Hp & Hcm). cbn [nodes] in Hn. subst n1.
  destruct r as [[]|e|]; [| |done].
  - apply goes; stays. split; [done|]. split; [done|by apply Hcm].
  - destruct (commit_failed_answers e (set_transfer None a) (Fs n fl1)) as (r & a' & -> & Hc' & Ht). apply goes; stays.
Qed.
Lemma manifest_goes a n rq body fl : app_ok a n -> rt rq = PostManifest body -> honest_route (rt rq) ->
  goes_on a n (Arrived rq) (begin_manifest body (a, Fs n fl)).
Proof.
  intros Ha Er Hr. pose proof Ha as (_ & Hk & Hb & _). rewrite Er in Hr. cbn [honest_route] in Hr. unfold begin_manifest. rewrite get_spec. cbn [fst].
  rewrite Hk. destruct (open_json k DManifest [] body) as [m|e|] eqn:Eo; [|apply goes; stays..].
  destruct (negb (version m =? PROTOCOL_VERSION)); [apply goes; stays|]. unfold look, mbind, srv_bind. cbn [fst snd]. apply goes; stays. by apply Hr.
Qed.
Lemma decided_goes a n m de fl : app_ok a n -> m = m0 -> goes_on a n (Asked m de) (decided ask m de (a, Fs n fl)).
Proof.
  intros Ha ->. pose proof Ha as (_ & _ & Hb & _). unfold decided. rewrite get_spec. cbn [fst].
  destruct (decide_accept _ _ _ _) as [[]|]; [|apply goes; stays..]. rewrite bool_decide_false by congruence. apply goes; stays.
Qed.

(** A request that makes no call changes neither the transfer nor the disk. *)
Definition callless (a : App) (rq : request) : Prop :=
  match rt rq with
  | PostManifest body | PostCommit body => admitted a rq body = false
  | PutChunk seg body => parse_uint (U64 - 1) seg = None \/ admitted a rq body = false
  | _ => True
  end.
Lemma callless_serve a rq s : callless a rq ->
  exists r a', serve tar ask rq (a, s) = (Ok r, (a', s)) /\ same_conf a a' /\ transfer a' = transfer a.
Proof.
  intros Hn. destruct (authorized a (authorization rq)) eqn:Ea.
  2: { destruct (serve_unauthorized tar ask rq a s Ea) as (a' & -> & Ht & _ & Hc). unfold conf in Hc.
       eexists _, a'. split; [done|]. split; [|done]. injection Hc as ? ? ?. done. }
  rewrite serve_authorized by done. unfold callless, admitted in Hn. rewrite Ea in Hn. cbn [andb] in Hn.
  destruct (rt rq) as [body|seg body| |body|]; cbn [router]; unfold limited.
  - destruct (BODY_LIMIT <? zlen body); [|done]. by eexists _, a.
  - destruct (parse_uint (U64 - 1) seg) as [i|]; [|by eexists _, a]. destruct Hn as [|Hn]; [done|].
    destruct (BODY_LIMIT <? zlen body); [|done]. by eexists _, a.
  - by eexists _, a.
  - destruct (BODY_LIMIT <? zlen body); [|done]. by eexists _, a.
  - by eexists _, a.
Qed.
Lemma now_goes a n rq fl : app_ok a n -> callless a rq -> goes_on a n (Arrived rq) (serve_now tar ask rq (a, Fs n fl)).
Proof.
  intros Ha Hn. pose proof Ha as (_ & _ & Hb & _). unfold serve_now, mbind, srv_bind.
  destruct (callless_serve a rq (Fs n fl) Hn) as (r & a' & -> & Hc & Ht). apply goes; stays.
Qed.
Lemma arrive_goes a n rq fl : app_ok a n -> honest_route (rt rq) -> goes_on a n (Arrived rq) (arrive tar ask rq (a, Fs n fl)).
Proof.
  intros Ha Hr. unfold arrive. rewrite get_spec. cbn [fst].
  pose proof (now_goes a n rq fl Ha) as Hnow. unfold callless in Hnow.
  destruct (rt rq) as [body|seg body| |body|] eqn:Er; [| |by apply Hnow| |by apply Hnow].
  - destruct (admitted a rq body) eqn:Ead; [|by apply Hnow]. apply manifest_goes; [done|done|by rewrite Er].
  - destruct (parse_uint (U64 - 1) seg) as [i|] eqn:Ei; [|by apply Hnow; left].
    destruct (admitted a rq body) eqn:Ead; [|by apply Hnow; right]. eapply chunk_goes; [done|done|done|by rewrite Er].
  - destruct (admitted a rq body) eqn:Ead; [|by apply Hnow]. by apply commit_goes.
Qed.
Lemma move_goes a n act fl : app_ok a n -> task_ok n (Moving act) ->
  goes_on a n (Moving act) (move_data tar act (a, Fs n fl))
  \/ landed c m0 content (nodes (move_data tar act (a, Fs n fl)).2.2).
Proof.
  intros Ha (Em & Hl & Hcm). pose proof Ha as (Hc & _ & Hb & _). pose proof (live_inv n _ Hb Hl) as Hst.
  pose proof (complete_content (out_dir c) nm tid cs content Hcs _ _ Hst Hcm) as Hd.
  pose proof (proj1 Hl) as (_ & Hdp & _). unfold move_data. rewrite get_spec, call_spec. cbn [fst]. unfold move. rewrite Em, Hkind, Hc, Hdp.
  rewrite join_plain by apply safe_name_plain.
  set (n2 := upd (delete (data_file pd) n) (out_dir c ++ [nm]) content).
  pose proof (at_disk (fs_rename (data_file pd) (out_dir c ++ [nm])) n fl (fun _ n' => n' = n2) (fun n' => n' = n \/ n' = n2)) as H1'.
  ospecialize (H1' _).
  { apply triple_rename; [by left|]. intros x b -> Hx. replace b with content by congruence. split; [done|by right]. }
  unfold io_context. assert (Hn2 : landed c m0 content n2) by (unfold landed, n2; by autorewrite with disk).
  destruct (fs_rename _ _ _) as [[[]|e|] [n1 fl1]]; [| |done]; cbn [nodes] in H1'; cbn [context].
  - right. by subst n1.
  - destruct H1' as [->| ->]; [left|right].
    + apply goes_wrong; stays.
    + exact Hn2.
Qed.
Lemma advance_goes a n t fl : app_ok a n -> task_ok n t -> fair t fl ->
  goes_on a n t (advance tar ask t (a, Fs n fl)) \/ landed c m0 content (nodes (advance tar ask t (a, Fs n fl)).2.2).
Proof.
  intros Ha Ht Hf. pose proof Ha as (_ & _ & Hb & _). destruct t as [rq|m d|m|m|m st|m st|m st|j st|j st h|j st|act|act|r]; cbn [advance].
  - left. by apply arrive_goes.
  - left. by apply decided_goes.
  - left. by apply make_goes.
  - left. by apply read_goes.
  - left. by apply open_goes; destruct Ht.
  - left. by apply size_goes; destruct Ht.
  - left. by apply install_goes; destruct Ht.
  - left. by apply create_goes; destruct Ht.
  - left. by apply fill_goes.
  - left. by apply place_goes.
  - by apply move_goes.
  - done.
  - left. apply goes; stays.
Qed.

(** *** A step of the whole *)

Lemma refollow_persisting t n n' x : persisting (refollow t n n' x) = persisting x.
Proof. by destruct x. Qed.
Lemma refollow_keeps t n n' x : persisting t = false -> file_at n' tmp = file_at n tmp ->
  spreads n n' -> task_ok n x -> task_ok n' (refollow t n n' x).
Proof.
  intros Hp Ht Hs. destruct x as [rq|m d|m|m|m st|m st|m st|j st|j st h|j st|act|act|r]; cbn [refollow task_ok]; try done.
  1-2: intros [? ?]; split; [done|by eapply loads_spreads].
  1-2: intros [? ?]; split; [done|by eapply live_spreads].
  - intros [[? ?] [-> Hx]]. split; [split; [done|by eapply live_spreads]|]. rewrite Ht. split; [|done].
    assert (is_Some (n' !! tmp)) as Hsome by (rewrite Hx in Ht; apply file_at_Some in Ht as ->; by eexists).
    destruct t; cbn [follow_handle mbind option_bind]; by rewrite ?bool_decide_true.
  - intros [[? ?] Hx]. split; [split; [done|by eapply live_spreads]|]. by rewrite Ht.
  - intros (? & ? & ?). split_and!; [done|by eapply live_spreads|done].
Qed.
Lemma refollow_idle t n n' x : persisting x = false -> spreads n n' -> task_ok n x -> task_ok n' (refollow t n n' x).
Proof.
  intros Hp Hs. destruct x as [rq|m d|m|m|m st|m st|m st|j st|j st h|j st|act|act|r]; cbn [refollow task_ok]; try done.
  1-2: intros [? ?]; split; [done|by eapply loads_spreads].
  1-2: intros [? ?]; split; [done|by eapply live_spreads].
  intros (? & ? & ?). split_and!; [done|by eapply live_spreads|done].
Qed.
Lemma refollow_self t n n' x : (persisting x = true -> persisting t = true /\ filling x = false \/ saving t = true) ->
  task_ok n' x -> task_ok n' (refollow t n n' x).
Proof.
  intros Hp Hx. destruct x as [rq|m d|m|m|m st|m st|m st|j st|j st h|j st|act|act|r]; try done.
  cbn [refollow task_ok] in *. destruct Hx as [? [-> Hx]]. split; [done|]. split; [|done].
  apply file_at_Some in Hx. destruct (Hp eq_refl) as [[_ ?]|Hsv]; [done|]. destruct t; try done. cbn [follow_handle mbind option_bind].
  by rewrite Hx, bool_decide_true.
Qed.

Lemma persisting_refollow ts t n n' j x : map (refollow t n n') ts !! j = Some x -> persisting x = true ->
  exists y, ts !! j = Some y /\ persisting y = true.
Proof.
  intros Hj Hx. rewrite list_lookup_fmap in Hj. destruct (ts !! j) as [y|]; [|done]. injection Hj as <-.
  rewrite refollow_persisting in Hx. by exists y.
Qed.
Lemma conc_step w w' : xstep tar ask w w' -> conc_inv w -> conc_inv w' \/ landed c m0 content w'.1.2.
Proof.
  intros [i fl t [[a n] ts] w'' Hi Hf Hturn Hstep] (Ha & Hts & Hone). cbn [fst snd] in *.
  cbn [step_at] in Hstep. rewrite Hi in Hstep. cbn [mbind option_bind] in Hstep. destruct (_ && _); [done|].
  pose proof (Forall_lookup_1 _ _ _ _ Hts Hi) as Ht. pose proof (advance_goes a n t fl Ha Ht Hf) as Hgo.
  destruct (advance tar ask t (a, Fs n fl)) as [r [a' s']]. injection Hstep as <-. cbn [fst snd] in *.
  destruct Hgo as [((Hc & Ha') & Hs & Hr & Hidle & Hp)|Hl]; [left|by right].
  destruct Ha as (E1 & E2 & _ & _). destruct Hc as (C1 & C2 & _). unfold conc_inv. cbn [fst snd].
  (** Another task that has a temporary file is the only one that has. *)
  assert (Hother : forall j x, ts !! j = Some x -> j <> i -> persisting x = true -> persisting t = false /\ saving t = false).
  { intros j x Hj Hne Hx. split.
    - destruct (persisting t) eqn:Et; [|done]. by destruct Hne; apply (Hone j i x t).
    - destruct (saving t) eqn:Et; [|done]. unfold in_turn in Hturn. rewrite Et in Hturn. cbn [andb] in Hturn.
      apply negb_true_iff, not_true_iff_false in Hturn. destruct Hturn. apply existsb_exists. exists x. split; [|done].
      apply list_elem_of_In. by eapply list_elem_of_lookup_2. }
  split; [split_and!; [congruence|congruence|apply Hs|done]|]. split.
  - apply Forall_lookup_2. intros j x Hj. rewrite list_lookup_fmap in Hj. destruct (decide (i = j)) as [<-|Hne].
    + rewrite list_lookup_insert_eq in Hj by (by eapply lookup_lt_Some). injection Hj as <-. by apply refollow_self.
    + rewrite list_lookup_insert_ne in Hj by done. destruct (ts !! j) as [y|] eqn:Ey; [|done]. injection Hj as <-.
      pose proof (Forall_lookup_1 _ _ _ _ Hts Ey) as Hy. destruct (persisting y) eqn:Epy; [|by apply refollow_idle].
      destruct (Hother j y Ey) as [P1 P2]; [congruence|done|]. by apply refollow_keeps; [|apply Hidle|..].
  - intros j1 j2 x1 x2 L1 L2 P1 P2. destruct (persisting_refollow _ _ _ _ _ _ L1 P1) as (y1 & M1 & Q1).
    destruct (persisting_refollow _ _ _ _ _ _ L2 P2) as (y2 & M2 & Q2).
    assert (Hself : forall j y, j <> i -> ts !! j = Some y -> persisting y = true -> persisting (settle r) = true -> False).
    { intros j y Hne Hj Hy Hpr. destruct (Hother j y Hj Hne Hy) as [O1 O2]. destruct (Hp Hpr) as [[? _]|?]; congruence. }
    rewrite list_lookup_insert_Some in M1. rewrite list_lookup_insert_Some in M2.
    destruct M1 as [(<- & <- & _)|[N1 M1]], M2 as [(<- & <- & _)|[N2 M2]]; [done| | |by eapply Hone].
    + exfalso. by eapply (Hself j2 y2).
    + exfalso. by eapply (Hself j1 y1).
Qed.
End concurrent.

(** ** Properties *)

(** C17: Once an upload has begun, requests may overlap: from a disk that lists
    some chunks, however the calls of any number of requests interleave
    (manifests and chunks of senders of this file, commits, junk, strangers),
    whatever calls fail but the reads of the state file, and as long as no two
    requests make a state file at once ([persist_state] of a manifest request
    is not under the transfer's mutex), the staging area still is one to resume
    from, with every chunk listed that was listed at the start, until the
    whole content has been put in place. Where two do, it need not be
    ([Example.state_file_torn]). *)
Theorem concurrent_resumable `{Aead} `{Blake3} `{Base58} `{!Serde Manifest} `{!Serde Commit} `{!Serde State}
    tar ask c m content n reqs w :
  kind m = KFile -> mf_total_size m = zlen content -> 0 < mf_chunk_size m < U64 -> zlen content < U64 ->
  Forall (fun rq => honest_route c m content (rt rq)) reqs ->
  let on_disk := listed (out_dir c) (safe_name (name m)) (mf_transfer_id m) (mf_chunk_size m) content in
  let can_resume := resumable (out_dir c) (safe_name (name m)) (mf_transfer_id m) (mf_chunk_size m) content in
  let begin := ((start c, n), map Arrived reqs) in
  can_resume n -> on_disk n <> ∅ -> rtc (xstep tar ask) begin w ->
  can_resume w.1.2 /\ on_disk n ⊆ on_disk w.1.2
  \/ exists w1, rtc (xstep tar ask) begin w1 /\ rtc (xstep tar ask) w1 w
     /\ file_at w1.1.2 (out_dir c ++ [safe_name (name m)]) = Some content.
Proof.
  intros Hk Hs Hcs Hl Hh on_disk can_resume begin Hr Hne Hrun.
  assert (H0' : conc_inv c m content (on_disk n) begin).
  { split; [|split].
    - split; [done|]. split; [done|]. destruct Hr as (Hr1 & Hr2 & Hr3). split; [by split_and!|done].
    - unfold begin. cbn [fst snd]. apply Forall_map. eapply Forall_impl; [exact Hh|]. done.
    - intros i j t u Hi _ Ht _. unfold begin in Hi. cbn [snd] in Hi. rewrite list_lookup_fmap in Hi.
      destruct (reqs !! i); [|done]. by injection Hi as <-. }
  assert (HI : conc_inv c m content (on_disk n) w
    \/ exists w1, rtc (xstep tar ask) begin w1 /\ rtc (xstep tar ask) w1 w /\ landed c m content w1.1.2).
  { revert w Hrun. refine (rtc_ind_r _ _ _ _); [by left|]. intros w0 w1 H1' H2' IH.
    destruct IH as [Hi|(w2 & ? & ? & ?)].
    - destruct (conc_step tar ask c m content Hk Hs Hcs Hl (on_disk n) Hne w0 w1 H2' Hi) as [?|?]; [by left|right].
      exists w1. split_and!; try done. by eapply rtc_r.
    - right. exists w2. split_and!; try done. by eapply rtc_r. }
  destruct HI as [((_ & _ & ((Hst & Hd) & Hdi & Hsub) & _) & _)|?]; [left|by right]. by split_and!.
Qed.

(** ** At concrete inputs *)

Module Example.
Import ServerSpec.Example.
#[local] Existing Instances Toy.aead Toy.blake3 Toy.base58 toy_manifest toy_commit toy_state.

(** A file of two chunks; two senders of it with the same code. *)
Definition content2 : bytes := [Byte.x41; Byte.x42].
Definition manifest2 : Manifest :=
  {| version := 1; mf_transfer_id := "t"; kind := KFile; name := "f"; entries := [];
     mf_total_size := 2; mf_chunk_size := 1; text := None |}.
Definition requests : list request :=
  [(manifest_request cfg0 manifest2).1; (manifest_request cfg0 manifest2).1;
   (chunk_request cfg0 manifest2 content2 ("0", 0)).1; (chunk_request cfg0 manifest2 content2 ("1", 1)).1;
   (commit_request cfg0 manifest2 content2).1].
Definition before : world := ((start cfg0, disk), map Arrived requests).
(** The first manifest to the end; the second until it has read the state
    file; chunk 0; the second manifest opens the store; chunk 1; commit. *)
Definition times (l : list (nat * nat)) : list nat := l ≫= fun x => replicate x.1 x.2.
Definition overlap : list nat := times [(10, 0); (4, 1); (4, 2); (5, 1); (4, 3); (1, 4)]%nat.
Definition after : world := run_schedule tar0 ask0 overlap before.

(** Before a chunk is listed, an overlap can corrupt an upload of honest
    requests without any fault: the second manifest reads that nothing is
    listed and, though a chunk has been put since, empties the data; the next
    chunk lists both. Both chunks were acknowledged, the commit is refused,
    and what is on disk makes every later attempt fail too. *)
Theorem overlapping_manifests_corrupt :
  rtc (xstep tar0 ask0) before after
  /\ drop 2 after.2 = [Answered (Ok (Status 200)); Answered (Ok (Status 200));
       Answered (Ok (JsonCommitAck {| ca_ok := false; ca_error := Some "integrity check failed: hash mismatch" |}))]
  /\ listed ["out"] "f" "t" 1 content2 after.1.2 = {[0; 1]}
  /\ file_at after.1.2 ["out"; "f.b2p-partial"; "data"] = Some [Byte.x00; Byte.x42]
  /\ map snd (attempts tar0 ["out"] "f" "t" 2 1 manifest2 {| blake3_hex := hex_encode (blake3_hash content2) |} 3 after.1.2).1
     = replicate 3 (Err (EMsg "integrity check failed: hash mismatch")).
Proof.
  split; [apply takes_turns_steps; vm_compute; reflexivity|]. split; [vm_compute; reflexivity|].
  split; [apply (bool_decide_unpack _); vm_compute; exact I|]. split; vm_compute; reflexivity.
Qed.

(** The first manifest and chunk 0 to the end; the second manifest until it is
    about to save the state file; chunk 1 until it is about to rename its
    temporary file; the second manifest makes that file anew, and empty; chunk
    1 renames it. *)
Definition begun2 : world := run_schedule tar0 ask0 (times [(10, 0); (4, 2)]%nat) before.
Definition torn : world := run_schedule tar0 ask0 (times [(6, 1); (3, 3); (1, 1); (1, 3)]%nat) begun2.
(** Without any fault, two requests making the state file at once can leave an
    empty one: chunk 0 was listed and chunk 1 has been acknowledged, but
    nothing is listed, and a server started now begins anew. *)
Theorem state_file_torn :
  rtc (cstep tar0 ask0) before begun2 /\ listed ["out"] "f" "t" 1 content2 begun2.1.2 = {[0]}
  /\ rtc (cstep tar0 ask0) begun2 torn /\ torn.2 !! 3%nat = Some (Answered (Ok (Status 200)))
  /\ file_at torn.1.2 ["out"; "f.b2p-partial"; "state.json"] = Some []
  /\ match open_or_create ["out"] "f" "t" 2 1 (Fs torn.1.2 []) with
     | (Ok st, s) => have st = [] /\ file_at (nodes s) ["out"; "f.b2p-partial"; "data"] = Some [Byte.x00; Byte.x00]
     | _ => False
     end.
Proof.
  split; [apply run_schedule_steps|]. split; [apply (bool_decide_unpack _); vm_compute; exact I|].
  split; [apply run_schedule_steps|]. split; [vm_compute; reflexivity|]. split; [vm_compute; reflexivity|].
  vm_compute. split; reflexivity.
Qed.

(** Another sender with the same code, of a file of the same name. *)
Definition manifest3 : Manifest :=
  {| version := 1; mf_transfer_id := "u"; kind := KFile; name := "f"; entries := [];
     mf_total_size := 2; mf_chunk_size := 1; text := None |}.
Definition requests3 : list request :=
  [(manifest_request cfg0 manifest2).1; (chunk_request cfg0 manifest2 content2 ("0", 0)).1;
   (chunk_request cfg0 manifest2 content2 ("1", 1)).1; (commit_request cfg0 manifest2 content2).1;
   (manifest_request cfg0 manifest3).1].
(** The first upload until its hash has been checked; the other manifest until
    it has opened the data; the rest of the commit. *)
Definition swapped : world :=
  run_schedule tar0 ask0 (times [(10, 0); (4, 1); (4, 2); (1, 3); (6, 4); (2, 3)]%nat) ((start cfg0, disk), map Arrived requests3).
(** The data can be emptied between the check of the hash and the move: the
    commit is acknowledged as ok, and the destination holds zeros. *)
Theorem verified_then_emptied :
  rtc (xstep tar0 ask0) ((start cfg0, disk), map Arrived requests3) swapped
  /\ swapped.2 !! 3%nat = Some (Answered (Ok (JsonCommitAck {| ca_ok := true; ca_error := None |})))
  /\ file_at swapped.1.2 ["out"; "f"] = Some [Byte.x00; Byte.x00] /\ content2 <> [Byte.x00; Byte.x00].
Proof.
  split; [apply takes_turns_steps; vm_compute; reflexivity|]. split; [vm_compute; reflexivity|]. split; [vm_compute; reflexivity|discriminate].
Qed.

(** Two senders of a file of which the disk lists a chunk already. *)
Definition senders : list request :=
  [(manifest_request cfg0 (manifest0 4)).1; (manifest_request cfg0 (manifest0 4)).1;
   (chunk_request cfg0 (manifest0 4) content0 ("0", 0)).1].
Lemma senders_honest : Forall (fun rq => honest_route cfg0 (manifest0 4) content0 (rt rq)) senders.
Proof.
  assert (Hm : honest_route cfg0 (manifest0 4) content0 (rt (manifest_request cfg0 (manifest0 4)).1)).
  { intros m Hm. by apply (honest_body _ manifest0_ok m Hm). }
  apply Forall_cons. split; [exact Hm|]. apply Forall_cons. split; [exact Hm|]. apply Forall_singleton.
  intros i p Hi _ Ho. assert (Ei : parse_uint (U64 - 1) "0" = Some 0) by reflexivity.
  change (parse_uint (U64 - 1) "0" = Some i) in Hi.
  assert (i = 0) as -> by congruence. cbn [fst snd] in Ho. rewrite open_seal in Ho. by injection Ho as <-.
Qed.
(** The second manifest opens the store while a chunk is put. *)
Definition overlap2 : list nat := times [(10, 0); (5, 1); (1, 2); (1, 1); (3, 2); (4, 1)]%nat.
Definition before2 : world := ((start cfg0, Stuck.Example.disk), map Arrived senders).
Definition overlapped : world := run_schedule tar0 ask0 overlap2 before2.
Lemma concurrent_resumable_witness :
  resumable ["out"] "f" "t" 4 content0 overlapped.1.2
  \/ exists w1, rtc (xstep tar0 ask0) w1 overlapped /\ file_at w1.1.2 ["out"; "f"] = Some content0.
Proof.
  destruct Stuck.Example.disk_whole as [Hr Hl].
  destruct (concurrent_resumable tar0 ask0 cfg0 (manifest0 4) content0 Stuck.Example.disk senders overlapped)
    as [[Hres _]|(w1 & _ & H2 & H3)].
  - reflexivity.
  - reflexivity.
  - exact chunk0_ok.
  - exact len0_ok.
  - exact senders_honest.
  - exact Hr.
  - intros E. assert (H0 : 0 ∈ listed ["out"] "f" "t" 4 content0 Stuck.Example.disk) by (apply Hl; split; [lia|reflexivity]).
    change (listed ["out"] "f" "t" 4 content0 Stuck.Example.disk = ∅) in E. rewrite E in H0. by apply elem_of_empty in H0.
  - apply takes_turns_steps. vm_compute. reflexivity.
  - left. exact Hres.
  - right. exists w1. split; [exact H2|exact H3].
Defined.
End Example.
